(** * masir-ai: plan extraction and the goal/step store

    A shallow embedding of the plan extractor found in the two
    [PlanActionButton] components and of the goal/step queries of
    [lib/db/queries.ts], followed by the properties established for them.

    Text.  A JavaScript string is a sequence of UTF-16 code units.  A
    character of a Rocq [string] stands here for one code unit below 256
    (the Latin-1 range), so that [String.prototype.trim], [toLowerCase]
    and the classes [\s], [\d] and [.] of the regular expressions have
    their exact meaning on every text of that range. *)

From Stdlib Require Import String Ascii Bool Arith ZArith Lia List.
From Stdlib Require Import Sorting.Sorted Sorting.Permutation.
From Stdlib Require Import Floats.SpecFloat.
Import ListNotations.

Set Implicit Arguments.

(* ================================================================== *)
(** * Part I.  Strings as the extractor uses them                      *)
(* ================================================================== *)

Module JsString.

Definition code (c : ascii) : nat := nat_of_ascii c.

(** WhiteSpace and LineTerminator code units below 256: TAB, LF, VT, FF,
    CR, SP and NBSP.  This is the set [\s] matches and [trim] strips. *)
Definition isWhiteSpace (c : ascii) : bool :=
  let n := code c in
  (n =? 9) || (n =? 10) || (n =? 11) || (n =? 12) || (n =? 13)
  || (n =? 32) || (n =? 160).

(** LineTerminator code units below 256: the characters [.] refuses when
    the [s] flag is absent. *)
Definition isLineTerminator (c : ascii) : bool :=
  let n := code c in (n =? 10) || (n =? 13).

Definition isDigit (c : ascii) : bool :=
  let n := code c in (48 <=? n) && (n <=? 57).

Definition newline : ascii := ascii_of_nat 10.

Fixpoint trimStart (s : list ascii) : list ascii :=
  match s with
  | c :: r => if isWhiteSpace c then trimStart r else s
  | [] => []
  end.

Definition trimEnd (s : list ascii) : list ascii :=
  rev (trimStart (rev s)).

(** [String.prototype.trim]. *)
Definition trim (s : list ascii) : list ascii := trimEnd (trimStart s).

(** [s.split(/\n/)]: the separator never matches the empty string, so the
    empty text yields one empty line. *)
Fixpoint split (s : list ascii) : list (list ascii) :=
  match s with
  | [] => [[]]
  | c :: r =>
      if Ascii.eqb c newline then [] :: split r
      else match split r with
           | l :: ls => (c :: l) :: ls
           | [] => [[c]]
           end
  end.

(** [toLowerCase] on code units below 256: A-Z, and the Latin-1 capitals
    U+00C0-U+00DE except the multiplication sign U+00D7, move up by 32. *)
Definition lowerChar (c : ascii) : ascii :=
  let n := code c in
  if ((65 <=? n) && (n <=? 90))
     || ((192 <=? n) && (n <=? 222) && negb (n =? 215))
  then ascii_of_nat (n + 32) else c.

Definition toLowerCase (s : list ascii) : list ascii := map lowerChar s.

(** [toUpperCase] restricted to a-z: the canonicalisation the [i] flag
    applies to the ASCII letters of a pattern (a code unit of 128 or more
    is never canonicalised to one below 128). *)
Definition upperAscii (c : ascii) : ascii :=
  let n := code c in
  if (97 <=? n) && (n <=? 122) then ascii_of_nat (n - 32) else c.

Fixpoint eqb (a b : list ascii) : bool :=
  match a, b with
  | [], [] => true
  | x :: a', y :: b' => Ascii.eqb x y && eqb a' b'
  | _, _ => false
  end.

Fixpoint startsWith (p s : list ascii) : bool :=
  match p, s with
  | [], _ => true
  | x :: p', y :: s' => Ascii.eqb x y && startsWith p' s'
  | _ :: _, [] => false
  end.

(** [s.includes(p)]. *)
Fixpoint includes (s p : list ascii) : bool :=
  startsWith p s ||
  match s with
  | [] => false
  | _ :: s' => includes s' p
  end.

Definition chars (s : string) : list ascii := list_ascii_of_string s.
Definition str (s : list ascii) : string := string_of_list_ascii s.

End JsString.

(* ================================================================== *)
(** * Part II.  The regular-expression matcher                         *)
(* ================================================================== *)

(** The backtracking matcher of ECMAScript, for the constructs the
    extractor's patterns use.  A matcher maps a state to the list of all
    states it can end in, in the priority order in which backtracking
    tries them; the head of that list is the match JavaScript reports.
    Every pattern of the extractor has exactly one capture group. *)
Module JsRegExp.
Import JsString.

Inductive Node : Type :=
| Empty : Node
| Char : ascii -> Node                 (* a literal pattern character *)
| Class : (ascii -> bool) -> Node      (* a character class *)
| Dot : Node                           (* . *)
| Seq : Node -> Node -> Node
| Alt : Node -> Node -> Node           (* a|b *)
| Opt : Node -> Node                   (* a?   (greedy) *)
| Star : bool -> Node -> Node          (* a* when true, a*? when false *)
| Plus : bool -> Node -> Node          (* a+ when true, a+? when false *)
| Group : Node -> Node                 (* ( a ), capture 1 *)
| Bol : Node                           (* ^ without the m flag *)
| Eol : Node.                          (* $ without the m flag *)

Record Flags : Type := mkFlags { ignoreCase : bool; dotAll : bool }.

Record State : Type := mkState {
  endIndex : nat;                 (* code units consumed so far *)
  rest : list ascii;              (* the input from endIndex on *)
  cap : option (list ascii)       (* capture 1, None while undefined *)
}.

Fixpoint hasGroup (r : Node) : bool :=
  match r with
  | Group _ => true
  | Seq a b | Alt a b => hasGroup a || hasGroup b
  | Opt a | Star _ a | Plus _ a => hasGroup a
  | _ => false
  end.

(** Entering an iteration of a quantified atom clears the captures that
    lie inside the atom. *)
Definition clearCaps (r : Node) (x : State) : State :=
  if hasGroup r then mkState (endIndex x) (rest x) None else x.

Definition canonicalize (f : Flags) (c : ascii) : ascii :=
  if ignoreCase f then upperAscii c else c.

Definition step1 (ok : ascii -> bool) (x : State) : list State :=
  match rest x with
  | c :: r => if ok c then [mkState (S (endIndex x)) r (cap x)] else []
  | [] => []
  end.

(** An iteration that consumed nothing is rejected; the end index never
    moves backwards, so "moved" means strictly fewer code units remain. *)
Definition advanced (x y : State) : bool :=
  length (rest y) <? length (rest x).

(** [a*] and [a*?] from state [x], [n] bounding the code units that
    remain: each further iteration must advance, hence at most [n] fit. *)
Fixpoint repeat (m : State -> list State) (clear : State -> State)
  (greedy : bool) (n : nat) (x : State) : list State :=
  match n with
  | 0 => [x]
  | S n' =>
      let more :=
        flat_map (fun y => if advanced x y then repeat m clear greedy n' y
                           else [])
                 (m (clear x)) in
      if greedy then more ++ [x] else x :: more
  end.

Fixpoint run (f : Flags) (r : Node) (x : State) : list State :=
  match r with
  | Empty => [x]
  | Char c =>
      step1 (fun ch => Ascii.eqb (canonicalize f ch) (canonicalize f c)) x
  | Class p => step1 p x
  | Dot => step1 (fun ch => dotAll f || negb (isLineTerminator ch)) x
  | Seq a b => flat_map (run f b) (run f a x)
  | Alt a b => run f a x ++ run f b x
  | Opt a => filter (advanced x) (run f a (clearCaps a x)) ++ [x]
  | Star g a => repeat (run f a) (clearCaps a) g (length (rest x)) x
  | Plus g a =>
      flat_map (fun y => repeat (run f a) (clearCaps a) g (length (rest y)) y)
               (run f a (clearCaps a x))
  | Group a =>
      map (fun y =>
             mkState (endIndex y) (rest y)
               (Some (firstn (endIndex y - endIndex x) (rest x))))
          (run f a x)
  | Bol => if endIndex x =? 0 then [x] else []
  | Eol => match rest x with [] => [x] | _ :: _ => [] end
  end.

(** [RegExp.prototype.exec] from index [i]: the first start index, from
    left to right, at which the pattern matches, with its best match. *)
Fixpoint execFrom (f : Flags) (r : Node) (i : nat) (s : list ascii)
  : option State :=
  match run f r (mkState i s None) with
  | y :: _ => Some y
  | [] =>
      match s with
      | [] => None
      | _ :: s' => execFrom f r (S i) s'
      end
  end.

(** [text.match(re)] and [re.exec(text)] for a pattern without the [g]
    flag: [None] is JavaScript's [null]; a match object is reduced to its
    element 1, which is [None] when the group is undefined. *)
Definition exec (f : Flags) (r : Node) (s : list ascii)
  : option (option (list ascii)) :=
  match execFrom f r 0 s with
  | Some y => Some (cap y)
  | None => None
  end.

Definition test (f : Flags) (r : Node) (s : list ascii) : bool :=
  match execFrom f r 0 s with Some _ => true | None => false end.

(** Pattern-building shorthands. *)
Definition seqs (rs : list Node) : Node := fold_right Seq Empty rs.
Definition lit (s : string) : Node := seqs (map Char (chars s)).
(** The pieces "\s", "\d", "[-*]" and "\n", and [stars] for the optional
    emphasis marker: two escaped asterisks in a non-capturing group,
    followed by a question mark.  The patterns quoted below write {E} for
    it. *)
Definition ws : Node := Class isWhiteSpace.
Definition digit : Node := Class isDigit.
Definition bullet : Node :=
  Class (fun c => Ascii.eqb c "-" || Ascii.eqb c "*").
Definition nl : Node := Char newline.
Definition stars : Node := Opt (lit "**").

End JsRegExp.

(* ================================================================== *)
(** * Part III.  The plan extractor                                    *)
(* ================================================================== *)

Record PlanStep : Type := mkPlanStep { title : string }.

Record Plan : Type := mkPlan {
  goalTitle : string;
  description : option string;
  steps : list PlanStep
}.

(** What both components share: the patterns for the goal title, for the
    description and for a list line, and the default step. *)
Module PlanText.
Import JsString JsRegExp.

Definition flags_i : Flags := mkFlags true false.
Definition flags_is : Flags := mkFlags true true.
Definition flags_none : Flags := mkFlags false false.

(** The pattern piece "(?:Daily\s+)?". *)
Definition daily : Node := Opt (Seq (lit "Daily") (Plus true ws)).

(** The pattern "/{E}Goal{E}:\s*(.+?)(?:\n|$)/i". *)
Definition goalRe : Node :=
  seqs [stars; lit "Goal"; stars; Char ":"; Star true ws;
        Group (Plus false Dot); Alt nl Eol].

(** The pattern "/{E}Description{E}:\s*(.+?)(?:\n{E}(?:Daily\s+)?Steps|$)/is". *)
Definition descriptionRe : Node :=
  seqs [stars; lit "Description"; stars; Char ":"; Star true ws;
        Group (Plus false Dot);
        Alt (seqs [nl; stars; daily; lit "Steps"]) Eol].

(** What the two steps patterns begin with, the label and the line break
    after it: "{E}(?:Daily\s+)?Steps{E}:?\s*\n". *)
Definition stepsLabel : list Node :=
  [stars; daily; lit "Steps"; stars; Opt (Char ":"); Star true ws; nl].

(** Whether the text holds a steps label followed by a line break. *)
Definition hasStepsLabel (text : string) : bool :=
  test flags_is (seqs stepsLabel) (chars text).

(** What the two list-line patterns begin with. *)
Definition numberedMark : list Node := [Bol; Plus true digit; Char "."].
Definition bulletedMark : list Node := [Bol; bullet].

(** The pattern "/^\d+\.\s*(.+)/". *)
Definition numberedRe : Node :=
  seqs (numberedMark ++ [Star true ws; Group (Plus true Dot)]).

(** The pattern "/^[-*]\s*(.+)/". *)
Definition bulletedRe : Node :=
  seqs (bulletedMark ++ [Star true ws; Group (Plus true Dot)]).

(** [m?.[1]?.trim()], [None] standing for [undefined]. *)
Definition group1Trim (m : option (option (list ascii)))
  : option (list ascii) :=
  match m with
  | Some (Some c) => Some (trim c)
  | _ => None
  end.

(** [goalMatch?.[1]?.trim() ?? "New Goal"] *)
Definition goalTitleOf (text : list ascii) : list ascii :=
  match group1Trim (exec flags_i goalRe text) with
  | Some t => t
  | None => chars "New Goal"
  end.

(** [descriptionMatch?.[1]?.trim() ?? null] *)
Definition descriptionOf (text : list ascii) : option (list ascii) :=
  group1Trim (exec flags_is descriptionRe text).

(** The [filter] callback [numbered || bulleted] on a trimmed line. *)
Definition isListLine (line : list ascii) : bool :=
  test flags_none numberedRe line || test flags_none bulletedRe line.

(** [numbered?.[1]?.trim() ?? bulleted?.[1]?.trim() ?? ""] *)
Definition lineTitle (line : list ascii) : list ascii :=
  match group1Trim (exec flags_none numberedRe line) with
  | Some t => t
  | None =>
      match group1Trim (exec flags_none bulletedRe line) with
      | Some t => t
      | None => []
      end
  end.

Definition nonEmpty (t : list ascii) : bool := 0 <? length t.

Definition defaultSteps : list PlanStep :=
  [mkPlanStep "Start working on your goal"].

Definition toSteps (titles : list (list ascii)) : list PlanStep :=
  map (fun t => mkPlanStep (str t)) titles.

Definition mkResult (goal : list ascii) (desc : option (list ascii))
  (found : list PlanStep) : Plan :=
  mkPlan (str goal) (option_map str desc)
         (match found with [] => defaultSteps | _ :: _ => found end).

End PlanText.

(** The component that reads steps only after the steps marker and drops
    the steps that repeat the goal title or the description. *)
Module Filtered.
Import JsString JsRegExp PlanText.

(** The pattern "/{E}(?:Daily\s+)?Steps{E}:?\s*\n(.+)/is". *)
Definition stepsSectionRe : Node :=
  seqs (stepsLabel ++ [Group (Plus true Dot)]).

(** The last [filter] callback: [true] keeps the title. *)
Definition keepTitle (goal : list ascii) (desc : option (list ascii))
  (t : list ascii) : bool :=
  let titleLower := toLowerCase t in
  let goalTitleLower := toLowerCase goal in
  let descriptionLower :=
    match desc with Some d => toLowerCase d | None => [] end in
  if eqb titleLower goalTitleLower || eqb titleLower descriptionLower
  then false
  else if (5 <? length goalTitleLower) && includes titleLower goalTitleLower
  then false
  else if (5 <? length descriptionLower)
          && includes titleLower descriptionLower
  then false
  else true.

Definition stepLines (goal : list ascii) (desc : option (list ascii))
  (stepsText : list ascii) : list (list ascii) :=
  filter (keepTitle goal desc)
    (filter nonEmpty
       (map lineTitle (filter isListLine (map trim (split stepsText))))).

(** The step titles that survive extraction, none without a marker. *)
Definition surviving (t : list ascii) : list (list ascii) :=
  match exec flags_is stepsSectionRe t with
  | Some (Some stepsText) => stepLines (goalTitleOf t) (descriptionOf t) stepsText
  | _ => []
  end.

(** [extractPlanFromText]; [None] would be a [TypeError] from
    [stepsSectionMatch[1].split] on an undefined group. *)
Definition extractPlanFromText (text : string) : option Plan :=
  let t := chars text in
  let goal := goalTitleOf t in
  let desc := descriptionOf t in
  match exec flags_is stepsSectionRe t with
  | Some (Some stepsText) =>
      Some (mkResult goal desc (toSteps (stepLines goal desc stepsText)))
  | Some None => None
  | None => Some (mkResult goal desc [])
  end.

End Filtered.

(** The component that reads the list following the steps marker and
    otherwise falls back to every list line of the text. *)
Module Fallback.
Import JsString JsRegExp PlanText.

(** The pattern "/{E}(?:Daily\s+)?Steps{E}:?\s*\n((?:\d+\.|[-*])\s*.+?(?:\n|$))+/is". *)
Definition stepsRe : Node :=
  seqs (stepsLabel ++
        [Plus true
           (Group (seqs [Alt (Seq (Plus true digit) (Char ".")) bullet;
                         Star true ws; Plus false Dot; Alt nl Eol]))]).

(** The pattern "/^\d+\.|^[-*]/". *)
Definition listMarkRe : Node :=
  Alt (seqs numberedMark) (seqs bulletedMark).

Definition stepLines (stepsText : list ascii) : list (list ascii) :=
  filter nonEmpty
    (map lineTitle (filter isListLine (map trim (split stepsText)))).

(** The fallback scan of [allLines]. *)
Definition listItems (text : list ascii) : list (list ascii) :=
  filter nonEmpty
    (map lineTitle
       (filter (test flags_none listMarkRe) (map trim (split text)))).

(** The step titles that survive extraction: those after the marker,
    and without any the list items of the whole text. *)
Definition surviving (t : list ascii) : list (list ascii) :=
  match
    match exec flags_is stepsRe t with
    | Some (Some stepsText) => stepLines stepsText
    | _ => []
    end
  with
  | [] => listItems t
  | found => found
  end.

(** [extractPlanFromText]; [None] would be a [TypeError] from
    [stepsMatch[1].split] on an undefined group. *)
Definition extractPlanFromText (text : string) : option Plan :=
  let t := chars text in
  let goal := goalTitleOf t in
  let desc := descriptionOf t in
  let fromMarker :=
    match exec flags_is stepsRe t with
    | Some (Some stepsText) => Some (toSteps (stepLines stepsText))
    | Some None => None
    | None => Some []
    end in
  match fromMarker with
  | None => None
  | Some found =>
      let found' :=
        match found with
        | [] => toSteps (listItems t)
        | _ :: _ => found
        end in
      Some (mkResult goal desc found')
  end.

End Fallback.


(* ================================================================== *)
(** * Part IV.  JavaScript numbers for the progress percentage         *)
(* ================================================================== *)

(** IEEE-754 binary64 through the Standard Library's executable
    specification of floating-point arithmetic. *)
Module JsNumber.

Definition prec : Z := 53.
Definition emax : Z := 1024.

Definition number : Type := spec_float.

(** The number an integer converts to (exact below 2^53). *)
Definition ofZ (n : Z) : number := binary_normalize prec emax n 0 false.

Definition div (x y : number) : number := SFdiv prec emax x y.
Definition mul (x y : number) : number := SFmul prec emax x y.

(** [Math.round]: the nearest integer, a tie going towards +infinity;
    zeros, infinities and NaN are returned as they are. *)
Definition round (x : number) : number :=
  match x with
  | S754_finite s m e =>
      let sm := if s then Z.neg m else Z.pos m in
      if (0 <=? e)%Z then x
      else
        let r := ((2 * sm + 2 ^ (- e)) / 2 ^ (- e + 1))%Z in
        if (r =? 0)%Z then S754_zero s else ofZ r
  | _ => x
  end.

End JsNumber.

(* ================================================================== *)
(** * Part V.  The store: tables, statements and transactions          *)
(* ================================================================== *)

Module Store.

(** A uuid, which is what the key columns hold, is an opaque 128-bit
    value; a timestamp counts milliseconds. *)
Definition Id : Type := N.
Definition Time : Type := Z.

(** An id as a caller passes it is a string: the text of a uuid, or a
    string the store does not read as a uuid. *)
Inductive Key : Type :=
| Uuid : N -> Key          (* the text of the uuid of this value *)
| Other : string -> Key.   (* any other string *)

Coercion Uuid : N >-> Key.

(** What the store answers to a statement that has a parameter of a uuid
    column which is no uuid. *)
Definition invalidUuid : string := "invalid input syntax for type uuid".

(** A text that holds the code unit 0, which no text column stores, and
    what the store answers to a statement that writes one. *)
Definition hasNul (s : string) : bool :=
  existsb (fun c => JsString.code c =? 0) (JsString.chars s).

Definition someHasNul (o : option string) : bool :=
  match o with
  | Some s => hasNul s
  | None => false
  end.

Definition invalidText : string :=
  "invalid byte sequence for encoding UTF8: 0x00".

(** The rows of [Chat], [Goal] and [Step] (migration 0008); of [User] and
    [Message_v2] only the keys matter, as targets of foreign keys. *)
Record Chat : Type := mkChat { c_id : Id; c_userId : Id }.

Record Goal : Type := mkGoal {
  g_id : Id;
  g_chatId : Id;
  g_userId : Id;
  g_createdFromMessageId : option Id;
  g_title : string;
  g_description : option string;
  g_status : string;
  g_priority : string;
  g_deadline : option Time;
  g_createdAt : Time
}.

Record Step : Type := mkStep {
  s_id : Id;
  s_goalId : Id;
  s_title : string;
  s_isCompleted : bool;
  s_order : Z;
  s_completedAt : option Time;
  s_createdAt : Time
}.

Record DB : Type := mkDB {
  chatTable : list Chat;
  userTable : list Id;
  messageTable : list Id;
  goalTable : list Goal;
  stepTable : list Step
}.

Definition withGoals (d : DB) (gs : list Goal) : DB :=
  mkDB (chatTable d) (userTable d) (messageTable d) gs (stepTable d).

Definition withSteps (d : DB) (ss : list Step) : DB :=
  mkDB (chatTable d) (userTable d) (messageTable d) (goalTable d) ss.

(** ** Errors *)

Inductive ErrorCode : Type :=
| bad_request_goal        (* "bad_request:goal" *)
| not_found_goal          (* "not_found:goal" *)
| bad_request_database    (* "bad_request:database" *)
| unauthorized_chat.      (* "unauthorized:chat" *)

(** What a [try] block can catch: a [ChatSDKError] with its code and
    cause, or an error raised by the database client. *)
Inductive Exn : Type :=
| ChatSDKError : ErrorCode -> string -> Exn
| DriverError : string -> Exn.

(** ** The environment of one call *)

Record Env : Type := mkEnv {
  now : Time;                       (* what [new Date()] returns *)
  uuid : nat -> Id;                 (* the n-th [gen_random_uuid()] *)
  fault : option nat;               (* the statement the store fails at *)
  orderBy : list Step -> list Step; (* how ORDER BY "order" ASC arranges rows *)
  messageOf : ErrorCode -> string;  (* [message] of a [ChatSDKError] *)
  idText : Id -> string             (* a uuid as the caller writes it *)
}.

(** ** Computations over the store *)

Record World : Type := mkWorld {
  db : DB;
  issued : nat;       (* statements sent so far during this call *)
  drawn : nat         (* uuids generated so far during this call *)
}.

Definition M (A : Type) : Type := World -> (Exn + A) * World.

Definition ret {A : Type} (a : A) : M A := fun w => (inr a, w).

Definition throw {A : Type} (e : Exn) : M A := fun w => (inl e, w).

Definition bind {A B : Type} (m : M A) (k : A -> M B) : M B :=
  fun w =>
    match m w with
    | (inr a, w') => k a w'
    | (inl e, w') => (inl e, w')
    end.

(** [try { m } catch (error) { h error }] *)
Definition catch {A : Type} (m : M A) (h : Exn -> M A) : M A :=
  fun w =>
    match m w with
    | (inl e, w') => h e w'
    | r => r
    end.

Declare Scope store_scope.
Delimit Scope store_scope with store.
Notation "x <- m ;; k" := (bind m (fun x => k))
  (at level 61, m at next level, right associativity) : store_scope.
Notation "m ;; k" := (bind m (fun _ => k))
  (at level 61, right associativity) : store_scope.
Open Scope store_scope.

(** [if (error instanceof ChatSDKError) throw error;
     throw new ChatSDKError("bad_request:database", msg)] *)
Definition rethrowOrWrap {A : Type} (msg : string) (e : Exn) : M A :=
  match e with
  | ChatSDKError _ _ => throw e
  | DriverError _ => throw (ChatSDKError bad_request_database msg)
  end.

(** [catch (_error) { throw new ChatSDKError("bad_request:database", msg) }] *)
Definition wrapAll {A : Type} (msg : string) (e : Exn) : M A :=
  throw (ChatSDKError bad_request_database msg).

Section Statements.
Variable E : Env.

(** One statement sent to the store: it fails when the environment says
    the store fails at this statement, and runs the query otherwise.  A
    single statement is atomic: a query that fails changes nothing. *)
Definition statement {A : Type} (q : DB -> (string + A) * DB) : M A :=
  fun w =>
    let k := issued w in
    if match fault E with Some f => f =? k | None => false end
    then (inl (DriverError "the store is unavailable"),
          mkWorld (db w) (S k) (drawn w))
    else
      match q (db w) with
      | (inr a, d) => (inr a, mkWorld d (S k) (drawn w))
      | (inl msg, _) => (inl (DriverError msg), mkWorld (db w) (S k) (drawn w))
      end.

(** The default [gen_random_uuid()] of a primary key column. *)
Definition freshId : M Id :=
  fun w => (inr (uuid E (drawn w)), mkWorld (db w) (issued w) (S (drawn w))).

Fixpoint freshIds (n : nat) : M (list Id) :=
  match n with
  | 0 => ret []
  | S n' => i <- freshId ;; r <- freshIds n' ;; ret (i :: r)
  end.

(** [db.transaction(async (tx) => body)]: the writes of [body] are kept
    when it returns and the commit goes through, and undone when [body]
    throws or the commit fails. *)
Definition transaction {A : Type} (body : M A) : M A :=
  fun w =>
    match body w with
    | (inr a, w') =>
        match statement (fun d => (inr tt, d)) w' with
        | (inr _, w'') => (inr a, w'')
        | (inl e, w'') => (inl e, mkWorld (db w) (issued w'') (drawn w''))
        end
    | (inl e, w') => (inl e, mkWorld (db w) (issued w') (drawn w'))
    end.

End Statements.

(** ** Queries on the tables *)

Definition int4 (z : Z) : bool := ((- 2147483648 <=? z) && (z <=? 2147483647))%Z.

Definition goalHasId (i : Id) (g : Goal) : bool := N.eqb (g_id g) i.
Definition stepHasId (i : Id) (s : Step) : bool := N.eqb (s_id s) i.
Definition stepOfGoal (g : Id) (s : Step) : bool := N.eqb (s_goalId s) g.

Definition hasKey (k : Id) (keys : list Id) : bool :=
  existsb (N.eqb k) keys.

Fixpoint distinct (keys : list Id) : bool :=
  match keys with
  | [] => true
  | k :: r => negb (hasKey k r) && distinct r
  end.

(** One way to [ORDER BY "order" ASC]: insertion sort, rows of equal
    order staying in table order.  The store leaves the order of such
    rows open, so each call takes its way of sorting from the
    environment. *)
Fixpoint insertByOrder (s : Step) (l : list Step) : list Step :=
  match l with
  | [] => [s]
  | t :: r =>
      if (s_order s <=? s_order t)%Z then s :: l
      else t :: insertByOrder s r
  end.

Definition sortByOrder (l : list Step) : list Step :=
  fold_right insertByOrder [] l.

(** A statement with a caller's id as the parameter of a uuid column:
    the statement for a uuid, and a refusal that changes nothing for a
    string that is none. *)
Definition byKey {A : Type} (k : Key) (q : Id -> DB -> (string + A) * DB)
  : DB -> (string + A) * DB :=
  match k with
  | Uuid i => q i
  | Other _ => fun d => (inl invalidUuid, d)
  end.

(** [select().from(goal).where(eq(goal.id, id)).limit(1)] *)
Definition q_goalById (i : Id) (d : DB) : (string + option Goal) * DB :=
  (inr (find (goalHasId i) (goalTable d)), d).

(** The texts of a goal row hold no code unit 0. *)
Definition goalTextOk (row : Goal) : bool :=
  negb (hasNul (g_title row) || someHasNul (g_description row)
        || hasNul (g_status row) || hasNul (g_priority row)).

(** [insert(goal).values(row).returning()] *)
Definition q_insertGoal (row : Goal) (d : DB) : (string + Goal) * DB :=
  if negb (goalTextOk row) then (inl invalidText, d)
  else if hasKey (g_id row) (map g_id (goalTable d))
  then (inl "duplicate key value violates Goal_pkey"%string, d)
  else if negb (hasKey (g_chatId row) (map c_id (chatTable d)))
  then (inl "violates foreign key constraint Goal_chatId_Chat_id_fk"%string, d)
  else if negb (hasKey (g_userId row) (userTable d))
  then (inl "violates foreign key constraint Goal_userId_User_id_fk"%string, d)
  else if match g_createdFromMessageId row with
          | Some m => negb (hasKey m (messageTable d))
          | None => false
          end
  then (inl "violates foreign key constraint Goal_createdFromMessageId_Message_v2_id_fk"%string, d)
  else (inr row, withGoals d (goalTable d ++ [row])).

(** The fields an [update(goal).set(updateData)] assigns. *)
Record GoalPatch : Type := mkGoalPatch {
  gp_title : option string;
  gp_description : option (option string);
  gp_status : option string;
  gp_priority : option string;
  gp_deadline : option (option Time)
}.

Definition orElse {A : Type} (o : option A) (a : A) : A :=
  match o with Some x => x | None => a end.

Definition patchGoal (p : GoalPatch) (g : Goal) : Goal :=
  mkGoal (g_id g) (g_chatId g) (g_userId g) (g_createdFromMessageId g)
    (orElse (gp_title p) (g_title g))
    (orElse (gp_description p) (g_description g))
    (orElse (gp_status p) (g_status g))
    (orElse (gp_priority p) (g_priority g))
    (orElse (gp_deadline p) (g_deadline g))
    (g_createdAt g).

Definition goalPatchEmpty (p : GoalPatch) : bool :=
  match gp_title p, gp_description p, gp_status p, gp_priority p,
        gp_deadline p with
  | None, None, None, None, None => true
  | _, _, _, _, _ => false
  end.

(** The texts an update of a goal assigns hold no code unit 0. *)
Definition goalPatchTextOk (p : GoalPatch) : bool :=
  negb (someHasNul (gp_title p)
        || match gp_description p with
           | Some o => someHasNul o
           | None => false
           end
        || someHasNul (gp_status p) || someHasNul (gp_priority p)).

(** [update(goal).set(updateData).where(eq(goal.id, id))]; an update
    that assigns nothing is refused, and so is a text that holds the code
    unit 0. *)
Definition q_updateGoal (i : Id) (p : GoalPatch) (d : DB)
  : (string + unit) * DB :=
  if goalPatchEmpty p then (inl "No values to set"%string, d)
  else if negb (goalPatchTextOk p) then (inl invalidText, d)
  else (inr tt,
        withGoals d
          (map (fun g => if goalHasId i g then patchGoal p g else g)
               (goalTable d))).

(** [delete(goal).where(eq(goal.id, id)).returning()]; the foreign key of
    [Step] deletes the goal's steps with it. *)
Definition q_deleteGoal (i : Id) (d : DB) : (string + option Goal) * DB :=
  (inr (find (goalHasId i) (goalTable d)),
   mkDB (chatTable d) (userTable d) (messageTable d)
        (filter (fun g => negb (goalHasId i g)) (goalTable d))
        (filter (fun s => negb (stepOfGoal i s)) (stepTable d))).

(** [select({ order: step.order }).from(step).where(eq(step.goalId, g))] *)
Definition q_stepOrders (g : Id) (d : DB) : (string + list Z) * DB :=
  (inr (map s_order (filter (stepOfGoal g) (stepTable d))), d).

(** [insert(step).values(rows).returning()]; an empty [rows] is refused,
    and so is a title that holds the code unit 0. *)
Definition q_insertSteps (rows : list Step) (d : DB)
  : (string + list Step) * DB :=
  match rows with
  | [] => (inl "values() must be called with at least one value"%string, d)
  | _ :: _ =>
      if negb (distinct (map s_id rows))
         || existsb (fun s => hasKey (s_id s) (map s_id (stepTable d))) rows
      then (inl "duplicate key value violates Step_pkey"%string, d)
      else if negb (forallb (fun s => hasKey (s_goalId s)
                                        (map g_id (goalTable d))) rows)
      then (inl "violates foreign key constraint Step_goalId_Goal_id_fk"%string, d)
      else if negb (forallb (fun s => int4 (s_order s)) rows)
      then (inl "value out of range for type integer"%string, d)
      else if existsb (fun s => hasNul (s_title s)) rows
      then (inl invalidText, d)
      else (inr rows, withSteps d (stepTable d ++ rows))
  end.

(** [select().from(step).where(eq(step.id, id)).limit(1)] *)
Definition q_stepById (i : Id) (d : DB) : (string + option Step) * DB :=
  (inr (find (stepHasId i) (stepTable d)), d).

(** [select().from(step)
       .where(and(eq(step.id, id), eq(step.goalId, g))).limit(1)] *)
Definition q_stepByIdOfGoal (i g : Id) (d : DB)
  : (string + option Step) * DB :=
  (inr (find (fun s => stepHasId i s && stepOfGoal g s) (stepTable d)), d).

(** [select().from(step).where(eq(step.goalId, g)).orderBy(asc(step.order))] *)
Definition q_stepsOfGoal (sort : list Step -> list Step) (g : Id) (d : DB)
  : (string + list Step) * DB :=
  (inr (sort (filter (stepOfGoal g) (stepTable d))), d).

(** The fields an [update(step).set(updateData)] assigns. *)
Record StepPatch : Type := mkStepPatch {
  sp_title : option string;
  sp_isCompleted : option bool;
  sp_completedAt : option (option Time);
  sp_order : option Z
}.

Definition patchStep (p : StepPatch) (s : Step) : Step :=
  mkStep (s_id s) (s_goalId s)
    (orElse (sp_title p) (s_title s))
    (orElse (sp_isCompleted p) (s_isCompleted s))
    (orElse (sp_order p) (s_order s))
    (orElse (sp_completedAt p) (s_completedAt s))
    (s_createdAt s).

Definition stepPatchEmpty (p : StepPatch) : bool :=
  match sp_title p, sp_isCompleted p, sp_completedAt p, sp_order p with
  | None, None, None, None => true
  | _, _, _, _ => false
  end.

(** [update(step).set(updateData).where(eq(step.id, id))]; an update
    that assigns nothing is refused, and so are an order outside the
    integer column and a title that holds the code unit 0. *)
Definition q_updateStep (i : Id) (p : StepPatch) (d : DB)
  : (string + unit) * DB :=
  if stepPatchEmpty p then (inl "No values to set"%string, d)
  else if match sp_order p with Some o => negb (int4 o) | None => false end
  then (inl "value out of range for type integer"%string, d)
  else if someHasNul (sp_title p) then (inl invalidText, d)
  else (inr tt,
        withSteps d
          (map (fun s => if stepHasId i s then patchStep p s else s)
               (stepTable d))).

(** [delete(step).where(eq(step.id, id))] *)
Definition q_deleteStep (i : Id) (d : DB) : (string + unit) * DB :=
  (inr tt, withSteps d (filter (fun s => negb (stepHasId i s)) (stepTable d))).

(** The step a caller's id matches in a store: a string that is no uuid
    matches no row. *)
Definition stepOfKey (k : Key) (d : DB) : option Step :=
  match k with
  | Uuid i => find (stepHasId i) (stepTable d)
  | Other _ => None
  end.

End Store.

(* ================================================================== *)
(** * Part VI.  The queries of lib/db/queries.ts                       *)
(* ================================================================== *)

Module Queries.
Import Store JsNumber.

(** [!s.trim()] *)
Definition blank (s : string) : bool :=
  match JsString.trim (JsString.chars s) with
  | [] => true
  | _ :: _ => false
  end.

Definition statuses : list string := ["not_started"; "in_progress"; "completed"]%string.
Definition priorities : list string := ["low"; "medium"; "high"]%string.

(** [value !== undefined && !allowed.includes(value)] *)
Definition invalidChoice (allowed : list string) (value : option string)
  : bool :=
  match value with
  | Some v => negb (existsb (String.eqb v) allowed)
  | None => false
  end.

(** [title !== undefined && !title.trim()] *)
Definition blankIfSupplied (title : option string) : bool :=
  match title with
  | Some t => blank t
  | None => false
  end.

(** [orders.length > 0 ? Math.max(...orders) : -1] *)
Definition maxOrder (orders : list Z) : Z :=
  match orders with
  | [] => (-1)%Z
  | o :: r => fold_left Z.max r o
  end.

(** An element of the [steps] argument: [{ title, order? }]. *)
Record StepInput : Type := mkStepInput {
  si_title : string;
  si_order : option Z
}.

(** [stepData.order ?? currentOrder++], along the array. *)
Fixpoint assignOrders (currentOrder : Z) (stepsData : list StepInput)
  : list Z :=
  match stepsData with
  | [] => []
  | sd :: r =>
      match si_order sd with
      | Some o => o :: assignOrders currentOrder r
      | None => currentOrder :: assignOrders (currentOrder + 1)%Z r
      end
  end.

(** [stepData.order ?? index], along the array. *)
Fixpoint indexOrders (index : Z) (stepsData : list StepInput) : list Z :=
  match stepsData with
  | [] => []
  | sd :: r => orElse (si_order sd) index :: indexOrders (index + 1)%Z r
  end.

(** The rows [stepsToInsert] once the store has given them their ids:
    [{ goalId, title, order, isCompleted: false, createdAt: new Date() }],
    [completedAt] taking its default, null. *)
Fixpoint stepsToInsert (goalId : Id) (createdAt : Time) (ids : list Id)
  (stepsData : list StepInput) (orders : list Z) : list Step :=
  match ids, stepsData, orders with
  | i :: ids', sd :: r, o :: orders' =>
      mkStep i goalId (si_title sd) false o None createdAt
      :: stepsToInsert goalId createdAt ids' r orders'
  | _, _, _ => []
  end.

(** [isCompleted ? new Date() : null] *)
Definition completedAtFor (t : Time) (isCompleted : bool) : option Time :=
  if isCompleted then Some t else None.

(** An element of [updates] in [bulkUpdateSteps]; its id is taken to be
    a uuid. *)
Record StepUpdate : Type := mkStepUpdate {
  u_id : Id;
  u_title : option string;
  u_isCompleted : option bool;
  u_order : option Z
}.

Record Progress : Type := mkProgress {
  completed : nat;
  total : nat;
  percentage : number
}.

Section Operations.
Variable E : Env.

Definition getGoalById (id : Key) : M (option Goal) :=
  catch (statement E (byKey id q_goalById))
        (wrapAll "Failed to get goal by id").

(** [createdFromMessageId] is taken to be absent or the uuid of a
    message, here and in [createGoalWithSteps]. *)
Definition createGoal (chatId userId : Key) (title : string)
  (description : option string) (status priority : option string)
  (deadline : option Time) (createdFromMessageId : option Id) : M Goal :=
  catch
    (if blank title
     then throw (ChatSDKError bad_request_goal "Title cannot be empty")
     else if invalidChoice statuses status
     then throw (ChatSDKError bad_request_goal "Invalid status value")
     else if invalidChoice priorities priority
     then throw (ChatSDKError bad_request_goal "Invalid priority value")
     else
       i <- freshId E ;;
       statement E
         (byKey chatId (fun chat => byKey userId (fun user =>
            q_insertGoal
              (mkGoal i chat user createdFromMessageId title description
                 (orElse status "not_started"%string)
                 (orElse priority "medium"%string)
                 deadline (now E))))))
    (rethrowOrWrap "Failed to create goal").

Definition updateGoal (id : Key) (title : option string)
  (description : option (option string)) (status priority : option string)
  (deadline : option (option Time)) : M unit :=
  catch
    (existingGoal <- getGoalById id ;;
     match existingGoal with
     | None => throw (ChatSDKError not_found_goal "Goal not found")
     | Some _ =>
         if blankIfSupplied title
         then throw (ChatSDKError bad_request_goal "Title cannot be empty")
         else if invalidChoice statuses status
         then throw (ChatSDKError bad_request_goal "Invalid status value")
         else if invalidChoice priorities priority
         then throw (ChatSDKError bad_request_goal "Invalid priority value")
         else
           statement E
             (byKey id (fun i =>
                q_updateGoal i
                  (mkGoalPatch title description status priority deadline)))
     end)
    (rethrowOrWrap "Failed to update goal").

Definition deleteGoal (id : Key) : M (option Goal) :=
  catch (statement E (byKey id q_deleteGoal))
        (wrapAll "Failed to delete goal").

Definition createStep (goalId : Key) (title : string)
  (providedOrder : option Z) : M (option Step) :=
  catch
    (if blank title
     then throw (ChatSDKError bad_request_goal "Step title cannot be empty")
     else
       goalExists <- getGoalById goalId ;;
       match goalExists with
       | None => throw (ChatSDKError not_found_goal "Goal not found")
       | Some _ =>
           stepOrder <-
             match providedOrder with
             | Some o => ret o
             | None =>
                 existingSteps <- statement E (byKey goalId q_stepOrders) ;;
                 ret (maxOrder existingSteps + 1)%Z
             end ;;
           i <- freshId E ;;
           created <-
             statement E
               (byKey goalId (fun g =>
                  q_insertSteps
                    [mkStep i g title false stepOrder None (now E)])) ;;
           ret (hd_error created)
       end)
    (rethrowOrWrap "Failed to create step").

Definition createSteps (goalId : Key) (stepsData : list StepInput)
  : M (list Step) :=
  catch
    (existingSteps <- statement E (byKey goalId q_stepOrders) ;;
     let currentOrder := (maxOrder existingSteps + 1)%Z in
     ids <- freshIds E (length stepsData) ;;
     statement E
       (byKey goalId (fun g =>
          q_insertSteps
            (stepsToInsert g (now E) ids stepsData
               (assignOrders currentOrder stepsData)))))
    (wrapAll "Failed to create steps").

Definition getStepsByGoalId (goalId : Key) : M (list Step) :=
  catch (statement E (byKey goalId (q_stepsOfGoal (orderBy E))))
        (wrapAll "Failed to get steps by goal id").

Definition updateStep (id : Key) (title : option string)
  (isCompleted : option bool) : M unit :=
  catch
    (existingStep <- statement E (byKey id q_stepById) ;;
     match existingStep with
     | None => throw (ChatSDKError not_found_goal "Step not found")
     | Some _ =>
         if blankIfSupplied title
         then throw (ChatSDKError bad_request_goal
                       "Step title cannot be empty")
         else
           statement E
             (byKey id (fun i =>
                q_updateStep i
                  (mkStepPatch title isCompleted
                     (option_map (completedAtFor (now E)) isCompleted)
                     None)))
     end)
    (rethrowOrWrap "Failed to update step").

(** The loop [for (let i = 0; i < remainingSteps.length; i++)] of
    [deleteStep], from index [i] on. *)
Fixpoint renumber (i : Z) (remainingSteps : list Step) : M unit :=
  match remainingSteps with
  | [] => ret tt
  | r :: rest =>
      statement E (q_updateStep (s_id r) (mkStepPatch None None None (Some i))) ;;
      renumber (i + 1)%Z rest
  end.

Definition deleteStep (id : Key) : M (option Step) :=
  catch
    (transaction E
       (found <- statement E (byKey id q_stepById) ;;
        match found with
        | None => ret None
        | Some deletedStep =>
            statement E (byKey id q_deleteStep) ;;
            remainingSteps <-
              statement E
                (q_stepsOfGoal (orderBy E) (s_goalId deletedStep)) ;;
            renumber 0%Z remainingSteps ;;
            ret (Some deletedStep)
        end))
    (wrapAll "Failed to delete step").

Definition toggleStepCompletion (id : Key) : M unit :=
  catch
    (found <- statement E (byKey id q_stepById) ;;
     match found with
     | None => throw (ChatSDKError not_found_goal "Step not found")
     | Some currentStep =>
         let newCompletedState := negb (s_isCompleted currentStep) in
         statement E
           (byKey id (fun i =>
              q_updateStep i
                (mkStepPatch None (Some newCompletedState)
                   (Some (completedAtFor (now E) newCompletedState)) None)))
     end)
    (rethrowOrWrap "Failed to toggle step completion").

(** [error instanceof Error ? error.message : String(error)] *)
Definition errorMessage (e : Exn) : string :=
  match e with
  | DriverError m => m
  | ChatSDKError c _ => messageOf E c
  end.

Definition createGoalWithSteps (chatId userId : Key) (title : string)
  (description : option string) (status priority : option string)
  (deadline : option Time) (createdFromMessageId : option Id)
  (stepsData : list StepInput) : M (Goal * list Step) :=
  catch
    (transaction E
       (i <- freshId E ;;
        createdGoal <-
          statement E
            (byKey chatId (fun chat => byKey userId (fun user =>
               q_insertGoal
                 (mkGoal i chat user createdFromMessageId title description
                    (orElse status "not_started"%string)
                    (orElse priority "medium"%string)
                    deadline (now E))))) ;;
        ids <- freshIds E (length stepsData) ;;
        createdSteps <-
          statement E
            (q_insertSteps
               (stepsToInsert (g_id createdGoal) (now E) ids stepsData
                  (indexOrders 0%Z stepsData))) ;;
        ret (createdGoal, createdSteps)))
    (fun e =>
       throw (ChatSDKError bad_request_database
                ("Failed to create goal with steps: " ++ errorMessage e))).

Definition getGoalByIdWithSteps (id : Key) : M (option (Goal * list Step)) :=
  catch
    (selectedGoal <- getGoalById id ;;
     match selectedGoal with
     | None => ret None
     | Some g =>
         steps <- getStepsByGoalId (g_id g) ;;
         ret (Some (g, steps))
     end)
    (wrapAll "Failed to get goal with steps").

(** An id as a template string interpolates it. *)
Definition keyText (k : Key) : string :=
  match k with
  | Uuid i => idText E i
  | Other text => text
  end.

(** The cause [`Step ${stepId} not found or does not belong to goal
    ${goalId}`] of [reorderSteps] and [bulkUpdateSteps]. *)
Definition notOfGoal (stepId goalId : Key) : string :=
  "Step " ++ keyText stepId ++ " not found or does not belong to goal "
  ++ keyText goalId.

(** The loop of [reorderSteps]. *)
Fixpoint reorderLoop (goalId : Key) (stepOrders : list (Key * Z)) : M unit :=
  match stepOrders with
  | [] => ret tt
  | (stepId, newOrder) :: rest =>
      stepToUpdate <-
        statement E
          (byKey stepId (fun i => byKey goalId (q_stepByIdOfGoal i))) ;;
      match stepToUpdate with
      | None =>
          throw (ChatSDKError not_found_goal (notOfGoal stepId goalId))
      | Some _ =>
          statement E
            (byKey stepId (fun i =>
               q_updateStep i (mkStepPatch None None None (Some newOrder)))) ;;
          reorderLoop goalId rest
      end
  end.

Definition reorderSteps (goalId : Key) (stepOrders : list (Key * Z))
  : M unit :=
  catch (transaction E (reorderLoop goalId stepOrders))
        (rethrowOrWrap "Failed to reorder steps").

(** [updateData] of [bulkUpdateSteps]. *)
Definition bulkPatch (u : StepUpdate) : StepPatch :=
  mkStepPatch (u_title u) (u_isCompleted u)
    (option_map (completedAtFor (now E)) (u_isCompleted u)) (u_order u).

(** The loop of [bulkUpdateSteps]. *)
Fixpoint bulkLoop (goalId : Key) (updates : list StepUpdate) : M unit :=
  match updates with
  | [] => ret tt
  | u :: rest =>
      stepToUpdate <-
        statement E (byKey goalId (q_stepByIdOfGoal (u_id u))) ;;
      match stepToUpdate with
      | None =>
          throw (ChatSDKError not_found_goal (notOfGoal (u_id u) goalId))
      | Some _ =>
          statement E (q_updateStep (u_id u) (bulkPatch u)) ;;
          bulkLoop goalId rest
      end
  end.

Definition bulkUpdateSteps (goalId : Key) (updates : list StepUpdate)
  : M unit :=
  catch (transaction E (bulkLoop goalId updates))
        (rethrowOrWrap "Failed to bulk update steps").

(** [total > 0 ? Math.round((completed / total) * 100) : 0] *)
Definition percentageOf (completed total : nat) : number :=
  if 0 <? total
  then round (mul (div (ofZ (Z.of_nat completed)) (ofZ (Z.of_nat total)))
                  (ofZ 100))
  else ofZ 0.

Definition getGoalProgress (goalId : Key) : M Progress :=
  catch
    (steps <- getStepsByGoalId goalId ;;
     let total := length steps in
     let completed := length (filter s_isCompleted steps) in
     ret (mkProgress completed total (percentageOf completed total)))
    (wrapAll "Failed to get goal progress").

End Operations.

(** One call of an exported function on a store: its outcome and the
    store it leaves. *)
Definition call {A : Type} (m : M A) (d : DB) : (Exn + A) * DB :=
  match m (mkWorld d 0 0) with
  | (r, w) => (r, db w)
  end.

End Queries.

(* ================================================================== *)
(** * Part VII.  The server actions of app/(chat)/actions.ts           *)
(* ================================================================== *)

Module Actions.
Import Store Queries.

Record Ack : Type := mkAck { success : bool }.

Section Actions.
Variable E : Env.

(** [session?.user], reduced to the id of the signed-in user. *)
Variable session : option Id.

Definition updateStepStatus (stepId : Key) : M Ack :=
  match session with
  | None => throw (ChatSDKError unauthorized_chat "You must be signed in")
  | Some _ =>
      catch (toggleStepCompletion E stepId ;; ret (mkAck true))
            (rethrowOrWrap "Failed to update step status")
  end.

Definition editStep (stepId : Key) (title : string) : M Ack :=
  match session with
  | None => throw (ChatSDKError unauthorized_chat "You must be signed in")
  | Some _ =>
      if blank title
      then throw (ChatSDKError bad_request_goal "Step title cannot be empty")
      else
        catch
          (updateStep E stepId
             (Some (JsString.str (JsString.trim (JsString.chars title)))) None ;;
           ret (mkAck true))
          (rethrowOrWrap "Failed to update step")
  end.

Definition deleteStepAction (stepId : Key) : M Ack :=
  match session with
  | None => throw (ChatSDKError unauthorized_chat "You must be signed in")
  | Some _ =>
      catch (deleteStep E stepId ;; ret (mkAck true))
            (rethrowOrWrap "Failed to delete step")
  end.

End Actions.

End Actions.

(* ================================================================== *)
(** * Part VIII.  Texts, stores and statements the properties refer to *)
(* ================================================================== *)


(** The calls that write to the store, and the stores they lead to. *)
Module System.
Import Store Queries.

Inductive Call : Type :=
| CreateGoal (chatId userId : Key) (title : string)
    (description : option string) (status priority : option string)
    (deadline : option Time) (createdFromMessageId : option Id)
| UpdateGoal (id : Key) (title : option string)
    (description : option (option string)) (status priority : option string)
    (deadline : option (option Time))
| DeleteGoal (id : Key)
| CreateStep (goalId : Key) (title : string) (order : option Z)
| CreateSteps (goalId : Key) (stepsData : list StepInput)
| UpdateStep (id : Key) (title : option string) (isCompleted : option bool)
| DeleteStep (id : Key)
| ToggleStepCompletion (id : Key)
| CreateGoalWithSteps (chatId userId : Key) (title : string)
    (description : option string) (status priority : option string)
    (deadline : option Time) (createdFromMessageId : option Id)
    (stepsData : list StepInput)
| ReorderSteps (goalId : Key) (stepOrders : list (Key * Z))
| BulkUpdateSteps (goalId : Key) (updates : list StepUpdate).

(** The store a call leaves, whatever it returns or throws. *)
Definition after (E : Env) (c : Call) (d : DB) : DB :=
  match c with
  | CreateGoal chatId userId title description status priority deadline
      createdFromMessageId =>
      snd (call (createGoal E chatId userId title description status
                   priority deadline createdFromMessageId) d)
  | UpdateGoal id title description status priority deadline =>
      snd (call (updateGoal E id title description status priority deadline) d)
  | DeleteGoal id => snd (call (deleteGoal E id) d)
  | CreateStep goalId title order =>
      snd (call (createStep E goalId title order) d)
  | CreateSteps goalId stepsData =>
      snd (call (createSteps E goalId stepsData) d)
  | UpdateStep id title isCompleted =>
      snd (call (updateStep E id title isCompleted) d)
  | DeleteStep id => snd (call (deleteStep E id) d)
  | ToggleStepCompletion id => snd (call (toggleStepCompletion E id) d)
  | CreateGoalWithSteps chatId userId title description status priority
      deadline createdFromMessageId stepsData =>
      snd (call (createGoalWithSteps E chatId userId title description status
                   priority deadline createdFromMessageId stepsData) d)
  | ReorderSteps goalId stepOrders =>
      snd (call (reorderSteps E goalId stepOrders) d)
  | BulkUpdateSteps goalId updates =>
      snd (call (bulkUpdateSteps E goalId updates) d)
  end.

(** The stores that can arise: goals and steps exist only through the
    calls above; chats, users and messages are there from the start. *)
Inductive reachable : DB -> Prop :=
| reachable_start (chats : list Chat) (users messages : list Id) :
    reachable (mkDB chats users messages [] [])
| reachable_after (E : Env) (c : Call) (d : DB) :
    reachable d -> reachable (after E c d).

(** [completedAt] is set exactly on the completed steps. *)
Definition completionCoherent (s : Step) : Prop :=
  s_isCompleted s = true <-> s_completedAt s <> None.

(** An update assigns [isCompleted] and [completedAt] together or not at
    all, and consistently. *)
Definition patchCoherent (p : StepPatch) : Prop :=
  match sp_isCompleted p, sp_completedAt p with
  | None, None => True
  | Some b, Some c => b = true <-> c <> None
  | _, _ => False
  end.

Definition titled (g : Goal) : Prop := blank (g_title g) = false.

Definition orderLe (a b : Step) : Prop := (s_order a <= s_order b)%Z.
Definition orderLt (a b : Step) : Prop := (s_order a < s_order b)%Z.

(** What a store's ORDER BY "order" ASC may do: rearrange the rows into
    ascending order, rows of equal order in any order. *)
Definition SortsByOrder (sort : list Step -> list Step) : Prop :=
  forall l, Permutation (sort l) l /\ StronglySorted orderLe (sort l).

(** The rows a goal has in a store, in table order. *)
Definition rowsOfGoal (g : Id) (d : DB) : list Step :=
  filter (stepOfGoal g) (stepTable d).

Definition withOrder (o : Z) (s : Step) : Step :=
  patchStep (mkStepPatch None None None (Some o)) s.

(** The rows of a list numbered [i], [i+1], ... in list order. *)
Fixpoint reindex (i : Z) (l : list Step) : list Step :=
  match l with
  | [] => []
  | s :: r => withOrder i s :: reindex (i + 1)%Z r
  end.

(** The step table after the renumbering loop of [deleteStep]. *)
Fixpoint renumberRows (i : Z) (remaining : list Step) (table : list Step)
  : list Step :=
  match remaining with
  | [] => table
  | r :: rest =>
      renumberRows (i + 1)%Z rest
        (map (fun s => if stepHasId (s_id r) s then withOrder i s else s)
             table)
  end.

(** A computation keeps a property of the store when the store has it
    afterwards, whatever the computation returns or throws, whenever it
    had it before. *)
Definition keeps (I : DB -> Prop) (A : Type) (m : M A) : Prop :=
  forall w r w', I (db w) -> m w = (r, w') -> I (db w').


(** The position of the row with a given id in a list of rows. *)
Fixpoint indexOf (i : Id) (l : list Step) : option nat :=
  match l with
  | [] => None
  | r :: rest =>
      if stepHasId i r then Some 0
      else option_map S (indexOf i rest)
  end.

(** A row renumbered by its position in [remaining], counted from [i]. *)
Definition relabel (i : Z) (remaining : list Step) (s : Step) : Step :=
  match indexOf (s_id s) remaining with
  | Some k => withOrder (i + Z.of_nat k) s
  | None => s
  end.

Definition Coherent (d : DB) : Prop := Forall completionCoherent (stepTable d).

Definition Titled (d : DB) : Prop := Forall titled (goalTable d).

(** [createGoalWithSteps] checks no title: the call is harmless to the
    titles when its caller supplies one that is not blank. *)
Definition titleSupplied (c : Call) : Prop :=
  match c with
  | CreateGoalWithSteps _ _ title _ _ _ _ _ _ => blank title = false
  | _ => True
  end.

(** The percentage as the quotient rounded half up in exact arithmetic. *)
Definition roundHalfUp (num den : Z) : Z := ((2 * num + den) / (2 * den))%Z.

Definition numberEqb (x y : JsNumber.number) : bool :=
  match x, y with
  | S754_zero a, S754_zero b => Bool.eqb a b
  | S754_infinity a, S754_infinity b => Bool.eqb a b
  | S754_nan, S754_nan => true
  | S754_finite a m e, S754_finite b n f =>
      Bool.eqb a b && Pos.eqb m n && Z.eqb e f
  | _, _ => false
  end.

(** The computed percentage is the quotient rounded half up, or the
    quotient lies exactly half way and the percentage is the integer
    below. *)
Definition nearest (c t : nat) : bool :=
  let k := roundHalfUp (100 * Z.of_nat c) (Z.of_nat t) in
  numberEqb (percentageOf c t) (JsNumber.ofZ k)
  || (numberEqb (percentageOf c t) (JsNumber.ofZ (k - 1))
      && (200 * Z.of_nat c + Z.of_nat t =? 2 * Z.of_nat t * k)%Z).


(** The store a step [x] with id [id] leaves behind once it is deleted
    and the steps of its goal are renumbered. *)
Definition afterDelete (sort : list Step -> list Step) (id : Id) (x : Step)
  (d : DB) : DB :=
  let T := filter (fun s => negb (stepHasId id s)) (stepTable d) in
  withSteps d (renumberRows 0 (sort (filter (stepOfGoal (s_goalId x)) T)) T).

End System.

(** The texts and the stores the examples and counterexamples use. *)
Module Cases.
Import JsString PlanText Store Queries System.

Definition joinLines (ls : list string) : string :=
  String.concat (String newline EmptyString) ls.

Definition guitarText : string :=
  joinLines ["Goal: Learn guitar"; "Steps:"; "1. Buy a guitar";
             "2. Practice daily"]%string.

Definition noStructure : string := "random text with no structure".

Definition bareList : string :=
  joinLines ["1. Buy a guitar"; "2. Practice daily"]%string.

(** The reading under which an extractor falls back to the entire text:
    without a steps label, every list line of the text that survives
    trimming and the duplicate filters is among the returned steps. *)
Definition FallsBackToWholeText (extract : string -> option Plan) : Prop :=
  forall text : string,
    hasStepsLabel text = false ->
    exists p : Plan,
      extract text = Some p /\
      forall t : list ascii,
        In t (Filtered.stepLines (goalTitleOf (chars text))
                (descriptionOf (chars text)) (chars text)) ->
        In (mkPlanStep (str t)) (steps p).

(** Two environments with a store that works, and stores they lead to. *)
(** A uuid in its usual text: 32 hexadecimal digits in five groups. *)
Definition hexDigit (n : N) : ascii :=
  nth (N.to_nat n) (chars "0123456789abcdef") "0"%char.

Fixpoint hexDigits (k : nat) (n : N) : list ascii :=
  match k with
  | 0 => []
  | S k' => hexDigits k' (n / 16) ++ [hexDigit (n mod 16)]
  end.

Definition uuidText (i : Id) : string :=
  let h := hexDigits 32 i in
  let dash := "-"%char in
  str (firstn 8 h ++ dash :: firstn 4 (skipn 8 h) ++ dash
       :: firstn 4 (skipn 12 h) ++ dash :: firstn 4 (skipn 16 h) ++ dash
       :: skipn 20 h).

(** An id that is no uuid. *)
Definition notAUuid : Key := Other "not-a-uuid".

Definition env0 : Env :=
  mkEnv 1000%Z (fun n => N.of_nat (100 + n)) None sortByOrder
        (fun _ => EmptyString) uuidText.
Definition env1 : Env :=
  mkEnv 2000%Z (fun n => N.of_nat (200 + n)) None sortByOrder
        (fun _ => EmptyString) uuidText.

Definition start : DB := mkDB [mkChat 1%N 7%N] [7%N] [50%N] [] [].

Definition planned : DB :=
  after env0
    (CreateGoalWithSteps 1%N 7%N "Learn guitar" None None None None (Some 50%N)
       [mkStepInput "Buy a guitar" None; mkStepInput "Practice daily" None;
        mkStepInput "Play a song" None])
    start.

(** The second step completed. *)
Definition toggled : DB := after env1 (ToggleStepCompletion 102%N) planned.

(** All three steps given the same order by [reorderSteps]. *)
Definition tied : DB :=
  after env1 (ReorderSteps 100%N [(Uuid 102%N, 0%Z); (Uuid 103%N, 0%Z)]) planned.

(** An environment whose store fails at its second statement. *)
Definition env0Failing : Env :=
  mkEnv 1000%Z (fun n => N.of_nat (100 + n)) (Some 1) sortByOrder
        (fun _ => EmptyString) uuidText.

(** A goal with forty steps of which the first twenty-three are
    completed. *)
Definition fortySteps : DB :=
  mkDB [mkChat 1%N 7%N] [7%N] [50%N]
    [mkGoal 100%N 1%N 7%N None "Learn guitar" None "in_progress" "medium"
       None 1000%Z]
    (map (fun i =>
            mkStep (N.of_nat (101 + i)) 100%N "Practice" (i <? 23)
              (Z.of_nat i) (if i <? 23 then Some 1500%Z else None) 1000%Z)
         (seq 0 40)).

Definition threeSteps : list StepInput :=
  [mkStepInput "Buy a guitar" None; mkStepInput "Practice daily" (Some 7%Z);
   mkStepInput "Play a song" None].

End Cases.

(* ================================================================== *)
(** * Part VIII, continued.  Chats, goal lists, the plan action, the
      routes and the components                                        *)
(* ================================================================== *)

(** The reads of lib/db/queries.ts that the plan action and the goal
    route call: a chat by its id, and the goals of a chat or of a user,
    the newest first. *)
Module Listing.
Import Store Queries.

Definition chatHasId (i : Id) (c : Chat) : bool := N.eqb (c_id c) i.
Definition goalOfChat (c : Id) (g : Goal) : bool := N.eqb (g_chatId g) c.

(** [select().from(chat).where(eq(chat.id, id))] *)
Definition q_chatById (i : Id) (d : DB) : (string + list Chat) * DB :=
  (inr (filter (chatHasId i) (chatTable d)), d).

(** [select().from(goal).where(cond).orderBy(desc(goal.createdAt))] *)
Definition q_goalsWhere (sort : list Goal -> list Goal) (cond : Goal -> bool)
  (d : DB) : (string + list Goal) * DB :=
  (inr (sort (filter cond (goalTable d))), d).

(** One way to [ORDER BY "createdAt" DESC]: insertion sort, goals created
    at the same time staying in table order. *)
Fixpoint insertNewest (g : Goal) (l : list Goal) : list Goal :=
  match l with
  | [] => [g]
  | h :: r =>
      if (g_createdAt h <=? g_createdAt g)%Z then g :: l
      else h :: insertNewest g r
  end.

Definition newestFirst (l : list Goal) : list Goal :=
  fold_right insertNewest [] l.

Section Reads.
Variable E : Env.

(** How the store arranges ORDER BY "createdAt" DESC during this call. *)
Variable sortGoals : list Goal -> list Goal.

Definition getChatById (id : Key) : M (option Chat) :=
  catch
    (selected <- statement E (byKey id q_chatById) ;;
     ret (hd_error selected))
    (wrapAll "Failed to get chat by id").



(** The handler also writes the message to the console. *)
Definition getGoalsByChatId (chatId : Key) : M (list Goal) :=
  catch (statement E
           (byKey chatId (fun chat =>
              q_goalsWhere sortGoals (goalOfChat chat))))
        (fun e =>
           throw (ChatSDKError bad_request_database
                    ("Failed to get goals by chat id: " ++ errorMessage E e))).

End Reads.

End Listing.

(** Actions and routes use codes of [ChatSDKError] the queries never
    throw; a computation that may end in one of them is an [Act]. *)
Module Surface.
Import Store Queries.

Inductive SurfaceCode : Type :=
| not_found_chat          (* "not_found:chat" *)
| forbidden_chat          (* "forbidden:chat" *)
| forbidden_goal          (* "forbidden:goal" *)
| bad_request_api.        (* "bad_request:api" *)

Inductive Thrown : Type :=
| Known : Exn -> Thrown
| Surface : SurfaceCode -> string -> Thrown.

Definition Act (A : Type) : Type := World -> (Thrown + A) * World.

Definition raise {A : Type} (t : Thrown) : Act A := fun w => (inl t, w).

(** A query called from an action: what it throws is thrown on. *)
Definition lift {A : Type} (m : M A) : Act A :=
  fun w =>
    match m w with
    | (inl e, w') => (inl (Known e), w')
    | (inr a, w') => (inr a, w')
    end.

Definition andThen {A B : Type} (m : Act A) (k : A -> Act B) : Act B :=
  fun w =>
    match m w with
    | (inr a, w') => k a w'
    | (inl t, w') => (inl t, w')
    end.

Declare Scope act_scope.
Delimit Scope act_scope with act.
Notation "x <- m ;; k" := (andThen m (fun x => k))
  (at level 61, m at next level, right associativity) : act_scope.

(** One call of an action on a store. *)
Definition perform {A : Type} (m : Act A) (d : DB) : (Thrown + A) * DB :=
  match m (mkWorld d 0 0) with
  | (r, w) => (r, db w)
  end.

End Surface.

(** [createGoalFromPlan] of app/(chat)/actions.ts. *)
Module PlanActions.
Import Store Queries Listing Surface.

(** [s.trim()] on a string. *)
Definition trimmed (s : string) : string :=
  JsString.str (JsString.trim (JsString.chars s)).

Section Action.
Variable E : Env.

(** [session?.user], reduced to the id of the signed-in user. *)
Variable session : option Id.

(** [messageId] is taken to be the uuid of a message. *)
Definition createGoalFromPlan (chatId : Key) (messageId : Id)
  (goalTitle : string)
  (goalDescription : option string) (steps : list StepInput)
  : Act (Goal * list Step) :=
  (match session with
   | None =>
       raise (Known (ChatSDKError unauthorized_chat "You must be signed in"))
   | Some user =>
       chat <- lift (getChatById E chatId) ;;
       match chat with
       | None => raise (Surface not_found_chat "Chat not found")
       | Some c =>
           if negb (N.eqb (c_userId c) user)
           then raise (Surface forbidden_chat
                         "This chat belongs to another user")
           else if blank goalTitle
           then raise (Known (ChatSDKError bad_request_goal
                                "Goal title cannot be empty"))
           else if length steps =? 0
           then raise (Known (ChatSDKError bad_request_goal
                                "At least one step is required"))
           else
             lift
               (catch
                  (createGoalWithSteps E chatId user (trimmed goalTitle)
                     (option_map trimmed goalDescription) None None None
                     (Some messageId)
                     (map (fun step =>
                             mkStepInput (trimmed (si_title step))
                                         (si_order step))
                          steps))
                  (rethrowOrWrap "Failed to create goal"))
       end
   end)%act.

End Action.

End PlanActions.

(** The route handlers of app/(chat)/api/goal/route.ts and the DELETE
    handler of app/(chat)/api/step/route.ts, for query parameters that
    are absent or hold a uuid; an empty parameter counts as absent, as
    [if (id)] has it. *)
Module Routes.
Import Store Queries Listing Surface.

Inductive Code : Type :=
| Of : ErrorCode -> Code
| Only : SurfaceCode -> Code.

(** [Response.json(body, { status: 200 })], or the response
    [new ChatSDKError(code, cause).toResponse()] builds. *)
Inductive Response (A : Type) : Type :=
| Json : A -> Response A
| Refused : Code -> option string -> Response A.

Arguments Json {A} _.
Arguments Refused {A} _ _.

Inductive GoalBody : Type :=
| OneGoal : Goal -> GoalBody
| OneGoalWithSteps : Goal -> list Step -> GoalBody
| Goals : list Goal -> GoalBody.

Definition ownerOf (b : Goal + Goal * list Step) : Id :=
  match b with
  | inl g => g_userId g
  | inr (g, _) => g_userId g
  end.

Definition bodyOf (b : Goal + Goal * list Step) : GoalBody :=
  match b with
  | inl g => OneGoal g
  | inr (g, steps) => OneGoalWithSteps g steps
  end.

(** [if (error instanceof ChatSDKError) return error.toResponse();
     return new ChatSDKError("bad_request:database", msg).toResponse()] *)
Definition toResponse {A : Type} (msg : string) (e : Exn) : M (Response A) :=
  match e with
  | ChatSDKError c cause => ret (Refused (Of c) (Some cause))
  | DriverError _ => ret (Refused (Of bad_request_database) (Some msg))
  end.

Section Handlers.
Variable E : Env.
Variable sortGoals : list Goal -> list Goal.
Variable session : option Id.

Definition GET (id chatId : option Id) (withSteps : bool)
  : M (Response GoalBody) :=
  match session with
  | None => ret (Refused (Of unauthorized_chat) None)
  | Some user =>
      catch
        (match id with
         | Some i =>
             goal <-
               (if withSteps
                then found <- getGoalByIdWithSteps E i ;; ret (option_map inr found)
                else found <- getGoalById E i ;; ret (option_map inl found)) ;;
             match goal with
             | None => ret (Refused (Of not_found_goal) None)
             | Some b =>
                 if negb (N.eqb (ownerOf b) user)
                 then ret (Refused (Only forbidden_goal) None)
                 else ret (Json (bodyOf b))
             end
         | None =>
             match chatId with
             | Some c =>
                 goals <- getGoalsByChatId E sortGoals c ;;
                 ret (Json (Goals goals))
             | None =>
                 ret (Refused (Only bad_request_api)
                        (Some "Either id or chatId parameter is required"%string))
             end
         end)
        (toResponse "Failed to fetch goals")
  end.

Definition DELETE (id : option Id) : M (Response Actions.Ack) :=
  match id with
  | None =>
      ret (Refused (Only bad_request_api) (Some "Parameter id is required"%string))
  | Some i =>
      match session with
      | None => ret (Refused (Of unauthorized_chat) None)
      | Some _ =>
          catch (deleteStep E i ;; ret (Json (Actions.mkAck true)))
                (toResponse "Failed to delete step")
      end
  end.

End Handlers.

End Routes.

(** The components: what [MessagePlanAction] shows, the progress
    [GoalCard] and [GoalViewer] display, and what the handlers of
    [PlanActionButton] and [StepItem] send to the server. *)
Module Components.
Import JsString JsRegExp PlanText Store Queries Actions Surface PlanActions.

(** The pattern "/(?:Goal|Plan|Steps|Daily\s+Steps)/i". *)
Definition planWordRe : Node :=
  Alt (lit "Goal")
    (Alt (lit "Plan")
       (Alt (lit "Steps") (seqs [lit "Daily"; Plus true ws; lit "Steps"]))).

(** The pattern "/\d+\.|[-*]/". *)
Definition listMarkAnywhereRe : Node :=
  Alt (Seq (Plus true digit) (Char ".")) bullet.

(** The pattern "/Goal:\s*.+/i". *)
Definition goalLineRe : Node :=
  seqs [lit "Goal:"; Star true ws; Plus true Dot].

Definition hasPlanContent (messageText : string) : bool :=
  let t := chars messageText in
  test flags_i planWordRe t
  && (test flags_none listMarkAnywhereRe t || test flags_i goalLineRe t).

(** Whether [MessagePlanAction] renders the button for a message. *)
Definition MessagePlanAction (role : string) (messageText : string) : bool :=
  if negb (String.eqb role "assistant") then false
  else hasPlanContent messageText.

(** [progress] of [GoalCard] and of [GoalViewer]: the expression of
    [getGoalProgress] on [goal.steps]. *)
Definition progress (goalSteps : list Step) : JsNumber.number :=
  percentageOf (length (filter s_isCompleted goalSteps)) (length goalSteps).

(** The state of a [PlanActionButton]. *)
Record ButtonState : Type := mkButtonState {
  isLoading : bool;
  isCreated : bool
}.

(** What an error toast tells of: an error of the server that was
    caught, a [TypeError] that was caught, or a text of the handler's
    own. *)
Inductive Cause : Type :=
| OfThrown : Thrown -> Cause
| OfTypeError : Cause
| Text : string -> Cause.

(** What a handler leaves on the screen: the success path was taken, an
    error toast was shown, or nothing happened at all. *)
Inductive Feedback : Type :=
| Succeeded : Feedback
| ErrorToast : Cause -> Feedback
| Ignored : Feedback.

Section Handlers.
Variable E : Env.
Variable session : option Id.

(** The component's own extractor: either of the two. *)
Variable extractPlanFromText : string -> option Plan.

(** [handleCreateGoal]; a [TypeError] of the extractor would be caught
    like an error of the action. *)
Definition handleCreateGoal (st : ButtonState) (chatId messageId : Id)
  (messageText : string) : World -> (ButtonState * Feedback) * World :=
  fun w =>
    if isLoading st || isCreated st then ((st, Ignored), w)
    else
      match extractPlanFromText messageText with
      | None =>
          ((mkButtonState false (isCreated st), ErrorToast OfTypeError), w)
      | Some p =>
          match
            createGoalFromPlan E session chatId messageId (goalTitle p)
              (description p)
              (map (fun s => mkStepInput (title s) None) (steps p)) w
          with
          | (inr _, w') => ((mkButtonState false true, Succeeded), w')
          | (inl t, w') =>
              ((mkButtonState false (isCreated st),
                ErrorToast (OfThrown t)), w')
          end
      end.

(** The handlers of [StepItem]. *)
Definition handleToggleCompletion (step : Step) : World -> Feedback * World :=
  fun w =>
    match updateStepStatus E session (s_id step) w with
    | (inr _, w') => (Succeeded, w')
    | (inl e, w') => (ErrorToast (OfThrown (Known e)), w')
    end.

Definition handleSaveEdit (step : Step) (editTitle : string)
  : World -> Feedback * World :=
  fun w =>
    if blank editTitle
    then (ErrorToast (Text "Step title cannot be empty"), w)
    else
      match editStep E session (s_id step) (trimmed editTitle) w with
      | (inr _, w') => (Succeeded, w')
      | (inl e, w') => (ErrorToast (OfThrown (Known e)), w')
      end.

(** [confirmed] is the answer to [confirm(...)]. *)
Definition handleDelete (confirmed : bool) (step : Step)
  : World -> Feedback * World :=
  fun w =>
    if negb confirmed then (Ignored, w)
    else
      match deleteStepAction E session (s_id step) w with
      | (inr _, w') => (Succeeded, w')
      | (inl e, w') => (ErrorToast (OfThrown (Known e)), w')
      end.

End Handlers.

End Components.

(** What the further properties are stated with. *)
Module Shape.
Import Store Queries System Surface PlanActions Components.

(** From state [x] a matcher reached state [y] by consuming code units
    that all satisfy [ok]. *)
Definition spans (ok : ascii -> bool) (x y : JsRegExp.State) : Prop :=
  exists m, JsRegExp.rest x = m ++ JsRegExp.rest y /\
            JsRegExp.endIndex y = JsRegExp.endIndex x + length m /\
            Forall (fun c => ok c = true) m.

(** What [.] matches under the flags. *)
Definition dotOk (f : JsRegExp.Flags) (c : ascii) : bool :=
  JsRegExp.dotAll f || negb (JsString.isLineTerminator c).

(** A text as [trim] leaves it and without a line break. *)
Definition oneLine (t : list ascii) : Prop :=
  JsString.trim t = t /\
  Forall (fun c => JsString.isLineTerminator c = false) t.

(** The keys of the store: primary keys are distinct, every step belongs
    to a goal, every goal to a chat and to a user, and every order fits
    the integer column. *)
Definition KeysOk (d : DB) : Prop :=
  NoDup (map g_id (goalTable d)) /\
  NoDup (map s_id (stepTable d)) /\
  (forall s, In s (stepTable d) ->
     In (s_goalId s) (map g_id (goalTable d)) /\ int4 (s_order s) = true) /\
  (forall g, In g (goalTable d) ->
     In (g_chatId g) (map c_id (chatTable d)) /\ In (g_userId g) (userTable d)).

(** A computation that leaves the store as it found it, whatever it
    returns or throws; and one that does so whenever it throws. *)
Definition readsOnly (A : Type) (m : M A) : Prop :=
  forall w r w', m w = (r, w') -> db w' = db w.

Definition sparesOnError (A : Type) (m : M A) : Prop :=
  forall w e w', m w = (inl e, w') -> db w' = db w.

(** Every error is a [ChatSDKError]: none comes from the driver as it is. *)
Definition throwsChatSDKError (A : Type) (m : M A) : Prop :=
  forall w e w', m w = (inl e, w') ->
  exists code cause, e = ChatSDKError code cause.

(** What a call throws, if it throws. *)
Definition thrown (A : Type) (r : (Exn + A) * DB) : option Exn :=
  match fst r with
  | inl e => Some e
  | inr _ => None
  end.

Definition errorOf (E : Env) (c : Call) (d : DB) : option Exn :=
  match c with
  | CreateGoal chatId userId title description status priority deadline
      createdFromMessageId =>
      thrown (call (createGoal E chatId userId title description status
                      priority deadline createdFromMessageId) d)
  | UpdateGoal id title description status priority deadline =>
      thrown (call (updateGoal E id title description status priority
                      deadline) d)
  | DeleteGoal id => thrown (call (deleteGoal E id) d)
  | CreateStep goalId title order =>
      thrown (call (createStep E goalId title order) d)
  | CreateSteps goalId stepsData =>
      thrown (call (createSteps E goalId stepsData) d)
  | UpdateStep id title isCompleted =>
      thrown (call (updateStep E id title isCompleted) d)
  | DeleteStep id => thrown (call (deleteStep E id) d)
  | ToggleStepCompletion id => thrown (call (toggleStepCompletion E id) d)
  | CreateGoalWithSteps chatId userId title description status priority
      deadline createdFromMessageId stepsData =>
      thrown (call (createGoalWithSteps E chatId userId title description
                      status priority deadline createdFromMessageId
                      stepsData) d)
  | ReorderSteps goalId stepOrders =>
      thrown (call (reorderSteps E goalId stepOrders) d)
  | BulkUpdateSteps goalId updates =>
      thrown (call (bulkUpdateSteps E goalId updates) d)
  end.

(** How many of the steps supplied leave their order to the function. *)
Definition unnumbered (stepsData : list StepInput) : nat :=
  length (filter (fun sd => match si_order sd with
                            | None => true
                            | Some _ => false
                            end) stepsData).

(** Whether a caller's id is the text of the uuid [i]. *)
Definition keyIs (i : Id) (k : Key) : bool :=
  match k with
  | Uuid j => N.eqb j i
  | Other _ => false
  end.

(** The order the pairs of [reorderSteps] give the step with id [i]: that
    of the last pair naming it. *)
Fixpoint assigned (i : Id) (stepOrders : list (Key * Z)) : option Z :=
  match stepOrders with
  | [] => None
  | (k, o) :: rest =>
      match assigned i rest with
      | Some o' => Some o'
      | None => if keyIs i k then Some o else None
      end
  end.

(** A row as [reorderSteps] leaves it. *)
Definition reordered (stepOrders : list (Key * Z)) (s : Step) : Step :=
  match assigned (s_id s) stepOrders with
  | Some o => withOrder o s
  | None => s
  end.

(** Whether a goal has a step with a given id. *)
Definition hasStep (goalId : Id) (d : DB) (i : Id) : Prop :=
  exists s, In s (rowsOfGoal goalId d) /\ s_id s = i.

(** Whether two ids of a caller name a goal and one of its steps: both
    are uuids then. *)
Definition namesStep (goalId : Key) (d : DB) (stepId : Key) : Prop :=
  match goalId, stepId with
  | Uuid g, Uuid i => hasStep g d i
  | _, _ => False
  end.

(** What the loops of [reorderSteps] and [bulkUpdateSteps] throw at an
    id that names no step of the goal. *)
Definition loopError (E : Env) (goalId k : Key) : Exn :=
  match k, goalId with
  | Uuid _, Uuid _ => ChatSDKError not_found_goal (notOfGoal E k goalId)
  | _, _ => DriverError invalidUuid
  end.

(** Whether a text that an update assigns holds the code unit 0. *)
Definition assignsNul (o : option (option string)) : bool :=
  match o with
  | Some (Some s) => hasNul s
  | _ => false
  end.

Definition withTitle (t : string) (s : Step) : Step :=
  patchStep (mkStepPatch (Some t) None None None) s.

Definition withCompletion (b : bool) (stamp : option Time) (s : Step) : Step :=
  patchStep (mkStepPatch None (Some b) (Some stamp) None) s.

(** A table with the rows of id [i] replaced. *)
Definition replaced (i : Id) (f : Step -> Step) (table : list Step)
  : list Step :=
  map (fun s => if stepHasId i s then f s else s) table.

Definition stepTitled (s : Step) : Prop := blank (s_title s) = false.

(** No goal and no step has a blank title. *)
Definition AllTitled (d : DB) : Prop :=
  Forall titled (goalTable d) /\ Forall stepTitled (stepTable d).

(** The percentage is 100 exactly when all steps are completed, and 0
    exactly when none is. *)
Definition endsMeet (c t : nat) : bool :=
  let p := percentageOf c t in
  Bool.eqb (numberEqb p (JsNumber.ofZ 100)) (c =? t)
  && Bool.eqb (numberEqb p (JsNumber.ofZ 0)) (c =? 0).

(** What a user can do on the screen. *)
Inductive Press : Type :=
| MakeThePlan (filtering : bool) (st : ButtonState) (chatId messageId : Id)
    (messageText : string)
| ToggleCompletion (step : Step)
| SaveEdit (step : Step) (editTitle : string)
| Delete (confirmed : bool) (step : Step).

Definition extractorOf (filtering : bool) : string -> option Plan :=
  if filtering then Filtered.extractPlanFromText
  else Fallback.extractPlanFromText.

(** The store a press leaves. *)
Definition afterPress (E : Env) (session : option Id) (p : Press) (d : DB)
  : DB :=
  let w := mkWorld d 0 0 in
  match p with
  | MakeThePlan filtering st chatId messageId messageText =>
      db (snd (handleCreateGoal E session (extractorOf filtering) st chatId
                 messageId messageText w))
  | ToggleCompletion step => db (snd (handleToggleCompletion E session step w))
  | SaveEdit step editTitle =>
      db (snd (handleSaveEdit E session step editTitle w))
  | Delete confirmed step =>
      db (snd (handleDelete E session confirmed step w))
  end.

(** The stores the screen leads to from one without goals and steps. *)
Inductive onScreen : DB -> Prop :=
| onScreen_start (chats : list Chat) (users messages : list Id) :
    onScreen (mkDB chats users messages [] [])
| onScreen_after (E : Env) (session : option Id) (p : Press) (d : DB) :
    onScreen d -> onScreen (afterPress E session p d).



(** State [x] stands at a place of the text [t] where a search may start:
    what remains is the rest of [t] from its index on, and capture 1 is
    undefined. *)
Definition position (t : list ascii) (x : JsRegExp.State) : Prop :=
  JsRegExp.cap x = None /\
  exists pre, t = pre ++ JsRegExp.rest x /\
              JsRegExp.endIndex x = length pre.

(** [a] occurs in [b] as a run of consecutive code units. *)
Definition infix (a b : list ascii) : Prop := exists u v, b = u ++ a ++ v.

(** The text holds a list mark: a hyphen or an asterisk, or a digit
    followed by a full stop. *)
Definition hasListMark (s : list ascii) : Prop :=
  (exists u c v, s = u ++ c :: v /\ (c = "-"%char \/ c = "*"%char)) \/
  (exists u c v, s = u ++ c :: "."%char :: v /\ JsString.isDigit c = true).

End Shape.

(* ================================================================== *)
(** * Part IX.  Facts about the matcher                                *)
(* ================================================================== *)

Module RegExpFacts.
Import JsString JsRegExp.

Lemma flat_map_assoc (A B C : Type) (f : A -> list B) (g : B -> list C)
  (l : list A) :
  flat_map g (flat_map f l) = flat_map (fun x => flat_map g (f x)) l.
Proof.
  induction l as [|a l IH]; simpl; [reflexivity|].
  rewrite flat_map_app, IH. reflexivity.
Qed.

Lemma flat_map_unit (A : Type) (l : list A) :
  flat_map (fun y => [y]) l = l.
Proof.
  induction l as [|a l IH]; simpl; [reflexivity|]. now rewrite IH.
Qed.

Lemma flat_map_none (A B : Type) (f : A -> list B) (l : list A) :
  (forall a, In a l -> f a = []) -> flat_map f l = [].
Proof.
  induction l as [|a l IH]; simpl; intros H; [reflexivity|].
  rewrite (H a (or_introl eq_refl)). apply IH. intros b Hb. apply H. now right.
Qed.

(** The bound given to [repeat] is no limit: any bound that covers the
    code units that remain gives the same states. *)
Lemma repeat_enough (m : State -> list State) (clear : State -> State)
  (g : bool) :
  forall n k x, length (rest x) <= n -> length (rest x) <= k ->
  repeat m clear g n x = repeat m clear g k x.
Proof.
  assert (Z : forall k x, length (rest x) <= 0 ->
                          repeat m clear g k x = [x]).
  { intros [|k] x H; simpl; [reflexivity|].
    rewrite flat_map_none.
    - now destruct g.
    - intros y _. unfold advanced.
      destruct (Nat.ltb_spec (length (rest y)) (length (rest x)));
        [lia|reflexivity]. }
  induction n as [|n IH]; intros k x Hn Hk.
  - rewrite (Z k x Hn). reflexivity.
  - destruct k as [|k]; [now rewrite (Z (S n) x Hk)|].
    simpl.
    assert (E : forall y,
      (if advanced x y then repeat m clear g n y else []) =
      (if advanced x y then repeat m clear g k y else [])).
    { intros y. unfold advanced.
      destruct (Nat.ltb_spec (length (rest y)) (length (rest x)));
        [|reflexivity].
      apply IH; lia. }
    now rewrite (flat_map_ext _ _ E).
Qed.

(** No matcher moves backwards in the input. *)
Lemma repeat_rest (m : State -> list State) (clear : State -> State)
  (g : bool) :
  forall n x y, In y (repeat m clear g n x) ->
  length (rest y) <= length (rest x).
Proof.
  induction n as [|n IH]; intros x y; simpl.
  - intros [<-|[]]. reflexivity.
  - assert (M : In y (flat_map (fun z => if advanced x z
                                         then repeat m clear g n z else [])
                               (m (clear x))) ->
                length (rest y) <= length (rest x)).
    { rewrite in_flat_map. intros (z & _ & Hy). unfold advanced in Hy.
      destruct (Nat.ltb_spec (length (rest z)) (length (rest x)));
        [|contradiction].
      apply IH in Hy. lia. }
    destruct g.
    + rewrite in_app_iff. intros [H|[<-|[]]]; [now apply M|reflexivity].
    + intros [<-|H]; [reflexivity|now apply M].
Qed.

Lemma clearCaps_rest (r : Node) (x : State) : rest (clearCaps r x) = rest x.
Proof. unfold clearCaps. now destruct (hasGroup r). Qed.

Lemma run_rest (f : Flags) (r : Node) :
  forall x y, In y (run f r x) -> length (rest y) <= length (rest x).
Proof.
  assert (S1 : forall ok x y, In y (step1 ok x) ->
                              length (rest y) <= length (rest x)).
  { intros ok x y. unfold step1. destruct (rest x) as [|c t]; [intros []|].
    destruct (ok c); [|intros []]. intros [<-|[]]. simpl. lia. }
  induction r as [|c|p| |a IHa b IHb|a IHa b IHb|a IHa|g a IHa|g a IHa|a IHa| |];
    intros x y; simpl.
  - intros [<-|[]]. reflexivity.
  - apply S1.
  - apply S1.
  - apply S1.
  - rewrite in_flat_map. intros (z & Hz & Hy).
    apply IHa in Hz. apply IHb in Hy. lia.
  - rewrite in_app_iff. intros [H|H]; [now apply IHa|now apply IHb].
  - rewrite in_app_iff, filter_In. intros [[H _]|[<-|[]]]; [|reflexivity].
    apply IHa in H. now rewrite clearCaps_rest in H.
  - apply repeat_rest.
  - rewrite in_flat_map. intros (z & Hz & Hy).
    apply IHa in Hz. rewrite clearCaps_rest in Hz.
    apply repeat_rest in Hy. lia.
  - rewrite in_map_iff. intros (z & <- & Hz). simpl. now apply IHa.
  - destruct (endIndex x =? 0); [|intros []]. intros [<-|[]]. reflexivity.
  - intros H. assert (y = x) as ->; [|reflexivity].
    destruct (rest x); [|destruct H]. now destruct H as [<-|[]].
Qed.

(** A sequence of pieces runs its first part, then the remainder from
    every state the first part can end in. *)
Lemma run_seqs_app (f : Flags) (a b : list Node) (x : State) :
  run f (seqs (a ++ b)) x = flat_map (run f (seqs b)) (run f (seqs a) x).
Proof.
  revert x. induction a as [|h a IH]; intros x; simpl.
  - now rewrite app_nil_r.
  - rewrite flat_map_assoc. apply flat_map_ext. intros z. apply IH.
Qed.

Lemma run_seqs_prefix_nil (f : Flags) (a b : list Node) (x : State) :
  run f (seqs a) x = [] -> run f (seqs (a ++ b)) x = [].
Proof.
  intros H. rewrite run_seqs_app, H. reflexivity.
Qed.

Lemma run_seqs_one (f : Flags) (r : Node) (x : State) :
  run f (seqs [r]) x = run f r x.
Proof.
  simpl. apply flat_map_unit.
Qed.

(** If [r1] fails wherever [r2] fails, it matches nowhere [r2] does not. *)
Lemma execFrom_none_mono (f : Flags) (r1 r2 : Node) :
  (forall x, run f r2 x = [] -> run f r1 x = []) ->
  forall s i, execFrom f r2 i s = None -> execFrom f r1 i s = None.
Proof.
  intros H s. induction s as [|c s IH]; intros i; simpl.
  - destruct (run f r2 _) eqn:R2; [|discriminate].
    intros _. now rewrite (H _ R2).
  - destruct (run f r2 _) eqn:R2; [|discriminate].
    intros H2. rewrite (H _ R2). now apply IH.
Qed.

Lemma execFrom_In (f : Flags) (r : Node) (s : list ascii) :
  forall i y, execFrom f r i s = Some y ->
  exists x, In y (run f r x).
Proof.
  induction s as [|c s IH]; intros i y; simpl.
  - destruct (run f r _) eqn:R; [discriminate|].
    intros [= <-]. eexists. rewrite R. now left.
  - destruct (run f r _) eqn:R.
    + apply IH.
    + intros [= <-]. eexists. rewrite R. now left.
Qed.

(** Leaving a capture group defines capture 1. *)
Lemma run_group_cap (f : Flags) (a : Node) (x y : State) :
  In y (run f (Group a) x) -> cap y <> None.
Proof.
  simpl. rewrite in_map_iff. intros (z & <- & _). discriminate.
Qed.

Lemma repeat_cap (m : State -> list State) (clear : State -> State)
  (g : bool) :
  (forall x y, In y (m x) -> cap y <> None) ->
  forall n x y, cap x <> None -> In y (repeat m clear g n x) ->
  cap y <> None.
Proof.
  intros Hm. induction n as [|n IH]; intros x y Hx; simpl.
  - intros [<-|[]]. exact Hx.
  - assert (Hmore :
      In y (flat_map (fun z => if advanced x z then repeat m clear g n z
                               else []) (m (clear x))) -> cap y <> None).
    { rewrite in_flat_map. intros (z & Hz & Hy).
      destruct (advanced x z); [|contradiction].
      eapply IH; [|exact Hy]. eapply Hm; exact Hz. }
    destruct g.
    + rewrite in_app_iff. intros [H|[<-|[]]]; [now apply Hmore | exact Hx].
    + intros [<-|H]; [exact Hx | now apply Hmore].
Qed.

Lemma run_plus_group_cap (f : Flags) (g : bool) (a : Node) (x y : State) :
  In y (run f (Plus g (Group a)) x) -> cap y <> None.
Proof.
  simpl run. rewrite in_flat_map. intros (z & Hz & Hy).
  eapply repeat_cap; [| |exact Hy].
  - intros x' y'. apply (run_group_cap f a).
  - eapply (run_group_cap f a). exact Hz.
Qed.

(** A pattern whose last piece defines capture 1 never yields a match
    object with an undefined element 1. *)
Lemma exec_last_cap (f : Flags) (pre : list Node) (last : Node) :
  (forall x y, In y (run f last x) -> cap y <> None) ->
  forall s, exec f (seqs (pre ++ [last])) s <> Some None.
Proof.
  intros Hlast s. unfold exec.
  destruct (execFrom f _ 0 s) as [y|] eqn:Ex; [|discriminate].
  apply execFrom_In in Ex. destruct Ex as (x & Hy).
  rewrite run_seqs_app, in_flat_map in Hy. destruct Hy as (z & _ & Hy).
  rewrite run_seqs_one in Hy. apply Hlast in Hy.
  intros [= Hc]. contradiction.
Qed.

End RegExpFacts.

(* ================================================================== *)
(** * Part X.  Properties of the plan extractor                        *)
(* ================================================================== *)

Module ExtractFacts.
Import JsString JsRegExp PlanText RegExpFacts Cases.

Lemma test_exec_none (f : Flags) (r : Node) (s : list ascii) :
  test f r s = false -> exec f r s = None.
Proof.
  unfold test, exec. destruct (execFrom f r 0 s); [discriminate|reflexivity].
Qed.

Lemma test_prefix (f : Flags) (a b : list Node) (s : list ascii) :
  test f (seqs a) s = false -> test f (seqs (a ++ b)) s = false.
Proof.
  unfold test. intros H.
  rewrite (execFrom_none_mono f (seqs (a ++ b)) (seqs a)); [reflexivity| |].
  - intros x. apply run_seqs_prefix_nil.
  - destruct (execFrom f (seqs a) 0 s); [discriminate|reflexivity].
Qed.

(** Without a steps label neither steps pattern matches. *)
Lemma no_label_no_match (text : string) (tail : list Node) :
  hasStepsLabel text = false ->
  exec flags_is (seqs (stepsLabel ++ tail)) (chars text) = None.
Proof.
  intros H. apply test_exec_none. now apply test_prefix.
Qed.

Lemma test_alt_l (f : Flags) (a b : Node) (s : list ascii) :
  test f (Alt a b) s = false -> test f a s = false.
Proof.
  unfold test. intros H.
  rewrite (execFrom_none_mono f a (Alt a b)); [reflexivity| |].
  - intros x. simpl. intros Hx. now apply app_eq_nil in Hx.
  - destruct (execFrom f (Alt a b) 0 s); [discriminate|reflexivity].
Qed.

Lemma test_alt_r (f : Flags) (a b : Node) (s : list ascii) :
  test f (Alt a b) s = false -> test f b s = false.
Proof.
  unfold test. intros H.
  rewrite (execFrom_none_mono f b (Alt a b)); [reflexivity| |].
  - intros x. simpl. intros Hx. now apply app_eq_nil in Hx.
  - destruct (execFrom f (Alt a b) 0 s); [discriminate|reflexivity].
Qed.

(** A line the list-mark test of the fallback refuses is no list line. *)
Lemma listMark_false (line : list ascii) :
  test flags_none Fallback.listMarkRe line = false ->
  isListLine line = false.
Proof.
  intros H. unfold isListLine, numberedRe, bulletedRe.
  rewrite (test_prefix _ _ _ _ (test_alt_l _ _ _ _ H)).
  rewrite (test_prefix _ _ _ _ (test_alt_r _ _ _ _ H)).
  reflexivity.
Qed.

(** A line that is no list line has the empty title. *)
Lemma not_listLine_title (line : list ascii) :
  isListLine line = false -> lineTitle line = [].
Proof.
  unfold isListLine, lineTitle. intros H.
  apply orb_false_iff in H. destruct H as [H1 H2].
  now rewrite (test_exec_none _ _ _ H1), (test_exec_none _ _ _ H2).
Qed.

(** The fallback scan keeps exactly what the scan of a steps section
    keeps: it treats the whole text as the candidate block. *)
Lemma listItems_stepLines (text : list ascii) :
  Fallback.listItems text = Fallback.stepLines text.
Proof.
  unfold Fallback.listItems, Fallback.stepLines.
  induction (map trim (split text)) as [|line ls IH]; simpl; [reflexivity|].
  destruct (test flags_none Fallback.listMarkRe line) eqn:Hm.
  - destruct (isListLine line) eqn:Hl; simpl.
    + now rewrite IH.
    + rewrite (not_listLine_title _ Hl). simpl. exact IH.
  - now rewrite (listMark_false _ Hm).
Qed.

Lemma stepsSection_defined (t : list ascii) :
  exec flags_is Filtered.stepsSectionRe t <> Some None.
Proof.
  apply exec_last_cap. intros x y. apply run_group_cap.
Qed.

Lemma stepsMatch_defined (t : list ascii) :
  exec flags_is Fallback.stepsRe t <> Some None.
Proof.
  apply exec_last_cap. intros x y. apply run_plus_group_cap.
Qed.

Lemma mkResult_steps (g : list ascii) (d : option (list ascii))
  (found : list PlanStep) :
  steps (mkResult g d found) <> [] /\
  (found = [] -> steps (mkResult g d found) = defaultSteps) /\
  (found <> [] -> steps (mkResult g d found) = found).
Proof.
  destruct found; simpl; repeat split; try discriminate; congruence.
Qed.

Lemma toSteps_nil (l : list (list ascii)) : toSteps l = [] <-> l = [].
Proof.
  destruct l; simpl; split; intros; try reflexivity; discriminate.
Qed.

Lemma filtered_result (text : string) :
  Filtered.extractPlanFromText text =
  Some (mkResult (goalTitleOf (chars text)) (descriptionOf (chars text))
          (toSteps (Filtered.surviving (chars text)))).
Proof.
  unfold Filtered.extractPlanFromText, Filtered.surviving.
  pose proof (stepsSection_defined (chars text)) as D.
  destruct (exec flags_is Filtered.stepsSectionRe (chars text)) as [[c|]|];
    [reflexivity|congruence|reflexivity].
Qed.

Lemma fallback_result (text : string) :
  Fallback.extractPlanFromText text =
  Some (mkResult (goalTitleOf (chars text)) (descriptionOf (chars text))
          (toSteps (Fallback.surviving (chars text)))).
Proof.
  unfold Fallback.extractPlanFromText, Fallback.surviving.
  pose proof (stepsMatch_defined (chars text)) as D.
  destruct (exec flags_is Fallback.stepsRe (chars text)) as [[c|]|];
    [|congruence|reflexivity].
  destruct (Fallback.stepLines c); reflexivity.
Qed.

End ExtractFacts.

Import JsString JsRegExp PlanText Cases.

(** C3.  On the text "Goal: Learn guitar / Steps: / 1. Buy a guitar /
    2. Practice daily" (four lines) the component with the duplicate
    filters returns the goal title "Learn guitar", no description and the
    two steps in order; the component with the fallback returns the same
    title and description but only the step "Practice daily": its steps
    pattern repeats a capture group, and element 1 of the match holds the
    last repetition only. *)
Theorem C3_guitar_plan :
  Filtered.extractPlanFromText guitarText =
    Some (mkPlan "Learn guitar" None
            [mkPlanStep "Buy a guitar"; mkPlanStep "Practice daily"]) /\
  Fallback.extractPlanFromText guitarText =
    Some (mkPlan "Learn guitar" None [mkPlanStep "Practice daily"]).
Proof.
  split; vm_compute; reflexivity.
Qed.

(** C4, as stated, fails for the component with the duplicate filters:
    the two-line text "1. Buy a guitar / 2. Practice daily" has no steps
    label, both lines survive the filters, and the plan returned holds
    the default step only. *)
Lemma C4_counterexample :
  ~ FallsBackToWholeText Filtered.extractPlanFromText.
Proof.
  intros H. destruct (H bareList) as (p & Hp & Hin); [vm_compute; reflexivity|].
  specialize (Hin (chars "Buy a guitar")).
  assert (Hs : steps p = defaultSteps).
  { vm_compute in Hp. injection Hp as <-. reflexivity. }
  rewrite Hs in Hin.
  destruct Hin as [Hd|[]]; [vm_compute; now left | discriminate Hd].
Qed.

(** C4, amended.  For every text without a steps label followed by a line
    break: the component with the duplicate filters scans nothing and
    returns the default step alone; the component with the fallback scans
    the entire text as it would scan a steps section (the list lines, in
    source order, marker stripped, trimmed, the empty ones dropped) without
    any duplicate filter, and returns the default step when that scan
    finds nothing. *)
Theorem C4_without_steps_label (text : string) :
  hasStepsLabel text = false ->
  Filtered.extractPlanFromText text =
    Some (mkPlan (str (goalTitleOf (chars text)))
            (option_map str (descriptionOf (chars text))) defaultSteps) /\
  Fallback.extractPlanFromText text =
    Some (mkPlan (str (goalTitleOf (chars text)))
            (option_map str (descriptionOf (chars text)))
            (match Fallback.stepLines (chars text) with
             | [] => defaultSteps
             | found => toSteps found
             end)).
Proof.
  intros H. split.
  - unfold Filtered.extractPlanFromText, Filtered.stepsSectionRe.
    now rewrite (ExtractFacts.no_label_no_match _ _ H).
  - unfold Fallback.extractPlanFromText, Fallback.stepsRe.
    rewrite (ExtractFacts.no_label_no_match _ _ H).
    rewrite ExtractFacts.listItems_stepLines.
    unfold mkResult. destruct (Fallback.stepLines (chars text)); reflexivity.
Qed.

Lemma C4_without_steps_label_witness :
  hasStepsLabel bareList = false /\
  Filtered.extractPlanFromText bareList =
    Some (mkPlan "New Goal" None defaultSteps) /\
  Fallback.extractPlanFromText bareList =
    Some (mkPlan "New Goal" None
            [mkPlanStep "Buy a guitar"; mkPlanStep "Practice daily"]).
Proof.
  split; [vm_compute; reflexivity|].
  exact (C4_without_steps_label bareList (eq_refl false)).
Defined.

(** C8.  Both components return a plan for every text (no match object
    is ever read at an undefined element), the plan being a function of
    the text alone; its steps are never empty: they are the default step
    "Start working on your goal" alone whenever no step title survives
    extraction, and the surviving titles otherwise.  On "random text with
    no structure" both return the goal title "New Goal", no description
    and the default step. *)
Theorem C8_extract_total (text : string) :
  (exists p : Plan,
     Filtered.extractPlanFromText text = Some p /\
     steps p <> [] /\
     (Filtered.surviving (chars text) = [] -> steps p = defaultSteps) /\
     (Filtered.surviving (chars text) <> [] ->
      steps p = toSteps (Filtered.surviving (chars text)))) /\
  (exists p : Plan,
     Fallback.extractPlanFromText text = Some p /\
     steps p <> [] /\
     (Fallback.surviving (chars text) = [] -> steps p = defaultSteps) /\
     (Fallback.surviving (chars text) <> [] ->
      steps p = toSteps (Fallback.surviving (chars text)))) /\
  Filtered.extractPlanFromText noStructure =
    Some (mkPlan "New Goal" None [mkPlanStep "Start working on your goal"]) /\
  Fallback.extractPlanFromText noStructure =
    Some (mkPlan "New Goal" None [mkPlanStep "Start working on your goal"]).
Proof.
  split; [|split; [|split; vm_compute; reflexivity]].
  - eexists. split; [apply ExtractFacts.filtered_result|].
    destruct (ExtractFacts.mkResult_steps (goalTitleOf (chars text))
                (descriptionOf (chars text))
                (toSteps (Filtered.surviving (chars text)))) as (A & B & C).
    repeat split; [exact A| |].
    + intros Hn. apply B. now apply ExtractFacts.toSteps_nil.
    + intros Hn. apply C. now rewrite ExtractFacts.toSteps_nil.
  - eexists. split; [apply ExtractFacts.fallback_result|].
    destruct (ExtractFacts.mkResult_steps (goalTitleOf (chars text))
                (descriptionOf (chars text))
                (toSteps (Fallback.surviving (chars text)))) as (A & B & C).
    repeat split; [exact A| |].
    + intros Hn. apply B. now apply ExtractFacts.toSteps_nil.
    + intros Hn. apply C. now rewrite ExtractFacts.toSteps_nil.
Qed.

(* ================================================================== *)
(** * Part XI.  Facts about statements and transactions                *)
(* ================================================================== *)

Module StoreFacts.
Import Store Queries System.

(** ** Outcomes of the building blocks *)

Lemma bind_inr (A B : Type) (m : M A) (k : A -> M B) (w w' : World) (b : B) :
  bind m k w = (inr b, w') ->
  exists a w1, m w = (inr a, w1) /\ k a w1 = (inr b, w').
Proof.
  unfold bind. destruct (m w) as [[e|a] w1]; [discriminate|].
  intros H. exists a, w1. split; [reflexivity|exact H].
Qed.

Lemma bind_inl (A B : Type) (m : M A) (k : A -> M B) (w w' : World) (e : Exn) :
  bind m k w = (inl e, w') ->
  m w = (inl e, w') \/ exists a w1, m w = (inr a, w1) /\ k a w1 = (inl e, w').
Proof.
  unfold bind. destruct (m w) as [[e1|a] w1].
  - intros [= <- <-]. left. reflexivity.
  - intros H. right. exists a, w1. split; [reflexivity|exact H].
Qed.

Lemma statement_inr (E : Env) (A : Type) (q : DB -> (string + A) * DB)
  (w w' : World) (a : A) :
  statement E q w = (inr a, w') ->
  q (db w) = (inr a, db w') /\ issued w' = S (issued w) /\
  drawn w' = drawn w /\ fault E <> Some (issued w).
Proof.
  unfold statement.
  destruct (fault E) as [f|] eqn:F.
  - destruct (f =? issued w) eqn:Hf; [discriminate|].
    apply Nat.eqb_neq in Hf.
    destruct (q (db w)) as [[m|a'] d']; [discriminate|].
    intros [= <- <-]. simpl. repeat split; congruence.
  - destruct (q (db w)) as [[m|a'] d']; [discriminate|].
    intros [= <- <-]. simpl. repeat split; congruence.
Qed.

Lemma statement_inl (E : Env) (A : Type) (q : DB -> (string + A) * DB)
  (w w' : World) (e : Exn) :
  statement E q w = (inl e, w') ->
  db w' = db w /\ (exists m, e = DriverError m) /\
  (fault E = Some (issued w) \/ exists m, fst (q (db w)) = inl m).
Proof.
  unfold statement.
  destruct (fault E) as [f|] eqn:F.
  - destruct (f =? issued w) eqn:Hf.
    + apply Nat.eqb_eq in Hf. intros [= <- <-]. simpl.
      split; [reflexivity|]. split; [eauto|]. left. congruence.
    + destruct (q (db w)) as [[m|a'] d']; [|discriminate].
      intros [= <- <-]. simpl.
      split; [reflexivity|]. split; [eauto|]. right. eauto.
  - destruct (q (db w)) as [[m|a'] d']; [|discriminate].
    intros [= <- <-]. simpl.
    split; [reflexivity|]. split; [eauto|]. right. eauto.
Qed.

Lemma statement_run (E : Env) (A : Type) (q : DB -> (string + A) * DB)
  (w : World) :
  fault E <> Some (issued w) ->
  statement E q w =
  match q (db w) with
  | (inr a, d) => (inr a, mkWorld d (S (issued w)) (drawn w))
  | (inl msg, _) => (inl (DriverError msg), mkWorld (db w) (S (issued w)) (drawn w))
  end.
Proof.
  unfold statement. intros H. destruct (fault E) as [f|]; [|reflexivity].
  destruct (Nat.eqb_spec f (issued w)); [congruence|reflexivity].
Qed.

(** A store that does not fail runs every statement. *)
Lemma statement_ok (E : Env) (A : Type) (q : DB -> (string + A) * DB)
  (w : World) :
  fault E = None ->
  statement E q w =
  match q (db w) with
  | (inr a, d) => (inr a, mkWorld d (S (issued w)) (drawn w))
  | (inl msg, _) => (inl (DriverError msg), mkWorld (db w) (S (issued w)) (drawn w))
  end.
Proof.
  unfold statement. intros ->. reflexivity.
Qed.

Lemma freshIds_run (E : Env) (n : nat) (w : World) :
  freshIds E n w =
  (inr (map (uuid E) (seq (drawn w) n)),
   mkWorld (db w) (issued w) (drawn w + n)).
Proof.
  revert w. induction n as [|n IH]; intros w; simpl.
  - unfold ret. destruct w; simpl. now rewrite Nat.add_0_r.
  - unfold bind at 1. unfold freshId at 1. unfold bind at 1.
    rewrite IH. simpl. unfold ret. do 2 f_equal. f_equal. lia.
Qed.

Lemma transaction_inr (E : Env) (A : Type) (body : M A) (w w' : World) (a : A) :
  transaction E body w = (inr a, w') ->
  exists w1, body w = (inr a, w1) /\ db w' = db w1.
Proof.
  unfold transaction. destruct (body w) as [[e|a1] w1]; [discriminate|].
  destruct (statement E _ w1) as [[e|u] w2] eqn:C; [discriminate|].
  intros [= <- <-]. exists w1. split; [reflexivity|].
  apply statement_inr in C. destruct C as (C & _).
  now injection C.
Qed.

(** A transaction that throws leaves the store as it found it. *)
Lemma transaction_inl (E : Env) (A : Type) (body : M A) (w w' : World) (e : Exn) :
  transaction E body w = (inl e, w') -> db w' = db w.
Proof.
  unfold transaction. destruct (body w) as [[e1|a1] w1].
  - intros [= <- <-]. reflexivity.
  - destruct (statement E _ w1) as [[e2|u] w2]; [|discriminate].
    intros [= <- <-]. reflexivity.
Qed.

Lemma transaction_ok (E : Env) (A : Type) (body : M A) (w w1 : World) (a : A) :
  fault E = None ->
  body w = (inr a, w1) ->
  transaction E body w = (inr a, mkWorld (db w1) (S (issued w1)) (drawn w1)).
Proof.
  intros F B. unfold transaction. rewrite B, statement_ok by exact F.
  reflexivity.
Qed.

(** ** Calls keep what every statement keeps *)

Section Keeps.
Variable I : DB -> Prop.

Lemma keeps_ret (A : Type) (a : A) : keeps I (ret a).
Proof. intros w r w' H [= <- <-]. exact H. Qed.

Lemma keeps_throw (A : Type) (e : Exn) : keeps I (@throw A e).
Proof. intros w r w' H [= <- <-]. exact H. Qed.

Lemma keeps_bind (A B : Type) (m : M A) (k : A -> M B) :
  keeps I m -> (forall a, keeps I (k a)) -> keeps I (bind m k).
Proof.
  intros Hm Hk w r w' H. unfold bind.
  destruct (m w) as [[e|a] w1] eqn:M1.
  - intros [= <- <-]. eapply Hm; eauto.
  - intros K. eapply Hk; [|exact K]. eapply Hm; eauto.
Qed.

Lemma keeps_catch (A : Type) (m : M A) (h : Exn -> M A) :
  keeps I m -> (forall e, keeps I (h e)) -> keeps I (catch m h).
Proof.
  intros Hm Hh w r w' H. unfold catch.
  destruct (m w) as [[e|a] w1] eqn:M1.
  - intros K. eapply Hh; [|exact K]. eapply Hm; eauto.
  - intros [= <- <-]. eapply Hm; eauto.
Qed.

Lemma keeps_rethrowOrWrap (A : Type) (msg : string) (e : Exn) :
  keeps I (@rethrowOrWrap A msg e).
Proof. destruct e; apply keeps_throw. Qed.

Lemma keeps_wrapAll (A : Type) (msg : string) (e : Exn) :
  keeps I (@wrapAll A msg e).
Proof. apply keeps_throw. Qed.

Lemma keeps_statement (E : Env) (A : Type) (q : DB -> (string + A) * DB) :
  (forall d a d', I d -> q d = (inr a, d') -> I d') ->
  keeps I (statement E q).
Proof.
  intros Hq w r w' H S. destruct r as [e|a].
  - apply statement_inl in S. destruct S as (-> & _). exact H.
  - apply statement_inr in S. destruct S as (S & _). eapply Hq; eauto.
Qed.

Lemma keeps_read (E : Env) (A : Type) (f : DB -> A) :
  keeps I (statement E (fun d => (inr (f d), d))).
Proof.
  apply keeps_statement. intros d a d' H [= _ <-]. exact H.
Qed.

(** A statement with a caller's id keeps what it keeps for every uuid. *)
Lemma keeps_byKey (E : Env) (A : Type) (k : Key)
  (q : Id -> DB -> (string + A) * DB) :
  (forall i, keeps I (statement E (q i))) ->
  keeps I (statement E (byKey k q)).
Proof.
  intros H. destruct k as [i|text]; simpl; [apply H|].
  apply keeps_statement. intros d a d' _ Q. discriminate Q.
Qed.

Lemma keeps_freshId (E : Env) : keeps I (freshId E).
Proof. intros w r w' H [= <- <-]. exact H. Qed.

Lemma keeps_freshIds (E : Env) (n : nat) : keeps I (freshIds E n).
Proof. intros w r w' H. rewrite freshIds_run. intros [= <- <-]. exact H. Qed.

Lemma keeps_transaction (E : Env) (A : Type) (body : M A) :
  keeps I body -> keeps I (transaction E body).
Proof.
  intros Hb w r w' H T. destruct r as [e|a].
  - apply transaction_inl in T. now rewrite T.
  - apply transaction_inr in T. destruct T as (w1 & B & ->).
    eapply Hb; eauto.
Qed.

Lemma keeps_call (A : Type) (m : M A) (d : DB) :
  keeps I m -> I d -> I (snd (call m d)).
Proof.
  intros Hm H. unfold call.
  destruct (m (mkWorld d 0 0)) as [r w] eqn:R. simpl.
  apply (Hm (mkWorld d 0 0) r w H R).
Qed.

End Keeps.

(** ** What a statement that went through did *)

Lemma q_insertGoal_inr (row g : Goal) (d d' : DB) :
  q_insertGoal row d = (inr g, d') ->
  g = row /\ d' = withGoals d (goalTable d ++ [row]) /\
  hasKey (g_id row) (map g_id (goalTable d)) = false.
Proof.
  unfold q_insertGoal.
  destruct (negb (goalTextOk row)); [discriminate|].
  destruct (hasKey (g_id row) (map g_id (goalTable d))); [discriminate|].
  destruct (negb (hasKey (g_chatId row) _)); [discriminate|].
  destruct (negb (hasKey (g_userId row) _)); [discriminate|].
  destruct (match g_createdFromMessageId row with
            | Some m => negb (hasKey m (messageTable d))
            | None => false
            end); [discriminate|].
  intros [= <- <-]. repeat split.
Qed.

Lemma q_updateGoal_inr (i : Id) (p : GoalPatch) (u : unit) (d d' : DB) :
  q_updateGoal i p d = (inr u, d') ->
  d' = withGoals d
         (map (fun g => if goalHasId i g then patchGoal p g else g)
              (goalTable d)).
Proof.
  unfold q_updateGoal. destruct (goalPatchEmpty p); [discriminate|].
  destruct (negb (goalPatchTextOk p)); [discriminate|].
  now intros [= _ <-].
Qed.

Lemma q_insertSteps_inr (rows created : list Step) (d d' : DB) :
  q_insertSteps rows d = (inr created, d') ->
  created = rows /\ d' = withSteps d (stepTable d ++ rows) /\ rows <> [].
Proof.
  unfold q_insertSteps. destruct rows as [|r rows]; [discriminate|].
  destruct (negb (distinct _) || existsb _ _); [discriminate|].
  destruct (negb (forallb (fun s => hasKey _ _) _)); [discriminate|].
  destruct (negb (forallb (fun s => int4 _) _)); [discriminate|].
  destruct (existsb (fun s => hasNul _) _); [discriminate|].
  intros [= <- <-]. repeat split. discriminate.
Qed.

Lemma q_updateStep_inr (i : Id) (p : StepPatch) (u : unit) (d d' : DB) :
  q_updateStep i p d = (inr u, d') ->
  d' = withSteps d
         (map (fun s => if stepHasId i s then patchStep p s else s)
              (stepTable d)).
Proof.
  unfold q_updateStep. destruct (stepPatchEmpty p); [discriminate|].
  destruct (match sp_order p with
            | Some o => negb (int4 o)
            | None => false
            end); [discriminate|].
  destruct (someHasNul (sp_title p)); [discriminate|].
  now intros [= _ <-].
Qed.

End StoreFacts.

(* ================================================================== *)
(** * Part XII.  The completion timestamp                              *)
(* ================================================================== *)

Module CompletionFacts.
Import Store Queries System StoreFacts.

Lemma patchStep_coherent (p : StepPatch) (s : Step) :
  patchCoherent p -> completionCoherent s -> completionCoherent (patchStep p s).
Proof.
  unfold patchCoherent, completionCoherent, patchStep. simpl.
  destruct (sp_isCompleted p), (sp_completedAt p); simpl; tauto.
Qed.

Lemma stepsToInsert_coherent (g : Id) (t : Time) (ids : list Id)
  (stepsData : list StepInput) (orders : list Z) :
  Forall completionCoherent (stepsToInsert g t ids stepsData orders).
Proof.
  revert stepsData orders.
  induction ids as [|i ids IH]; intros [|sd r] [|o os]; simpl; constructor.
  - unfold completionCoherent. simpl. split; [discriminate|congruence].
  - apply IH.
Qed.

Lemma completedAtFor_coherent (t : Time) (b : bool) :
  b = true <-> completedAtFor t b <> None.
Proof.
  destruct b; simpl; split; congruence.
Qed.

Lemma reads_keep_coherent (E : Env) (A : Type) (f : DB -> A) :
  keeps Coherent (statement E (fun d => (inr (f d), d))).
Proof. apply keeps_read. Qed.

Lemma insertGoal_keeps_coherent (E : Env) (row : Goal) :
  keeps Coherent (statement E (q_insertGoal row)).
Proof.
  apply keeps_statement. intros d a d' H Q.
  apply q_insertGoal_inr in Q. destruct Q as (_ & -> & _). exact H.
Qed.

Lemma updateGoal_q_keeps_coherent (E : Env) (i : Id) (p : GoalPatch) :
  keeps Coherent (statement E (q_updateGoal i p)).
Proof.
  apply keeps_statement. intros d a d' H Q.
  apply q_updateGoal_inr in Q. subst d'. exact H.
Qed.

Lemma deleteGoal_q_keeps_coherent (E : Env) (i : Id) :
  keeps Coherent (statement E (q_deleteGoal i)).
Proof.
  apply keeps_statement. intros d a d' H [= _ <-].
  unfold Coherent in *. simpl. rewrite Forall_forall in *.
  intros s Hs. apply filter_In in Hs. now apply H.
Qed.

Lemma insertSteps_keeps_coherent (E : Env) (rows : list Step) :
  Forall completionCoherent rows ->
  keeps Coherent (statement E (q_insertSteps rows)).
Proof.
  intros Hr. apply keeps_statement. intros d a d' H Q.
  apply q_insertSteps_inr in Q. destruct Q as (_ & -> & _).
  unfold Coherent in *. simpl. apply Forall_app. now split.
Qed.

Lemma updateStep_q_keeps_coherent (E : Env) (i : Id) (p : StepPatch) :
  patchCoherent p -> keeps Coherent (statement E (q_updateStep i p)).
Proof.
  intros Hp. apply keeps_statement. intros d a d' H Q.
  apply q_updateStep_inr in Q. subst d'.
  unfold Coherent in *. simpl. rewrite Forall_forall in *.
  intros s Hs. apply in_map_iff in Hs. destruct Hs as (s0 & <- & Hs0).
  destruct (stepHasId i s0); [apply patchStep_coherent|]; auto.
Qed.

Lemma deleteStep_q_keeps_coherent (E : Env) (i : Id) :
  keeps Coherent (statement E (q_deleteStep i)).
Proof.
  apply keeps_statement. intros d a d' H [= _ <-].
  unfold Coherent in *. simpl. rewrite Forall_forall in *.
  intros s Hs. apply filter_In in Hs. now apply H.
Qed.

Create HintDb keeps.
#[local] Hint Resolve keeps_ret keeps_throw keeps_rethrowOrWrap keeps_wrapAll
  keeps_freshId keeps_freshIds keeps_transaction
  insertGoal_keeps_coherent updateGoal_q_keeps_coherent deleteGoal_q_keeps_coherent
  deleteStep_q_keeps_coherent stepsToInsert_coherent : keeps.

(** Walks through a call: binds, handlers, branches and statements. *)
Ltac walk :=
  repeat first
    [ apply keeps_catch; [|intros ?]
    | apply keeps_bind; [|intros ?]
    | apply keeps_transaction
    | apply keeps_byKey; intros ?; cbv beta
    | apply reads_keep_coherent
    | apply insertSteps_keeps_coherent
    | apply updateStep_q_keeps_coherent
    | match goal with
      | |- keeps _ (if ?b then _ else _) => destruct b
      | |- keeps _ (match ?o with Some _ => _ | None => _ end) => destruct o
      end
    | solve [auto with keeps] ].

Lemma getGoalById_keeps_coherent (E : Env) (i : Key) :
  keeps Coherent (getGoalById E i).
Proof. unfold getGoalById, q_goalById. walk. Qed.

Lemma createGoal_keeps_coherent (E : Env) chatId userId title description status
  priority deadline createdFromMessageId :
  keeps Coherent (createGoal E chatId userId title description status
                    priority deadline createdFromMessageId).
Proof. unfold createGoal. walk. Qed.

Lemma updateGoal_keeps_coherent (E : Env) id title description status priority deadline :
  keeps Coherent (updateGoal E id title description status priority deadline).
Proof. unfold updateGoal. walk. Qed.

Lemma deleteGoal_keeps_coherent (E : Env) id : keeps Coherent (deleteGoal E id).
Proof. unfold deleteGoal. walk. Qed.

Lemma createStep_keeps_coherent (E : Env) goalId title order :
  keeps Coherent (createStep E goalId title order).
Proof.
  unfold createStep, q_stepOrders. walk.
  all: apply Forall_cons; [|apply Forall_nil].
  all: unfold completionCoherent; simpl; split; [discriminate|congruence].
Qed.

Lemma createSteps_keeps_coherent (E : Env) goalId stepsData :
  keeps Coherent (createSteps E goalId stepsData).
Proof. unfold createSteps, q_stepOrders. walk. Qed.

Lemma updateStep_keeps_coherent (E : Env) id title isCompleted :
  keeps Coherent (updateStep E id title isCompleted).
Proof.
  unfold updateStep, q_stepById. walk.
  unfold patchCoherent. simpl. destruct isCompleted as [b|]; simpl; [|exact I].
  apply completedAtFor_coherent.
Qed.

Lemma renumber_keeps_coherent (E : Env) (rem : list Step) :
  forall i, keeps Coherent (renumber E i rem).
Proof.
  induction rem as [|r rem IH]; intros i; simpl; walk. exact I.
Qed.

Lemma deleteStep_keeps_coherent (E : Env) id : keeps Coherent (deleteStep E id).
Proof.
  unfold deleteStep, q_stepById, q_stepsOfGoal. walk. apply renumber_keeps_coherent.
Qed.

Lemma toggleStepCompletion_keeps_coherent (E : Env) id :
  keeps Coherent (toggleStepCompletion E id).
Proof.
  unfold toggleStepCompletion, q_stepById. walk.
  unfold patchCoherent. simpl. apply completedAtFor_coherent.
Qed.

Lemma createGoalWithSteps_keeps_coherent (E : Env) chatId userId title description
  status priority deadline createdFromMessageId stepsData :
  keeps Coherent (createGoalWithSteps E chatId userId title description
                    status priority deadline createdFromMessageId stepsData).
Proof. unfold createGoalWithSteps. walk. Qed.

Lemma reorderLoop_keeps_coherent (E : Env) goalId (stepOrders : list (Key * Z)) :
  keeps Coherent (reorderLoop E goalId stepOrders).
Proof.
  induction stepOrders as [|[i o] rest IH]; simpl; unfold q_stepByIdOfGoal; walk.
  exact I.
Qed.

Lemma reorderSteps_keeps_coherent (E : Env) goalId stepOrders :
  keeps Coherent (reorderSteps E goalId stepOrders).
Proof. unfold reorderSteps. walk. apply reorderLoop_keeps_coherent. Qed.

Lemma bulkLoop_keeps_coherent (E : Env) goalId (updates : list StepUpdate) :
  keeps Coherent (bulkLoop E goalId updates).
Proof.
  induction updates as [|u rest IH]; simpl; unfold q_stepByIdOfGoal; walk.
  unfold patchCoherent, bulkPatch. simpl.
  destruct (u_isCompleted u) as [b|]; simpl; [|exact I].
  apply completedAtFor_coherent.
Qed.

Lemma bulkUpdateSteps_keeps_coherent (E : Env) goalId updates :
  keeps Coherent (bulkUpdateSteps E goalId updates).
Proof. unfold bulkUpdateSteps. walk. apply bulkLoop_keeps_coherent. Qed.

(** Every call keeps the timestamps coherent. *)
Lemma after_coherent (E : Env) (c : Call) (d : DB) :
  Coherent d -> Coherent (after E c d).
Proof.
  intros H. destruct c; simpl; apply keeps_call; try exact H.
  - apply createGoal_keeps_coherent.
  - apply updateGoal_keeps_coherent.
  - apply deleteGoal_keeps_coherent.
  - apply createStep_keeps_coherent.
  - apply createSteps_keeps_coherent.
  - apply updateStep_keeps_coherent.
  - apply deleteStep_keeps_coherent.
  - apply toggleStepCompletion_keeps_coherent.
  - apply createGoalWithSteps_keeps_coherent.
  - apply reorderSteps_keeps_coherent.
  - apply bulkUpdateSteps_keeps_coherent.
Qed.

End CompletionFacts.

(* ================================================================== *)
(** * Part XIII.  Ordering and renumbering                             *)
(* ================================================================== *)

Module OrderFacts.
Import Store Queries System StoreFacts.

Lemma insertByOrder_perm (s : Step) (l : list Step) :
  Permutation (insertByOrder s l) (s :: l).
Proof.
  induction l as [|t l IH]; simpl; [reflexivity|].
  destruct (s_order s <=? s_order t)%Z; [reflexivity|].
  rewrite IH. apply perm_swap.
Qed.

Lemma sortByOrder_perm (l : list Step) : Permutation (sortByOrder l) l.
Proof.
  induction l as [|s l IH]; simpl; [reflexivity|].
  rewrite insertByOrder_perm. now apply perm_skip.
Qed.

Lemma insertByOrder_sorted (s : Step) (l : list Step) :
  StronglySorted orderLe l -> StronglySorted orderLe (insertByOrder s l).
Proof.
  induction l as [|t l IH]; simpl; intros H.
  - constructor; constructor.
  - destruct (s_order s <=? s_order t)%Z eqn:C.
    + apply Z.leb_le in C. constructor; [exact H|].
      constructor; [exact C|].
      apply StronglySorted_inv in H. destruct H as [_ H].
      eapply Forall_impl; [|exact H]. unfold orderLe. intros; lia.
    + apply Z.leb_gt in C. apply StronglySorted_inv in H. destruct H as [H1 H2].
      constructor; [now apply IH|].
      rewrite Forall_forall. intros y Hy.
      apply (Permutation_in _ (insertByOrder_perm s l)) in Hy.
      destruct Hy as [<-|Hy].
      * unfold orderLe. lia.
      * rewrite Forall_forall in H2. now apply H2.
Qed.

Lemma sortByOrder_sorted (l : list Step) : StronglySorted orderLe (sortByOrder l).
Proof.
  induction l as [|s l IH]; simpl; [constructor|].
  now apply insertByOrder_sorted.
Qed.

(** Insertion sort is one of the ways a store may sort. *)
Lemma sortByOrder_sorts : SortsByOrder sortByOrder.
Proof.
  intros l. split; [apply sortByOrder_perm|apply sortByOrder_sorted].
Qed.

(** A list in ascending order that rearranges a list in strictly
    ascending order is that list. *)
Lemma sorted_unique (L : list Step) :
  StronglySorted orderLt L ->
  forall S, StronglySorted orderLe S -> Permutation S L -> S = L.
Proof.
  induction L as [|a L IH]; intros HL S HS P.
  - now apply Permutation_nil.
  - destruct S as [|b S].
    + apply Permutation_nil in P. discriminate.
    + apply StronglySorted_inv in HL. destruct HL as [HL1 HL2].
      apply StronglySorted_inv in HS. destruct HS as [HS1 HS2].
      rewrite Forall_forall in HL2, HS2.
      assert (b = a) as ->.
      { assert (Ha : In a (b :: S))
          by (apply (Permutation_in _ (Permutation_sym P)); now left).
        assert (Hb : In b (a :: L))
          by (apply (Permutation_in _ P); now left).
        destruct Hb as [Hb|Hb]; [now symmetry|].
        destruct Ha as [Ha|Ha]; [exact Ha|].
        apply HL2 in Hb. apply HS2 in Ha. unfold orderLt, orderLe in *. lia. }
      f_equal. apply IH; [exact HL1|exact HS1|].
      now apply Permutation_cons_inv in P.
Qed.

Lemma withSteps_same (d : DB) : withSteps d (stepTable d) = d.
Proof. now destruct d. Qed.

Lemma withSteps_twice (d : DB) (a b : list Step) :
  withSteps (withSteps d a) b = withSteps d b.
Proof. reflexivity. Qed.

Lemma stepHasId_true (i : Id) (s : Step) : stepHasId i s = true <-> s_id s = i.
Proof. unfold stepHasId. apply N.eqb_eq. Qed.

Lemma stepHasId_false (i : Id) (s : Step) : stepHasId i s = false <-> s_id s <> i.
Proof. unfold stepHasId. apply N.eqb_neq. Qed.

Lemma indexOf_None (i : Id) (l : list Step) :
  indexOf i l = None <-> ~ In i (map s_id l).
Proof.
  induction l as [|r l IH]; simpl; [tauto|].
  destruct (stepHasId i r) eqn:C.
  - apply stepHasId_true in C. split; [discriminate|]. intros H. exfalso. auto.
  - apply stepHasId_false in C.
    destruct (indexOf i l); simpl.
    + split; [discriminate|]. intros H.
      assert (Hn : ~ In i (map s_id l)) by tauto.
      apply IH in Hn. discriminate.
    + split; [|reflexivity]. intros _ [H|H]; [congruence|].
      revert H. now apply IH.
Qed.

(** Selecting rows keeps their ids distinct. *)
Lemma ids_distinct_filter (p : Step -> bool) (l : list Step) :
  NoDup (map s_id l) -> NoDup (map s_id (filter p l)).
Proof.
  induction l as [|a l IH]; simpl; intros H; [constructor|].
  apply NoDup_cons_iff in H. destruct H as [H1 H2].
  destruct (p a); simpl; [|now apply IH].
  constructor; [|now apply IH].
  intros Hin. apply H1. apply in_map_iff in Hin.
  destruct Hin as (x & Hx & Hin). apply filter_In in Hin.
  apply in_map_iff. exists x. tauto.
Qed.

(** Two rows of a table with distinct ids that share an id are one row. *)
Lemma same_id_same_row (l : list Step) (a b : Step) :
  NoDup (map s_id l) -> In a l -> In b l -> s_id a = s_id b -> a = b.
Proof.
  induction l as [|x l IH]; simpl; intros H Ha Hb E; [contradiction|].
  apply NoDup_cons_iff in H. destruct H as [H1 H2].
  destruct Ha as [->|Ha], Hb as [->|Hb]; auto.
  - exfalso. apply H1. rewrite E. now apply in_map.
  - exfalso. apply H1. rewrite <- E. now apply in_map.
Qed.

Lemma withOrder_id (o : Z) (s : Step) : s_id (withOrder o s) = s_id s.
Proof. reflexivity. Qed.

Lemma withOrder_goal (o : Z) (s : Step) : s_goalId (withOrder o s) = s_goalId s.
Proof. reflexivity. Qed.

Lemma relabel_id (i : Z) (R : list Step) (s : Step) :
  s_id (relabel i R s) = s_id s.
Proof. unfold relabel. now destruct (indexOf (s_id s) R). Qed.

Lemma relabel_goal (i : Z) (R : list Step) (s : Step) :
  s_goalId (relabel i R s) = s_goalId s.
Proof. unfold relabel. now destruct (indexOf (s_id s) R). Qed.

(** The renumbering loop gives every row listed in [R] its position. *)
Lemma renumberRows_relabel (R : list Step) :
  NoDup (map s_id R) ->
  forall i T, renumberRows i R T = map (relabel i R) T.
Proof.
  induction R as [|r R IH]; intros ND i T; simpl.
  - unfold relabel. simpl. now rewrite map_id.
  - apply NoDup_cons_iff in ND. destruct ND as [N1 N2].
    rewrite IH by exact N2. rewrite map_map. apply map_ext. intros s.
    unfold relabel at 2. simpl.
    destruct (stepHasId (s_id r) s) eqn:C.
    + apply stepHasId_true in C.
      assert (C' : stepHasId (s_id s) r = true) by now apply stepHasId_true.
      rewrite C'. unfold relabel. rewrite withOrder_id.
      rewrite C. apply indexOf_None in N1. rewrite N1.
      now rewrite Z.add_0_r.
    + apply stepHasId_false in C.
      assert (C' : stepHasId (s_id s) r = false)
        by (apply stepHasId_false; congruence).
      rewrite C'. unfold relabel.
      destruct (indexOf (s_id s) R); simpl; [|reflexivity].
      f_equal. lia.
Qed.

Lemma relabel_self (R : list Step) :
  NoDup (map s_id R) -> forall i, map (relabel i R) R = reindex i R.
Proof.
  induction R as [|r R IH]; intros ND i; simpl; [reflexivity|].
  apply NoDup_cons_iff in ND. destruct ND as [N1 N2].
  f_equal.
  - unfold relabel. simpl.
    assert (C : stepHasId (s_id r) r = true) by now apply stepHasId_true.
    rewrite C. now rewrite Z.add_0_r.
  - rewrite <- IH by exact N2. apply map_ext_in. intros s Hs.
    unfold relabel. simpl.
    assert (C : stepHasId (s_id s) r = false).
    { apply stepHasId_false. intros E. apply N1. rewrite E. now apply in_map. }
    rewrite C. destruct (indexOf (s_id s) R); simpl; [|reflexivity].
    f_equal. lia.
Qed.

Lemma filter_map_relabel (g : Id) (i : Z) (R T : list Step) :
  filter (stepOfGoal g) (map (relabel i R) T) =
  map (relabel i R) (filter (stepOfGoal g) T).
Proof.
  induction T as [|s T IH]; simpl; [reflexivity|].
  unfold stepOfGoal at 1. rewrite relabel_goal. fold (stepOfGoal g s).
  destruct (stepOfGoal g s); simpl; now rewrite IH.
Qed.

Lemma reindex_lower (R : list Step) :
  forall i s, In s (reindex i R) -> (i <= s_order s)%Z.
Proof.
  induction R as [|r R IH]; intros i s; simpl; [contradiction|].
  intros [<-|H]; [simpl; lia|]. apply IH in H. lia.
Qed.

Lemma reindex_sorted (R : list Step) :
  forall i, StronglySorted orderLt (reindex i R).
Proof.
  induction R as [|r R IH]; intros i; simpl; constructor; [apply IH|].
  rewrite Forall_forall. intros s Hs. apply reindex_lower in Hs.
  unfold orderLt. simpl. lia.
Qed.

Lemma reindex_orders (R : list Step) :
  forall k, map s_order (reindex (Z.of_nat k) R) =
            map Z.of_nat (seq k (length R)).
Proof.
  induction R as [|r R IH]; intros k; simpl; [reflexivity|].
  f_equal. rewrite <- IH. do 2 f_equal. lia.
Qed.

Lemma reindex_ids (R : list Step) :
  forall i, map s_id (reindex i R) = map s_id R.
Proof.
  induction R as [|r R IH]; intros i; simpl; [reflexivity|]. now rewrite IH.
Qed.

(** After the loop the goal has the rows of [R], renumbered. *)
Lemma renumbered_rows (g : Id) (T R : list Step) :
  NoDup (map s_id T) -> Permutation R (filter (stepOfGoal g) T) ->
  Permutation (filter (stepOfGoal g) (renumberRows 0 R T)) (reindex 0 R).
Proof.
  intros ND PR.
  assert (NR : NoDup (map s_id R)).
  { eapply Permutation_NoDup.
    - apply Permutation_map, Permutation_sym, PR.
    - now apply ids_distinct_filter. }
  rewrite renumberRows_relabel by exact NR.
  rewrite filter_map_relabel, <- relabel_self by exact NR.
  apply Permutation_map, Permutation_sym, PR.
Qed.

(** After the loop, every reading of the goal's steps in ascending order
    gives the rows of [R] in the sequence of [R], numbered from zero. *)
Lemma renumbered_goal (g : Id) (T R reading : list Step) :
  NoDup (map s_id T) -> Permutation R (filter (stepOfGoal g) T) ->
  Permutation reading (filter (stepOfGoal g) (renumberRows 0 R T)) ->
  StronglySorted orderLe reading ->
  reading = reindex 0 R.
Proof.
  intros ND PR P S. apply sorted_unique.
  - apply reindex_sorted.
  - exact S.
  - rewrite P. now apply renumbered_rows.
Qed.

(** The loop leaves the rows of every other goal as they were. *)
Lemma renumbered_others (g h : Id) (T R : list Step) :
  NoDup (map s_id T) -> Permutation R (filter (stepOfGoal g) T) -> h <> g ->
  filter (stepOfGoal h) (renumberRows 0 R T) = filter (stepOfGoal h) T.
Proof.
  intros ND PR Hh.
  assert (NR : NoDup (map s_id R)).
  { eapply Permutation_NoDup.
    - apply Permutation_map, Permutation_sym, PR.
    - now apply ids_distinct_filter. }
  rewrite renumberRows_relabel, filter_map_relabel by exact NR.
  rewrite <- (map_id (filter (stepOfGoal h) T)) at 2.
  apply map_ext_in. intros s Hs. apply filter_In in Hs. destruct Hs as [Hs Hg].
  unfold relabel. destruct (indexOf (s_id s) R) eqn:Ix; [|reflexivity].
  exfalso.
  assert (Hin : In (s_id s) (map s_id R)).
  { destruct (in_dec N.eq_dec (s_id s) (map s_id R)) as [Y|Y]; [exact Y|].
    apply indexOf_None in Y. congruence. }
  apply in_map_iff in Hin. destruct Hin as (r & Er & Hr).
  apply (Permutation_in _ PR) in Hr. apply filter_In in Hr.
  destruct Hr as [Hr Hrg].
  assert (r = s) by (apply (@same_id_same_row T r s ND Hr Hs Er)). subst r.
  unfold stepOfGoal in *. apply N.eqb_eq in Hg, Hrg. congruence.
Qed.

End OrderFacts.

(* ================================================================== *)
(** * Part XIV.  Deleting a step                                       *)
(* ================================================================== *)

Module DeleteFacts.
Import Store Queries System StoreFacts OrderFacts Actions.

Ltac inv_bind H :=
  let a := fresh "a" in
  let w := fresh "w" in
  let H1 := fresh "S" in
  apply bind_inr in H; destruct H as (a & w & H1 & H).

Lemma renumber_inr (E : Env) (rem : list Step) :
  forall i w w' u,
  renumber E i rem w = (inr u, w') ->
  db w' = withSteps (db w) (renumberRows i rem (stepTable (db w))).
Proof.
  induction rem as [|r rem IH]; intros i w w' u; simpl.
  - intros [= _ <-]. now rewrite withSteps_same.
  - intros H. inv_bind H. apply statement_inr in S. destruct S as (S & _).
    apply q_updateStep_inr in S. apply IH in H. rewrite H, S. reflexivity.
Qed.

Lemma renumber_ok (E : Env) (rem : list Step) :
  fault E = None ->
  forall i w, (0 <= i)%Z -> (i + Z.of_nat (length rem) <= 2147483648)%Z ->
  renumber E i rem w =
  (inr tt, mkWorld (withSteps (db w) (renumberRows i rem (stepTable (db w))))
                   (issued w + length rem) (drawn w)).
Proof.
  intros F. induction rem as [|r rem IH]; intros i w Hi Hn; simpl.
  - unfold ret. rewrite withSteps_same, Nat.add_0_r. now destruct w.
  - unfold bind. rewrite statement_ok by exact F.
    unfold q_updateStep. simpl.
    assert (R : int4 i = true).
    { unfold int4. apply andb_true_iff. split; apply Z.leb_le;
        simpl length in Hn; lia. }
    rewrite R. simpl. rewrite IH; simpl length in *; try lia.
    simpl. do 2 f_equal. f_equal. lia.
Qed.

Lemma deleteStep_inr (E : Env) (id : Id) (w w' : World) (r : option Step) :
  deleteStep E id w = (inr r, w') ->
  match find (stepHasId id) (stepTable (db w)) with
  | None => r = None /\ db w' = db w
  | Some x => r = Some x /\ db w' = afterDelete (orderBy E) id x (db w)
  end.
Proof.
  unfold deleteStep, catch.
  destruct (transaction E _ w) as [[e|a] w1] eqn:T; [discriminate|].
  intros [= -> ->]. apply transaction_inr in T.
  destruct T as (w2 & B & ->).
  inv_bind B. apply statement_inr in S. destruct S as (S & _).
  unfold q_stepById in S. injection S as Ha Hd. subst a.
  destruct (find (stepHasId id) (stepTable (db w))) as [x|].
  - inv_bind B. apply statement_inr in S. destruct S as (S & _).
    unfold q_deleteStep in S. injection S as _ Hd1.
    inv_bind B. apply statement_inr in S. destruct S as (S & _).
    unfold q_stepsOfGoal in S. injection S as Ha Hd2. subst a0.
    inv_bind B. apply renumber_inr in S.
    unfold ret in B. injection B as Hr Hw. subst r w2.
    split; [reflexivity|].
    rewrite S, <- Hd2, <- Hd1, <- Hd. reflexivity.
  - unfold ret in B. injection B as Hr Hw. subst r w2. now split.
Qed.

(** Whatever goes wrong, nothing is written and one error comes back. *)
Lemma deleteStep_inl (E : Env) (id : Key) (w w' : World) (e : Exn) :
  deleteStep E id w = (inl e, w') ->
  db w' = db w /\ e = ChatSDKError bad_request_database "Failed to delete step".
Proof.
  unfold deleteStep, catch.
  destruct (transaction E _ w) as [[e1|a] w1] eqn:T; [|discriminate].
  unfold wrapAll, throw. intros [= <- <-].
  apply transaction_inl in T. now split.
Qed.

Lemma deleteStep_ok (E : Env) (id : Id) (w : World) :
  SortsByOrder (orderBy E) ->
  fault E = None ->
  (Z.of_nat (length (stepTable (db w))) <= 2147483648)%Z ->
  exists r w', deleteStep E id w = (inr r, w').
Proof.
  intros OB F L. unfold deleteStep, catch, byKey.
  assert (B : exists r w1,
    (found <- statement E (q_stepById id) ;;
     match found with
     | None => ret None
     | Some deletedStep =>
         statement E (q_deleteStep id) ;;
         remainingSteps <-
           statement E
             (q_stepsOfGoal (orderBy E) (s_goalId deletedStep)) ;;
         renumber E 0%Z remainingSteps ;;
         ret (Some deletedStep)
     end) w = (inr r, w1)).
  { unfold bind at 1. rewrite statement_ok by exact F. simpl.
    destruct (find (stepHasId id) (stepTable (db w))) as [x|].
    - unfold bind. rewrite statement_ok by exact F. simpl.
      rewrite statement_ok by exact F. simpl.
      rewrite renumber_ok; [simpl; unfold ret; eauto|exact F|lia|].
      simpl.
      rewrite (Permutation_length (proj1 (OB _))).
      pose proof (filter_length_le (stepOfGoal (s_goalId x))
        (filter (fun s => negb (stepHasId id s)) (stepTable (db w)))).
      pose proof (filter_length_le (fun s => negb (stepHasId id s))
        (stepTable (db w))).
      lia.
    - unfold ret. eauto. }
  destruct B as (r & w1 & B).
  rewrite (@transaction_ok E _ _ _ _ _ F B). eauto.
Qed.

Lemma find_stepHasId (id : Id) (l : list Step) (x : Step) :
  find (stepHasId id) l = Some x -> In x l /\ s_id x = id.
Proof.
  intros H. apply find_some in H. destruct H as [H1 H2].
  split; [exact H1|]. now apply stepHasId_true.
Qed.

Lemma renumberRows_ids (R : list Step) :
  forall i T, map s_id (renumberRows i R T) = map s_id T.
Proof.
  induction R as [|r R IH]; intros i T; simpl; [reflexivity|].
  rewrite IH, map_map. apply map_ext. intros s.
  now destruct (stepHasId (s_id r) s).
Qed.

Lemma afterDelete_ids (sort : list Step -> list Step) (id : Id) (x : Step)
  (d : DB) :
  map s_id (stepTable (afterDelete sort id x d)) =
  map s_id (filter (fun s => negb (stepHasId id s)) (stepTable d)).
Proof.
  unfold afterDelete. simpl. apply renumberRows_ids.
Qed.

Lemma filter_other_goal (id h : Id) (x : Step) (l : list Step) :
  NoDup (map s_id l) -> In x l -> s_id x = id -> h <> s_goalId x ->
  filter (stepOfGoal h) (filter (fun s => negb (stepHasId id s)) l) =
  filter (stepOfGoal h) l.
Proof.
  intros ND Hx Hid Hh.
  assert (K : forall s, In s l -> stepOfGoal h s = true ->
                        negb (stepHasId id s) = true).
  { intros s Hs Hg. destruct (stepHasId id s) eqn:C; [|reflexivity].
    apply stepHasId_true in C.
    assert (s = x) by (apply (@same_id_same_row l s x ND Hs Hx); congruence).
    subst s. unfold stepOfGoal in Hg. apply N.eqb_eq in Hg. congruence. }
  clear ND Hx. induction l as [|s l IH]; simpl; [reflexivity|].
  assert (IH' := IH (fun s0 H0 => K s0 (or_intror H0))).
  destruct (stepHasId id s) eqn:C; simpl.
  - destruct (stepOfGoal h s) eqn:G; [|exact IH'].
    specialize (K s (or_introl eq_refl) G). rewrite C in K. discriminate.
  - now rewrite IH'.
Qed.

End DeleteFacts.

(* ================================================================== *)
(** * Part XV.  Goal titles                                            *)
(* ================================================================== *)

Module TitleFacts.
Import Store Queries System StoreFacts.

Lemma reads_keep_titled (E : Env) (A : Type) (f : DB -> A) :
  keeps Titled (statement E (fun d => (inr (f d), d))).
Proof. apply keeps_read. Qed.

Lemma insertGoal_keeps_titled (E : Env) (row : Goal) :
  titled row -> keeps Titled (statement E (q_insertGoal row)).
Proof.
  intros Hr. apply keeps_statement. intros d a d' H Q.
  apply q_insertGoal_inr in Q. destruct Q as (_ & -> & _).
  unfold Titled in *. simpl. apply Forall_app. split; [exact H|].
  now constructor.
Qed.

Lemma updateGoal_q_keeps_titled (E : Env) (i : Id) (p : GoalPatch) :
  (forall t, gp_title p = Some t -> blank t = false) ->
  keeps Titled (statement E (q_updateGoal i p)).
Proof.
  intros Hp. apply keeps_statement. intros d a d' H Q.
  apply q_updateGoal_inr in Q. subst d'.
  unfold Titled in *. simpl. rewrite Forall_forall in *.
  intros g Hg. apply in_map_iff in Hg. destruct Hg as (g0 & <- & Hg0).
  destruct (goalHasId i g0); [|now apply H].
  unfold titled, patchGoal. simpl.
  destruct (gp_title p) as [t|]; simpl; [now apply Hp|now apply H].
Qed.

Lemma deleteGoal_q_keeps_titled (E : Env) (i : Id) :
  keeps Titled (statement E (q_deleteGoal i)).
Proof.
  apply keeps_statement. intros d a d' H [= _ <-].
  unfold Titled in *. simpl. rewrite Forall_forall in *.
  intros s Hs. apply filter_In in Hs. now apply H.
Qed.

Lemma insertSteps_keeps_titled (E : Env) (rows : list Step) :
  keeps Titled (statement E (q_insertSteps rows)).
Proof.
  apply keeps_statement. intros d a d' H Q.
  apply q_insertSteps_inr in Q. destruct Q as (_ & -> & _). exact H.
Qed.

Lemma updateStep_q_keeps_titled (E : Env) (i : Id) (p : StepPatch) :
  keeps Titled (statement E (q_updateStep i p)).
Proof.
  apply keeps_statement. intros d a d' H Q.
  apply q_updateStep_inr in Q. subst d'. exact H.
Qed.

Lemma deleteStep_q_keeps_titled (E : Env) (i : Id) :
  keeps Titled (statement E (q_deleteStep i)).
Proof.
  apply keeps_statement. intros d a d' H [= _ <-]. exact H.
Qed.

Create HintDb titles.
#[local] Hint Resolve keeps_ret keeps_throw keeps_rethrowOrWrap keeps_wrapAll
  keeps_freshId keeps_freshIds deleteGoal_q_keeps_titled insertSteps_keeps_titled
  updateStep_q_keeps_titled deleteStep_q_keeps_titled : titles.

Ltac walk :=
  repeat first
    [ apply keeps_catch; [|intros ?]
    | apply keeps_bind; [|intros ?]
    | apply keeps_transaction
    | apply keeps_byKey; intros ?; cbv beta
    | apply reads_keep_titled
    | match goal with
      | |- keeps _ (if ?b then _ else _) => destruct b eqn:?
      | |- keeps _ (match ?o with Some _ => _ | None => _ end) => destruct o
      end
    | solve [auto with titles] ].

Lemma createGoal_keeps_titled (E : Env) chatId userId title description status
  priority deadline createdFromMessageId :
  keeps Titled (createGoal E chatId userId title description status
                  priority deadline createdFromMessageId).
Proof. unfold createGoal. walk. now apply insertGoal_keeps_titled. Qed.

Lemma updateGoal_keeps_titled (E : Env) id title description status priority deadline :
  keeps Titled (updateGoal E id title description status priority deadline).
Proof.
  unfold updateGoal, getGoalById, q_goalById. walk.
  apply updateGoal_q_keeps_titled. simpl. intros t ->. assumption.
Qed.

Lemma deleteGoal_keeps_titled (E : Env) id : keeps Titled (deleteGoal E id).
Proof. unfold deleteGoal. walk. Qed.

Lemma createStep_keeps_titled (E : Env) goalId title order :
  keeps Titled (createStep E goalId title order).
Proof. unfold createStep, getGoalById, q_goalById, q_stepOrders. walk. Qed.

Lemma createSteps_keeps_titled (E : Env) goalId stepsData :
  keeps Titled (createSteps E goalId stepsData).
Proof. unfold createSteps, q_stepOrders. walk. Qed.

Lemma updateStep_keeps_titled (E : Env) id title isCompleted :
  keeps Titled (updateStep E id title isCompleted).
Proof. unfold updateStep, q_stepById. walk. Qed.

Lemma renumber_keeps_titled (E : Env) (rem : list Step) :
  forall i, keeps Titled (renumber E i rem).
Proof. induction rem as [|r rem IH]; intros i; simpl; walk. Qed.

Lemma deleteStep_keeps_titled (E : Env) id : keeps Titled (deleteStep E id).
Proof.
  unfold deleteStep, q_stepById, q_stepsOfGoal. walk. apply renumber_keeps_titled.
Qed.

Lemma toggleStepCompletion_keeps_titled (E : Env) id :
  keeps Titled (toggleStepCompletion E id).
Proof. unfold toggleStepCompletion, q_stepById. walk. Qed.

Lemma createGoalWithSteps_keeps_titled (E : Env) chatId userId title description
  status priority deadline createdFromMessageId stepsData :
  blank title = false ->
  keeps Titled (createGoalWithSteps E chatId userId title description
                  status priority deadline createdFromMessageId stepsData).
Proof. intros B. unfold createGoalWithSteps. walk. now apply insertGoal_keeps_titled. Qed.

Lemma reorderLoop_keeps_titled (E : Env) goalId (stepOrders : list (Key * Z)) :
  keeps Titled (reorderLoop E goalId stepOrders).
Proof.
  induction stepOrders as [|[i o] rest IH]; simpl; unfold q_stepByIdOfGoal; walk.
Qed.

Lemma reorderSteps_keeps_titled (E : Env) goalId stepOrders :
  keeps Titled (reorderSteps E goalId stepOrders).
Proof. unfold reorderSteps. walk. apply reorderLoop_keeps_titled. Qed.

Lemma bulkLoop_keeps_titled (E : Env) goalId (updates : list StepUpdate) :
  keeps Titled (bulkLoop E goalId updates).
Proof.
  induction updates as [|u rest IH]; simpl; unfold q_stepByIdOfGoal; walk.
Qed.

Lemma bulkUpdateSteps_keeps_titled (E : Env) goalId updates :
  keeps Titled (bulkUpdateSteps E goalId updates).
Proof. unfold bulkUpdateSteps. walk. apply bulkLoop_keeps_titled. Qed.

(** Every call keeps the goal titles non-blank, [createGoalWithSteps]
    provided it is given such a title. *)
Lemma after_titled (E : Env) (c : Call) (d : DB) :
  titleSupplied c -> Titled d -> Titled (after E c d).
Proof.
  intros Hc H. destruct c; simpl; apply keeps_call; try exact H.
  - apply createGoal_keeps_titled.
  - apply updateGoal_keeps_titled.
  - apply deleteGoal_keeps_titled.
  - apply createStep_keeps_titled.
  - apply createSteps_keeps_titled.
  - apply updateStep_keeps_titled.
  - apply deleteStep_keeps_titled.
  - apply toggleStepCompletion_keeps_titled.
  - now apply createGoalWithSteps_keeps_titled.
  - apply reorderSteps_keeps_titled.
  - apply bulkUpdateSteps_keeps_titled.
Qed.

Lemma createGoal_blank (E : Env) (d : DB) chatId userId title description
  status priority deadline createdFromMessageId :
  blank title = true ->
  call (createGoal E chatId userId title description status priority
          deadline createdFromMessageId) d
  = (inl (ChatSDKError bad_request_goal "Title cannot be empty"), d).
Proof.
  intros B. unfold call, createGoal, catch. now rewrite B.
Qed.

Lemma updateGoal_blank (E : Env) (d : DB) (id : Key) title description
  status priority deadline :
  blank title = true ->
  call (updateGoal E id (Some title) description status priority deadline) d
  = (inl (match fault E, id with
          | Some 0, _ | _, Other _ =>
              ChatSDKError bad_request_database "Failed to get goal by id"
          | _, Uuid i =>
              match find (goalHasId i) (goalTable d) with
              | Some _ =>
                  ChatSDKError bad_request_goal "Title cannot be empty"
              | None => ChatSDKError not_found_goal "Goal not found"
              end
          end), d).
Proof.
  intros B.
  unfold call, updateGoal, getGoalById, catch, bind, statement,
    q_goalById.
  simpl.
  destruct (fault E) as [[|f]|]; destruct id as [i|text]; simpl;
    try reflexivity;
    destruct (find (goalHasId i) (goalTable d)); simpl;
    rewrite ?B; reflexivity.
Qed.

End TitleFacts.

(* ================================================================== *)
(** * Part XVI.  Creating a goal with its steps                         *)
(* ================================================================== *)

Module IngestFacts.
Import Store Queries System StoreFacts.

Lemma stepsToInsert_nth (g : Id) (t : Time) (ids : list Id)
  (sds : list StepInput) (os : list Z) :
  forall k i sd o,
  nth_error ids k = Some i -> nth_error sds k = Some sd ->
  nth_error os k = Some o ->
  nth_error (stepsToInsert g t ids sds os) k =
  Some (mkStep i g (si_title sd) false o None t).
Proof.
  revert sds os. induction ids as [|i0 ids IH]; intros sds os [|k] i sd o;
    simpl; try discriminate.
  - destruct sds, os; simpl; try discriminate. now intros [= ->] [= ->] [= ->].
  - destruct sds, os; simpl; try discriminate. apply IH.
Qed.

Lemma stepsToInsert_length (g : Id) (t : Time) (ids : list Id)
  (sds : list StepInput) (os : list Z) :
  length ids = length sds -> length os = length sds ->
  length (stepsToInsert g t ids sds os) = length sds.
Proof.
  revert sds os. induction ids as [|i0 ids IH]; intros [|sd sds] [|o os];
    simpl; try discriminate; try reflexivity.
  intros [= H1] [= H2]. now rewrite IH.
Qed.

Lemma indexOrders_length (sds : list StepInput) :
  forall i, length (indexOrders i sds) = length sds.
Proof.
  induction sds as [|sd sds IH]; intros i; simpl; [reflexivity|].
  now rewrite IH.
Qed.

Lemma indexOrders_nth (sds : list StepInput) :
  forall i k sd, nth_error sds k = Some sd ->
  nth_error (indexOrders i sds) k =
  Some (orElse (si_order sd) (i + Z.of_nat k)%Z).
Proof.
  induction sds as [|sd0 sds IH]; intros i [|k] sd; simpl; try discriminate.
  - intros [= ->]. now rewrite Z.add_0_r.
  - intros H. rewrite (IH _ _ _ H). do 2 f_equal. lia.
Qed.

Lemma ids_nth (E : Env) (a n k : nat) :
  k < n -> nth_error (map (uuid E) (seq a n)) k = Some (uuid E (a + k)).
Proof.
  intros H. rewrite nth_error_map, nth_error_seq.
  destruct (Nat.ltb_spec k n); [reflexivity|lia].
Qed.

Lemma stepsToInsert_ids (g : Id) (t : Time) (ids : list Id)
  (sds : list StepInput) (os : list Z) :
  length ids = length sds -> length os = length sds ->
  map s_id (stepsToInsert g t ids sds os) = ids.
Proof.
  revert sds os. induction ids as [|i0 ids IH]; intros [|sd sds] [|o os];
    simpl; try discriminate; try reflexivity.
  intros [= H1] [= H2]. now rewrite IH.
Qed.

Lemma stepsToInsert_In (g : Id) (t : Time) (ids : list Id)
  (sds : list StepInput) (os : list Z) (s : Step) :
  In s (stepsToInsert g t ids sds os) ->
  exists i sd o, In i ids /\ In sd sds /\ In o os /\
                 s = mkStep i g (si_title sd) false o None t.
Proof.
  revert sds os. induction ids as [|i0 ids IH]; intros [|sd sds] [|o os];
    simpl; try contradiction.
  intros [<-|H].
  - exists i0, sd, o. repeat split; now left.
  - destruct (IH _ _ H) as (i & sd' & o' & Hi & Hsd & Ho & ->).
    exists i, sd', o'. repeat split; now right.
Qed.

(** An insertion of rows that break no constraint goes through. *)
Lemma q_insertSteps_ok (rows : list Step) (d : DB) :
  rows <> [] ->
  distinct (map s_id rows) = true ->
  (forall s, In s rows -> hasKey (s_id s) (map s_id (stepTable d)) = false) ->
  (forall s, In s rows -> hasKey (s_goalId s) (map g_id (goalTable d)) = true) ->
  (forall s, In s rows -> int4 (s_order s) = true) ->
  (forall s, In s rows -> hasNul (s_title s) = false) ->
  q_insertSteps rows d = (inr rows, withSteps d (stepTable d ++ rows)).
Proof.
  intros NE D K G O T.
  destruct rows as [|r rows]; [congruence|].
  assert (X1 : existsb (fun s => hasKey (s_id s) (map s_id (stepTable d)))
                 (r :: rows) = false).
  { destruct (existsb _ (r :: rows)) eqn:X; [|reflexivity].
    apply existsb_exists in X. destruct X as (s & Hs & Hk).
    now rewrite (K _ Hs) in Hk. }
  assert (X2 : forallb (fun s => hasKey (s_goalId s) (map g_id (goalTable d)))
                 (r :: rows) = true)
    by (apply forallb_forall; exact G).
  assert (X3 : forallb (fun s => int4 (s_order s)) (r :: rows) = true)
    by (apply forallb_forall; exact O).
  assert (X4 : existsb (fun s => hasNul (s_title s)) (r :: rows) = false).
  { destruct (existsb (fun s => hasNul (s_title s)) (r :: rows)) eqn:X;
      [|reflexivity].
    apply existsb_exists in X. destruct X as (s & Hs & Hk).
    now rewrite (T _ Hs) in Hk. }
  unfold q_insertSteps. rewrite D, X1, X2, X3, X4. reflexivity.
Qed.

(** Whatever [createGoalWithSteps] throws, nothing was written, and the
    error is the database error with the message of what went wrong. *)
Lemma createGoalWithSteps_inl (E : Env) (chatId userId : Key)
  (title : string) (description : option string)
  (status priority : option string) (deadline : option Time)
  (createdFromMessageId : option Id) (stepsData : list StepInput)
  (w w' : World) (e : Exn) :
  createGoalWithSteps E chatId userId title description status priority
    deadline createdFromMessageId stepsData w = (inl e, w') ->
  db w' = db w /\
  exists m, e = ChatSDKError bad_request_database
                  ("Failed to create goal with steps: " ++ m).
Proof.
  unfold createGoalWithSteps, catch.
  destruct (transaction E _ w) as [[e1|a] w1] eqn:T; [|discriminate].
  unfold throw. intros [= <- <-].
  apply transaction_inl in T. split; [exact T|].
  eexists. reflexivity.
Qed.

Section Ingest.
Variables (E : Env) (chatId userId : Id) (title : string)
  (description : option string) (status priority : option string)
  (deadline : option Time) (createdFromMessageId : option Id)
  (stepsData : list StepInput).

Lemma createGoalWithSteps_inr (w w' : World) (g : Goal) (created : list Step) :
  createGoalWithSteps E chatId userId title description status priority
    deadline createdFromMessageId stepsData w = (inr (g, created), w') ->
  g = mkGoal (uuid E (drawn w)) chatId userId createdFromMessageId title
        description (orElse status "not_started"%string)
        (orElse priority "medium"%string) deadline (now E) /\
  created = stepsToInsert (g_id g) (now E)
              (map (uuid E) (seq (S (drawn w)) (length stepsData)))
              stepsData (indexOrders 0 stepsData) /\
  db w' = withSteps (withGoals (db w) (goalTable (db w) ++ [g]))
            (stepTable (db w) ++ created).
Proof.
  unfold createGoalWithSteps, catch.
  destruct (transaction E _ w) as [[e|a] w1] eqn:T; [discriminate|].
  intros [= -> ->]. apply transaction_inr in T. destruct T as (w2 & B & ->).
  apply bind_inr in B. destruct B as (i & w3 & S1 & B).
  unfold freshId in S1. injection S1 as <- <-.
  apply bind_inr in B. destruct B as (g0 & w4 & S2 & B).
  apply statement_inr in S2. destruct S2 as (S2 & _ & D4 & _).
  apply q_insertGoal_inr in S2. destruct S2 as (-> & G4 & _).
  apply bind_inr in B. destruct B as (ids & w5 & S3 & B).
  rewrite freshIds_run in S3. injection S3 as <- <-.
  apply bind_inr in B. destruct B as (rows & w6 & S4 & B).
  apply statement_inr in S4. destruct S4 as (S4 & _).
  apply q_insertSteps_inr in S4. destruct S4 as (-> & D6 & _).
  unfold ret in B. injection B as <- <- <-.
  simpl in *. rewrite D4 in D6 |- *. simpl.
  split; [reflexivity|]. split; [reflexivity|].
  rewrite D6, G4. reflexivity.
Qed.

(** When the store does not fail and the rows break no constraint, the
    call returns the goal and the steps it has inserted. *)
Lemma createGoalWithSteps_ok (d : DB) :
  fault E = None ->
  hasNul title = false -> someHasNul description = false ->
  someHasNul status = false -> someHasNul priority = false ->
  hasKey (uuid E 0) (map g_id (goalTable d)) = false ->
  hasKey chatId (map c_id (chatTable d)) = true ->
  hasKey userId (userTable d) = true ->
  (forall m, createdFromMessageId = Some m ->
             hasKey m (messageTable d) = true) ->
  stepsData <> [] ->
  distinct (map (uuid E) (seq 1 (length stepsData))) = true ->
  (forall i, In i (map (uuid E) (seq 1 (length stepsData))) ->
             hasKey i (map s_id (stepTable d)) = false) ->
  (forall sd, In sd stepsData -> hasNul (si_title sd) = false) ->
  (forall o, In o (indexOrders 0 stepsData) -> int4 o = true) ->
  let g := mkGoal (uuid E 0) chatId userId createdFromMessageId title
             description (orElse status "not_started"%string)
             (orElse priority "medium"%string) deadline (now E) in
  let created := stepsToInsert (uuid E 0) (now E)
                   (map (uuid E) (seq 1 (length stepsData))) stepsData
                   (indexOrders 0 stepsData) in
  call (createGoalWithSteps E chatId userId title description status
          priority deadline createdFromMessageId stepsData) d
  = (inr (g, created),
     withSteps (withGoals d (goalTable d ++ [g])) (stepTable d ++ created)).
Proof.
  intros Fa Nt Nd Ns Np Kg Kc Ku Km NE Di Ks Ti Or g created.
  assert (QG : q_insertGoal g d = (inr g, withGoals d (goalTable d ++ [g]))).
  { unfold q_insertGoal.
    assert (TO : goalTextOk g = true).
    { unfold goalTextOk, g. simpl. rewrite Nt, Nd.
      destruct status as [s|]; destruct priority as [p|]; simpl in Ns, Np |- *;
        rewrite ?Ns, ?Np; reflexivity. }
    rewrite TO. simpl negb. unfold g at 1 2 3 4. simpl g_id. simpl g_chatId.
    simpl g_userId. simpl g_createdFromMessageId.
    rewrite Kg, Kc, Ku. simpl negb.
    destruct createdFromMessageId as [m|]; [rewrite (Km m eq_refl)|];
      reflexivity. }
  assert (Len1 : length (map (uuid E) (seq 1 (length stepsData)))
                 = length stepsData)
    by now rewrite length_map, length_seq.
  assert (Len2 : length (indexOrders 0 stepsData) = length stepsData)
    by apply indexOrders_length.
  assert (QS : q_insertSteps created (withGoals d (goalTable d ++ [g]))
               = (inr created,
                  withSteps (withGoals d (goalTable d ++ [g]))
                    (stepTable d ++ created))).
  { change (stepTable d)
      with (stepTable (withGoals d (goalTable d ++ [g]))).
    apply q_insertSteps_ok.
    - unfold created. destruct stepsData as [|sd sds]; [congruence|].
      simpl. discriminate.
    - unfold created. now rewrite stepsToInsert_ids.
    - intros s Hs. apply stepsToInsert_In in Hs.
      destruct Hs as (i & sd & o & Hi & _ & _ & ->). simpl. now apply Ks.
    - intros s Hs. apply stepsToInsert_In in Hs.
      destruct Hs as (i & sd & o & _ & _ & _ & ->). simpl.
      unfold hasKey. rewrite map_app, existsb_app. simpl.
      rewrite N.eqb_refl. now rewrite orb_true_r.
    - intros s Hs. apply stepsToInsert_In in Hs.
      destruct Hs as (i & sd & o & _ & _ & Ho & ->). simpl. now apply Or.
    - intros s Hs. apply stepsToInsert_In in Hs.
      destruct Hs as (i & sd & o & _ & Hsd & _ & ->). simpl. now apply Ti. }
  unfold call, createGoalWithSteps, catch, byKey, transaction.
  unfold bind at 1. unfold freshId at 1. simpl drawn.
  unfold bind at 1. rewrite statement_ok by exact Fa. simpl db.
  fold g. rewrite QG. simpl g_id.
  unfold bind at 1. rewrite freshIds_run. simpl drawn. simpl db.
  unfold bind at 1. rewrite statement_ok by exact Fa. simpl db.
  fold created. rewrite QS. unfold ret.
  rewrite statement_ok by exact Fa. reflexivity.
Qed.

End Ingest.

End IngestFacts.

(* ================================================================== *)
(** * Part XVII.  Bulk creation and progress                           *)
(* ================================================================== *)

Module ReadFacts.
Import Store Queries System StoreFacts JsNumber.

Lemma createSteps_inl (E : Env) (goalId : Key) (stepsData : list StepInput)
  (w w' : World) (e : Exn) :
  createSteps E goalId stepsData w = (inl e, w') ->
  e = ChatSDKError bad_request_database "Failed to create steps" /\
  db w' = db w.
Proof.
  unfold createSteps, catch.
  match goal with
  | |- context [match ?m w with _ => _ end] =>
      destruct (m w) as [[e1|a] w1] eqn:B
  end; [|discriminate].
  unfold wrapAll, throw. intros [= <- <-]. split; [reflexivity|].
  apply bind_inl in B. destruct B as [B|(orders & w2 & S1 & B)].
  - now apply statement_inl in B.
  - apply statement_inr in S1. destruct S1 as (S1 & _).
    destruct goalId as [g|text]; [|discriminate S1]. unfold byKey in S1, B.
    unfold q_stepOrders in S1. injection S1 as _ D2.
    apply bind_inl in B. destruct B as [B|(ids & w3 & S2 & B)].
    + rewrite freshIds_run in B. discriminate.
    + rewrite freshIds_run in S2. injection S2 as _ <-.
      apply statement_inl in B. destruct B as (B & _). simpl in B.
      congruence.
Qed.

(** Rearranged rows have the same completed rows, rearranged. *)
Lemma completed_perm (l l' : list Step) :
  Permutation l l' ->
  Permutation (filter s_isCompleted l) (filter s_isCompleted l').
Proof.
  induction 1 as [|x l l' P IH|x y l|l l' l'' P1 IH1 P2 IH2]; simpl.
  - constructor.
  - destruct (s_isCompleted x); [now constructor|exact IH].
  - destruct (s_isCompleted x), (s_isCompleted y); try reflexivity.
    apply perm_swap.
  - now transitivity (filter s_isCompleted l').
Qed.

Lemma getGoalProgress_ok (E : Env) (g : Id) (d : DB) :
  SortsByOrder (orderBy E) ->
  fault E = None ->
  call (getGoalProgress E g) d =
  (inr (mkProgress
          (length (filter s_isCompleted (filter (stepOfGoal g) (stepTable d))))
          (length (filter (stepOfGoal g) (stepTable d)))
          (percentageOf
             (length (filter s_isCompleted
                        (filter (stepOfGoal g) (stepTable d))))
             (length (filter (stepOfGoal g) (stepTable d))))), d).
Proof.
  intros OB F. unfold call, getGoalProgress, getStepsByGoalId, catch, bind.
  rewrite statement_ok by exact F. simpl. unfold ret.
  pose proof (proj1 (OB (filter (stepOfGoal g) (stepTable d)))) as P.
  rewrite (Permutation_length (completed_perm P)).
  rewrite (Permutation_length P).
  reflexivity.
Qed.

Lemma numberEqb_eq (x y : number) : numberEqb x y = true -> x = y.
Proof.
  destruct x as [a|a| |a m e], y as [b|b| |b n f]; simpl; try discriminate;
    try reflexivity.
  - intros H. apply Bool.eqb_prop in H. now subst.
  - intros H. apply Bool.eqb_prop in H. now subst.
  - intros H. apply andb_true_iff in H. destruct H as [H H3].
    apply andb_true_iff in H. destruct H as [H1 H2].
    apply Bool.eqb_prop in H1. apply Pos.eqb_eq in H2. apply Z.eqb_eq in H3.
    now subst.
Qed.

Lemma nearest_upto_100 :
  forallb (fun t => forallb (fun c => nearest c t) (seq 0 (S t))) (seq 1 100)
  = true.
Proof. vm_compute. reflexivity. Qed.

Lemma nearest_small (c t : nat) :
  0 < t <= 100 -> c <= t -> nearest c t = true.
Proof.
  intros Ht Hc.
  assert (Ht' : In t (seq 1 100)) by (apply in_seq; lia).
  assert (Hc' : In c (seq 0 (S t))) by (apply in_seq; lia).
  pose proof (proj1 (forallb_forall _ _) nearest_upto_100 t Ht') as H1.
  exact (proj1 (forallb_forall _ _) H1 c Hc').
Qed.

End ReadFacts.

Import Store Queries System Actions.

(** C2.  Deleting an existing step [x] of a store whose step ids are
    distinct (the primary key) and which holds at most 2^31 steps, the
    store sorting as ORDER BY may (rows of equal order in any order).
    [remaining] is the list the call reads after the deletion: the other
    steps of the goal of [x], in ascending order of their former order
    values.  When the call returns, it returns the deleted row; every
    reading of the goal's steps in ascending order then gives the rows of
    [remaining], in that sequence, with the order values 0, 1, ..., n-1 and
    otherwise unchanged; the steps of the other goals are untouched.  When
    the call throws, the store is as before and the error is the single
    database error.  A store that does not fail makes the call return.
    Nothing is assumed about the former order values: they may repeat. *)
Theorem C2_deleteStep_renumbers (E : Env) (d : DB) (id : Id) (x : Step) :
  SortsByOrder (orderBy E) ->
  NoDup (map s_id (stepTable d)) ->
  (Z.of_nat (length (stepTable d)) <= 2147483648)%Z ->
  find (stepHasId id) (stepTable d) = Some x ->
  let g := s_goalId x in
  let others :=
    filter (stepOfGoal g)
      (filter (fun s => negb (stepHasId id s)) (stepTable d)) in
  let remaining := orderBy E others in
  Permutation remaining others /\
  StronglySorted orderLe remaining /\
  (fault E = None ->
   exists d', call (deleteStep E id) d = (inr (Some x), d')) /\
  match call (deleteStep E id) d with
  | (inr r, d') =>
      r = Some x /\
      (forall reading,
         Permutation reading (rowsOfGoal g d') ->
         StronglySorted orderLe reading ->
         reading = reindex 0 remaining) /\
      map s_id (reindex 0 remaining) = map s_id remaining /\
      map s_order (reindex 0 remaining) =
        map Z.of_nat (seq 0 (length remaining)) /\
      (forall h, h <> g -> rowsOfGoal h d' = rowsOfGoal h d) /\
      ~ In id (map s_id (stepTable d')) /\
      goalTable d' = goalTable d
  | (inl e, d') =>
      d' = d /\
      e = ChatSDKError bad_request_database "Failed to delete step"
  end.
Proof.
  intros OB ND L F g others remaining.
  destruct (OB others) as [PR SR].
  split; [exact PR|]. split; [exact SR|].
  assert (Inv : forall r w', deleteStep E id (mkWorld d 0 0) = (inr r, w') ->
                r = Some x /\ db w' = afterDelete (orderBy E) id x d).
  { intros r w' R. apply DeleteFacts.deleteStep_inr in R. simpl in R.
    now rewrite F in R. }
  split.
  - intros Fa.
    destruct (@DeleteFacts.deleteStep_ok E id (mkWorld d 0 0) OB Fa L)
      as (r & w' & R).
    exists (db w'). unfold call. rewrite R.
    destruct (Inv _ _ R) as [-> _]. reflexivity.
  - unfold call.
    destruct (deleteStep E id (mkWorld d 0 0)) as [[e|r] w'] eqn:R.
    + apply DeleteFacts.deleteStep_inl in R. exact R.
    + destruct (Inv _ _ eq_refl) as [-> ->].
      set (T := filter (fun s => negb (stepHasId id s)) (stepTable d)).
      assert (NT : NoDup (map s_id T))
        by now apply OrderFacts.ids_distinct_filter.
      split; [reflexivity|].
      split; [|split; [apply OrderFacts.reindex_ids|]].
      { intros reading P S.
        exact (@OrderFacts.renumbered_goal g T remaining reading NT PR P S). }
      split; [apply (OrderFacts.reindex_orders remaining 0)|].
      split; [|split; [|reflexivity]].
      * intros h Hh.
        change (filter (stepOfGoal h) (renumberRows 0 remaining T)
                = filter (stepOfGoal h) (stepTable d)).
        rewrite (@OrderFacts.renumbered_others g h T remaining NT PR Hh).
        destruct (DeleteFacts.find_stepHasId _ _ F) as [Hx Hid].
        now apply DeleteFacts.filter_other_goal with (x := x).
      * rewrite DeleteFacts.afterDelete_ids. intros Hin.
        apply in_map_iff in Hin. destruct Hin as (s & Hs & Hin).
        apply filter_In in Hin. destruct Hin as [_ Hin].
        apply negb_true_iff, OrderFacts.stepHasId_false in Hin. contradiction.
Qed.

Lemma C2_deleteStep_renumbers_witness :
  SortsByOrder (orderBy env1) /\
  NoDup (map s_id (stepTable tied)) /\
  (Z.of_nat (length (stepTable tied)) <= 2147483648)%Z /\
  map s_order (stepTable tied) = [0; 0; 0]%Z /\
  map (fun s => (s_id s, s_order s))
      (sortByOrder
         (rowsOfGoal 100%N (snd (call (deleteStep env1 102%N) tied))))
  = [(101%N, 0%Z); (103%N, 1%Z)].
Proof.
  assert (OB : SortsByOrder (orderBy env1))
    by exact OrderFacts.sortByOrder_sorts.
  assert (ND : NoDup (map s_id (stepTable tied))).
  { vm_compute. repeat constructor; simpl; intuition discriminate. }
  assert (L : (Z.of_nat (length (stepTable tied)) <= 2147483648)%Z)
    by (vm_compute; discriminate).
  split; [exact OB|]. split; [exact ND|]. split; [exact L|].
  split; [reflexivity|].
  destruct (C2_deleteStep_renumbers env1 tied 102%N
              (x := mkStep 102%N 100%N "Practice daily" false 0%Z None 1000%Z)
              OB ND L eq_refl) as (_ & _ & _ & H).
  destruct (call (deleteStep env1 102%N) tied) as [[e|r] d'] eqn:R.
  - vm_compute in R. discriminate R.
  - destruct H as (_ & H & _). simpl.
    rewrite (H (sortByOrder (rowsOfGoal 100%N d'))
               (OrderFacts.sortByOrder_perm _)
               (OrderFacts.sortByOrder_sorted _)).
    reflexivity.
Defined.

(** C7.  [createGoalWithSteps] either returns, and then the store holds
    one more goal, carrying the supplied fields, and after the former
    steps one new step per supplied step, in the supplied sequence, each
    belonging to the new goal, not completed, with the supplied title and
    with its explicit order when it has one and its zero-based position
    otherwise; or it throws, and then the store is as it was before the
    call and the error is one database error whose cause starts with
    "Failed to create goal with steps: ".  This holds whichever statement
    the store fails at, the commit included.

    And the call does return when nothing stands in its way: when the
    store does not fail, no supplied text holds the code unit 0, every
    order is a 32-bit integer, at least one step is supplied, the chat,
    the user and the message, if one is given, exist, and the ids the
    store generates are new and distinct, the call returns the goal with
    the supplied fields, status "not_started" and priority "medium" unless
    given, and the creation time. *)
Theorem C7_createGoalWithSteps_all_or_nothing (E : Env) (d : DB)
  (chatId userId : Id) (title : string) (description : option string)
  (status priority : option string) (deadline : option Time)
  (createdFromMessageId : option Id) (stepsData : list StepInput) :
  match call (createGoalWithSteps E chatId userId title description status
                priority deadline createdFromMessageId stepsData) d with
  | (inr (g, created), d') =>
      goalTable d' = goalTable d ++ [g] /\
      stepTable d' = stepTable d ++ created /\
      chatTable d' = chatTable d /\ userTable d' = userTable d /\
      messageTable d' = messageTable d /\
      g_chatId g = chatId /\ g_userId g = userId /\ g_title g = title /\
      g_description g = description /\ g_deadline g = deadline /\
      g_createdFromMessageId g = createdFromMessageId /\
      length created = length stepsData /\
      forall k sd, nth_error stepsData k = Some sd ->
        exists s, nth_error created k = Some s /\
                  s_goalId s = g_id g /\ s_title s = si_title sd /\
                  s_order s = match si_order sd with
                              | Some o => o
                              | None => Z.of_nat k
                              end /\
                  s_isCompleted s = false /\ s_completedAt s = None
  | (inl e, d') =>
      d' = d /\
      exists m, e = ChatSDKError bad_request_database
                      ("Failed to create goal with steps: " ++ m)
  end /\
  (fault E = None ->
   hasNul title = false -> someHasNul description = false ->
   someHasNul status = false -> someHasNul priority = false ->
   forallb (fun sd => negb (hasNul (si_title sd))) stepsData = true ->
   forallb int4 (indexOrders 0 stepsData) = true ->
   stepsData <> [] ->
   hasKey chatId (map c_id (chatTable d)) = true ->
   hasKey userId (userTable d) = true ->
   match createdFromMessageId with
   | Some m => hasKey m (messageTable d)
   | None => true
   end = true ->
   hasKey (uuid E 0) (map g_id (goalTable d)) = false ->
   distinct (map (uuid E) (seq 1 (length stepsData))) = true ->
   forallb (fun i => negb (hasKey i (map s_id (stepTable d))))
     (map (uuid E) (seq 1 (length stepsData))) = true ->
   exists created d',
     call (createGoalWithSteps E chatId userId title description status
             priority deadline createdFromMessageId stepsData) d
     = (inr (mkGoal (uuid E 0) chatId userId createdFromMessageId title
               description (orElse status "not_started"%string)
               (orElse priority "medium"%string) deadline (now E),
             created), d')).
Proof.
  split.
  - unfold call.
    destruct (createGoalWithSteps E chatId userId title description status
                priority deadline createdFromMessageId stepsData
                (mkWorld d 0 0)) as [[e|[g created]] w'] eqn:R.
    + apply IngestFacts.createGoalWithSteps_inl in R. exact R.
    + apply IngestFacts.createGoalWithSteps_inr in R.
      destruct R as (Hg & Hc & Hd). simpl in Hg, Hc, Hd.
      assert (Len : length created = length stepsData).
      { rewrite Hc. apply IngestFacts.stepsToInsert_length.
        - now rewrite length_map, length_seq.
        - apply IngestFacts.indexOrders_length. }
      rewrite Hd. simpl. rewrite Hg at 3 4 5 6 7 8. simpl.
      repeat (split; [reflexivity|]). split; [exact Len|].
      intros k sd Hk.
      assert (Hlt : k < length stepsData)
        by (apply nth_error_Some; congruence).
      eexists. split.
      * rewrite Hc. apply IngestFacts.stepsToInsert_nth.
        -- now apply IngestFacts.ids_nth.
        -- exact Hk.
        -- apply (@IngestFacts.indexOrders_nth stepsData 0%Z k sd Hk).
      * simpl. repeat split.
  - intros Fa Nt Nd Ns Np Ti Or NE Kc Ku Km Kg Di Ks.
    do 2 eexists.
    apply IngestFacts.createGoalWithSteps_ok; try assumption.
    + intros m ->. exact Km.
    + intros i Hi. rewrite forallb_forall in Ks.
      apply Ks in Hi. now destruct (hasKey i _).
    + intros sd Hsd. rewrite forallb_forall in Ti.
      apply Ti in Hsd. now destruct (hasNul (si_title sd)).
    + intros o Ho. rewrite forallb_forall in Or. now apply Or.
Qed.

Lemma C7_createGoalWithSteps_all_or_nothing_witness :
  fault env0 = None /\
  exists created d',
    call (createGoalWithSteps env0 1%N 7%N "Learn guitar" None None None None
            (Some 50%N) threeSteps) start
    = (inr (mkGoal 100%N 1%N 7%N (Some 50%N) "Learn guitar" None
              "not_started" "medium" None 1000%Z, created), d').
Proof.
  split; [reflexivity|].
  apply (proj2 (C7_createGoalWithSteps_all_or_nothing env0 start 1%N 7%N
                  "Learn guitar" None None None None (Some 50%N) threeSteps));
    try reflexivity.
  discriminate.
Defined.

(** [createGoalWithSteps] at work: on a store with the chat, the user
    and the message it creates the goal and three steps, the middle one
    with its explicit order; when the store fails at the insertion of the
    steps, the goal inserted just before is not kept. *)
Lemma createGoalWithSteps_example :
  (exists g created d',
     call (createGoalWithSteps env0 1%N 7%N "Learn guitar" None None None None
             (Some 50%N) threeSteps) start = (inr (g, created), d') /\
     map g_title (goalTable d') = ["Learn guitar"%string] /\
     map (fun s => (s_title s, s_order s)) (stepTable d') =
       [("Buy a guitar"%string, 0%Z); ("Practice daily"%string, 7%Z);
        ("Play a song"%string, 2%Z)]) /\
  call (createGoalWithSteps env0Failing 1%N 7%N "Learn guitar" None None None
          None (Some 50%N) threeSteps) start =
  (inl (ChatSDKError bad_request_database
          "Failed to create goal with steps: the store is unavailable"),
   start).
Proof.
  split; [|vm_compute; reflexivity].
  do 3 eexists. split; [vm_compute; reflexivity|]. split; reflexivity.
Qed.

(** [createGoalWithSteps] checks no title itself: given a whitespace-only
    title it stores the goal. *)
Lemma createGoalWithSteps_blank_title :
  blank "  " = true /\
  exists g created d',
    call (createGoalWithSteps env0 1%N 7%N "  " None None None None
            (Some 50%N) threeSteps) start = (inr (g, created), d') /\
    map g_title (goalTable d') = ["  "%string].
Proof.
  split; [reflexivity|].
  do 3 eexists. split; [vm_compute; reflexivity|reflexivity].
Qed.

(** C1.  In every store reached from one without goals and steps through
    the calls of lib/db/queries.ts (the six step operations of the claim,
    and the goal operations, [deleteStep] and [reorderSteps] as well),
    whatever the calls return or throw, every step has [completedAt]
    non-null exactly when [isCompleted] is true.  The calls keep this
    because a created row has [isCompleted] false and [completedAt] null,
    and an update assigns [isCompleted] only together with [completedAt],
    the current time for true and null for false. *)
Theorem C1_completedAt_iff_isCompleted (d : DB) :
  reachable d ->
  forall s, In s (stepTable d) ->
  (s_isCompleted s = true <-> s_completedAt s <> None).
Proof.
  intros R.
  assert (H : Coherent d).
  { induction R as [chats users messages|E c d R IH].
    - constructor.
    - now apply CompletionFacts.after_coherent. }
  intros s Hs. unfold Coherent in H. rewrite Forall_forall in H.
  now apply H.
Qed.

Lemma C1_completedAt_iff_isCompleted_witness :
  reachable toggled /\
  In (mkStep 102%N 100%N "Practice daily" true 1%Z (Some 2000%Z) 1000%Z)
     (stepTable toggled) /\
  (true = true <-> Some 2000%Z <> None).
Proof.
  assert (R : reachable toggled).
  { unfold toggled, planned, start. do 2 apply reachable_after.
    apply reachable_start. }
  assert (I : In (mkStep 102%N 100%N "Practice daily" true 1%Z (Some 2000%Z)
                    1000%Z) (stepTable toggled)).
  { vm_compute. right. left. reflexivity. }
  split; [exact R|]. split; [exact I|].
  exact (@C1_completedAt_iff_isCompleted toggled R _ I).
Defined.

(** C5.  [createSteps] validates nothing.  Whatever it throws is the
    database error "Failed to create steps", never a not-found or a
    validation error, and nothing is inserted then.  For a goal id that
    matches no goal the insertion breaks the foreign key and the call
    throws that database error, where [createStep] throws not-found; for
    a whitespace-only title the call returns and the blank step is in the
    store, where [createStep] throws the validation error. *)
Theorem C5_createSteps_unvalidated :
  (forall E goalId stepsData d e d',
     call (createSteps E goalId stepsData) d = (inl e, d') ->
     e = ChatSDKError bad_request_database "Failed to create steps" /\
     d' = d) /\
  find (goalHasId 555%N) (goalTable planned) = None /\
  call (createSteps env1 555%N [mkStepInput "Tune the guitar" None]) planned
  = (inl (ChatSDKError bad_request_database "Failed to create steps"),
     planned) /\
  call (createStep env1 555%N "Tune the guitar" None) planned
  = (inl (ChatSDKError not_found_goal "Goal not found"), planned) /\
  blank "   " = true /\
  (exists created d',
     call (createSteps env1 100%N [mkStepInput "   " None]) planned
     = (inr created, d') /\
     map s_title created = ["   "%string] /\
     map s_title (stepTable d') =
       ["Buy a guitar"; "Practice daily"; "Play a song"; "   "]%string) /\
  call (createStep env1 100%N "   " None) planned
  = (inl (ChatSDKError bad_request_goal "Step title cannot be empty"),
     planned).
Proof.
  split.
  { intros E goalId stepsData d e d'. unfold call.
    destruct (createSteps E goalId stepsData (mkWorld d 0 0)) as [r w] eqn:R.
    intros [= -> <-]. apply ReadFacts.createSteps_inl in R. exact R. }
  repeat split; try (vm_compute; reflexivity).
  do 2 eexists. split; [vm_compute; reflexivity|]. split; reflexivity.
Qed.

(** C6, as stated, fails for [updateGoal]: called with a blank title for
    an id that matches no goal, it throws the not-found error, not a
    validation error. *)
Lemma C6_counterexample :
  blank "" = true /\
  call (updateGoal env1 555%N (Some ""%string) None None None None) planned
  = (inl (ChatSDKError not_found_goal "Goal not found"), planned).
Proof.
  split; vm_compute; reflexivity.
Qed.

(** C6, amended.  With a blank title, [createGoal] throws the validation
    error "Title cannot be empty" and writes nothing.  [updateGoal] with a
    blank title writes nothing either and throws one error, whatever the
    environment: the database error "Failed to get goal by id" when the
    lookup of the goal fails, as it does when the store fails at that
    statement and when the id is no uuid; otherwise the validation error
    when the goal exists, and the not-found error when the id is a uuid
    that matches no goal.  Consequently the titles of the stored goals
    stay non-blank under every call of lib/db/queries.ts, as long as
    [createGoalWithSteps], which checks no title itself, is given a title
    that is not blank. *)
Theorem C6_blank_title_rejected (E : Env) (d : DB) (title : string) :
  blank title = true ->
  (forall (chatId userId : Key) description status priority deadline
          createdFromMessageId,
     call (createGoal E chatId userId title description status priority
             deadline createdFromMessageId) d
     = (inl (ChatSDKError bad_request_goal "Title cannot be empty"), d)) /\
  (forall (id : Key) description status priority deadline,
     call (updateGoal E id (Some title) description status priority
             deadline) d
     = (inl (match fault E, id with
             | Some 0, _ | _, Other _ =>
                 ChatSDKError bad_request_database "Failed to get goal by id"
             | _, Uuid i =>
                 match find (goalHasId i) (goalTable d) with
                 | Some _ =>
                     ChatSDKError bad_request_goal "Title cannot be empty"
                 | None => ChatSDKError not_found_goal "Goal not found"
                 end
             end), d)) /\
  (forall c, titleSupplied c ->
     Forall titled (goalTable d) -> Forall titled (goalTable (after E c d))).
Proof.
  intros B. split; [|split].
  - intros. now apply TitleFacts.createGoal_blank.
  - intros. now apply TitleFacts.updateGoal_blank.
  - intros c Hc H. now apply TitleFacts.after_titled.
Qed.

Lemma C6_blank_title_rejected_witness :
  blank "  " = true /\
  call (createGoal env1 1%N 7%N "  " None None None None None) planned
  = (inl (ChatSDKError bad_request_goal "Title cannot be empty"), planned) /\
  call (updateGoal env1 100%N (Some "  "%string) None None None None) planned
  = (inl (ChatSDKError bad_request_goal "Title cannot be empty"), planned) /\
  call (updateGoal env1 notAUuid (Some "  "%string) None None None None)
       planned
  = (inl (ChatSDKError bad_request_database "Failed to get goal by id"),
     planned).
Proof.
  destruct (@C6_blank_title_rejected env1 planned "  " eq_refl)
    as (H1 & H2 & _).
  split; [reflexivity|]. split; [apply H1|]. split.
  - exact (H2 (Uuid 100%N) None None None None).
  - exact (H2 notAUuid None None None None).
Defined.

(** C9, as stated, fails: for a goal with 40 steps of which 23 are
    completed, 100 * 23 / 40 is 57.5 and rounds to 58, while
    [getGoalProgress] returns 57: the quotient 23/40 is not a binary
    fraction, and its double times 100 is the double just below 57.5. *)
Lemma C9_counterexample :
  call (getGoalProgress env1 100%N) fortySteps
  = (inr (mkProgress 23 40 (JsNumber.ofZ 57)), fortySteps) /\
  roundHalfUp (100 * 23) 40 = 58%Z /\
  JsNumber.ofZ 57 <> JsNumber.ofZ 58.
Proof.
  split; [vm_compute; reflexivity|]. split; [reflexivity|].
  vm_compute. discriminate.
Qed.

(** C9, amended.  With a store that does not fail and sorts as ORDER BY
    may, [getGoalProgress]
    returns [completed], the number of the goal's steps with [isCompleted]
    true, [total], the number of its steps, and [percentage], which is 0
    when [total] is 0 and otherwise [Math.round] of the double-precision
    product (completed / total) * 100, the quotient being taken first.
    For goals of at most 100 steps that percentage is 100 * completed /
    total rounded half up, except that where this quotient lies exactly
    half way between two integers the percentage may be the lower one (23
    of 40 gives 57).  A goal with 3 steps, 1 completed, yields 1, 3 and
    33. *)
Theorem C9_progress (E : Env) (d : DB) (g : Id) :
  SortsByOrder (orderBy E) ->
  fault E = None ->
  let mine := filter (stepOfGoal g) (stepTable d) in
  let total := length mine in
  let completed := length (filter s_isCompleted mine) in
  let percentage :=
    if 0 <? total
    then JsNumber.round
           (JsNumber.mul
              (JsNumber.div (JsNumber.ofZ (Z.of_nat completed))
                            (JsNumber.ofZ (Z.of_nat total)))
              (JsNumber.ofZ 100))
    else JsNumber.ofZ 0 in
  call (getGoalProgress E g) d
  = (inr (mkProgress completed total percentage), d) /\
  (0 < total <= 100 ->
   let k := roundHalfUp (100 * Z.of_nat completed) (Z.of_nat total) in
   percentage = JsNumber.ofZ k \/
   (percentage = JsNumber.ofZ (k - 1) /\
    (200 * Z.of_nat completed + Z.of_nat total = 2 * Z.of_nat total * k)%Z)) /\
  percentageOf 1 3 = JsNumber.ofZ 33.
Proof.
  intros OB F mine total completed percentage.
  split; [apply (@ReadFacts.getGoalProgress_ok E g d OB F)|].
  split; [|vm_compute; reflexivity].
  intros Ht k.
  assert (Hc : completed <= total) by apply filter_length_le.
  pose proof (@ReadFacts.nearest_small completed total Ht Hc) as N.
  unfold nearest in N. fold k in N.
  change (percentageOf completed total) with percentage in N.
  apply orb_true_iff in N. destruct N as [N|N].
  - left. now apply ReadFacts.numberEqb_eq.
  - right. apply andb_true_iff in N. destruct N as [N1 N2].
    split; [now apply ReadFacts.numberEqb_eq|now apply Z.eqb_eq].
Qed.

Lemma C9_progress_witness :
  SortsByOrder (orderBy env1) /\
  fault env1 = None /\
  call (getGoalProgress env1 100%N) toggled
  = (inr (mkProgress 1 3 (JsNumber.ofZ 33)), toggled).
Proof.
  split; [exact OrderFacts.sortByOrder_sorts|]. split; [reflexivity|].
  exact (proj1 (@C9_progress env1 toggled 100%N
                  OrderFacts.sortByOrder_sorts eq_refl)).
Defined.

(** C10, as stated, fails for an id that is no uuid: it matches no step,
    yet [deleteStep] does not return null.  The store refuses the select
    by the id, [deleteStep] throws the database error, and
    [deleteStepAction] throws it on instead of reporting success. *)
Lemma C10_counterexample :
  stepOfKey notAUuid planned = None /\
  fault env1 = None /\
  call (deleteStep env1 notAUuid) planned
  = (inl (ChatSDKError bad_request_database "Failed to delete step"),
     planned) /\
  call (deleteStepAction env1 (Some 7%N) notAUuid) planned
  = (inl (ChatSDKError bad_request_database "Failed to delete step"),
     planned).
Proof.
  repeat split; vm_compute; reflexivity.
Qed.

(** C10, amended.  For an id that matches no step, [deleteStep] leaves
    the store as it is, whatever happens, and never throws a not-found
    error.  With a store that does not fail: when the id is a uuid,
    [deleteStep] returns null, and [deleteStepAction], called by a
    signed-in user, then reports success although nothing was deleted;
    when the id is no uuid, [deleteStep] throws the database error "Failed
    to delete step", and [deleteStepAction] throws the same error. *)
Theorem C10_deleteStep_missing (E : Env) (d : DB) (id : Key) (user : Id) :
  stepOfKey id d = None ->
  snd (call (deleteStep E id) d) = d /\
  (forall cause,
     fst (call (deleteStep E id) d) <> inl (ChatSDKError not_found_goal cause)) /\
  (fault E = None ->
   match id with
   | Uuid _ =>
       call (deleteStep E id) d = (inr None, d) /\
       call (deleteStepAction E (Some user) id) d = (inr (mkAck true), d)
   | Other _ =>
       call (deleteStep E id) d
       = (inl (ChatSDKError bad_request_database "Failed to delete step"),
          d) /\
       call (deleteStepAction E (Some user) id) d
       = (inl (ChatSDKError bad_request_database "Failed to delete step"),
          d)
   end).
Proof.
  intros F.
  assert (Inl : forall e w', deleteStep E id (mkWorld d 0 0) = (inl e, w') ->
                db w' = d /\
                e = ChatSDKError bad_request_database "Failed to delete step").
  { intros e w'. unfold deleteStep, catch.
    destruct (transaction E _ _) as [[e1|a] w1] eqn:T; [|discriminate].
    unfold wrapAll, throw. intros [= <- <-].
    apply StoreFacts.transaction_inl in T. now split. }
  assert (Inr : forall r w', deleteStep E id (mkWorld d 0 0) = (inr r, w') ->
                r = None /\ db w' = d).
  { intros r w' R. destruct id as [i|text].
    - apply DeleteFacts.deleteStep_inr in R. simpl in R, F.
      now rewrite F in R.
    - exfalso. unfold deleteStep, catch in R.
      destruct (transaction E _ _) as [[e1|a] w1] eqn:T; [discriminate|].
      apply StoreFacts.transaction_inr in T. destruct T as (w2 & B & _).
      apply StoreFacts.bind_inr in B. destruct B as (a0 & w3 & S & _).
      apply StoreFacts.statement_inr in S. destruct S as (S & _).
      discriminate S. }
  split; [|split].
  - unfold call.
    destruct (deleteStep E id (mkWorld d 0 0)) as [[e|r] w'] eqn:R; simpl.
    + now destruct (Inl _ _ eq_refl).
    + now destruct (Inr _ _ eq_refl).
  - intros cause. unfold call.
    destruct (deleteStep E id (mkWorld d 0 0)) as [[e|r] w'] eqn:R; simpl.
    + destruct (Inl _ _ eq_refl) as [_ ->]. discriminate.
    + discriminate.
  - intros Fa. destruct id as [i|text].
    + assert (L : exists w', deleteStep E i (mkWorld d 0 0) = (inr None, w')
                             /\ db w' = d).
      { unfold deleteStep, catch.
        unfold transaction, bind. rewrite StoreFacts.statement_ok by exact Fa.
        simpl. simpl in F. rewrite F. simpl.
        rewrite StoreFacts.statement_ok by exact Fa.
        simpl. eexists. split; reflexivity. }
      destruct L as (w' & R & Hd).
      split.
      * unfold call. rewrite R. now rewrite Hd.
      * unfold call, deleteStepAction, catch, bind. rewrite R. simpl.
        now rewrite Hd.
    + assert (R : deleteStep E (Other text) (mkWorld d 0 0) =
                  (inl (ChatSDKError bad_request_database
                          "Failed to delete step"), mkWorld d 1 0)).
      { unfold deleteStep, catch.
        unfold transaction, bind. rewrite StoreFacts.statement_ok by exact Fa.
        reflexivity. }
      split.
      * unfold call. now rewrite R.
      * unfold call, deleteStepAction, catch, bind. now rewrite R.
Qed.

Lemma C10_deleteStep_missing_witness :
  stepOfKey (Uuid 999%N) planned = None /\
  call (deleteStepAction env1 (Some 7%N) 999%N) planned
  = (inr (mkAck true), planned).
Proof.
  split; [reflexivity|].
  exact (proj2 (proj2 (proj2
    (C10_deleteStep_missing env1 planned (Uuid 999%N) 7%N eq_refl))
      eq_refl)).
Defined.

(* ================================================================== *)
(** * Part XVIII.  What every call keeps                               *)
(* ================================================================== *)

Module KeepFacts.
Import Store Queries System StoreFacts.

(** A property of the store that each of the six writing statements
    keeps is kept by every call. *)
Section EveryCall.
Variable I : DB -> Prop.
Hypothesis insertGoal_keeps :
  forall row d g d', I d -> q_insertGoal row d = (inr g, d') -> I d'.
Hypothesis updateGoal_keeps :
  forall i p d u d', I d -> q_updateGoal i p d = (inr u, d') -> I d'.
Hypothesis deleteGoal_keeps :
  forall i d r d', I d -> q_deleteGoal i d = (inr r, d') -> I d'.
Hypothesis insertSteps_keeps :
  forall rows d c d', I d -> q_insertSteps rows d = (inr c, d') -> I d'.
Hypothesis updateStep_keeps :
  forall i p d u d', I d -> q_updateStep i p d = (inr u, d') -> I d'.
Hypothesis deleteStep_keeps :
  forall i d u d', I d -> q_deleteStep i d = (inr u, d') -> I d'.

Ltac stride :=
  repeat first
    [ apply keeps_catch; [|intros ?]
    | apply keeps_bind; [|intros ?]
    | apply keeps_transaction
    | apply keeps_byKey; intros ?; cbv beta
    | apply keeps_read
    | apply keeps_ret
    | apply keeps_throw
    | apply keeps_rethrowOrWrap
    | apply keeps_wrapAll
    | apply keeps_freshId
    | apply keeps_freshIds
    | apply keeps_statement; intros ? ? ? ? ?;
      first [ eapply insertGoal_keeps; eassumption
            | eapply updateGoal_keeps; eassumption
            | eapply deleteGoal_keeps; eassumption
            | eapply insertSteps_keeps; eassumption
            | eapply updateStep_keeps; eassumption
            | eapply deleteStep_keeps; eassumption ]
    | match goal with
      | |- keeps _ (if ?b then _ else _) => destruct b
      | |- keeps _ (match ?o with Some _ => _ | None => _ end) => destruct o
      end ].

Lemma renumber_keeps_all (E : Env) (rem : list Step) :
  forall i, keeps I (renumber E i rem).
Proof.
  induction rem as [|r rem IH]; intros i; simpl; stride. apply IH.
Qed.

Lemma reorderLoop_keeps_all (E : Env) (goalId : Key)
  (stepOrders : list (Key * Z)) :
  keeps I (reorderLoop E goalId stepOrders).
Proof.
  induction stepOrders as [|[i o] rest IH]; simpl; unfold q_stepByIdOfGoal;
    stride. exact IH.
Qed.

Lemma bulkLoop_keeps_all (E : Env) (goalId : Key) (updates : list StepUpdate) :
  keeps I (bulkLoop E goalId updates).
Proof.
  induction updates as [|u rest IH]; simpl; unfold q_stepByIdOfGoal; stride.
  exact IH.
Qed.

Lemma createGoalWithSteps_keeps_all (E : Env) chatId userId title description
  status priority deadline createdFromMessageId stepsData :
  keeps I (createGoalWithSteps E chatId userId title description status
             priority deadline createdFromMessageId stepsData).
Proof. unfold createGoalWithSteps. stride. Qed.

Lemma toggleStepCompletion_keeps_all (E : Env) id :
  keeps I (toggleStepCompletion E id).
Proof. unfold toggleStepCompletion, q_stepById. stride. Qed.

Lemma updateStep_keeps_all (E : Env) id title isCompleted :
  keeps I (updateStep E id title isCompleted).
Proof. unfold updateStep, q_stepById. stride. Qed.

Lemma deleteStep_keeps_all (E : Env) id : keeps I (deleteStep E id).
Proof.
  unfold deleteStep, q_stepById, q_stepsOfGoal. stride.
  apply renumber_keeps_all.
Qed.

Lemma every_call_keeps (E : Env) (c : Call) (d : DB) :
  I d -> I (after E c d).
Proof.
  intros H. destruct c; simpl; apply keeps_call; try exact H.
  - unfold createGoal. stride.
  - unfold updateGoal, getGoalById, q_goalById. stride.
  - unfold deleteGoal. stride.
  - unfold createStep, getGoalById, q_goalById, q_stepOrders. stride.
  - unfold createSteps, q_stepOrders. stride.
  - apply updateStep_keeps_all.
  - apply deleteStep_keeps_all.
  - apply toggleStepCompletion_keeps_all.
  - apply createGoalWithSteps_keeps_all.
  - unfold reorderSteps. stride. apply reorderLoop_keeps_all.
  - unfold bulkUpdateSteps. stride. apply bulkLoop_keeps_all.
Qed.

Lemma reachable_keeps (d : DB) :
  (forall chats users messages, I (mkDB chats users messages [] [])) ->
  reachable d -> I d.
Proof.
  intros H0. induction 1 as [chats users messages|E c d R IH].
  - apply H0.
  - now apply every_call_keeps.
Qed.

End EveryCall.

End KeepFacts.

(* ================================================================== *)
(** * Part XIX.  The keys of the store                                 *)
(* ================================================================== *)

Module KeyFacts.
Import Store Queries System StoreFacts Shape.

Lemma hasKey_In (k : Id) (keys : list Id) : hasKey k keys = true <-> In k keys.
Proof.
  unfold hasKey. rewrite existsb_exists. split.
  - intros (x & Hx & He). apply N.eqb_eq in He. now subst.
  - intros H. exists k. split; [exact H|apply N.eqb_refl].
Qed.

Lemma hasKey_notIn (k : Id) (keys : list Id) :
  hasKey k keys = false <-> ~ In k keys.
Proof.
  rewrite <- hasKey_In. destruct (hasKey k keys); split; congruence.
Qed.

Lemma distinct_NoDup (keys : list Id) : distinct keys = true <-> NoDup keys.
Proof.
  induction keys as [|k r IH]; simpl.
  - split; [constructor|reflexivity].
  - rewrite andb_true_iff, negb_true_iff, hasKey_notIn, IH. split.
    + intros [A B]. now constructor.
    + intros H. inversion H; subst. now split.
Qed.

(** What the store has checked when an insertion went through. *)
Lemma q_insertGoal_checked (row g : Goal) (d d' : DB) :
  q_insertGoal row d = (inr g, d') ->
  ~ In (g_id row) (map g_id (goalTable d)) /\
  In (g_chatId row) (map c_id (chatTable d)) /\
  In (g_userId row) (userTable d) /\
  (forall m, g_createdFromMessageId row = Some m -> In m (messageTable d)).
Proof.
  unfold q_insertGoal.
  destruct (negb (goalTextOk row)); [discriminate|].
  destruct (hasKey (g_id row) (map g_id (goalTable d))) eqn:K1; [discriminate|].
  destruct (hasKey (g_chatId row) (map c_id (chatTable d))) eqn:K2;
    [|discriminate].
  destruct (hasKey (g_userId row) (userTable d)) eqn:K3; [|discriminate].
  simpl. intros H.
  split; [now apply hasKey_notIn|]. split; [now apply hasKey_In|].
  split; [now apply hasKey_In|].
  intros m Hm. rewrite Hm in H.
  destruct (hasKey m (messageTable d)) eqn:K4; [now apply hasKey_In|discriminate].
Qed.

Lemma q_insertSteps_checked (rows created : list Step) (d d' : DB) :
  q_insertSteps rows d = (inr created, d') ->
  NoDup (map s_id rows) /\
  forall s, In s rows ->
    ~ In (s_id s) (map s_id (stepTable d)) /\
    In (s_goalId s) (map g_id (goalTable d)) /\
    int4 (s_order s) = true.
Proof.
  unfold q_insertSteps. destruct rows as [|r0 rows0]; [discriminate|].
  set (rows := r0 :: rows0).
  destruct (distinct (map s_id rows)) eqn:D; [|discriminate].
  destruct (existsb (fun s => hasKey _ _) rows) eqn:X; [discriminate|].
  destruct (forallb (fun s => hasKey _ _) rows) eqn:F1; [|discriminate].
  destruct (forallb (fun s => int4 _) rows) eqn:F2; [|discriminate].
  intros _. split; [now apply distinct_NoDup|].
  intros s Hs. rewrite forallb_forall in F1, F2.
  split; [|split; [apply hasKey_In; now apply F1|now apply F2]].
  intros Hin. apply hasKey_In in Hin.
  assert (existsb (fun s0 => hasKey (s_id s0) (map s_id (stepTable d))) rows
          = true) by (apply existsb_exists; eauto).
  congruence.
Qed.

Lemma q_updateStep_checked (i : Id) (p : StepPatch) (u : unit) (d d' : DB) :
  q_updateStep i p d = (inr u, d') ->
  stepPatchEmpty p = false /\
  forall o, sp_order p = Some o -> int4 o = true.
Proof.
  unfold q_updateStep. destruct (stepPatchEmpty p); [discriminate|].
  destruct (sp_order p) as [o|]; [|intros _; split; [reflexivity|discriminate]].
  destruct (int4 o) eqn:I4; [|discriminate].
  intros _. split; [reflexivity|]. now intros ? [= <-].
Qed.

Lemma goal_ids_distinct_filter (p : Goal -> bool) (l : list Goal) :
  NoDup (map g_id l) -> NoDup (map g_id (filter p l)).
Proof.
  induction l as [|g l IH]; simpl; intros H; [constructor|].
  inversion H as [|? ? Hn Hd]; subst.
  destruct (p g); simpl; [|now apply IH].
  constructor; [|now apply IH].
  intros Hin. apply Hn. apply in_map_iff in Hin.
  destruct Hin as (x & Hx & Hin). apply filter_In in Hin.
  apply in_map_iff. exists x. tauto.
Qed.

Lemma patchGoal_keys (p : GoalPatch) (g : Goal) :
  g_id (patchGoal p g) = g_id g /\ g_chatId (patchGoal p g) = g_chatId g /\
  g_userId (patchGoal p g) = g_userId g.
Proof. repeat split. Qed.

Lemma patchStep_keys (p : StepPatch) (s : Step) :
  s_id (patchStep p s) = s_id s /\ s_goalId (patchStep p s) = s_goalId s /\
  s_createdAt (patchStep p s) = s_createdAt s.
Proof. repeat split. Qed.

Lemma replaced_ids (i : Id) (f : Step -> Step) (l : list Step) :
  (forall s, s_id (f s) = s_id s) ->
  map s_id (replaced i f l) = map s_id l.
Proof.
  intros H. unfold replaced. rewrite map_map. apply map_ext.
  intros s. destruct (stepHasId i s); [apply H|reflexivity].
Qed.

Lemma goal_ids_patched (i : Id) (p : GoalPatch) (l : list Goal) :
  map g_id (map (fun g => if goalHasId i g then patchGoal p g else g) l)
  = map g_id l.
Proof.
  rewrite map_map. apply map_ext. intros g. now destruct (goalHasId i g).
Qed.

Lemma KeysOk_insertGoal (row g : Goal) (d d' : DB) :
  KeysOk d -> q_insertGoal row d = (inr g, d') -> KeysOk d'.
Proof.
  intros (G & S & FS & FG) Q.
  pose proof (q_insertGoal_checked _ _ Q) as (Hn & Hc & Hu & _).
  apply q_insertGoal_inr in Q. destruct Q as (_ & -> & _).
  unfold KeysOk. simpl. rewrite map_app. simpl.
  split; [|split; [exact S|split]].
  - apply NoDup_app; [exact G|repeat constructor; intros []|].
    intros a Ha [<-|[]]. contradiction.
  - intros s Hs. destruct (FS s Hs) as [A B]. split; [|exact B].
    apply in_or_app. now left.
  - intros g0 Hg. apply in_app_or in Hg. destruct Hg as [Hg|[<-|[]]].
    + now apply FG.
    + now split.
Qed.

Lemma KeysOk_updateGoal (i : Id) (p : GoalPatch) (u : unit) (d d' : DB) :
  KeysOk d -> q_updateGoal i p d = (inr u, d') -> KeysOk d'.
Proof.
  intros (G & S & FS & FG) Q. apply q_updateGoal_inr in Q. subst d'.
  unfold KeysOk. simpl. rewrite goal_ids_patched.
  split; [exact G|]. split; [exact S|]. split; [exact FS|].
  intros g Hg. apply in_map_iff in Hg. destruct Hg as (g0 & <- & Hg0).
  destruct (goalHasId i g0); apply (FG g0 Hg0).
Qed.

Lemma KeysOk_deleteGoal (i : Id) (r : option Goal) (d d' : DB) :
  KeysOk d -> q_deleteGoal i d = (inr r, d') -> KeysOk d'.
Proof.
  intros (G & S & FS & FG) [= _ <-]. unfold KeysOk. simpl.
  split; [now apply goal_ids_distinct_filter|].
  split; [now apply OrderFacts.ids_distinct_filter|]. split.
  - intros s Hs. apply filter_In in Hs. destruct Hs as [Hs Hn].
    destruct (FS s Hs) as [A B]. split; [|exact B].
    apply in_map_iff in A. destruct A as (g & Hg & Hin).
    apply in_map_iff. exists g. split; [exact Hg|].
    apply filter_In. split; [exact Hin|].
    unfold goalHasId, stepOfGoal in *. now rewrite Hg.
  - intros g Hg. apply filter_In in Hg. now apply FG.
Qed.

Lemma KeysOk_insertSteps (rows created : list Step) (d d' : DB) :
  KeysOk d -> q_insertSteps rows d = (inr created, d') -> KeysOk d'.
Proof.
  intros (G & S & FS & FG) Q.
  pose proof (q_insertSteps_checked _ _ Q) as (Hn & Hr).
  apply q_insertSteps_inr in Q. destruct Q as (_ & -> & _).
  unfold KeysOk. simpl. rewrite map_app.
  split; [exact G|]. split; [|split; [|exact FG]].
  - apply NoDup_app; [exact S|exact Hn|].
    intros a Ha Hb. apply in_map_iff in Hb. destruct Hb as (s & <- & Hs).
    now apply (Hr s Hs).
  - intros s Hs. apply in_app_or in Hs. destruct Hs as [Hs|Hs].
    + now apply FS.
    + destruct (Hr s Hs) as (_ & A & B). now split.
Qed.

Lemma KeysOk_updateStep (i : Id) (p : StepPatch) (u : unit) (d d' : DB) :
  KeysOk d -> q_updateStep i p d = (inr u, d') -> KeysOk d'.
Proof.
  intros (G & S & FS & FG) Q.
  pose proof (q_updateStep_checked _ _ _ Q) as (_ & Ho).
  apply q_updateStep_inr in Q. subst d'.
  unfold KeysOk. simpl.
  split; [exact G|]. split; [|split; [|exact FG]].
  - change (NoDup (map s_id (replaced i (patchStep p) (stepTable d)))).
    rewrite replaced_ids; [exact S|reflexivity].
  - intros s Hs. apply in_map_iff in Hs. destruct Hs as (s0 & <- & Hs0).
    destruct (FS s0 Hs0) as [A B].
    destruct (stepHasId i s0); [|now split].
    split; [exact A|]. unfold patchStep. simpl.
    destruct (sp_order p) as [o|]; simpl; [now apply Ho|exact B].
Qed.

Lemma KeysOk_deleteStep (i : Id) (u : unit) (d d' : DB) :
  KeysOk d -> q_deleteStep i d = (inr u, d') -> KeysOk d'.
Proof.
  intros (G & S & FS & FG) [= _ <-]. unfold KeysOk. simpl.
  split; [exact G|]. split; [now apply OrderFacts.ids_distinct_filter|].
  split; [|exact FG].
  intros s Hs. apply filter_In in Hs. now apply FS.
Qed.

Lemma KeysOk_start (chats : list Chat) (users messages : list Id) :
  KeysOk (mkDB chats users messages [] []).
Proof.
  unfold KeysOk. simpl.
  split; [constructor|]. split; [constructor|]. split; intros ? [].
Qed.

Lemma KeysOk_call (E : Env) (c : Call) (d : DB) :
  KeysOk d -> KeysOk (after E c d).
Proof.
  apply KeepFacts.every_call_keeps.
  - intros; eapply KeysOk_insertGoal; eassumption.
  - intros; eapply KeysOk_updateGoal; eassumption.
  - intros; eapply KeysOk_deleteGoal; eassumption.
  - intros; eapply KeysOk_insertSteps; eassumption.
  - intros; eapply KeysOk_updateStep; eassumption.
  - intros; eapply KeysOk_deleteStep; eassumption.
Qed.

End KeyFacts.

(* ================================================================== *)
(** * Part XX.  Calls that throw                                       *)
(* ================================================================== *)

Module AtomicFacts.
Import Store Queries System StoreFacts Shape.

Lemma readsOnly_ret (A : Type) (a : A) : readsOnly (ret a).
Proof. now intros w r w' [= _ <-]. Qed.

Lemma readsOnly_throw (A : Type) (e : Exn) : readsOnly (@throw A e).
Proof. now intros w r w' [= _ <-]. Qed.

Lemma readsOnly_bind (A B : Type) (m : M A) (k : A -> M B) :
  readsOnly m -> (forall a, readsOnly (k a)) -> readsOnly (bind m k).
Proof.
  intros Hm Hk w r w'. unfold bind.
  destruct (m w) as [[e|a] w1] eqn:M1.
  - intros [= _ <-]. eapply Hm; eauto.
  - intros K. rewrite (Hk _ _ _ _ K). eapply Hm; eauto.
Qed.

Lemma readsOnly_catch (A : Type) (m : M A) (h : Exn -> M A) :
  readsOnly m -> (forall e, readsOnly (h e)) -> readsOnly (catch m h).
Proof.
  intros Hm Hh w r w'. unfold catch.
  destruct (m w) as [[e|a] w1] eqn:M1.
  - intros K. rewrite (Hh _ _ _ _ K). eapply Hm; eauto.
  - intros [= _ <-]. eapply Hm; eauto.
Qed.

Lemma readsOnly_handler (A : Type) (msg : string) (e : Exn) :
  readsOnly (@rethrowOrWrap A msg e) /\ readsOnly (@wrapAll A msg e).
Proof. split; [destruct e|]; apply readsOnly_throw. Qed.

Lemma readsOnly_read (E : Env) (A : Type) (f : DB -> A) :
  readsOnly (statement E (fun d => (inr (f d), d))).
Proof.
  intros w [e|a] w' S.
  - now apply statement_inl in S.
  - apply statement_inr in S. destruct S as (S & _). now injection S.
Qed.

Lemma readsOnly_freshId (E : Env) : readsOnly (freshId E).
Proof. now intros w r w' [= _ <-]. Qed.

Lemma readsOnly_freshIds (E : Env) (n : nat) : readsOnly (freshIds E n).
Proof. intros w r w'. rewrite freshIds_run. now intros [= _ <-]. Qed.

(** A statement with a caller's id reads only when it does so for every
    uuid. *)
Lemma readsOnly_byKey (E : Env) (A : Type) (k : Key)
  (q : Id -> DB -> (string + A) * DB) :
  (forall i, readsOnly (statement E (q i))) ->
  readsOnly (statement E (byKey k q)).
Proof.
  intros H. destruct k as [i|text]; simpl; [apply H|].
  intros w [e|a] w' S.
  - now apply statement_inl in S.
  - apply statement_inr in S. destruct S as (S & _). discriminate S.
Qed.

Lemma readsOnly_getGoalById (E : Env) (i : Key) : readsOnly (getGoalById E i).
Proof.
  unfold getGoalById, q_goalById. apply readsOnly_catch.
  - apply readsOnly_byKey. intros ?. apply readsOnly_read.
  - intros e. apply readsOnly_handler.
Qed.

Lemma spares_reads (A : Type) (m : M A) : readsOnly m -> sparesOnError m.
Proof. intros H w e w'. apply H. Qed.

Lemma spares_statement (E : Env) (A : Type) (q : DB -> (string + A) * DB) :
  sparesOnError (statement E q).
Proof. intros w e w' S. now apply statement_inl in S. Qed.

Lemma spares_transaction (E : Env) (A : Type) (body : M A) :
  sparesOnError (transaction E body).
Proof. intros w e w'. apply transaction_inl. Qed.

(** Reads followed by a computation that spares the store spare it. *)
Lemma spares_bind (A B : Type) (m : M A) (k : A -> M B) :
  readsOnly m -> (forall a, sparesOnError (k a)) -> sparesOnError (bind m k).
Proof.
  intros Hm Hk w e w'. unfold bind.
  destruct (m w) as [[e1|a] w1] eqn:M1.
  - intros [= _ <-]. eapply Hm; eauto.
  - intros K. rewrite (Hk _ _ _ _ K). eapply Hm; eauto.
Qed.

Lemma spares_catch (A : Type) (m : M A) (h : Exn -> M A) :
  sparesOnError m -> (forall e, readsOnly (h e)) -> sparesOnError (catch m h).
Proof.
  intros Hm Hh w e w'. unfold catch.
  destruct (m w) as [[e1|a] w1] eqn:M1; [|discriminate].
  intros K. rewrite (Hh _ _ _ _ K). eapply Hm; eauto.
Qed.

Lemma spares_bind_ret (A B : Type) (m : M A) (f : A -> B) :
  sparesOnError m -> sparesOnError (bind m (fun a => ret (f a))).
Proof.
  intros Hm w e w'. unfold bind, ret.
  destruct (m w) as [[e1|a] w1] eqn:M1; [|discriminate].
  intros [= _ <-]. eapply Hm; eauto.
Qed.

(** The two handlers turn whatever was thrown into a [ChatSDKError]. *)
Lemma catch_rethrowOrWrap_wraps (A : Type) (m : M A) (msg : string) :
  throwsChatSDKError (catch m (rethrowOrWrap msg)).
Proof.
  intros w e w'. unfold catch.
  destruct (m w) as [[[c cause|dm]|a] w1]; simpl; unfold throw;
    intros [= <- _]; eauto.
Qed.

Lemma catch_wrapAll_wraps (A : Type) (m : M A) (msg : string) :
  throwsChatSDKError (catch m (wrapAll msg)).
Proof.
  intros w e w'. unfold catch, wrapAll, throw.
  destruct (m w) as [[e1|a] w1]; intros [= <- _]; eauto.
Qed.

Ltac spare :=
  repeat first
    [ apply spares_transaction
    | apply spares_statement
    | apply spares_catch; [|intros ?; apply readsOnly_handler]
    | match goal with
      | |- sparesOnError (bind (statement _ _) (fun a => ret _)) =>
          apply spares_bind_ret; apply spares_statement
      | |- sparesOnError (bind _ _) => apply spares_bind; [|intros ?]
      end
    | apply readsOnly_bind; [|intros ?]
    | apply readsOnly_getGoalById
    | apply readsOnly_byKey; intros ?; cbv beta
    | apply readsOnly_read
    | apply readsOnly_freshId
    | apply readsOnly_freshIds
    | apply readsOnly_ret
    | apply readsOnly_throw
    | match goal with
      | |- sparesOnError (throw _) => apply spares_reads
      | |- sparesOnError (ret _) => apply spares_reads
      | |- sparesOnError (if ?b then _ else _) => destruct b
      | |- sparesOnError (match ?o with Some _ => _ | None => _ end) =>
          destruct o
      | |- readsOnly (match ?o with Some _ => _ | None => _ end) =>
          destruct o
      end ].

Lemma createGoal_spares (E : Env) chatId userId title description status
  priority deadline createdFromMessageId :
  sparesOnError (createGoal E chatId userId title description status priority
                   deadline createdFromMessageId).
Proof. unfold createGoal. spare. Qed.

Lemma updateGoal_spares (E : Env) id title description status priority
  deadline :
  sparesOnError (updateGoal E id title description status priority deadline).
Proof. unfold updateGoal. spare. Qed.

Lemma createStep_spares (E : Env) goalId title order :
  sparesOnError (createStep E goalId title order).
Proof. unfold createStep, q_stepOrders. spare. Qed.

Lemma updateStep_spares (E : Env) id title isCompleted :
  sparesOnError (updateStep E id title isCompleted).
Proof. unfold updateStep, q_stepById. spare. Qed.

Lemma toggleStepCompletion_spares (E : Env) id :
  sparesOnError (toggleStepCompletion E id).
Proof. unfold toggleStepCompletion, q_stepById. spare. Qed.

Lemma reorderSteps_spares (E : Env) goalId stepOrders :
  sparesOnError (reorderSteps E goalId stepOrders).
Proof. unfold reorderSteps. spare. Qed.

Lemma bulkUpdateSteps_spares (E : Env) goalId updates :
  sparesOnError (bulkUpdateSteps E goalId updates).
Proof. unfold bulkUpdateSteps. spare. Qed.

Lemma thrown_call (A : Type) (m : M A) (d : DB) (e : Exn) :
  thrown (call m d) = Some e ->
  exists w', m (mkWorld d 0 0) = (inl e, w') /\ snd (call m d) = db w'.
Proof.
  unfold thrown, call. destruct (m (mkWorld d 0 0)) as [[e1|a] w'];
    simpl; [|discriminate].
  intros [= ->]. eauto.
Qed.

Lemma spares_call (A : Type) (m : M A) (d : DB) (e : Exn) :
  sparesOnError m -> throwsChatSDKError m ->
  thrown (call m d) = Some e ->
  snd (call m d) = d /\ exists code cause, e = ChatSDKError code cause.
Proof.
  intros Hs Hw T. apply thrown_call in T. destruct T as (w' & R & ->).
  split; [exact (Hs _ _ _ R)|exact (Hw _ _ _ R)].
Qed.

End AtomicFacts.

(* ================================================================== *)
(** * Part XXI.  Creating steps                                        *)
(* ================================================================== *)

Module CreateFacts.
Import Store Queries System StoreFacts Shape KeyFacts.

Lemma fold_max_lower (l : list Z) :
  forall a, (a <= fold_left Z.max l a)%Z.
Proof.
  induction l as [|x l IH]; intros a; simpl; [lia|].
  specialize (IH (Z.max a x)). lia.
Qed.

Lemma fold_max_upper (l : list Z) :
  forall a o, In o l -> (o <= fold_left Z.max l a)%Z.
Proof.
  induction l as [|x l IH]; intros a o; simpl; [intros []|].
  intros [<-|H].
  - pose proof (fold_max_lower l (Z.max a x)). lia.
  - now apply IH.
Qed.

(** [Math.max(...orders)] is an upper bound of the orders. *)
Lemma maxOrder_upper (orders : list Z) (o : Z) :
  In o orders -> (o <= maxOrder orders)%Z.
Proof.
  destruct orders as [|a r]; simpl; [intros []|].
  intros [<-|H]; [apply fold_max_lower|now apply fold_max_upper].
Qed.

Lemma find_goal_Some (i : Id) (l : list Goal) :
  In i (map g_id l) -> exists g, find (goalHasId i) l = Some g.
Proof.
  intros H. destruct (find (goalHasId i) l) as [g|] eqn:F; [eauto|].
  apply in_map_iff in H. destruct H as (g & Hg & Hin).
  pose proof (find_none _ _ F g Hin) as N. unfold goalHasId in N.
  rewrite Hg, N.eqb_refl in N. discriminate.
Qed.

Lemma find_goal_None (i : Id) (l : list Goal) :
  ~ In i (map g_id l) -> find (goalHasId i) l = None.
Proof.
  intros H. destruct (find (goalHasId i) l) as [g|] eqn:F; [|reflexivity].
  apply find_some in F. destruct F as [Hin Hg]. unfold goalHasId in Hg.
  apply N.eqb_eq in Hg. exfalso. apply H. apply in_map_iff. eauto.
Qed.

(** A single row whose id is new, whose goal exists and whose order fits
    is inserted, unless its title holds the code unit 0. *)
Lemma q_insertSteps_one (s : Step) (d : DB) :
  ~ In (s_id s) (map s_id (stepTable d)) ->
  In (s_goalId s) (map g_id (goalTable d)) ->
  int4 (s_order s) = true ->
  q_insertSteps [s] d =
  if hasNul (s_title s) then (inl invalidText, d)
  else (inr [s], withSteps d (stepTable d ++ [s])).
Proof.
  intros Hn Hg Ho. unfold q_insertSteps. simpl.
  rewrite (proj2 (hasKey_notIn _ _) Hn), (proj2 (hasKey_In _ _) Hg), Ho.
  simpl. now rewrite orb_false_r.
Qed.

End CreateFacts.

Import Store Queries System Shape.

(** X3.  [createStep] on a store that does not fail, for a title that
    is not blank and a goal that exists, the id drawn being new and the
    order fitting the integer column.  When the title holds no code unit
    0, the call returns the created row and the store gains exactly that
    row, after the former ones; the row is not completed, has no
    completion time, and has the supplied order or, when none is supplied,
    one more than the largest order among the goal's steps, which is above
    every one of them, and 0 for a goal without steps.  When the title
    holds the code unit 0 the store refuses the row: the call throws the
    database error "Failed to create step" and the store is unchanged. *)
Theorem createStep_appends (E : Env) (d : DB) (goalId : Id) (title : string)
  (providedOrder : option Z) :
  fault E = None ->
  blank title = false ->
  In goalId (map g_id (goalTable d)) ->
  ~ In (uuid E 0) (map s_id (stepTable d)) ->
  let stepOrder :=
    match providedOrder with
    | Some o => o
    | None => (maxOrder (map s_order (rowsOfGoal goalId d)) + 1)%Z
    end in
  int4 stepOrder = true ->
  let createdStep :=
    mkStep (uuid E 0) goalId title false stepOrder None (now E) in
  call (createStep E goalId title providedOrder) d =
    (if hasNul title
     then (inl (ChatSDKError bad_request_database "Failed to create step"),
           d)
     else (inr (Some createdStep),
           withSteps d (stepTable d ++ [createdStep]))) /\
  (providedOrder = None ->
   (forall s, In s (rowsOfGoal goalId d) -> (s_order s < stepOrder)%Z) /\
   (rowsOfGoal goalId d = [] -> stepOrder = 0%Z)).
Proof.
  intros F B G N stepOrder I4 createdStep. split.
  - unfold call, createStep, catch. rewrite B.
    destruct (CreateFacts.find_goal_Some _ _ G) as (g & Hg).
    unfold bind at 1. unfold getGoalById, catch.
    rewrite (StoreFacts.statement_ok _ _ _ F). simpl. rewrite Hg.
    subst createdStep stepOrder.
    destruct providedOrder as [o|].
    + unfold bind, ret, freshId. simpl.
      rewrite (StoreFacts.statement_ok _ _ _ F). simpl db.
      rewrite (@CreateFacts.q_insertSteps_one
                 (mkStep (uuid E 0) goalId title false o None (now E))
                 d N G I4).
      simpl s_title. now destruct (hasNul title).
    + unfold bind, ret, freshId. simpl.
      rewrite !(StoreFacts.statement_ok _ _ _ F). simpl.
      fold (rowsOfGoal goalId d).
      rewrite (StoreFacts.statement_ok _ _ _ F). simpl db.
      rewrite (@CreateFacts.q_insertSteps_one
                 (mkStep (uuid E 0) goalId title false
                    (maxOrder (map s_order (rowsOfGoal goalId d)) + 1) None
                    (now E))
                 d N G I4).
      simpl s_title. now destruct (hasNul title).
  - intros ->. subst stepOrder. split.
    + intros s Hs.
      pose proof (@CreateFacts.maxOrder_upper
                    (map s_order (rowsOfGoal goalId d)) (s_order s)
                    (in_map _ _ _ Hs)). lia.
    + intros ->. reflexivity.
Qed.

Lemma createStep_appends_witness :
  call (createStep Cases.env1 100%N "Tune the guitar" None) Cases.planned
  = (inr (Some (mkStep 200%N 100%N "Tune the guitar" false 3%Z None 2000%Z)),
     withSteps Cases.planned
       (stepTable Cases.planned ++
        [mkStep 200%N 100%N "Tune the guitar" false 3%Z None 2000%Z])).
Proof.
  refine (proj1 (@createStep_appends Cases.env1 Cases.planned 100%N
                   "Tune the guitar" None eq_refl eq_refl _ _ eq_refl)).
  - vm_compute. tauto.
  - vm_compute. intuition discriminate.
Defined.

(** A title with the code unit 0 at work: [createStep] throws the
    database error and inserts nothing. *)
Lemma createStep_refused_text :
  hasNul (String (ascii_of_nat 0) "x") = true /\
  call (createStep Cases.env1 100%N (String (ascii_of_nat 0) "x") None)
       Cases.planned
  = (inl (ChatSDKError bad_request_database "Failed to create step"),
     Cases.planned).
Proof.
  split; vm_compute; reflexivity.
Qed.

Module BatchFacts.
Import Store Queries System StoreFacts Shape.

(** The orders [createSteps] hands out: an explicit order is kept, and
    the steps without one count up from [currentOrder], one apart. *)
Lemma assignOrders_nth (stepsData : list StepInput) :
  forall currentOrder k sd,
  nth_error stepsData k = Some sd ->
  nth_error (assignOrders currentOrder stepsData) k =
  Some (match si_order sd with
        | Some o => o
        | None => (currentOrder + Z.of_nat (unnumbered (firstn k stepsData)))%Z
        end).
Proof.
  induction stepsData as [|sd0 r IH]; intros cur [|k] sd; simpl;
    try discriminate.
  - intros [= ->]. destruct (si_order sd); [reflexivity|].
    unfold unnumbered. simpl. now rewrite Z.add_0_r.
  - intros H. unfold unnumbered. simpl.
    destruct (si_order sd0) as [o0|]; simpl.
    + apply (IH cur k sd H).
    + rewrite (IH (cur + 1)%Z k sd H). destruct (si_order sd); [reflexivity|].
      f_equal. unfold unnumbered. lia.
Qed.

Lemma assignOrders_length (stepsData : list StepInput) :
  forall currentOrder,
  length (assignOrders currentOrder stepsData) = length stepsData.
Proof.
  induction stepsData as [|sd r IH]; intros cur; simpl; [reflexivity|].
  destruct (si_order sd); simpl; now rewrite IH.
Qed.

Lemma createSteps_inr (E : Env) (goalId : Id) (stepsData : list StepInput)
  (w w' : World) (created : list Step) :
  createSteps E goalId stepsData w = (inr created, w') ->
  created =
    stepsToInsert goalId (now E)
      (map (uuid E) (seq (drawn w) (length stepsData))) stepsData
      (assignOrders
         (maxOrder (map s_order (rowsOfGoal goalId (db w))) + 1) stepsData) /\
  db w' = withSteps (db w) (stepTable (db w) ++ created).
Proof.
  unfold createSteps, catch.
  match goal with
  | |- context [match ?m w with _ => _ end] =>
      destruct (m w) as [[e1|a] w1] eqn:B
  end; [discriminate|].
  intros [= -> ->].
  apply bind_inr in B. destruct B as (orders & w2 & S1 & B).
  apply statement_inr in S1. destruct S1 as (S1 & _ & D2 & _).
  unfold q_stepOrders in S1. injection S1 as Ho Hd.
  apply bind_inr in B. destruct B as (ids & w3 & S2 & B).
  rewrite freshIds_run in S2. injection S2 as <- <-.
  apply statement_inr in B. destruct B as (B & _). simpl in B.
  apply q_insertSteps_inr in B. destruct B as (Hc & Hd' & _).
  rewrite <- Hd in Hd'. rewrite D2 in Hc, Hd'. subst orders.
  split; [exact Hc|]. rewrite Hd'. now rewrite Hc.
Qed.

End BatchFacts.

(** X4.  When [createSteps] returns, the store holds the created rows
    after the former ones, one per supplied step and in the supplied
    sequence, each with the supplied title, belonging to the goal, not
    completed and without completion time.  A step with an explicit order
    keeps it; a step without one gets the largest order among the goal's
    former steps (or -1), plus one, plus the number of steps before it in
    the argument that had no explicit order either: explicit orders do not
    advance the counter.  When the call throws the store is unchanged. *)
Theorem createSteps_numbers (E : Env) (d : DB) (goalId : Id)
  (stepsData : list StepInput) :
  match call (createSteps E goalId stepsData) d with
  | (inr created, d') =>
      stepTable d' = stepTable d ++ created /\
      goalTable d' = goalTable d /\
      length created = length stepsData /\
      forall k sd, nth_error stepsData k = Some sd ->
        exists s, nth_error created k = Some s /\
                  s_goalId s = goalId /\ s_title s = si_title sd /\
                  s_isCompleted s = false /\ s_completedAt s = None /\
                  s_order s =
                    match si_order sd with
                    | Some o => o
                    | None =>
                        (maxOrder (map s_order (rowsOfGoal goalId d)) + 1
                         + Z.of_nat (unnumbered (firstn k stepsData)))%Z
                    end
  | (inl _, d') => d' = d
  end.
Proof.
  unfold call.
  destruct (createSteps E goalId stepsData (mkWorld d 0 0))
    as [[e|created] w'] eqn:R.
  - now apply ReadFacts.createSteps_inl in R.
  - apply BatchFacts.createSteps_inr in R. simpl in R.
    destruct R as (Hc & Hd). rewrite Hd. simpl.
    split; [reflexivity|]. split; [reflexivity|].
    assert (Len : length created = length stepsData).
    { rewrite Hc. apply IngestFacts.stepsToInsert_length.
      - now rewrite length_map, length_seq.
      - apply BatchFacts.assignOrders_length. }
    split; [exact Len|].
    intros k sd Hk.
    assert (Hlt : k < length stepsData)
      by (apply nth_error_Some; congruence).
    eexists. split.
    + rewrite Hc. apply IngestFacts.stepsToInsert_nth.
      * now apply IngestFacts.ids_nth.
      * exact Hk.
      * apply (BatchFacts.assignOrders_nth stepsData _ k Hk).
    + simpl. repeat split.
Qed.

(** [createSteps] at work: the goal has the orders 0, 1 and 2; of three
    more steps the second asks for order 7, the other two are numbered
    3 and 4. *)
Lemma createSteps_example :
  exists created d',
    call (createSteps Cases.env1 100%N Cases.threeSteps) Cases.planned
    = (inr created, d') /\
    map (fun s => (s_title s, s_order s)) created =
      [("Buy a guitar"%string, 3%Z); ("Practice daily"%string, 7%Z);
       ("Play a song"%string, 4%Z)].
Proof.
  do 2 eexists. split; [vm_compute; reflexivity|reflexivity].
Qed.

(* ================================================================== *)
(** * Part XXII.  Updating steps                                       *)
(* ================================================================== *)

Module UpdateFacts.
Import Store Queries System StoreFacts Shape OrderFacts.

Lemma replaced_fix (i : Id) (f : Step -> Step) (l : list Step) :
  (forall s, In s l -> s_id s = i -> f s = s) -> replaced i f l = l.
Proof.
  intros H. unfold replaced. rewrite <- (map_id l) at 2.
  apply map_ext_in. intros s Hs.
  destruct (stepHasId i s) eqn:Hi; [|reflexivity].
  apply H; [exact Hs|now apply stepHasId_true].
Qed.

Lemma replaced_twice (i : Id) (f g : Step -> Step) (l : list Step) :
  (forall s, s_id (f s) = s_id s) ->
  replaced i g (replaced i f l) = replaced i (fun s => g (f s)) l.
Proof.
  intros H. unfold replaced. rewrite map_map. apply map_ext. intros s.
  destruct (stepHasId i s) eqn:Hi.
  - unfold stepHasId in *. now rewrite H, Hi.
  - now rewrite Hi.
Qed.

Lemma replaced_ext (i : Id) (f g : Step -> Step) (l : list Step) :
  (forall s, In s l -> s_id s = i -> f s = g s) ->
  replaced i f l = replaced i g l.
Proof.
  intros H. unfold replaced. apply map_ext_in. intros s Hs.
  destruct (stepHasId i s) eqn:Hi; [|reflexivity].
  apply H; [exact Hs|now apply stepHasId_true].
Qed.

Lemma find_replaced (i : Id) (f : Step -> Step) (l : list Step) :
  (forall s, s_id (f s) = s_id s) ->
  find (stepHasId i) (replaced i f l) = option_map f (find (stepHasId i) l).
Proof.
  intros H. induction l as [|s l IH]; simpl; [reflexivity|].
  destruct (stepHasId i s) eqn:Hi.
  - unfold stepHasId in *. now rewrite H, Hi.
  - now rewrite Hi.
Qed.

(** Where ids are distinct, the rows with the id of [x] are [x]. *)
Lemma replaced_row (i : Id) (f : Step -> Step) (l : list Step) (x : Step) :
  NoDup (map s_id l) -> find (stepHasId i) l = Some x ->
  replaced i f l = replaced i (fun _ => f x) l.
Proof.
  intros ND F. apply DeleteFacts.find_stepHasId in F. destruct F as [Hx Hi].
  apply replaced_ext. intros s Hs Hs'. f_equal.
  apply (same_id_same_row l); auto. congruence.
Qed.

Lemma q_updateStep_run (i : Id) (p : StepPatch) (d : DB) :
  stepPatchEmpty p = false ->
  (forall o, sp_order p = Some o -> int4 o = true) ->
  someHasNul (sp_title p) = false ->
  q_updateStep i p d =
  (inr tt, withSteps d (replaced i (patchStep p) (stepTable d))).
Proof.
  intros He Ho Ht. unfold q_updateStep. rewrite He, Ht.
  destruct (sp_order p) as [o|]; [|reflexivity].
  now rewrite (Ho o eq_refl).
Qed.

Lemma toggleStepCompletion_run (E : Env) (id : Id) (d : DB) :
  fault E = None ->
  call (toggleStepCompletion E id) d =
  match find (stepHasId id) (stepTable d) with
  | None => (inl (ChatSDKError not_found_goal "Step not found"), d)
  | Some x =>
      (inr tt,
       withSteps d
         (replaced id
            (withCompletion (negb (s_isCompleted x))
               (completedAtFor (now E) (negb (s_isCompleted x))))
            (stepTable d)))
  end.
Proof.
  intros F. unfold call, toggleStepCompletion, catch, bind.
  rewrite (statement_ok _ _ _ F). simpl.
  destruct (find (stepHasId id) (stepTable d)) as [x|]; [|reflexivity].
  rewrite (statement_ok _ _ _ F). simpl. reflexivity.
Qed.

Lemma updateStep_run (E : Env) (id : Id) (title : option string)
  (isCompleted : option bool) (d : DB) :
  fault E = None ->
  call (updateStep E id title isCompleted) d =
  match find (stepHasId id) (stepTable d) with
  | None => (inl (ChatSDKError not_found_goal "Step not found"), d)
  | Some _ =>
      if blankIfSupplied title
      then (inl (ChatSDKError bad_request_goal "Step title cannot be empty"),
            d)
      else
        match title, isCompleted with
        | None, None =>
            (inl (ChatSDKError bad_request_database "Failed to update step"),
             d)
        | _, _ =>
            if someHasNul title
            then (inl (ChatSDKError bad_request_database
                         "Failed to update step"), d)
            else
              (inr tt,
               withSteps d
                 (replaced id
                    (patchStep
                       (mkStepPatch title isCompleted
                          (option_map (completedAtFor (now E)) isCompleted)
                          None))
                    (stepTable d)))
        end
  end.
Proof.
  intros F. unfold call, updateStep, catch, bind.
  rewrite (statement_ok _ _ _ F). simpl.
  destruct (find (stepHasId id) (stepTable d)) as [x|]; [|reflexivity].
  destruct (blankIfSupplied title); [reflexivity|].
  rewrite (statement_ok _ _ _ F). unfold q_updateStep. simpl.
  destruct title as [t|], isCompleted; simpl; try reflexivity;
    destruct (hasNul t); reflexivity.
Qed.

End UpdateFacts.

Import Store Queries System Shape Actions PlanActions.

(** X5.  Toggling the completion of an existing step twice, on stores
    that do not fail and with distinct step ids: afterwards the store is
    the one before, except that the step, when it was completed, carries
    the time of the second toggle as its completion time, the former
    time being lost; when the step was not completed (and had no
    completion time) the store is exactly the one before. *)
Theorem toggleStepCompletion_twice (E1 E2 : Env) (d : DB) (id : Id)
  (x : Step) :
  fault E1 = None -> fault E2 = None ->
  NoDup (map s_id (stepTable d)) ->
  find (stepHasId id) (stepTable d) = Some x ->
  let d2 :=
    after E2 (ToggleStepCompletion id)
      (after E1 (ToggleStepCompletion id) d) in
  let x' :=
    mkStep (s_id x) (s_goalId x) (s_title x) (s_isCompleted x) (s_order x)
      (completedAtFor (now E2) (s_isCompleted x)) (s_createdAt x) in
  d2 = withSteps d (replaced id (fun _ => x') (stepTable d)) /\
  (s_isCompleted x = false -> s_completedAt x = None -> d2 = d).
Proof.
  intros F1 F2 ND Fx d2 x'.
  assert (H : d2 = withSteps d (replaced id (fun _ => x') (stepTable d))).
  { subst d2. simpl.
    rewrite (UpdateFacts.toggleStepCompletion_run E1 id d F1), Fx. simpl.
    rewrite (UpdateFacts.toggleStepCompletion_run E2 id _ F2). simpl.
    rewrite UpdateFacts.find_replaced by reflexivity. rewrite Fx. simpl.
    rewrite OrderFacts.withSteps_twice.
    rewrite UpdateFacts.replaced_twice by reflexivity.
    rewrite (@UpdateFacts.replaced_row id _ _ x ND Fx).
    unfold withCompletion, patchStep. simpl. rewrite negb_involutive.
    reflexivity. }
  split; [exact H|].
  intros Hc Ha. rewrite H.
  rewrite UpdateFacts.replaced_fix; [apply OrderFacts.withSteps_same|].
  intros s Hs Hi.
  destruct (DeleteFacts.find_stepHasId _ _ Fx) as [Hx Hxi].
  assert (s = x) as ->
    by (apply (OrderFacts.same_id_same_row (stepTable d)); auto; congruence).
  subst x'. rewrite Hc. simpl. rewrite <- Hc, <- Ha. now destruct x.
Qed.

Lemma toggleStepCompletion_twice_witness :
  map (fun s => (s_isCompleted s, s_completedAt s))
      (stepTable (after Cases.env0 (ToggleStepCompletion 102%N)
                    (after Cases.env1 (ToggleStepCompletion 102%N)
                       Cases.toggled)))
  = [(false, None); (true, Some 1000%Z); (false, None)].
Proof.
  assert (ND : NoDup (map s_id (stepTable Cases.toggled))).
  { vm_compute. repeat constructor; simpl; intuition discriminate. }
  destruct (@toggleStepCompletion_twice Cases.env1 Cases.env0 Cases.toggled
              102%N
              (mkStep 102%N 100%N "Practice daily" true 1%Z (Some 2000%Z)
                 1000%Z)
              eq_refl eq_refl ND eq_refl) as [H _].
  rewrite H. reflexivity.
Defined.

Module TrimFacts.
Import JsString.

Lemma chars_str (l : list ascii) : chars (str l) = l.
Proof. apply list_ascii_of_string_of_list_ascii. Qed.

Lemma trimStart_head (s : list ascii) :
  forall c r, trimStart s = c :: r -> isWhiteSpace c = false.
Proof.
  induction s as [|h t IH]; intros c r; simpl; [discriminate|].
  destruct (isWhiteSpace h) eqn:W; [apply IH|].
  now intros [= <- _].
Qed.

Lemma trimStart_kept (c : ascii) (r : list ascii) :
  isWhiteSpace c = false -> trimStart (c :: r) = c :: r.
Proof. intros H. simpl. now rewrite H. Qed.

Lemma trimStart_idem (s : list ascii) : trimStart (trimStart s) = trimStart s.
Proof.
  destruct (trimStart s) as [|c r] eqn:T; [reflexivity|].
  apply trimStart_kept. exact (trimStart_head _ T).
Qed.

(** Stripping from the left a text that ends in a character that is no
    white space leaves that character at the end. *)
Lemma trimStart_last (u : list ascii) (c : ascii) :
  isWhiteSpace c = false -> exists v, trimStart (u ++ [c]) = v ++ [c].
Proof.
  intros H. induction u as [|h t IH]; simpl.
  - rewrite H. now exists [].
  - destruct (isWhiteSpace h); [exact IH|]. now exists (h :: t).
Qed.

(** [trim] strips all there is to strip. *)
Lemma trim_idem (s : list ascii) : trim (trim s) = trim s.
Proof.
  unfold trim. destruct (trimStart s) as [|c a] eqn:T; [reflexivity|].
  pose proof (trimStart_head _ T) as W.
  destruct (trimStart_last (rev a) c W) as (v & Hv).
  assert (Ht : trimEnd (c :: a) = c :: rev v).
  { unfold trimEnd. simpl rev. now rewrite Hv, rev_app_distr. }
  rewrite Ht, (trimStart_kept c _ W). unfold trimEnd. simpl rev.
  rewrite rev_involutive, <- Hv, trimStart_idem, Hv, rev_app_distr.
  reflexivity.
Qed.

(** [trim] strips white space only. *)
Lemma existsb_trimStart (p : ascii -> bool) (s : list ascii) :
  (forall c, p c = true -> isWhiteSpace c = false) ->
  existsb p (trimStart s) = existsb p s.
Proof.
  intros H. induction s as [|c r IH]; simpl; [reflexivity|].
  destruct (isWhiteSpace c) eqn:W; [|reflexivity].
  rewrite IH. destruct (p c) eqn:P; [|reflexivity].
  rewrite (H c P) in W. discriminate.
Qed.

Lemma existsb_reversed (p : ascii -> bool) (s : list ascii) :
  existsb p (rev s) = existsb p s.
Proof.
  induction s as [|c r IH]; simpl; [reflexivity|].
  rewrite existsb_app, IH. simpl. rewrite orb_false_r. apply orb_comm.
Qed.

Lemma existsb_trim (p : ascii -> bool) (s : list ascii) :
  (forall c, p c = true -> isWhiteSpace c = false) ->
  existsb p (trim s) = existsb p s.
Proof.
  intros H. unfold trim, trimEnd.
  now rewrite existsb_reversed, existsb_trimStart, existsb_reversed,
    existsb_trimStart.
Qed.

End TrimFacts.

Module TitleTextFacts.
Import JsString Queries PlanActions TrimFacts.

Lemma blank_trimmed (s : string) : blank (trimmed s) = blank s.
Proof.
  unfold blank, trimmed. now rewrite chars_str, trim_idem.
Qed.

Lemma trimmed_idem (s : string) : trimmed (trimmed s) = trimmed s.
Proof.
  unfold trimmed. now rewrite chars_str, trim_idem.
Qed.

(** [trim] neither removes nor adds a code unit 0. *)
Lemma hasNul_trimmed (s : string) :
  Store.hasNul (trimmed s) = Store.hasNul s.
Proof.
  unfold Store.hasNul, trimmed. rewrite chars_str. apply existsb_trim.
  intros c H. apply Nat.eqb_eq in H. unfold isWhiteSpace. now rewrite H.
Qed.

(** A title that came out of [trim] and is not empty is as [trim] leaves
    it, and is not blank. *)
Lemma trimmed_title (c : list ascii) :
  trim c <> [] ->
  trimmed (str (trim c)) = str (trim c) /\ blank (str (trim c)) = false.
Proof.
  intros H. unfold trimmed, blank. rewrite chars_str, trim_idem.
  split; [reflexivity|]. now destruct (trim c).
Qed.

End TitleTextFacts.

(** X6.  [editStep], for a signed-in user, a title that is not blank and
    an existing step, on a store that does not fail and with distinct step
    ids.  When the title holds no code unit 0, the action reports success
    and the store differs from the former one in the title of that step
    alone, which is the given title without the white space at its ends,
    and is not blank.  When the title holds the code unit 0 the store
    refuses it: the action throws the database error "Failed to update
    step" and the store is unchanged. *)
Theorem editStep_stores_trimmed_title (E : Env) (user : Id) (d : DB)
  (stepId : Id) (title : string) (x : Step) :
  fault E = None ->
  blank title = false ->
  NoDup (map s_id (stepTable d)) ->
  find (stepHasId stepId) (stepTable d) = Some x ->
  call (editStep E (Some user) stepId title) d =
    (if hasNul title
     then (inl (ChatSDKError bad_request_database "Failed to update step"),
           d)
     else
       (inr (mkAck true),
        withSteps d
          (replaced stepId (fun _ => withTitle (trimmed title) x)
             (stepTable d))))
  /\ blank (trimmed title) = false.
Proof.
  intros F B ND Fx.
  assert (Bt : blank (trimmed title) = false)
    by now rewrite TitleTextFacts.blank_trimmed.
  split; [|exact Bt].
  pose proof (UpdateFacts.updateStep_run E stepId (Some (trimmed title)) None
                d F) as R.
  rewrite Fx in R. simpl in R. rewrite Bt in R.
  rewrite TitleTextFacts.hasNul_trimmed in R.
  unfold call in *. unfold editStep. rewrite B. unfold catch, bind.
  fold (trimmed title).
  destruct (updateStep E stepId (Some (trimmed title)) None (mkWorld d 0 0))
    as [[e|u] w'] eqn:U; destruct (hasNul title); try discriminate R.
  - injection R as -> Hd. simpl. now rewrite Hd.
  - destruct u. injection R as R. unfold ret. f_equal. rewrite R. f_equal.
    apply (@UpdateFacts.replaced_row stepId _ _ x ND Fx).
Qed.

Lemma editStep_stores_trimmed_title_witness :
  map s_title
    (stepTable (snd (call (editStep Cases.env1 (Some 7%N) 102%N
                             "  Practice every day ") Cases.planned)))
  = ["Buy a guitar"; "Practice every day"; "Play a song"]%string.
Proof.
  assert (ND : NoDup (map s_id (stepTable Cases.planned))).
  { vm_compute. repeat constructor; simpl; intuition discriminate. }
  destruct (@editStep_stores_trimmed_title Cases.env1 7%N Cases.planned 102%N
              "  Practice every day "
              (mkStep 102%N 100%N "Practice daily" false 1%Z None 1000%Z)
              eq_refl eq_refl ND eq_refl) as [H _].
  exact (f_equal (fun r => map s_title (stepTable (snd r))) H).
Defined.

(* ================================================================== *)
(** * Part XXIII.  Reordering and bulk updates                         *)
(* ================================================================== *)

Module LoopFacts.
Import Store Queries System StoreFacts Shape OrderFacts UpdateFacts.

Lemma find_hasStep (g i : Id) (d : DB) :
  find (fun s => stepHasId i s && stepOfGoal g s) (stepTable d) <> None
  <-> hasStep g d i.
Proof.
  unfold hasStep, rowsOfGoal. split.
  - destruct (find _ (stepTable d)) as [s|] eqn:F; [|congruence].
    intros _. apply find_some in F. destruct F as [Hin Hb].
    apply andb_true_iff in Hb. destruct Hb as [Hi Hg].
    exists s. split; [|now apply stepHasId_true].
    apply filter_In. now split.
  - intros (s & Hs & Hi). apply filter_In in Hs. destruct Hs as [Hin Hg].
    destruct (find _ (stepTable d)) as [s'|] eqn:F; [congruence|].
    pose proof (find_none _ _ F s Hin) as N. cbv beta in N.
    apply (proj2 (stepHasId_true i s)) in Hi. rewrite Hi, Hg in N.
    discriminate.
Qed.

(** Rewriting rows without touching their ids and goals leaves every
    goal with the steps it had. *)
Lemma hasStep_map (g i : Id) (d : DB) (f : Step -> Step) :
  (forall s, s_id (f s) = s_id s /\ s_goalId (f s) = s_goalId s) ->
  hasStep g (withSteps d (map f (stepTable d))) i <-> hasStep g d i.
Proof.
  intros Hf. unfold hasStep, rowsOfGoal. simpl. split.
  - intros (s & Hs & Hi). apply filter_In in Hs. destruct Hs as [Hin Hg].
    apply in_map_iff in Hin. destruct Hin as (s0 & <- & Hin0).
    destruct (Hf s0) as [A B]. exists s0. split; [|congruence].
    apply filter_In. split; [exact Hin0|].
    unfold stepOfGoal in *. congruence.
  - intros (s & Hs & Hi). apply filter_In in Hs. destruct Hs as [Hin Hg].
    destruct (Hf s) as [A B]. exists (f s). split; [|congruence].
    apply filter_In. split; [now apply in_map|].
    unfold stepOfGoal in *. congruence.
Qed.

Lemma hasStep_replaced (g i j : Id) (d : DB) (p : StepPatch) :
  hasStep g (withSteps d (replaced j (patchStep p) (stepTable d))) i
  <-> hasStep g d i.
Proof.
  unfold replaced. apply hasStep_map. intros s.
  now destruct (stepHasId j s).
Qed.

Lemma namesStep_replaced (goalId k : Key) (j : Id) (d : DB) (p : StepPatch) :
  namesStep goalId (withSteps d (replaced j (patchStep p) (stepTable d))) k
  <-> namesStep goalId d k.
Proof.
  destruct goalId as [g|gt], k as [i|kt]; simpl; try tauto.
  apply hasStep_replaced.
Qed.

Lemma reordered_cons (i : Id) (o : Z) (rest : list (Key * Z)) (s : Step) :
  reordered rest (if stepHasId i s then withOrder o s else s)
  = reordered ((Uuid i, o) :: rest) s.
Proof.
  unfold reordered. simpl. unfold stepHasId.
  destruct (N.eqb (s_id s) i) eqn:Hi.
  - apply N.eqb_eq in Hi. rewrite <- Hi. simpl. rewrite N.eqb_refl.
    destruct (assigned (s_id s) rest); reflexivity.
  - rewrite N.eqb_sym, Hi.
    destruct (assigned (s_id s) rest); reflexivity.
Qed.

(** The loop of [reorderSteps] goes through when every pair names a step
    of the goal, and leaves each row with the order of the last pair that
    names it. *)
Lemma reorderLoop_run (E : Env) (goalId : Key) (stepOrders : list (Key * Z)) :
  fault E = None ->
  (forall k o, In (k, o) stepOrders -> int4 o = true) ->
  forall w,
  (forall k o, In (k, o) stepOrders -> namesStep goalId (db w) k) ->
  exists w',
    reorderLoop E goalId stepOrders w = (inr tt, w') /\
    db w' = withSteps (db w) (map (reordered stepOrders) (stepTable (db w))).
Proof.
  intros F. induction stepOrders as [|[k o] rest IH]; intros I4 w Hall; simpl.
  - unfold ret. eexists. split; [reflexivity|].
    unfold reordered. simpl. now rewrite map_id, withSteps_same.
  - pose proof (Hall k o (or_introl eq_refl)) as Hk.
    destruct goalId as [g|gt], k as [i|kt]; simpl in Hk; try contradiction.
    unfold bind at 1. rewrite (statement_ok _ _ _ F). simpl.
    pose proof (proj2 (find_hasStep g i (db w)) Hk) as Hf.
    destruct (find _ (stepTable (db w))) as [s0|]; [|congruence].
    unfold bind at 1. rewrite (statement_ok _ _ _ F).
    rewrite q_updateStep_run; [|reflexivity| |reflexivity].
    + destruct (IH (fun k' o' Hin => I4 k' o' (or_intror Hin))
                  (mkWorld
                     (withSteps (db w)
                        (replaced i
                           (patchStep (mkStepPatch None None None (Some o)))
                           (stepTable (db w))))
                     (S (S (issued w))) (drawn w)))
        as (w' & R & Hd).
      * intros k' o' Hin.
        apply (proj2 (@namesStep_replaced (Uuid g) k' i (db w) _)).
        apply (Hall k' o'). now right.
      * exists w'. split; [exact R|]. rewrite Hd. simpl.
        rewrite withSteps_twice. unfold replaced. rewrite map_map. f_equal.
        apply map_ext. intros s. apply reordered_cons.
    + simpl. intros o' [= <-]. apply (I4 (Uuid i) o). now left.
Qed.

Lemma reorderLoop_stops (E : Env) (goalId k : Key) (o : Z)
  (before rest : list (Key * Z)) :
  fault E = None ->
  (forall k' o', In (k', o') before -> int4 o' = true) ->
  forall w,
  (forall k' o', In (k', o') before -> namesStep goalId (db w) k') ->
  ~ namesStep goalId (db w) k ->
  exists w',
    reorderLoop E goalId (before ++ (k, o) :: rest) w
    = (inl (loopError E goalId k), w').
Proof.
  intros F. induction before as [|[k0 o0] before IH]; intros I4 w Hall Hn;
    simpl.
  - unfold bind at 1. unfold loopError.
    destruct k as [i|kt], goalId as [g|gt]; unfold byKey;
      rewrite (statement_ok _ _ _ F); simpl; eauto.
    destruct (find _ (stepTable (db w))) as [s0|] eqn:Hf; [|unfold throw; eauto].
    exfalso. apply Hn. simpl. apply find_hasStep. rewrite Hf. discriminate.
  - pose proof (Hall k0 o0 (or_introl eq_refl)) as Hk.
    destruct goalId as [g|gt], k0 as [i|kt]; simpl in Hk; try contradiction.
    unfold bind at 1. rewrite (statement_ok _ _ _ F). simpl.
    pose proof (proj2 (find_hasStep g i (db w)) Hk) as Hf.
    destruct (find _ (stepTable (db w))) as [s0|]; [|congruence].
    unfold bind at 1. rewrite (statement_ok _ _ _ F).
    rewrite q_updateStep_run; [|reflexivity| |reflexivity].
    + apply IH.
      * intros k' o' Hin. apply (I4 k' o'). now right.
      * intros k' o' Hin.
        apply (proj2 (@namesStep_replaced (Uuid g) k' i (db w) _)).
        apply (Hall k' o'). now right.
      * intros Hx. apply Hn.
        exact (proj1 (@namesStep_replaced (Uuid g) k i (db w) _) Hx).
    + simpl. intros o' [= <-]. apply (I4 (Uuid i) o0). now left.
Qed.

End LoopFacts.

Import Store Queries System Shape.

(** X7.  [reorderSteps] on a store that does not fail, with orders that
    fit the integer column.  When every pair names a step of the goal, the
    call returns and each row of the store has the order of the last pair
    naming its id, and is otherwise unchanged, rows no pair names
    included.  Otherwise the call throws at the first pair whose id is no
    step of the goal, and the store is unchanged, the pairs before it
    included: when that id and the goal id are uuids, the error is the
    not-found error whose cause is "Step ", the step id, " not found or
    does not belong to goal " and the goal id; when one of the two is no
    uuid, the store refuses the select and the error is the database error
    "Failed to reorder steps". *)
Theorem reorderSteps_assigns (E : Env) (d : DB) (goalId : Key)
  (stepOrders : list (Key * Z)) :
  fault E = None ->
  (forall k o, In (k, o) stepOrders -> int4 o = true) ->
  ((forall k o, In (k, o) stepOrders -> namesStep goalId d k) ->
   call (reorderSteps E goalId stepOrders) d =
   (inr tt, withSteps d (map (reordered stepOrders) (stepTable d)))) /\
  (forall before k o rest,
     stepOrders = before ++ (k, o) :: rest ->
     (forall k' o', In (k', o') before -> namesStep goalId d k') ->
     ~ namesStep goalId d k ->
     call (reorderSteps E goalId stepOrders) d =
     (inl (match k, goalId with
           | Uuid _, Uuid _ =>
               ChatSDKError not_found_goal
                 ("Step " ++ keyText E k
                  ++ " not found or does not belong to goal "
                  ++ keyText E goalId)
           | _, _ =>
               ChatSDKError bad_request_database "Failed to reorder steps"
           end), d)).
Proof.
  intros F I4. split.
  - intros Hall.
    destruct (@LoopFacts.reorderLoop_run E goalId stepOrders F I4
                (mkWorld d 0 0) Hall) as (w' & R & Hd).
    unfold call, reorderSteps, catch.
    rewrite (@StoreFacts.transaction_ok E _ _ _ _ _ F R). simpl.
    now rewrite Hd.
  - intros before k o rest -> Hall Hn.
    assert (I4' : forall k' o', In (k', o') before -> int4 o' = true).
    { intros k' o' Hin. apply (I4 k' o'). apply in_or_app. now left. }
    destruct (@LoopFacts.reorderLoop_stops E goalId k o before rest F I4'
                (mkWorld d 0 0) Hall Hn) as (w' & R).
    unfold call, reorderSteps, catch, transaction. rewrite R.
    unfold loopError.
    destruct k as [i|kt], goalId as [g|gt]; reflexivity.
Qed.

Lemma reorderSteps_assigns_witness :
  map (fun s => (s_id s, s_order s))
      (stepTable (snd (call (reorderSteps Cases.env1 100%N
                               [(Uuid 101%N, 2%Z); (Uuid 103%N, 0%Z)])
                         Cases.planned)))
  = [(101%N, 2%Z); (102%N, 1%Z); (103%N, 0%Z)].
Proof.
  assert (I4 : forall k o, In (k, o) [(Uuid 101%N, 2%Z); (Uuid 103%N, 0%Z)] ->
               int4 o = true).
  { intros k o [[= <- <-]|[[= <- <-]|[]]]; reflexivity. }
  assert (Hall : forall k o,
                 In (k, o) [(Uuid 101%N, 2%Z); (Uuid 103%N, 0%Z)] ->
                 namesStep (Uuid 100%N) Cases.planned k).
  { intros k o [[= <- <-]|[[= <- <-]|[]]].
    - exists (mkStep 101%N 100%N "Buy a guitar" false 0%Z None 1000%Z).
      split; [vm_compute; tauto|reflexivity].
    - exists (mkStep 103%N 100%N "Play a song" false 2%Z None 1000%Z).
      split; [vm_compute; tauto|reflexivity]. }
  pose proof (proj1 (@reorderSteps_assigns Cases.env1 Cases.planned
                       (Uuid 100%N) _ eq_refl I4) Hall) as H.
  exact (f_equal (fun r => map (fun s => (s_id s, s_order s))
                             (stepTable (snd r))) H).
Defined.

(** [reorderSteps] at work on ids that name no step of the goal: the
    cause names both ids; an id that is no uuid gives the database error.
    Either way the first pair, which names a step, leaves no trace. *)
Lemma reorderSteps_refusals :
  call (reorderSteps Cases.env1 100%N [(Uuid 101%N, 2%Z); (Uuid 999%N, 0%Z)])
       Cases.planned
  = (inl (ChatSDKError not_found_goal
            ("Step 00000000-0000-0000-0000-0000000003e7 not found or does "
             ++ "not belong to goal 00000000-0000-0000-0000-000000000064")),
     Cases.planned) /\
  call (reorderSteps Cases.env1 100%N
          [(Uuid 101%N, 2%Z); (Cases.notAUuid, 0%Z)])
       Cases.planned
  = (inl (ChatSDKError bad_request_database "Failed to reorder steps"),
     Cases.planned).
Proof.
  split; vm_compute; reflexivity.
Qed.

Module BulkFacts.
Import Store Queries System StoreFacts Shape OrderFacts UpdateFacts LoopFacts.

(** What the loop of [bulkUpdateSteps] does to the step table: it
    rewrites rows in place, never their id, goal or creation time, and
    only the rows an update names. *)
Lemma bulkLoop_db (E : Env) (g : Id) (updates : list StepUpdate) :
  forall w w' u,
  bulkLoop E g updates w = (inr u, w') ->
  (exists F : Step -> Step,
     db w' = withSteps (db w) (map F (stepTable (db w))) /\
     forall s, s_id (F s) = s_id s /\ s_goalId (F s) = s_goalId s /\
               s_createdAt (F s) = s_createdAt s /\
               (~ In (s_id s) (map u_id updates) -> F s = s)) /\
  forall x, In x updates -> hasStep g (db w) (u_id x).
Proof.
  induction updates as [|x rest IH]; intros w w' u; simpl.
  - intros [= _ <-]. split; [|intros ? []].
    exists (fun s => s). split; [now rewrite map_id, withSteps_same|].
    intros s. repeat split.
  - intros H. apply bind_inr in H. destruct H as (found & w1 & S1 & H).
    apply statement_inr in S1. destruct S1 as (S1 & _).
    unfold byKey, q_stepByIdOfGoal in S1. injection S1 as Hf Hd.
    destruct found as [s0|]; [|discriminate H].
    apply bind_inr in H. destruct H as (u1 & w2 & S2 & H).
    apply statement_inr in S2. destruct S2 as (S2 & _).
    apply q_updateStep_inr in S2.
    apply IH in H. destruct H as ((F & H & HF) & Hall).
    rewrite S2, <- Hd in H, Hall. split.
    + exists (fun s => F (if stepHasId (u_id x) s
                         then patchStep (bulkPatch E x) s else s)).
      split.
      * rewrite H. simpl. now rewrite withSteps_twice, map_map.
      * intros s. destruct (stepHasId (u_id x) s) eqn:Hx.
        -- destruct (HF (patchStep (bulkPatch E x) s)) as (A & B & C & _).
           repeat split; try assumption.
           intros Hn. exfalso. apply Hn. left.
           symmetry. now apply stepHasId_true.
        -- destruct (HF s) as (A & B & C & D).
           repeat split; try assumption.
           intros Hn. apply D. tauto.
    + intros x' [<-|Hin].
      * apply find_hasStep. rewrite Hf. discriminate.
      * apply (Hall x') in Hin.
        now apply (hasStep_replaced g (u_id x') (u_id x) (db w)) in Hin.
Qed.

Lemma filter_goal_map (h : Id) (F : Step -> Step) (T : list Step) :
  (forall s, In s T ->
     s_goalId (F s) = s_goalId s /\ (s_goalId s = h -> F s = s)) ->
  filter (stepOfGoal h) (map F T) = filter (stepOfGoal h) T.
Proof.
  induction T as [|s T IH]; intros H; simpl; [reflexivity|].
  destruct (H s (or_introl eq_refl)) as [A B].
  assert (G : stepOfGoal h (F s) = stepOfGoal h s)
    by (unfold stepOfGoal; now rewrite A).
  rewrite G. rewrite IH by (intros s' Hs'; apply H; now right).
  destruct (stepOfGoal h s) eqn:Hg; [|reflexivity].
  unfold stepOfGoal in Hg. apply N.eqb_eq in Hg. now rewrite (B Hg).
Qed.

End BulkFacts.

(** X8.  When [bulkUpdateSteps] returns, the goals are unchanged; the
    step table has the same rows at the same places with the same ids,
    goals and creation times; every update named a step of the goal; a row
    whose id no update names is unchanged; and, the step ids being
    distinct, the steps of every other goal are unchanged.  When it throws
    the store is unchanged. *)
Theorem bulkUpdateSteps_scope (E : Env) (d : DB) (goalId : Id)
  (updates : list StepUpdate) :
  match call (bulkUpdateSteps E goalId updates) d with
  | (inr _, d') =>
      goalTable d' = goalTable d /\
      map s_id (stepTable d') = map s_id (stepTable d) /\
      map s_goalId (stepTable d') = map s_goalId (stepTable d) /\
      map s_createdAt (stepTable d') = map s_createdAt (stepTable d) /\
      (forall u, In u updates -> hasStep goalId d (u_id u)) /\
      (forall k s, nth_error (stepTable d) k = Some s ->
         ~ In (s_id s) (map u_id updates) ->
         nth_error (stepTable d') k = Some s) /\
      (NoDup (map s_id (stepTable d)) ->
       forall h, h <> goalId -> rowsOfGoal h d' = rowsOfGoal h d)
  | (inl _, d') => d' = d
  end.
Proof.
  unfold call.
  destruct (bulkUpdateSteps E goalId updates (mkWorld d 0 0))
    as [[e|u] w'] eqn:R.
  - now apply AtomicFacts.bulkUpdateSteps_spares in R.
  - unfold bulkUpdateSteps, catch in R.
    destruct (transaction E _ _) as [[e1|u1] w1] eqn:T; [destruct e1; discriminate|].
    injection R as _ <-. apply StoreFacts.transaction_inr in T.
    destruct T as (w2 & B & ->).
    apply BulkFacts.bulkLoop_db in B. simpl in B.
    destruct B as ((F & H & HF) & Hall). rewrite H. simpl.
    split; [reflexivity|].
    split; [rewrite map_map; apply map_ext; intros s; apply HF|].
    split; [rewrite map_map; apply map_ext; intros s; apply HF|].
    split; [rewrite map_map; apply map_ext; intros s; apply HF|].
    split; [exact Hall|]. split.
    + intros k s Hk Hn. rewrite nth_error_map, Hk. simpl. f_equal.
      now apply HF.
    + intros ND h Hh. unfold rowsOfGoal. simpl.
      apply BulkFacts.filter_goal_map. intros s Hs.
      split; [apply HF|]. intros Hg. apply HF. intros Hin.
      apply in_map_iff in Hin. destruct Hin as (x & Hx & Hin).
      destruct (Hall x Hin) as (s2 & Hs2 & Hi2).
      apply filter_In in Hs2. destruct Hs2 as [Hin2 Hg2].
      assert (s2 = s)
        by (apply (OrderFacts.same_id_same_row (stepTable d)); auto;
            congruence).
      subst s2. unfold stepOfGoal in Hg2. apply N.eqb_eq in Hg2. congruence.
Qed.

(** [bulkUpdateSteps] at work: two steps of the goal are rewritten, the
    third is left as it was. *)
Lemma bulkUpdateSteps_example :
  exists d',
    call (bulkUpdateSteps Cases.env1 100%N
            [mkStepUpdate 101%N (Some "Buy a bass"%string) None None;
             mkStepUpdate 103%N None (Some true) (Some 5%Z)])
         Cases.planned
    = (inr tt, d') /\
    map (fun s => (s_title s, s_isCompleted s, s_order s)) (stepTable d') =
      [("Buy a bass"%string, false, 0%Z); ("Practice daily"%string, false, 1%Z);
       ("Play a song"%string, true, 5%Z)].
Proof.
  eexists. split; [vm_compute; reflexivity|reflexivity].
Qed.

(* ================================================================== *)
(** * Part XXIV.  Deleting a goal, and reading back what was created   *)
(* ================================================================== *)

Module GoalFacts.
Import Store Queries System StoreFacts Shape KeyFacts OrderFacts.

Lemma goalHasId_true (i : Id) (g : Goal) : goalHasId i g = true <-> g_id g = i.
Proof. unfold goalHasId. apply N.eqb_eq. Qed.

Lemma stepOfGoal_true (i : Id) (s : Step) :
  stepOfGoal i s = true <-> s_goalId s = i.
Proof. unfold stepOfGoal. apply N.eqb_eq. Qed.

Lemma filter_all (A : Type) (p : A -> bool) (l : list A) :
  (forall a, In a l -> p a = true) -> filter p l = l.
Proof.
  induction l as [|a l IH]; simpl; intros H; [reflexivity|].
  rewrite (H a (or_introl eq_refl)). f_equal. apply IH.
  intros b Hb. apply H. now right.
Qed.

Lemma filter_none (A : Type) (p : A -> bool) (l : list A) :
  (forall a, In a l -> p a = false) -> filter p l = [].
Proof.
  induction l as [|a l IH]; simpl; intros H; [reflexivity|].
  rewrite (H a (or_introl eq_refl)). apply IH.
  intros b Hb. apply H. now right.
Qed.

(** The steps of a goal that is not in the store: there are none, by the
    foreign key. *)
Lemma no_goal_no_steps (d : DB) (i : Id) :
  KeysOk d -> ~ In i (map g_id (goalTable d)) ->
  forall s, In s (stepTable d) -> stepOfGoal i s = false.
Proof.
  intros (_ & _ & FS & _) Hn s Hs.
  destruct (stepOfGoal i s) eqn:G; [|reflexivity].
  apply stepOfGoal_true in G. destruct (FS s Hs) as [A _]. congruence.
Qed.

Lemma stepsToInsert_goal (g : Id) (t : Time) (ids : list Id)
  (sds : list StepInput) (os : list Z) :
  forall s, In s (stepsToInsert g t ids sds os) -> s_goalId s = g.
Proof.
  revert sds os. induction ids as [|i ids IH]; intros [|sd r] [|o os] s;
    simpl; try contradiction.
  intros [<-|H]; [reflexivity|]. now apply (IH r os).
Qed.

Lemma createGoalWithSteps_fresh (E : Env) (chatId userId : Id) title
  description
  status priority deadline createdFromMessageId stepsData
  (w w' : World) (g : Goal) (created : list Step) :
  createGoalWithSteps E chatId userId title description status priority
    deadline createdFromMessageId stepsData w = (inr (g, created), w') ->
  ~ In (g_id g) (map g_id (goalTable (db w))).
Proof.
  unfold createGoalWithSteps, catch.
  destruct (transaction E _ w) as [[e|a] w1] eqn:T; [discriminate|].
  intros [= -> ->]. apply transaction_inr in T. destruct T as (w2 & B & _).
  apply bind_inr in B. destruct B as (i & w3 & S1 & B).
  unfold freshId in S1. injection S1 as <- <-.
  apply bind_inr in B. destruct B as (g0 & w4 & S2 & B).
  apply statement_inr in S2. destruct S2 as (S2 & _).
  pose proof (q_insertGoal_checked _ _ S2) as (Hn & _).
  apply q_insertGoal_inr in S2. destruct S2 as (-> & _ & _).
  apply bind_inr in B. destruct B as (ids & w5 & S3 & B).
  apply bind_inr in B. destruct B as (rows & w6 & S4 & B).
  unfold ret in B. injection B as <- _ _. exact Hn.
Qed.

Lemma find_goal_last (i : Id) (l : list Goal) (g : Goal) :
  ~ In i (map g_id l) -> g_id g = i ->
  find (goalHasId i) (l ++ [g]) = Some g /\
  filter (fun x => negb (goalHasId i x)) (l ++ [g]) = l.
Proof.
  intros Hn Hg. induction l as [|a l IH]; simpl.
  - rewrite (proj2 (goalHasId_true i g) Hg). now split.
  - simpl in Hn. destruct (goalHasId i a) eqn:Ha.
    + apply goalHasId_true in Ha. tauto.
    + simpl. destruct IH as [A B]; [tauto|]. now rewrite A, B.
Qed.

Lemma deleteGoal_run (E : Env) (i : Id) (d : DB) :
  fault E = None ->
  call (deleteGoal E i) d =
  (inr (find (goalHasId i) (goalTable d)),
   mkDB (chatTable d) (userTable d) (messageTable d)
     (filter (fun g => negb (goalHasId i g)) (goalTable d))
     (filter (fun s => negb (stepOfGoal i s)) (stepTable d))).
Proof.
  intros F. unfold call, deleteGoal, catch.
  now rewrite (statement_ok _ _ _ F).
Qed.

(** With every order left to the function, the created rows are in
    strictly ascending order. *)
Lemma created_ascending (g : Id) (t : Time) (sds : list StepInput) :
  (forall sd, In sd sds -> si_order sd = None) ->
  forall ids i,
  StronglySorted orderLt (stepsToInsert g t ids sds (indexOrders i sds)) /\
  forall s, In s (stepsToInsert g t ids sds (indexOrders i sds)) ->
            (i <= s_order s)%Z.
Proof.
  induction sds as [|sd r IH]; intros Hn ids i.
  - destruct ids; simpl; split; try constructor; intros ? [].
  - destruct ids as [|i0 ids]; simpl; [split; [constructor|intros ? []]|].
    rewrite (Hn sd (or_introl eq_refl)). simpl.
    destruct (IH (fun x Hx => Hn x (or_intror Hx)) ids (i + 1)%Z) as [A B].
    split.
    + constructor; [exact A|]. rewrite Forall_forall. intros s Hs.
      apply B in Hs. unfold orderLt. simpl. lia.
    + intros s [<-|Hs]; [simpl; lia|]. apply B in Hs. lia.
Qed.

End GoalFacts.

Import Store Queries System Shape.

(** X9.  [deleteGoal] returns the goal with the id, or null when there is
    none.  Afterwards no goal has the id and no step belongs to it: the
    steps of the goal are deleted with it, by the foreign key of the
    migration; the other goals, the steps of every other goal, and the
    chats, users and messages are unchanged.  Where the keys of the store
    are sound, deleting a goal that is not there changes nothing.  When the
    call throws, the store is unchanged and the error is the single
    database error. *)
Theorem deleteGoal_cascades (E : Env) (d : DB) (id : Id) :
  match call (deleteGoal E id) d with
  | (inr r, d') =>
      r = find (goalHasId id) (goalTable d) /\
      goalTable d' = filter (fun g => negb (goalHasId id g)) (goalTable d) /\
      ~ In id (map g_id (goalTable d')) /\
      rowsOfGoal id d' = [] /\
      (forall h, h <> id -> rowsOfGoal h d' = rowsOfGoal h d) /\
      chatTable d' = chatTable d /\ userTable d' = userTable d /\
      messageTable d' = messageTable d /\
      (KeysOk d -> r = None -> d' = d)
  | (inl e, d') =>
      d' = d /\ e = ChatSDKError bad_request_database "Failed to delete goal"
  end.
Proof.
  unfold call, deleteGoal, catch, byKey.
  destruct (statement E (q_deleteGoal id) (mkWorld d 0 0)) as [[e|r] w'] eqn:S.
  - apply StoreFacts.statement_inl in S. destruct S as (S & _).
    unfold wrapAll, throw. simpl. now split.
  - apply StoreFacts.statement_inr in S. destruct S as (S & _).
    unfold q_deleteGoal in S. simpl in S. injection S as <- <-. simpl.
    split; [reflexivity|]. split; [reflexivity|]. split.
    { intros Hin. apply in_map_iff in Hin. destruct Hin as (g & Hg & Hin).
      apply filter_In in Hin. destruct Hin as [_ Hin].
      apply (proj2 (GoalFacts.goalHasId_true id g)) in Hg.
      rewrite Hg in Hin. discriminate. }
    split.
    { unfold rowsOfGoal. simpl. apply GoalFacts.filter_none.
      intros s Hs. apply filter_In in Hs. destruct Hs as [_ Hs].
      now apply negb_true_iff. }
    split.
    { intros h Hh. unfold rowsOfGoal. simpl.
      induction (stepTable d) as [|s T IH]; simpl; [reflexivity|].
      destruct (stepOfGoal id s) eqn:Hs; simpl.
      - apply GoalFacts.stepOfGoal_true in Hs.
        assert (stepOfGoal h s = false) as ->; [|exact IH].
        apply N.eqb_neq. congruence.
      - rewrite IH. reflexivity. }
    repeat (split; [reflexivity|]).
    intros K Hr.
    assert (Hn : ~ In id (map g_id (goalTable d))).
    { intros Hin. destruct (CreateFacts.find_goal_Some _ _ Hin) as (g & Hg).
      congruence. }
    rewrite GoalFacts.filter_all, GoalFacts.filter_all.
    + now destruct d.
    + intros s Hs. apply negb_true_iff.
      now apply (@GoalFacts.no_goal_no_steps d _ K Hn).
    + intros g Hg. apply negb_true_iff.
      destruct (goalHasId id g) eqn:G; [|reflexivity].
      apply GoalFacts.goalHasId_true in G. exfalso. apply Hn.
      apply in_map_iff. eauto.
Qed.

(** X10.  On a store with sound keys, a goal created with its steps by
    [createGoalWithSteps] and then deleted by [deleteGoal] (on a store
    that does not fail) leaves the store exactly as it was before the
    creation, and [deleteGoal] returns the goal that was created. *)
Theorem createGoalWithSteps_undone_by_deleteGoal (E E' : Env) (d d1 : DB)
  (chatId userId : Id) (title : string) (description : option string)
  (status priority : option string) (deadline : option Time)
  (createdFromMessageId : option Id) (stepsData : list StepInput)
  (g : Goal) (created : list Step) :
  KeysOk d ->
  fault E' = None ->
  call (createGoalWithSteps E chatId userId title description status
          priority deadline createdFromMessageId stepsData) d
  = (inr (g, created), d1) ->
  call (deleteGoal E' (g_id g)) d1 = (inr (Some g), d).
Proof.
  intros K F C. unfold call in C.
  destruct (createGoalWithSteps E chatId userId title description status
              priority deadline createdFromMessageId stepsData
              (mkWorld d 0 0)) as [r w'] eqn:R.
  injection C as -> <-.
  pose proof (@GoalFacts.createGoalWithSteps_fresh _ _ _ _ _ _ _ _ _ _ _
                _ _ _ R) as Hn.
  apply IngestFacts.createGoalWithSteps_inr in R.
  destruct R as (_ & Hc & Hd). simpl in Hn, Hc, Hd.
  rewrite (GoalFacts.deleteGoal_run E' (g_id g) (db w') F), Hd. simpl.
  destruct (@GoalFacts.find_goal_last (g_id g) (goalTable d) g Hn eq_refl)
    as [A B].
  rewrite A, B. do 2 f_equal.
  rewrite filter_app, GoalFacts.filter_all, GoalFacts.filter_none.
  - rewrite app_nil_r. now destruct d.
  - intros s Hs. rewrite Hc in Hs. apply GoalFacts.stepsToInsert_goal in Hs.
    apply negb_false_iff. now apply GoalFacts.stepOfGoal_true.
  - intros s Hs. apply negb_true_iff.
    now apply (@GoalFacts.no_goal_no_steps d _ K Hn).
Qed.

Lemma createGoalWithSteps_undone_by_deleteGoal_witness :
  call (deleteGoal Cases.env1 100%N) Cases.planned
  = (inr (Some (mkGoal 100%N 1%N 7%N (Some 50%N) "Learn guitar" None
                  "not_started" "medium" None 1000%Z)),
     Cases.start).
Proof.
  apply (@createGoalWithSteps_undone_by_deleteGoal Cases.env0 Cases.env1
           Cases.start Cases.planned 1%N 7%N "Learn guitar" None None None
           None (Some 50%N)
           [mkStepInput "Buy a guitar" None; mkStepInput "Practice daily" None;
            mkStepInput "Play a song" None]
           (mkGoal 100%N 1%N 7%N (Some 50%N) "Learn guitar" None
              "not_started" "medium" None 1000%Z)
           [mkStep 101%N 100%N "Buy a guitar" false 0%Z None 1000%Z;
            mkStep 102%N 100%N "Practice daily" false 1%Z None 1000%Z;
            mkStep 103%N 100%N "Play a song" false 2%Z None 1000%Z]).
  - apply KeyFacts.KeysOk_start.
  - reflexivity.
  - vm_compute. reflexivity.
Defined.

Module ReadBackFacts.
Import Store Queries System StoreFacts Shape.

Lemma getGoalByIdWithSteps_run (E : Env) (i : Id) (d : DB) :
  fault E = None ->
  call (getGoalByIdWithSteps E i) d =
  (inr (match find (goalHasId i) (goalTable d) with
        | None => None
        | Some g => Some (g, orderBy E (rowsOfGoal (g_id g) d))
        end), d).
Proof.
  intros F.
  unfold call, getGoalByIdWithSteps, getGoalById, getStepsByGoalId, catch,
    bind.
  rewrite (statement_ok _ _ _ F). simpl.
  destruct (find (goalHasId i) (goalTable d)) as [g|]; [|reflexivity].
  rewrite (statement_ok _ _ _ F). reflexivity.
Qed.

End ReadBackFacts.

(** X11.  On a store with sound keys, after [createGoalWithSteps] has
    returned a goal and its steps, [getGoalByIdWithSteps] for the id of
    that goal (on a store that does not fail and sorts as ORDER BY does)
    returns that goal with exactly the created steps, in ascending order;
    when no step was given an explicit order, in the sequence in which
    they were supplied.  The store is unchanged by the reading. *)
Theorem createGoalWithSteps_read_back (E E' : Env) (d d1 : DB)
  (chatId userId : Id) (title : string) (description : option string)
  (status priority : option string) (deadline : option Time)
  (createdFromMessageId : option Id) (stepsData : list StepInput)
  (g : Goal) (created : list Step) :
  KeysOk d ->
  SortsByOrder (orderBy E') ->
  fault E' = None ->
  call (createGoalWithSteps E chatId userId title description status
          priority deadline createdFromMessageId stepsData) d
  = (inr (g, created), d1) ->
  exists steps,
    call (getGoalByIdWithSteps E' (g_id g)) d1 = (inr (Some (g, steps)), d1) /\
    Permutation steps created /\
    StronglySorted orderLe steps /\
    ((forall sd, In sd stepsData -> si_order sd = None) -> steps = created).
Proof.
  intros K OB F C. unfold call in C.
  destruct (createGoalWithSteps E chatId userId title description status
              priority deadline createdFromMessageId stepsData
              (mkWorld d 0 0)) as [r w'] eqn:R.
  injection C as -> <-.
  pose proof (@GoalFacts.createGoalWithSteps_fresh _ _ _ _ _ _ _ _ _ _ _
                _ _ _ R) as Hn.
  apply IngestFacts.createGoalWithSteps_inr in R.
  destruct R as (_ & Hc & Hd). simpl in Hn, Hc, Hd.
  exists (orderBy E' created).
  assert (Rows : rowsOfGoal (g_id g) (db w') = created).
  { rewrite Hd. unfold rowsOfGoal. simpl.
    rewrite filter_app, GoalFacts.filter_none, GoalFacts.filter_all.
    - reflexivity.
    - intros s Hs. rewrite Hc in Hs.
      apply GoalFacts.stepsToInsert_goal in Hs.
      now apply GoalFacts.stepOfGoal_true.
    - intros s Hs. now apply (@GoalFacts.no_goal_no_steps d _ K Hn). }
  destruct (OB created) as [P S].
  split; [|split; [exact P|split; [exact S|]]].
  - rewrite (ReadBackFacts.getGoalByIdWithSteps_run E' (g_id g) (db w') F).
    rewrite Hd at 1. simpl.
    destruct (@GoalFacts.find_goal_last (g_id g) (goalTable d) g Hn eq_refl)
      as [A _].
    now rewrite A, Rows.
  - intros Hnone. apply OrderFacts.sorted_unique; [|exact S|exact P].
    rewrite Hc. now apply GoalFacts.created_ascending.
Qed.

Lemma createGoalWithSteps_read_back_witness :
  exists steps,
    call (getGoalByIdWithSteps Cases.env1 100%N) Cases.planned
    = (inr (Some (mkGoal 100%N 1%N 7%N (Some 50%N) "Learn guitar" None
                    "not_started" "medium" None 1000%Z, steps)),
       Cases.planned) /\
    map s_title steps = ["Buy a guitar"; "Practice daily"; "Play a song"]%string.
Proof.
  destruct (@createGoalWithSteps_read_back Cases.env0 Cases.env1
           Cases.start Cases.planned 1%N 7%N "Learn guitar" None None None
           None (Some 50%N)
           [mkStepInput "Buy a guitar" None; mkStepInput "Practice daily" None;
            mkStepInput "Play a song" None]
           (mkGoal 100%N 1%N 7%N (Some 50%N) "Learn guitar" None
              "not_started" "medium" None 1000%Z)
           [mkStep 101%N 100%N "Buy a guitar" false 0%Z None 1000%Z;
            mkStep 102%N 100%N "Practice daily" false 1%Z None 1000%Z;
            mkStep 103%N 100%N "Play a song" false 2%Z None 1000%Z]
           (KeyFacts.KeysOk_start _ _ _) OrderFacts.sortByOrder_sorts
           eq_refl eq_refl) as (steps & H & _ & _ & Hs).
  exists steps. split; [exact H|].
  rewrite Hs; [reflexivity|].
  intros sd [<-|[<-|[<-|[]]]]; reflexivity.
Defined.

(* ================================================================== *)
(** * Part XXV.  What the patterns capture                             *)
(* ================================================================== *)

Module CaptureFacts.
Import JsString JsRegExp RegExpFacts PlanText Shape TrimFacts.

Lemma spans_refl (ok : ascii -> bool) (x : State) : spans ok x x.
Proof. exists []. simpl. repeat split; [lia|constructor]. Qed.

Lemma spans_trans (ok : ascii -> bool) (x y z : State) :
  spans ok x y -> spans ok y z -> spans ok x z.
Proof.
  intros (m & A & B & C) (n & A' & B' & C'). exists (m ++ n).
  rewrite A, A', B', B, length_app, <- app_assoc. repeat split; [lia|].
  apply Forall_app. now split.
Qed.

Lemma step1_spans (ok : ascii -> bool) (x y : State) :
  In y (step1 ok x) -> spans ok x y /\ cap y = cap x.
Proof.
  unfold step1. destruct (rest x) as [|c r] eqn:R; [intros []|].
  destruct (ok c) eqn:K; [|intros []]. intros [<-|[]]. split; [|reflexivity].
  exists [c]. simpl. rewrite R. repeat split; [lia|]. now constructor.
Qed.

Lemma repeat_spans (ok : ascii -> bool) (m : State -> list State)
  (clear : State -> State) (g : bool) :
  (forall x y, In y (m (clear x)) -> spans ok x y) ->
  forall n x y, In y (repeat m clear g n x) -> spans ok x y.
Proof.
  intros Hm. induction n as [|n IH]; intros x y; simpl.
  - intros [<-|[]]. apply spans_refl.
  - assert (M : In y (flat_map (fun z => if advanced x z
                                         then repeat m clear g n z else [])
                               (m (clear x))) -> spans ok x y).
    { rewrite in_flat_map. intros (z & Hz & Hy).
      destruct (advanced x z); [|contradiction].
      apply (spans_trans (Hm _ _ Hz)). now apply IH. }
    destruct g.
    + rewrite in_app_iff. intros [H|[<-|[]]]; [now apply M|apply spans_refl].
    + intros [<-|H]; [apply spans_refl|now apply M].
Qed.

(** One or more [.]: what was consumed is what [.] matches. *)
Lemma run_plus_dot_spans (f : Flags) (g : bool) (x y : State) :
  In y (run f (Plus g Dot) x) -> spans (dotOk f) x y.
Proof.
  simpl. rewrite in_flat_map. intros (z & Hz & Hy).
  change (clearCaps Dot x) with x in Hz.
  apply step1_spans in Hz. destruct Hz as [Hz _].
  apply (spans_trans Hz).
  refine (@repeat_spans (dotOk f) _ (clearCaps Dot) g _
            (length (rest z)) z y Hy).
  intros x' y' H'. change (clearCaps Dot x') with x' in H'.
  now apply step1_spans in H'.
Qed.

Lemma run_group_dot (f : Flags) (g : bool) (x y : State) :
  In y (run f (Group (Plus g Dot)) x) ->
  exists c, cap y = Some c /\ Forall (fun ch => dotOk f ch = true) c.
Proof.
  simpl run. rewrite in_map_iff. intros (z & <- & Hz).
  apply (run_plus_dot_spans f g) in Hz. destruct Hz as (m & A & B & C).
  simpl. exists m. split; [|exact C].
  rewrite A, B. replace (endIndex x + length m - endIndex x) with (length m)
    by lia.
  now rewrite firstn_app, Nat.sub_diag, firstn_all, app_nil_r.
Qed.

Lemma repeat_same_cap (m : State -> list State) (clear : State -> State)
  (g : bool) :
  (forall x y, In y (m (clear x)) -> cap y = cap x) ->
  forall n x y, In y (repeat m clear g n x) -> cap y = cap x.
Proof.
  intros Hm. induction n as [|n IH]; intros x y; simpl.
  - now intros [<-|[]].
  - assert (M : In y (flat_map (fun z => if advanced x z
                                         then repeat m clear g n z else [])
                               (m (clear x))) -> cap y = cap x).
    { rewrite in_flat_map. intros (z & Hz & Hy).
      destruct (advanced x z); [|contradiction].
      rewrite (IH _ _ Hy). now apply Hm. }
    destruct g.
    + rewrite in_app_iff. intros [H|[<-|[]]]; [now apply M|reflexivity].
    + intros [<-|H]; [reflexivity|now apply M].
Qed.

(** A pattern without a group leaves capture 1 as it is. *)
Lemma run_nogroup_cap (f : Flags) (r : Node) :
  hasGroup r = false ->
  forall x y, In y (run f r x) -> cap y = cap x.
Proof.
  induction r as [|c|p| |a IHa b IHb|a IHa b IHb|a IHa|g a IHa|g a IHa|a IHa| |];
    simpl; intros G x y.
  - now intros [<-|[]].
  - intros H. now apply step1_spans in H.
  - intros H. now apply step1_spans in H.
  - intros H. now apply step1_spans in H.
  - apply orb_false_iff in G. destruct G as [Ga Gb].
    rewrite in_flat_map. intros (z & Hz & Hy).
    rewrite (IHb Gb _ _ Hy). now apply IHa.
  - apply orb_false_iff in G. destruct G as [Ga Gb].
    rewrite in_app_iff. intros [H|H]; [now apply IHa|now apply IHb].
  - unfold clearCaps. rewrite G.
    rewrite in_app_iff, filter_In. intros [[H _]|[<-|[]]]; [|reflexivity].
    now apply IHa.
  - apply repeat_same_cap. intros x' y'. unfold clearCaps. rewrite G.
    now apply IHa.
  - unfold clearCaps. rewrite G. rewrite in_flat_map.
    intros (z & Hz & Hy).
    rewrite (@repeat_same_cap (run f a) (fun x0 => x0) g) with (x := z) (y := y)
      (n := length (rest z)); [now apply IHa| |exact Hy].
    intros x' y'. now apply IHa.
  - discriminate.
  - destruct (endIndex x =? 0); [|intros []]. now intros [<-|[]].
  - destruct (rest x); [|intros []]. now intros [<-|[]].
Qed.

(** A pattern that ends in "(.+)" or "(.+?)" and group-free pieces
    captures only what [.] matches. *)
Lemma exec_group_dot (f : Flags) (pre post : list Node) (g : bool)
  (s c : list ascii) :
  hasGroup (seqs post) = false ->
  exec f (seqs (pre ++ Group (Plus g Dot) :: post)) s = Some (Some c) ->
  Forall (fun ch => dotOk f ch = true) c.
Proof.
  intros G. unfold exec.
  destruct (execFrom f _ 0 s) as [y|] eqn:Ex; [|discriminate].
  intros [= Hc]. apply execFrom_In in Ex. destruct Ex as (x & Hy).
  rewrite run_seqs_app, in_flat_map in Hy. destruct Hy as (z & _ & Hy).
  simpl in Hy. rewrite in_flat_map in Hy. destruct Hy as (y0 & Hy0 & Hy).
  apply (run_nogroup_cap f (seqs post) G) in Hy.
  change (In y0 (run f (Group (Plus g Dot)) z)) in Hy0.
  apply run_group_dot in Hy0. destruct Hy0 as (c0 & Hc0 & F0).
  congruence.
Qed.

Lemma trimStart_Forall (P : ascii -> Prop) (s : list ascii) :
  Forall P s -> Forall P (trimStart s).
Proof.
  induction 1 as [|c r Hc Hr IH]; simpl; [constructor|].
  destruct (isWhiteSpace c); [exact IH|now constructor].
Qed.

Lemma trim_Forall (P : ascii -> Prop) (s : list ascii) :
  Forall P s -> Forall P (trim s).
Proof.
  intros H. unfold trim, trimEnd.
  apply Forall_rev, trimStart_Forall, Forall_rev, trimStart_Forall, H.
Qed.

Lemma noBreak (c : list ascii) :
  Forall (fun ch => dotOk (mkFlags false false) ch = true) c ->
  Forall (fun ch => isLineTerminator ch = false) c.
Proof.
  apply Forall_impl. intros ch. unfold dotOk. simpl.
  now rewrite negb_true_iff.
Qed.

Lemma noBreak_i (c : list ascii) :
  Forall (fun ch => dotOk flags_i ch = true) c ->
  Forall (fun ch => isLineTerminator ch = false) c.
Proof.
  apply Forall_impl. intros ch. unfold dotOk. simpl.
  now rewrite negb_true_iff.
Qed.

Lemma oneLine_trim (c : list ascii) :
  Forall (fun ch => isLineTerminator ch = false) c -> oneLine (trim c).
Proof.
  intros H. split; [apply trim_idem|now apply trim_Forall].
Qed.

(** The title of a list line is empty or one line. *)
Lemma lineTitle_oneLine (line : list ascii) :
  lineTitle line = [] \/ oneLine (lineTitle line).
Proof.
  unfold lineTitle, group1Trim.
  destruct (exec flags_none numberedRe line) as [[c|]|] eqn:N.
  - right. apply oneLine_trim, noBreak.
    apply (@exec_group_dot flags_none
             [Bol; Plus true digit; Char "."; Star true ws] [] true line c
             eq_refl N).
  - destruct (exec flags_none bulletedRe line) as [[c|]|] eqn:B;
      [|now left|now left].
    right. apply oneLine_trim, noBreak.
    apply (@exec_group_dot flags_none [Bol; bullet; Star true ws] [] true
             line c eq_refl B).
  - destruct (exec flags_none bulletedRe line) as [[c|]|] eqn:B;
      [|now left|now left].
    right. apply oneLine_trim, noBreak.
    apply (@exec_group_dot flags_none [Bol; bullet; Star true ws] [] true
             line c eq_refl B).
Qed.

Lemma goalTitleOf_oneLine (t : list ascii) : oneLine (goalTitleOf t).
Proof.
  unfold goalTitleOf, group1Trim.
  destruct (exec flags_i goalRe t) as [[c|]|] eqn:G.
  - apply oneLine_trim, noBreak_i.
    apply (@exec_group_dot flags_i
             [stars; lit "Goal"; stars; Char ":"; Star true ws]
             [Alt nl Eol] false t c eq_refl G).
  - split; [reflexivity|]. repeat constructor.
  - split; [reflexivity|]. repeat constructor.
Qed.

Lemma descriptionOf_trimmed (t c : list ascii) :
  descriptionOf t = Some c -> trim c = c.
Proof.
  unfold descriptionOf, group1Trim.
  destruct (exec flags_is descriptionRe t) as [[c0|]|]; try discriminate.
  intros [= <-]. apply trim_idem.
Qed.

Lemma titles_oneLine (lines : list (list ascii)) (t : list ascii) :
  In t (filter nonEmpty (map lineTitle lines)) -> t <> [] /\ oneLine t.
Proof.
  rewrite filter_In, in_map_iff. intros [(line & <- & _) Hne].
  destruct (lineTitle_oneLine line) as [E|O].
  - rewrite E in Hne. discriminate.
  - split; [|exact O]. intros E. rewrite E in Hne. discriminate.
Qed.

Lemma filtered_surviving_oneLine (text t : list ascii) :
  In t (Filtered.surviving text) -> t <> [] /\ oneLine t.
Proof.
  unfold Filtered.surviving, Filtered.stepLines.
  destruct (exec flags_is Filtered.stepsSectionRe text) as [[c|]|];
    try (intros []).
  rewrite filter_In. intros [H _]. exact (titles_oneLine _ _ H).
Qed.

Lemma fallback_surviving_oneLine (text t : list ascii) :
  In t (Fallback.surviving text) -> t <> [] /\ oneLine t.
Proof.
  unfold Fallback.surviving, Fallback.stepLines, Fallback.listItems.
  destruct (exec flags_is Fallback.stepsRe text) as [[c|]|].
  - destruct (filter nonEmpty _) eqn:Fl at 1.
    + apply titles_oneLine.
    + rewrite <- Fl. apply titles_oneLine.
  - apply titles_oneLine.
  - apply titles_oneLine.
Qed.

(** What either extractor returns: titles that are one line each. *)
Lemma extractor_titles (filtering : bool) (text : string)
  (p : Plan) :
  extractorOf filtering text = Some p ->
  (forall s, In s (steps p) ->
     chars (title s) <> [] /\ oneLine (chars (title s))) /\
  oneLine (chars (goalTitle p)) /\
  (forall dsc, description p = Some dsc -> trim (chars dsc) = chars dsc).
Proof.
  intros H.
  assert (R : exists found,
    p = mkResult (goalTitleOf (chars text)) (descriptionOf (chars text))
          (toSteps found) /\
    forall t, In t found -> t <> [] /\ oneLine t).
  { destruct filtering; simpl in H.
    - rewrite ExtractFacts.filtered_result in H. injection H as <-.
      eexists. split; [reflexivity|].
      apply filtered_surviving_oneLine.
    - rewrite ExtractFacts.fallback_result in H. injection H as <-.
      eexists. split; [reflexivity|].
      apply fallback_surviving_oneLine. }
  destruct R as (found & -> & Hf). unfold mkResult. simpl. split; [|split].
  - intros s Hs. destruct found as [|t0 r].
    + destruct Hs as [<-|[]]. simpl. split; [discriminate|].
      split; [reflexivity|]. repeat constructor.
    + unfold toSteps in Hs. apply in_map_iff in Hs.
      destruct Hs as (t & <- & Ht). simpl. rewrite TrimFacts.chars_str.
      now apply Hf.
  - rewrite TrimFacts.chars_str. apply goalTitleOf_oneLine.
  - intros dsc Hd. destruct (descriptionOf (chars text)) as [c|] eqn:D;
      [|discriminate].
    injection Hd as <-. rewrite TrimFacts.chars_str.
    exact (descriptionOf_trimmed _ D).
Qed.

End CaptureFacts.

Import JsString PlanText Shape.

(** X12.  Whatever the text, in the plan either component extracts:
    every step title is not empty, has no white space at its ends and
    holds no line break (LF or CR); the goal title has no white space at
    its ends and holds no line break; the description, when there is one,
    has no white space at its ends. *)
Theorem extracted_titles_one_line (filtering : bool) (text : string)
  (p : Plan) :
  extractorOf filtering text = Some p ->
  (forall s, In s (steps p) ->
     chars (title s) <> [] /\ oneLine (chars (title s))) /\
  oneLine (chars (goalTitle p)) /\
  (forall dsc, description p = Some dsc -> trim (chars dsc) = chars dsc).
Proof. apply CaptureFacts.extractor_titles. Qed.

Lemma extracted_titles_one_line_witness :
  extractorOf true Cases.guitarText =
    Some (mkPlan "Learn guitar" None
            [mkPlanStep "Buy a guitar"; mkPlanStep "Practice daily"]) /\
  (forall s,
     In s [mkPlanStep "Buy a guitar"; mkPlanStep "Practice daily"] ->
     chars (title s) <> [] /\ oneLine (chars (title s))).
Proof.
  assert (H : extractorOf true Cases.guitarText =
              Some (mkPlan "Learn guitar" None
                      [mkPlanStep "Buy a guitar"; mkPlanStep "Practice daily"]))
    by (vm_compute; reflexivity).
  split; [exact H|].
  exact (proj1 (extracted_titles_one_line true Cases.guitarText H)).
Defined.

(* ================================================================== *)
(** * Part XXVI.  The plan action                                      *)
(* ================================================================== *)

Module ActionFacts.
Import Store Queries System StoreFacts Shape Listing Surface PlanActions.
Import TitleTextFacts.

Lemma getChatById_inr (E : Env) (id : Id) (w w' : World) (r : option Chat) :
  getChatById E id w = (inr r, w') ->
  r = hd_error (filter (chatHasId id) (chatTable (db w))) /\
  db w' = db w /\ drawn w' = drawn w.
Proof.
  unfold getChatById, catch.
  match goal with
  | |- context [match ?m w with _ => _ end] =>
      destruct (m w) as [[e|a] w1] eqn:B
  end; [discriminate|].
  intros [= -> ->]. apply bind_inr in B. destruct B as (rows & w2 & S & B).
  apply statement_inr in S. destruct S as (S & _ & D & _).
  unfold q_chatById in S. injection S as <- Hd.
  unfold ret in B. injection B as <- <-. now repeat split.
Qed.

Lemma getChatById_inl (E : Env) (id : Id) (w w' : World) (e : Exn) :
  getChatById E id w = (inl e, w') ->
  e = ChatSDKError bad_request_database "Failed to get chat by id" /\
  db w' = db w.
Proof.
  unfold getChatById, catch.
  match goal with
  | |- context [match ?m w with _ => _ end] =>
      destruct (m w) as [[e1|a] w1] eqn:B
  end; [|discriminate].
  unfold wrapAll, throw. intros [= <- <-]. split; [reflexivity|].
  apply bind_inl in B. destruct B as [B|(rows & w2 & S & B)].
  - now apply statement_inl in B.
  - discriminate B.
Qed.

Lemma hd_filter_chat (id : Id) (l : list Chat) (c : Chat) :
  hd_error (filter (chatHasId id) l) = Some c -> In c l /\ c_id c = id.
Proof.
  intros H. assert (Hin : In c (filter (chatHasId id) l)).
  { destruct (filter (chatHasId id) l); [discriminate|].
    injection H as ->. now left. }
  apply filter_In in Hin. destruct Hin as [A B]. split; [exact A|].
  now apply N.eqb_eq.
Qed.

Section Plan.
Variables (E : Env) (session : option Id) (chatId messageId : Id)
  (goalTitle : string) (goalDescription : option string)
  (steps : list StepInput).

(** When the action returns, every check has passed and the goal and its
    steps were created by [createGoalWithSteps], from the trimmed texts. *)
Lemma createGoalFromPlan_inr (w w' : World) (r : Goal * list Step) :
  createGoalFromPlan E session chatId messageId goalTitle goalDescription
    steps w = (inr r, w') ->
  exists user c w1,
    session = Some user /\
    In c (chatTable (db w)) /\ c_id c = chatId /\ c_userId c = user /\
    blank goalTitle = false /\ steps <> [] /\
    db w1 = db w /\ drawn w1 = drawn w /\
    createGoalWithSteps E chatId user (trimmed goalTitle)
      (option_map trimmed goalDescription) None None None (Some messageId)
      (map (fun step => mkStepInput (trimmed (si_title step)) (si_order step))
           steps) w1 = (inr r, w').
Proof.
  unfold createGoalFromPlan. destruct session as [user|]; [|discriminate].
  unfold andThen, lift at 1.
  destruct (getChatById E chatId w) as [[e|chat] w1] eqn:G; [discriminate|].
  apply getChatById_inr in G. destruct G as (Hc & Hd & Hn).
  destruct chat as [c|]; [|discriminate].
  symmetry in Hc. apply hd_filter_chat in Hc. destruct Hc as [Hin Hid].
  destruct (N.eqb (c_userId c) user) eqn:U; simpl; [|discriminate].
  destruct (blank goalTitle) eqn:B; [discriminate|].
  destruct (length steps =? 0) eqn:L; [discriminate|].
  unfold lift, catch.
  match goal with
  | |- context [createGoalWithSteps ?a ?b ?c0 ?d0 ?e0 ?f0 ?g0 ?h0 ?i0 ?j0 w1] =>
      destruct (createGoalWithSteps a b c0 d0 e0 f0 g0 h0 i0 j0 w1)
        as [[e|r1] w2] eqn:C
  end.
  - destruct e; discriminate.
  - intros [= <- <-]. exists user, c, w1. apply N.eqb_eq in U.
    repeat split; try assumption.
    intros St. rewrite St in L. discriminate.
Qed.

(** When the action throws, nothing was written, and the error is one of
    seven. *)
Lemma createGoalFromPlan_inl (w w' : World) (t : Thrown) :
  createGoalFromPlan E session chatId messageId goalTitle goalDescription
    steps w = (inl t, w') ->
  db w' = db w /\
  (t = Known (ChatSDKError unauthorized_chat "You must be signed in") /\
     session = None \/
   t = Known (ChatSDKError bad_request_database "Failed to get chat by id") \/
   t = Surface not_found_chat "Chat not found" \/
   t = Surface forbidden_chat "This chat belongs to another user" \/
   t = Known (ChatSDKError bad_request_goal "Goal title cannot be empty") /\
     blank goalTitle = true \/
   t = Known (ChatSDKError bad_request_goal "At least one step is required") /\
     steps = [] \/
   exists m, t = Known (ChatSDKError bad_request_database
                          ("Failed to create goal with steps: " ++ m))).
Proof.
  unfold createGoalFromPlan. destruct session as [user|].
  2:{ unfold raise. intros [= <- <-]. split; [reflexivity|]. now left. }
  unfold andThen, lift at 1.
  destruct (getChatById E chatId w) as [[e|chat] w1] eqn:G.
  { apply getChatById_inl in G. destruct G as (-> & Hd).
    intros [= <- <-]. split; [exact Hd|]. right. now left. }
  apply getChatById_inr in G. destruct G as (_ & Hd & _).
  destruct chat as [c|].
  2:{ unfold raise. intros [= <- <-]. split; [exact Hd|]. tauto. }
  destruct (negb (N.eqb (c_userId c) user)).
  { unfold raise. intros [= <- <-]. split; [exact Hd|]. tauto. }
  destruct (blank goalTitle).
  { unfold raise. intros [= <- <-]. split; [exact Hd|]. tauto. }
  destruct (length steps =? 0) eqn:L.
  { unfold raise. intros [= <- <-]. split; [exact Hd|].
    do 5 right. left. split; [reflexivity|].
    apply Nat.eqb_eq in L. now destruct steps. }
  unfold lift, catch.
  match goal with
  | |- context [createGoalWithSteps ?a ?b ?c0 ?d0 ?e0 ?f0 ?g0 ?h0 ?i0 ?j0 w1] =>
      destruct (createGoalWithSteps a b c0 d0 e0 f0 g0 h0 i0 j0 w1)
        as [[e|r1] w2] eqn:C
  end; [|discriminate].
  apply IngestFacts.createGoalWithSteps_inl in C. destruct C as (Hd2 & m & ->).
  simpl. unfold throw. intros [= <- <-]. split; [congruence|].
  do 6 right. now exists m.
Qed.

End Plan.

End ActionFacts.

Import Store Queries System Shape Listing Surface PlanActions.

(** X13.  [createGoalFromPlan], whichever statement the store fails at.
    When it returns: the caller is signed in and owns the chat, the title
    given was not blank and at least one step was given; the store holds
    one more goal, of that user and chat, created from the message, with
    the title and the description trimmed, the title not blank, status
    "not_started" and priority "medium"; and after the former steps one
    step per step given, in sequence, with the trimmed title and the
    explicit order or else the position.  When it throws: the store is
    unchanged and the error is one of seven; the title error comes only
    for a blank title, the steps error only for no steps; in particular
    the cause "Failed to create goal" of its own handler never appears,
    [createGoalWithSteps] throwing nothing but [ChatSDKError]s. *)
Theorem createGoalFromPlan_outcomes (E : Env) (session : option Id) (d : DB)
  (chatId messageId : Id) (goalTitle : string)
  (goalDescription : option string) (steps : list StepInput) :
  match perform (createGoalFromPlan E session chatId messageId goalTitle
                   goalDescription steps) d with
  | (inr (g, created), d') =>
      (exists c, In c (chatTable d) /\ c_id c = chatId /\
                 session = Some (c_userId c) /\ g_userId g = c_userId c) /\
      blank goalTitle = false /\ steps <> [] /\
      goalTable d' = goalTable d ++ [g] /\
      stepTable d' = stepTable d ++ created /\
      g_chatId g = chatId /\
      g_title g = trimmed goalTitle /\ blank (g_title g) = false /\
      g_description g = option_map trimmed goalDescription /\
      g_createdFromMessageId g = Some messageId /\
      g_status g = "not_started"%string /\ g_priority g = "medium"%string /\
      g_deadline g = None /\
      length created = length steps /\
      forall k sd, nth_error steps k = Some sd ->
        exists s, nth_error created k = Some s /\
                  s_goalId s = g_id g /\
                  s_title s = trimmed (si_title sd) /\
                  s_order s = orElse (si_order sd) (Z.of_nat k) /\
                  s_isCompleted s = false /\ s_completedAt s = None
  | (inl t, d') =>
      d' = d /\
      (t = Known (ChatSDKError unauthorized_chat "You must be signed in") /\
         session = None \/
       t = Known (ChatSDKError bad_request_database
                    "Failed to get chat by id") \/
       t = Surface not_found_chat "Chat not found" \/
       t = Surface forbidden_chat "This chat belongs to another user" \/
       t = Known (ChatSDKError bad_request_goal
                    "Goal title cannot be empty") /\
         blank goalTitle = true \/
       t = Known (ChatSDKError bad_request_goal
                    "At least one step is required") /\
         steps = [] \/
       exists m, t = Known (ChatSDKError bad_request_database
                              ("Failed to create goal with steps: " ++ m)))
  end.
Proof.
  unfold perform.
  destruct (createGoalFromPlan E session chatId messageId goalTitle
              goalDescription steps (mkWorld d 0 0)) as [[t|[g created]] w']
    eqn:R.
  - now apply ActionFacts.createGoalFromPlan_inl in R.
  - apply ActionFacts.createGoalFromPlan_inr in R.
    destruct R as (user & c & w1 & Hs & Hin & Hid & Hu & Hb & Hne & Hd & Hn
                   & C).
    simpl in Hin, Hd.
    apply IngestFacts.createGoalWithSteps_inr in C.
    destruct C as (Hg & Hc & Hd'). rewrite Hd in Hd'.
    set (sds := map (fun step => mkStepInput (trimmed (si_title step))
                                             (si_order step)) steps) in *.
    assert (Len : length created = length steps).
    { rewrite Hc, IngestFacts.stepsToInsert_length.
      - unfold sds. apply length_map.
      - now rewrite length_map, length_seq.
      - apply IngestFacts.indexOrders_length. }
    split; [exists c; subst user; rewrite Hg; now repeat split|].
    split; [exact Hb|]. split; [exact Hne|].
    rewrite Hd'. simpl. split; [reflexivity|]. split; [reflexivity|].
    rewrite Hg at 1 2 3 4 5 6 7 8. simpl.
    split; [reflexivity|]. split; [reflexivity|].
    split; [now rewrite TitleTextFacts.blank_trimmed|].
    repeat (split; [reflexivity|]). split; [exact Len|].
    intros k sd Hk.
    assert (Hk' : nth_error sds k =
                  Some (mkStepInput (trimmed (si_title sd)) (si_order sd))).
    { unfold sds. now rewrite nth_error_map, Hk. }
    assert (Hlt : k < length sds)
      by (apply nth_error_Some; congruence).
    eexists. split.
    + rewrite Hc. apply IngestFacts.stepsToInsert_nth.
      * now apply IngestFacts.ids_nth.
      * exact Hk'.
      * apply (@IngestFacts.indexOrders_nth sds 0%Z k _ Hk').
    + simpl. repeat split.
Qed.

(** [createGoalFromPlan] at work: the owner of the chat creates a goal
    with two steps from untrimmed texts. *)
Lemma createGoalFromPlan_example :
  exists g created d',
    perform (createGoalFromPlan Cases.env0 (Some 7%N) 1%N 50%N
               "  Learn guitar " (Some " in a year "%string)
               [mkStepInput " Buy a guitar" None;
                mkStepInput "Practice daily  " None]) Cases.start
    = (inr (g, created), d') /\
    map g_title (goalTable d') = ["Learn guitar"%string] /\
    map g_description (goalTable d') = [Some "in a year"%string] /\
    map (fun s => (s_title s, s_order s)) (stepTable d') =
      [("Buy a guitar"%string, 0%Z); ("Practice daily"%string, 1%Z)].
Proof.
  do 3 eexists. split; [vm_compute; reflexivity|].
  repeat split; reflexivity.
Qed.

(** X14.  The order in which [createGoalFromPlan] refuses, on a store
    that does not fail: without a session the call is unauthorized; a
    signed-in user gets the database error "Failed to get chat by id" for a
    chat id that is no uuid, the store refusing the select; not-found for
    a uuid of no chat; forbidden for a chat of another user, whatever the
    title and the steps; the title error for a blank title on a chat of
    theirs; and the steps error for an empty list of steps once the title
    is accepted.  The store is unchanged each time. *)
Theorem createGoalFromPlan_refuses (E : Env) (d : DB) (user : Id)
  (chatId : Key) (messageId : Id) (goalTitle : string)
  (goalDescription : option string) (steps : list StepInput) :
  fault E = None ->
  let run session :=
    perform (createGoalFromPlan E session chatId messageId goalTitle
               goalDescription steps) d in
  run None =
    (inl (Known (ChatSDKError unauthorized_chat "You must be signed in")), d) /\
  match chatId with
  | Other _ =>
      run (Some user) =
        (inl (Known (ChatSDKError bad_request_database
                       "Failed to get chat by id")), d)
  | Uuid i =>
      let chat := hd_error (filter (chatHasId i) (chatTable d)) in
      (chat = None ->
       run (Some user) = (inl (Surface not_found_chat "Chat not found"), d)) /\
      (forall c, chat = Some c -> c_userId c <> user ->
       run (Some user) =
         (inl (Surface forbidden_chat "This chat belongs to another user"),
          d)) /\
      (forall c, chat = Some c -> c_userId c = user ->
       blank goalTitle = true ->
       run (Some user) =
         (inl (Known (ChatSDKError bad_request_goal
                        "Goal title cannot be empty")), d)) /\
      (forall c, chat = Some c -> c_userId c = user ->
       blank goalTitle = false -> steps = [] ->
       run (Some user) =
         (inl (Known (ChatSDKError bad_request_goal
                        "At least one step is required")), d))
  end.
Proof.
  intros F run. split; [reflexivity|].
  destruct chatId as [i|text].
  - intros chat.
    assert (G : getChatById E i (mkWorld d 0 0) =
                (inr chat, mkWorld d 1 0)).
    { unfold getChatById, catch, bind.
      rewrite (StoreFacts.statement_ok _ _ _ F). reflexivity. }
    assert (L : lift (getChatById E i) (mkWorld d 0 0) =
                (inr chat, mkWorld d 1 0))
      by (unfold lift; now rewrite G).
    subst run. unfold perform, createGoalFromPlan, andThen.
    cbv beta. rewrite L. clearbody chat.
    split; [intros ->; reflexivity|].
    split; [intros c -> Hu|split; intros c -> Hu Hb].
    + apply N.eqb_neq in Hu. cbv iota beta. now rewrite Hu.
    + apply N.eqb_eq in Hu. cbv iota beta. now rewrite Hu, Hb.
    + intros ->. apply N.eqb_eq in Hu. cbv iota beta. now rewrite Hu, Hb.
  - assert (G : getChatById E (Other text) (mkWorld d 0 0) =
                (inl (ChatSDKError bad_request_database
                        "Failed to get chat by id"), mkWorld d 1 0)).
    { unfold getChatById, catch, bind.
      rewrite (StoreFacts.statement_ok _ _ _ F). reflexivity. }
    subst run. unfold perform, createGoalFromPlan, andThen, lift.
    cbv beta. now rewrite G.
Qed.

Lemma createGoalFromPlan_refuses_witness :
  perform (createGoalFromPlan Cases.env0 (Some 8%N) 1%N 50%N "" None [])
          Cases.start
  = (inl (Surface forbidden_chat "This chat belongs to another user"),
     Cases.start) /\
  perform (createGoalFromPlan Cases.env0 (Some 8%N) Cases.notAUuid 50%N ""
             None [])
          Cases.start
  = (inl (Known (ChatSDKError bad_request_database
                   "Failed to get chat by id")), Cases.start).
Proof.
  split.
  - destruct (@createGoalFromPlan_refuses Cases.env0 Cases.start 8%N
                (Uuid 1%N) 50%N "" None [] eq_refl) as (_ & _ & H & _).
    apply (H (mkChat 1%N 7%N)); [reflexivity|discriminate].
  - exact (proj2 (@createGoalFromPlan_refuses Cases.env0 Cases.start 8%N
                    Cases.notAUuid 50%N "" None [] eq_refl)).
Defined.

(* ================================================================== *)
(** * Part XXVII.  What the screen keeps                               *)
(* ================================================================== *)

Module ScreenFacts.
Import Store Queries System StoreFacts Shape Surface PlanActions Actions.
Import Components.

(** A store property that the four calls behind the handlers keep is kept
    by every press. *)
Section Presses.
Variable I : DB -> Prop.
Hypothesis plan_keeps :
  forall E chatId user title description messageId stepsData,
  blank title = false ->
  Forall (fun sd => blank (si_title sd) = false) stepsData ->
  keeps I (createGoalWithSteps E chatId user title description None None None
             (Some messageId) stepsData).
Hypothesis toggle_keeps : forall E id, keeps I (toggleStepCompletion E id).
Hypothesis update_keeps :
  forall E id title, keeps I (updateStep E id (Some title) None).
Hypothesis delete_keeps : forall E id, keeps I (deleteStep E id).

Lemma action_keeps (A B : Type) (m : M A) (b : B) (msg : string) :
  keeps I m -> keeps I (catch (m ;; ret b) (rethrowOrWrap msg)).
Proof.
  intros H. apply keeps_catch; [|intros e; apply keeps_rethrowOrWrap].
  apply keeps_bind; [exact H|intros a; apply keeps_ret].
Qed.

Lemma keeps_at (A : Type) (m : M A) (d : DB) (r : Exn + A) (w' : World) :
  keeps I m -> I d -> m (mkWorld d 0 0) = (r, w') -> I (db w').
Proof. intros K H R. exact (K (mkWorld d 0 0) r w' H R). Qed.

Lemma press_keeps (E : Env) (session : option Id) (p : Press) (d : DB) :
  I d -> I (afterPress E session p d).
Proof.
  intros H. destruct p as [filtering st chatId messageId text|step
                          |step editTitle|confirmed step]; simpl.
  - unfold handleCreateGoal.
    destruct (isLoading st || isCreated st); [exact H|].
    destruct (extractorOf filtering text) as [p|] eqn:X; [|exact H].
    destruct (createGoalFromPlan E session chatId messageId (goalTitle p)
                (description p)
                (map (fun s => mkStepInput (title s) None) (steps p))
                (mkWorld d 0 0)) as [[t|r] w'] eqn:R; simpl.
    + apply ActionFacts.createGoalFromPlan_inl in R. destruct R as [-> _].
      exact H.
    + apply ActionFacts.createGoalFromPlan_inr in R.
      destruct R as (user & c & w1 & _ & _ & _ & _ & Hb & _ & Hd & _ & C).
      assert (Hb' : blank (trimmed (goalTitle p)) = false)
        by now rewrite TitleTextFacts.blank_trimmed.
      assert (Hf : Forall (fun sd => blank (si_title sd) = false)
                     (map (fun step =>
                             mkStepInput (trimmed (si_title step))
                                         (si_order step))
                          (map (fun s => mkStepInput (title s) None)
                               (steps p)))).
      { rewrite map_map. simpl. apply Forall_forall. intros sd Hsd.
        apply in_map_iff in Hsd. destruct Hsd as (s & <- & Hs). simpl.
        rewrite TitleTextFacts.blank_trimmed.
        destruct (CaptureFacts.extractor_titles _ _ X) as (Ht & _).
        destruct (Ht s Hs) as (Hne & Htr & _).
        unfold blank. rewrite Htr.
        now destruct (JsString.chars (title s)). }
      apply (@plan_keeps E chatId user _ (option_map trimmed (description p))
               messageId _ Hb' Hf w1 (inr r) w'); [|exact C].
      rewrite Hd. exact H.
  - unfold handleToggleCompletion, updateStepStatus.
    destruct session as [u|]; [|exact H].
    match goal with
    | |- context [catch ?m ?h ?w] =>
        destruct (catch m h w) as [[e|a] w'] eqn:R
    end; simpl;
      (eapply keeps_at; [|exact H|exact R]);
      apply action_keeps, toggle_keeps.
  - unfold handleSaveEdit. destruct (blank editTitle) eqn:B; [exact H|].
    unfold editStep. destruct session as [u|]; [|exact H].
    rewrite TitleTextFacts.blank_trimmed, B.
    match goal with
    | |- context [catch ?m ?h ?w] =>
        destruct (catch m h w) as [[e|a] w'] eqn:R
    end; simpl;
      (eapply keeps_at; [|exact H|exact R]);
      apply action_keeps, update_keeps.
  - unfold handleDelete. destruct confirmed; simpl; [|exact H].
    unfold deleteStepAction. destruct session as [u|]; [|exact H].
    match goal with
    | |- context [catch ?m ?h ?w] =>
        destruct (catch m h w) as [[e|a] w'] eqn:R
    end; simpl;
      (eapply keeps_at; [|exact H|exact R]);
      apply action_keeps, delete_keeps.
Qed.

Lemma onScreen_keeps (d : DB) :
  (forall chats users messages, I (mkDB chats users messages [] [])) ->
  onScreen d -> I d.
Proof.
  intros H0. induction 1 as [chats users messages|E session p d R IH].
  - apply H0.
  - now apply press_keeps.
Qed.

End Presses.

End ScreenFacts.

Module TitledFacts.
Import Store Queries System StoreFacts Shape.

Lemma allTitled_insertGoal (E : Env) (row : Goal) :
  titled row -> keeps AllTitled (statement E (q_insertGoal row)).
Proof.
  intros Hr. apply keeps_statement. intros d a d' [HG HS] Q.
  apply q_insertGoal_inr in Q. destruct Q as (_ & -> & _).
  split; [|exact HS]. simpl. apply Forall_app. split; [exact HG|].
  now constructor.
Qed.

Lemma allTitled_insertSteps (E : Env) (rows : list Step) :
  Forall stepTitled rows -> keeps AllTitled (statement E (q_insertSteps rows)).
Proof.
  intros Hr. apply keeps_statement. intros d a d' [HG HS] Q.
  apply q_insertSteps_inr in Q. destruct Q as (_ & -> & _).
  split; [exact HG|]. simpl. apply Forall_app. now split.
Qed.

Lemma allTitled_updateStep (E : Env) (i : Id) (p : StepPatch) :
  (forall t, sp_title p = Some t -> blank t = false) ->
  keeps AllTitled (statement E (q_updateStep i p)).
Proof.
  intros Hp. apply keeps_statement. intros d a d' [HG HS] Q.
  apply q_updateStep_inr in Q. subst d'. split; [exact HG|]. simpl.
  rewrite Forall_forall in *. intros s Hs. apply in_map_iff in Hs.
  destruct Hs as (s0 & <- & Hs0). specialize (HS s0 Hs0).
  destruct (stepHasId i s0); [|exact HS].
  unfold stepTitled, patchStep. simpl.
  destruct (sp_title p) as [t|]; simpl; [now apply Hp|exact HS].
Qed.

Lemma allTitled_deleteStep (E : Env) (i : Id) :
  keeps AllTitled (statement E (q_deleteStep i)).
Proof.
  apply keeps_statement. intros d a d' [HG HS] [= _ <-].
  split; [exact HG|]. simpl. rewrite Forall_forall in *.
  intros s Hs. apply filter_In in Hs. now apply HS.
Qed.

Lemma stepsToInsert_titled (g : Id) (t : Time) (ids : list Id)
  (stepsData : list StepInput) (orders : list Z) :
  Forall (fun sd => blank (si_title sd) = false) stepsData ->
  Forall stepTitled (stepsToInsert g t ids stepsData orders).
Proof.
  intros H. revert ids orders.
  induction H as [|sd r Hsd Hr IH]; intros [|i ids] [|o os]; simpl;
    constructor; [exact Hsd|apply IH].
Qed.

Lemma allTitled_plan (E : Env) chatId userId title description status
  priority deadline createdFromMessageId stepsData :
  blank title = false ->
  Forall (fun sd => blank (si_title sd) = false) stepsData ->
  keeps AllTitled
    (createGoalWithSteps E chatId userId title description status priority
       deadline createdFromMessageId stepsData).
Proof.
  intros Ht Hs. unfold createGoalWithSteps.
  apply keeps_catch; [|intros e; apply keeps_throw].
  apply keeps_transaction.
  apply keeps_bind; [apply keeps_freshId|intros i].
  apply keeps_bind;
    [do 2 (apply keeps_byKey; intros ?; cbv beta);
     now apply allTitled_insertGoal|intros g].
  apply keeps_bind; [apply keeps_freshIds|intros ids].
  apply keeps_bind; [|intros rows; apply keeps_ret].
  now apply allTitled_insertSteps, stepsToInsert_titled.
Qed.

Lemma allTitled_toggle (E : Env) (id : Key) :
  keeps AllTitled (toggleStepCompletion E id).
Proof.
  unfold toggleStepCompletion, q_stepById.
  apply keeps_catch; [|intros e; apply keeps_rethrowOrWrap].
  apply keeps_bind;
    [apply keeps_byKey; intros ?; apply keeps_read|intros [x|]];
    [|apply keeps_throw].
  apply keeps_byKey. intros ?. apply allTitled_updateStep. discriminate.
Qed.

(** [updateStep] lets no blank title through. *)
Lemma allTitled_update (E : Env) (id : Key) (title : option string)
  (isCompleted : option bool) :
  keeps AllTitled (updateStep E id title isCompleted).
Proof.
  unfold updateStep, q_stepById.
  apply keeps_catch; [|intros e; apply keeps_rethrowOrWrap].
  apply keeps_bind;
    [apply keeps_byKey; intros ?; apply keeps_read|intros [x|]];
    [|apply keeps_throw].
  destruct (blankIfSupplied title) eqn:B; [apply keeps_throw|].
  apply keeps_byKey. intros ?. apply allTitled_updateStep. simpl.
  now intros t ->.
Qed.

Lemma allTitled_renumber (E : Env) (rem : list Step) :
  forall i, keeps AllTitled (renumber E i rem).
Proof.
  induction rem as [|r rem IH]; intros i; simpl; [apply keeps_ret|].
  apply keeps_bind; [|intros u; apply IH].
  apply allTitled_updateStep. discriminate.
Qed.

Lemma allTitled_delete (E : Env) (id : Key) :
  keeps AllTitled (deleteStep E id).
Proof.
  unfold deleteStep, q_stepById, q_stepsOfGoal.
  apply keeps_catch; [|intros e; apply keeps_wrapAll].
  apply keeps_transaction.
  apply keeps_bind;
    [apply keeps_byKey; intros ?; apply keeps_read|intros [x|]];
    [|apply keeps_ret].
  apply keeps_bind;
    [apply keeps_byKey; intros ?; apply allTitled_deleteStep|intros u].
  apply keeps_bind; [apply keeps_read|intros rem].
  apply keeps_bind; [apply allTitled_renumber|intros u']. apply keeps_ret.
Qed.

End TitledFacts.

Import Store Queries System Shape.

(** X15.  In every store the screen leads to from one without goals and
    steps (pressing "Make the Plan" on either component for any message
    text, toggling a step, saving an edited step title, deleting a step;
    by any user or none, on stores that fail anywhere), no goal and no step
    has a blank title.  [createGoalFromPlan] checks the goal title but no
    step title; the step titles the extractors hand it are never blank. *)
Theorem onScreen_titles_never_blank (d : DB) :
  onScreen d ->
  (forall g, In g (goalTable d) -> blank (g_title g) = false) /\
  (forall s, In s (stepTable d) -> blank (s_title s) = false).
Proof.
  intros H.
  assert (A : AllTitled d).
  { revert H. apply ScreenFacts.onScreen_keeps.
    - intros. now apply TitledFacts.allTitled_plan.
    - apply TitledFacts.allTitled_toggle.
    - intros. apply TitledFacts.allTitled_update.
    - apply TitledFacts.allTitled_delete.
    - intros. split; constructor. }
  destruct A as [G S]. rewrite Forall_forall in G, S. now split.
Qed.

(** X16.  In every store the screen leads to from one without goals and
    steps, the keys are sound (distinct ids, every step with its goal,
    every goal with its chat and user, orders within the integer column),
    and every step has a completion time exactly when it is completed. *)
Theorem onScreen_keys_and_completion (d : DB) :
  onScreen d ->
  KeysOk d /\ forall s, In s (stepTable d) -> completionCoherent s.
Proof.
  intros H. split.
  - revert H. apply ScreenFacts.onScreen_keeps.
    + intros. apply KeepFacts.createGoalWithSteps_keeps_all.
      * intros; eapply KeyFacts.KeysOk_insertGoal; eassumption.
      * intros; eapply KeyFacts.KeysOk_insertSteps; eassumption.
    + intros. apply KeepFacts.toggleStepCompletion_keeps_all.
      intros; eapply KeyFacts.KeysOk_updateStep; eassumption.
    + intros. apply KeepFacts.updateStep_keeps_all.
      intros; eapply KeyFacts.KeysOk_updateStep; eassumption.
    + intros. apply KeepFacts.deleteStep_keeps_all.
      * intros; eapply KeyFacts.KeysOk_updateStep; eassumption.
      * intros; eapply KeyFacts.KeysOk_deleteStep; eassumption.
    + apply KeyFacts.KeysOk_start.
  - assert (C : Coherent d).
    { revert H. apply ScreenFacts.onScreen_keeps.
      - intros. apply CompletionFacts.createGoalWithSteps_keeps_coherent.
      - apply CompletionFacts.toggleStepCompletion_keeps_coherent.
      - intros. apply CompletionFacts.updateStep_keeps_coherent.
      - apply CompletionFacts.deleteStep_keeps_coherent.
      - intros. constructor. }
    unfold Coherent in C. now rewrite Forall_forall in C.
Qed.

Lemma onScreen_titles_never_blank_witness :
  map s_title
    (stepTable
       (afterPress Cases.env0 (Some 7%N)
          (MakeThePlan true (Components.mkButtonState false false) 1%N 50%N
             Cases.guitarText)
          Cases.start))
  = ["Buy a guitar"; "Practice daily"]%string /\
  forall s,
    In s (stepTable
            (afterPress Cases.env0 (Some 7%N)
               (MakeThePlan true (Components.mkButtonState false false) 1%N
                  50%N Cases.guitarText)
               Cases.start)) ->
    blank (s_title s) = false.
Proof.
  split; [vm_compute; reflexivity|].
  apply onScreen_titles_never_blank.
  apply onScreen_after. apply onScreen_start.
Defined.

Lemma onScreen_keys_and_completion_witness :
  KeysOk
    (afterPress Cases.env1 (Some 7%N)
       (ToggleCompletion
          (mkStep 102%N 100%N "Practice daily" false 1%Z None 1000%Z))
       (afterPress Cases.env0 (Some 7%N)
          (MakeThePlan false (Components.mkButtonState false false) 1%N 50%N
             Cases.guitarText)
          Cases.start)).
Proof.
  apply onScreen_keys_and_completion.
  apply onScreen_after, onScreen_after, onScreen_start.
Defined.

(** ** Every call, from every store *)

Import Store Queries System Shape.

(** X1.  In every store reached from one without goals and steps through
    the calls of lib/db/queries.ts, whatever they return or throw, the
    keys are sound: no two goals share an id, no two steps share an id,
    every step belongs to a goal of the store, every goal to a chat and to
    a user of the store, and every order fits the integer column.  The
    store refuses the insertions that would break this, the updates never
    assign an id or a goal, and deleting a goal deletes its steps. *)
Theorem reachable_keys (d : DB) : reachable d -> KeysOk d.
Proof.
  apply KeepFacts.reachable_keeps.
  - intros; eapply KeyFacts.KeysOk_insertGoal; eassumption.
  - intros; eapply KeyFacts.KeysOk_updateGoal; eassumption.
  - intros; eapply KeyFacts.KeysOk_deleteGoal; eassumption.
  - intros; eapply KeyFacts.KeysOk_insertSteps; eassumption.
  - intros; eapply KeyFacts.KeysOk_updateStep; eassumption.
  - intros; eapply KeyFacts.KeysOk_deleteStep; eassumption.
  - apply KeyFacts.KeysOk_start.
Qed.

Lemma reachable_keys_witness : reachable Cases.tied /\ KeysOk Cases.tied.
Proof.
  assert (R : reachable Cases.tied)
    by (apply reachable_after, reachable_after, reachable_start).
  split; [exact R|exact (reachable_keys R)].
Defined.

(** X2.  Whichever of the eleven writing calls of lib/db/queries.ts
    throws, for whatever reason (a refused argument, a missing row, a
    statement the store fails at, the commit included), the store is left
    exactly as it was before the call, and what is thrown is a
    [ChatSDKError], never an error of the driver as it is. *)
Theorem failed_call_changes_nothing (E : Env) (c : Call) (d : DB) (e : Exn) :
  errorOf E c d = Some e ->
  after E c d = d /\ exists code cause, e = ChatSDKError code cause.
Proof.
  destruct c; simpl; intros T.
  - eapply AtomicFacts.spares_call;
      [apply AtomicFacts.createGoal_spares
      |apply AtomicFacts.catch_rethrowOrWrap_wraps|exact T].
  - eapply AtomicFacts.spares_call;
      [apply AtomicFacts.updateGoal_spares
      |apply AtomicFacts.catch_rethrowOrWrap_wraps|exact T].
  - apply AtomicFacts.thrown_call in T. destruct T as (w' & R & ->).
    unfold deleteGoal, catch in R.
    destruct (Store.statement E (byKey id q_deleteGoal) _)
      as [[e1|r] w1] eqn:S; [|discriminate].
    apply StoreFacts.statement_inl in S. destruct S as (S & _).
    unfold wrapAll, throw in R. injection R as <- <-. split; [exact S|eauto].
  - eapply AtomicFacts.spares_call;
      [apply AtomicFacts.createStep_spares
      |apply AtomicFacts.catch_rethrowOrWrap_wraps|exact T].
  - apply AtomicFacts.thrown_call in T. destruct T as (w' & R & ->).
    apply ReadFacts.createSteps_inl in R. destruct R as (-> & R).
    split; [exact R|eauto].
  - eapply AtomicFacts.spares_call;
      [apply AtomicFacts.updateStep_spares
      |apply AtomicFacts.catch_rethrowOrWrap_wraps|exact T].
  - apply AtomicFacts.thrown_call in T. destruct T as (w' & R & ->).
    apply DeleteFacts.deleteStep_inl in R. destruct R as (R & ->).
    split; [exact R|eauto].
  - eapply AtomicFacts.spares_call;
      [apply AtomicFacts.toggleStepCompletion_spares
      |apply AtomicFacts.catch_rethrowOrWrap_wraps|exact T].
  - apply AtomicFacts.thrown_call in T. destruct T as (w' & R & ->).
    apply IngestFacts.createGoalWithSteps_inl in R.
    destruct R as (R & m & ->). split; [exact R|eauto].
  - eapply AtomicFacts.spares_call;
      [apply AtomicFacts.reorderSteps_spares
      |apply AtomicFacts.catch_rethrowOrWrap_wraps|exact T].
  - eapply AtomicFacts.spares_call;
      [apply AtomicFacts.bulkUpdateSteps_spares
      |apply AtomicFacts.catch_rethrowOrWrap_wraps|exact T].
Qed.

Lemma failed_call_changes_nothing_witness :
  after Cases.env1
    (BulkUpdateSteps 100%N
       [mkStepUpdate 101%N (Some "Buy a bass"%string) None None;
        mkStepUpdate 999%N None (Some true) None])
    Cases.planned
  = Cases.planned.
Proof.
  apply (@failed_call_changes_nothing Cases.env1
           (BulkUpdateSteps 100%N
              [mkStepUpdate 101%N (Some "Buy a bass"%string) None None;
               mkStepUpdate 999%N None (Some true) None])
           Cases.planned
           (ChatSDKError not_found_goal
              (notOfGoal Cases.env1 (Uuid 999%N) (Uuid 100%N)))
           eq_refl).
Defined.

(* ================================================================== *)
(** * Part XXVIII.  From the message text to the store                 *)
(* ================================================================== *)

Module PlanFacts.
Import JsString Store Queries System StoreFacts Shape PlanActions.

Lemma str_chars (s : string) : str (chars s) = s.
Proof. apply string_of_list_ascii_of_string. Qed.

(** [trim] changes nothing of a text it has left before. *)
Lemma trimmed_fixed (s : string) : trim (chars s) = chars s -> trimmed s = s.
Proof. intros H. unfold trimmed. now rewrite H, str_chars. Qed.

Lemma stepsToInsert_columns (g : Id) (t : Time) (ids : list Id)
  (sds : list StepInput) (os : list Z) :
  length ids = length sds -> length os = length sds ->
  map s_title (stepsToInsert g t ids sds os) = map si_title sds /\
  map s_order (stepsToInsert g t ids sds os) = os.
Proof.
  revert sds os. induction ids as [|i ids IH]; intros [|sd sds] [|o os];
    simpl; try discriminate; [now split|].
  intros [= H1] [= H2]. destruct (IH sds os H1 H2) as [A B].
  now rewrite A, B.
Qed.

Lemma stepsToInsert_rows (g : Id) (t : Time) (ids : list Id)
  (sds : list StepInput) (os : list Z) :
  forall s, In s (stepsToInsert g t ids sds os) ->
  s_goalId s = g /\ s_isCompleted s = false /\ s_completedAt s = None.
Proof.
  revert sds os. induction ids as [|i ids IH]; intros [|sd r] [|o os] s;
    simpl; try contradiction.
  intros [<-|H]; [now repeat split|]. now apply (IH r os).
Qed.

(** With every order left to the function, the orders are the
    positions. *)
Lemma indexOrders_positions (sds : list StepInput) :
  (forall sd, In sd sds -> si_order sd = None) ->
  forall i, indexOrders (Z.of_nat i) sds = map Z.of_nat (seq i (length sds)).
Proof.
  induction sds as [|sd r IH]; intros Hn i; simpl; [reflexivity|].
  rewrite (Hn sd (or_introl eq_refl)). simpl. f_equal.
  replace (Z.of_nat i + 1)%Z with (Z.of_nat (S i)) by lia.
  apply IH. intros x Hx. apply Hn. now right.
Qed.

End PlanFacts.

Import JsString Store Queries System Shape Surface PlanActions Components.

(** X17.  Pressing "Make the Plan" on an idle button, for any message
    text, either component, any session and any store, [p] being the plan
    the component extracts.  On success the button is marked created and
    the store holds one more goal, of the signed-in user, with exactly the
    extracted title and description, and after the former steps exactly
    the extracted steps: the same titles in the same sequence, numbered
    0, 1, ..., at least one, none completed; trimming by the action
    changes nothing of what the extractor returns.  Otherwise an error
    toast is shown, the button stays as it was and the store is unchanged;
    the error is never that a step is missing, nor a [TypeError]. *)
Theorem makeThePlan_stores_the_plan (E : Env) (session : option Id)
  (filtering : bool) (chatId messageId : Id) (messageText : string) (d : DB)
  (p : Plan) :
  extractorOf filtering messageText = Some p ->
  match handleCreateGoal E session (extractorOf filtering)
          (mkButtonState false false) chatId messageId messageText
          (mkWorld d 0 0) with
  | ((st, Succeeded), w') =>
      st = mkButtonState false true /\
      exists g created,
        goalTable (db w') = goalTable d ++ [g] /\
        stepTable (db w') = stepTable d ++ created /\
        session = Some (g_userId g) /\ g_chatId g = chatId /\
        g_createdFromMessageId g = Some messageId /\
        g_title g = goalTitle p /\ g_description g = description p /\
        map s_title created = map title (steps p) /\
        map s_order created = map Z.of_nat (seq 0 (length (steps p))) /\
        created <> [] /\
        forall s, In s created ->
          s_goalId s = g_id g /\ s_isCompleted s = false /\
          s_completedAt s = None
  | ((st, ErrorToast t), w') =>
      st = mkButtonState false false /\ db w' = d /\
      t <> OfThrown (Known (ChatSDKError bad_request_goal
                              "At least one step is required")) /\
      t <> OfTypeError
  | ((_, Ignored), _) => False
  end.
Proof.
  intros X. unfold handleCreateGoal. simpl. rewrite X.
  destruct (CaptureFacts.extractor_titles _ _ X) as (Ht & Hg & Hdsc).
  assert (Hne : steps p <> []).
  { destruct filtering; simpl in X.
    - rewrite ExtractFacts.filtered_result in X. injection X as <-.
      apply ExtractFacts.mkResult_steps.
    - rewrite ExtractFacts.fallback_result in X. injection X as <-.
      apply ExtractFacts.mkResult_steps. }
  set (sent := map (fun s => mkStepInput (title s) None) (steps p)).
  destruct (createGoalFromPlan E session chatId messageId (goalTitle p)
              (description p) sent (mkWorld d 0 0)) as [[t|[g created]] w']
    eqn:R.
  - apply ActionFacts.createGoalFromPlan_inl in R. destruct R as (Hd & Hcase).
    split; [reflexivity|]. split; [exact Hd|]. split; [|discriminate].
    intros [= ->].
    destruct Hcase as [[H _]|[H|[H|[H|[[H _]|[[_ H]|(m & H)]]]]]];
      try discriminate H.
    unfold sent in H. apply map_eq_nil in H. contradiction.
  - apply ActionFacts.createGoalFromPlan_inr in R.
    destruct R as (user & c & w1 & Hs & Hin & Hid & Hu & Hb & _ & Hd & Hn & C).
    simpl in Hd. apply IngestFacts.createGoalWithSteps_inr in C.
    destruct C as (Hgoal & Hc & Hd'). rewrite Hd in Hd'.
    split; [reflexivity|]. exists g, created.
    assert (Tg : trimmed (goalTitle p) = goalTitle p)
      by (apply PlanFacts.trimmed_fixed, Hg).
    assert (Td : option_map trimmed (description p) = description p).
    { destruct (description p) as [dsc|] eqn:D; [|reflexivity]. simpl.
      f_equal. apply PlanFacts.trimmed_fixed. now apply Hdsc. }
    assert (Ts : map (fun step => mkStepInput (trimmed (si_title step))
                                               (si_order step)) sent = sent).
    { unfold sent. rewrite map_map. apply map_ext_in. intros s Hin'. simpl.
      f_equal. apply PlanFacts.trimmed_fixed. apply (Ht s Hin'). }
    rewrite Ts in Hc. rewrite Tg, Td in Hgoal.
    assert (Ls : length sent = length (steps p))
      by (unfold sent; apply length_map).
    assert (Hnone : forall sd, In sd sent -> si_order sd = None).
    { intros sd Hsd. unfold sent in Hsd. apply in_map_iff in Hsd.
      now destruct Hsd as (s & <- & _). }
    change 0%Z with (Z.of_nat 0) in Hc.
    rewrite (PlanFacts.indexOrders_positions sent Hnone 0) in Hc.
    destruct (@PlanFacts.stepsToInsert_columns (g_id g) (now E)
                (map (uuid E) (seq (S (drawn w1)) (length sent))) sent
                (map Z.of_nat (seq 0 (length sent))))
      as [Ctitle Corder].
    { now rewrite length_map, length_seq. }
    { now rewrite length_map, length_seq. }
    rewrite Hd'. simpl. split; [reflexivity|]. split; [reflexivity|].
    rewrite Hgoal at 1 2 3 4 5. simpl.
    split; [now subst user|]. repeat (split; [reflexivity|]).
    rewrite Hc. split; [|split; [|split]].
    + rewrite Ctitle. unfold sent. rewrite map_map. reflexivity.
    + rewrite Corder, Ls. reflexivity.
    + intros Hnil. apply (f_equal (map s_title)) in Hnil.
      rewrite Ctitle in Hnil. unfold sent in Hnil. rewrite map_map in Hnil.
      apply map_eq_nil in Hnil. contradiction.
    + apply PlanFacts.stepsToInsert_rows.
Qed.

Lemma makeThePlan_stores_the_plan_witness :
  map (fun s => (s_title s, s_order s))
    (stepTable
       (db (snd (handleCreateGoal Cases.env0 (Some 7%N) (extractorOf true)
                   (mkButtonState false false) 1%N 50%N Cases.guitarText
                   (mkWorld Cases.start 0 0)))))
  = [("Buy a guitar"%string, 0%Z); ("Practice daily"%string, 1%Z)].
Proof.
  assert (X : extractorOf true Cases.guitarText =
              Some (mkPlan "Learn guitar" None
                      [mkPlanStep "Buy a guitar"; mkPlanStep "Practice daily"]))
    by (vm_compute; reflexivity).
  pose proof (@makeThePlan_stores_the_plan Cases.env0 (Some 7%N) true 1%N
                50%N Cases.guitarText Cases.start _ X) as T.
  destruct (handleCreateGoal Cases.env0 (Some 7%N) (extractorOf true)
              (mkButtonState false false) 1%N 50%N Cases.guitarText
              (mkWorld Cases.start 0 0)) as [[st [|t|]] w'] eqn:R.
  - destruct T as (_ & g & created & _ & Hs & _ & _ & _ & _ & _ & Ht & Ho & _).
    simpl. rewrite Hs. simpl.
    assert (L : forall l : list Step,
              map (fun s => (s_title s, s_order s)) l =
              combine (map s_title l) (map s_order l)).
    { induction l as [|a l IH]; simpl; [reflexivity|now rewrite IH]. }
    rewrite L, Ht, Ho. reflexivity.
  - vm_compute in R. discriminate R.
  - destruct T.
Defined.

(* ================================================================== *)
(** * Part XXIX.  The progress shown                                   *)
(* ================================================================== *)

Module ProgressFacts.
Import Store Queries System Shape JsNumber.

Lemma numberEqb_refl (x : number) : numberEqb x x = true.
Proof.
  destruct x as [a|a| |a m e]; simpl; try reflexivity.
  - apply Bool.eqb_reflx.
  - apply Bool.eqb_reflx.
  - now rewrite Bool.eqb_reflx, Pos.eqb_refl, Z.eqb_refl.
Qed.

Lemma numberEqb_iff (x y : number) : numberEqb x y = true <-> x = y.
Proof.
  split; [apply ReadFacts.numberEqb_eq|intros ->; apply numberEqb_refl].
Qed.

Lemma endsMeet_below_200 :
  forallb (fun t => forallb (fun c => endsMeet c t) (seq 0 (S t))) (seq 1 199)
  = true.
Proof. vm_compute. reflexivity. Qed.

Lemma endsMeet_small (c t : nat) :
  0 < t < 200 -> c <= t ->
  (percentageOf c t = ofZ 100 <-> c = t) /\
  (percentageOf c t = ofZ 0 <-> c = 0).
Proof.
  intros Ht Hc.
  assert (Ht' : In t (seq 1 199)) by (apply in_seq; lia).
  assert (Hc' : In c (seq 0 (S t))) by (apply in_seq; lia).
  pose proof (proj1 (forallb_forall _ _) endsMeet_below_200 t Ht') as H1.
  pose proof (proj1 (forallb_forall _ _) H1 c Hc') as H.
  unfold endsMeet in H. cbv zeta in H. apply andb_true_iff in H. destruct H as [A B].
  apply Bool.eqb_prop in A, B.
  rewrite <- !numberEqb_iff, A, B. split; apply Nat.eqb_eq.
Qed.

Lemma filter_length_all (A : Type) (p : A -> bool) (l : list A) :
  length (filter p l) = length l <-> forall a, In a l -> p a = true.
Proof.
  induction l as [|a l IH]; simpl; [tauto|].
  pose proof (filter_length_le p l) as Le.
  destruct (p a) eqn:Pa; simpl.
  - split.
    + intros [= H] b [<-|Hb]; [exact Pa|]. now apply IH.
    + intros H. f_equal. apply IH. intros b Hb. apply H. now right.
  - split; [lia|]. intros H. specialize (H a (or_introl eq_refl)).
    congruence.
Qed.

Lemma filter_length_none (A : Type) (p : A -> bool) (l : list A) :
  length (filter p l) = 0 <-> forall a, In a l -> p a = false.
Proof.
  induction l as [|a l IH]; simpl; [tauto|].
  destruct (p a) eqn:Pa; simpl.
  - split; [discriminate|]. intros H. specialize (H a (or_introl eq_refl)).
    congruence.
  - rewrite IH. split.
    + intros H b [<-|Hb]; [exact Pa|]. now apply H.
    + intros H b Hb. apply H. now right.
Qed.

End ProgressFacts.

Import Store Queries System Shape JsNumber Components.

(** X18.  The progress [GoalCard] and [GoalViewer] display (the
    expression of [getGoalProgress]), for a goal with at least one and
    fewer than 200 steps: it is 100 exactly when every step is completed,
    and 0 exactly when none is.  The bound is sharp: 199 completed steps
    of 200 already display 100 ([progress_full_one_step_early]). *)
Theorem progress_full_only_when_done (goalSteps : list Step) :
  0 < length goalSteps < 200 ->
  (progress goalSteps = ofZ 100 <->
   forall s, In s goalSteps -> s_isCompleted s = true) /\
  (progress goalSteps = ofZ 0 <->
   forall s, In s goalSteps -> s_isCompleted s = false).
Proof.
  intros Hl. unfold progress.
  destruct (@ProgressFacts.endsMeet_small
              (length (filter s_isCompleted goalSteps)) (length goalSteps)
              Hl (filter_length_le _ _)) as [A B].
  rewrite A, B. split.
  - apply ProgressFacts.filter_length_all.
  - apply ProgressFacts.filter_length_none.
Qed.

Lemma progress_full_only_when_done_witness :
  progress (stepTable Cases.toggled) <> ofZ 100 /\
  progress (stepTable Cases.toggled) <> ofZ 0.
Proof.
  assert (L : 0 < length (stepTable Cases.toggled) < 200)
    by (vm_compute; split; repeat constructor).
  destruct (progress_full_only_when_done (stepTable Cases.toggled) L)
    as [A B].
  split.
  - intros H. apply (proj1 A) with
      (s := mkStep 101%N 100%N "Buy a guitar" false 0%Z None 1000%Z) in H;
      [discriminate H|vm_compute; tauto].
  - intros H. apply (proj1 B) with
      (s := mkStep 102%N 100%N "Practice daily" true 1%Z (Some 2000%Z) 1000%Z)
      in H; [discriminate H|vm_compute; tauto].
Defined.

(** With 200 steps the bar is full one step early: 199 of 200 give 100,
    the product being exactly 99.5. *)
Lemma progress_full_one_step_early : percentageOf 199 200 = ofZ 100.
Proof. vm_compute. reflexivity. Qed.

(* ================================================================== *)
(** * Part XXX.  Goal lists and the routes                             *)
(* ================================================================== *)

Module RouteFacts.
Import Store Queries System StoreFacts Shape Listing Surface Routes.
Import AtomicFacts.

Lemma catch_inr (A : Type) (m : M A) (h : Exn -> M A) (w w' : World) (a : A) :
  (forall e w1 w2 b, h e w1 = (inr b, w2) -> False) ->
  catch m h w = (inr a, w') -> m w = (inr a, w').
Proof.
  intros Hh. unfold catch. destruct (m w) as [[e|a1] w1]; [|tauto].
  intros H. exfalso. eapply Hh; eauto.
Qed.

Lemma wrapAll_throws (A : Type) (msg : string) (e : Exn) (w1 w2 : World)
  (b : A) : wrapAll msg e w1 = (inr b, w2) -> False.
Proof. discriminate. Qed.

Lemma getGoalById_inr (E : Env) (i : Id) (w w' : World) (r : option Goal) :
  getGoalById E i w = (inr r, w') ->
  r = find (goalHasId i) (goalTable (db w)) /\ db w' = db w.
Proof.
  unfold getGoalById. intros H.
  apply catch_inr in H; [|intros e w1 w2 b; apply wrapAll_throws].
  apply statement_inr in H. destruct H as (H & _).
  unfold q_goalById in H. now injection H as <- <-.
Qed.

Lemma getStepsByGoalId_inr (E : Env) (g : Id) (w w' : World)
  (r : list Step) :
  getStepsByGoalId E g w = (inr r, w') ->
  r = orderBy E (rowsOfGoal g (db w)) /\ db w' = db w.
Proof.
  unfold getStepsByGoalId. intros H.
  apply catch_inr in H; [|intros e w1 w2 b; apply wrapAll_throws].
  apply statement_inr in H. destruct H as (H & _).
  unfold q_stepsOfGoal in H. now injection H as <- <-.
Qed.

Lemma getGoalByIdWithSteps_inr (E : Env) (i : Id) (w w' : World)
  (r : option (Goal * list Step)) :
  getGoalByIdWithSteps E i w = (inr r, w') ->
  r = match find (goalHasId i) (goalTable (db w)) with
      | None => None
      | Some g => Some (g, orderBy E (rowsOfGoal (g_id g) (db w)))
      end /\ db w' = db w.
Proof.
  unfold getGoalByIdWithSteps. intros H.
  apply catch_inr in H; [|intros e w1 w2 b; apply wrapAll_throws].
  apply bind_inr in H. destruct H as (found & w1 & G & H).
  apply getGoalById_inr in G. destruct G as (-> & Hd).
  destruct (find (goalHasId i) (goalTable (db w))) as [g|].
  - apply bind_inr in H. destruct H as (steps & w2 & S & H).
    apply getStepsByGoalId_inr in S. destruct S as (-> & Hd2).
    unfold ret in H. injection H as <- <-. rewrite Hd. split; congruence.
  - unfold ret in H. injection H as <- <-. now split.
Qed.

Lemma getGoalsWhere_inr (E : Env) (sort : list Goal -> list Goal)
  (cond : Goal -> bool) (h : Exn -> M (list Goal)) (w w' : World)
  (r : list Goal) :
  (forall e w1 w2 b, h e w1 = (inr b, w2) -> False) ->
  catch (statement E (q_goalsWhere sort cond)) h w = (inr r, w') ->
  r = sort (filter cond (goalTable (db w))) /\ db w' = db w.
Proof.
  intros Hh H. apply catch_inr in H; [|exact Hh].
  apply statement_inr in H. destruct H as (H & _).
  unfold q_goalsWhere in H. now injection H as <- <-.
Qed.

Lemma readsOnly_getStepsByGoalId (E : Env) (g : Id) :
  readsOnly (getStepsByGoalId E g).
Proof.
  unfold getStepsByGoalId, q_stepsOfGoal. apply readsOnly_catch.
  - apply readsOnly_read.
  - intros e. apply readsOnly_handler.
Qed.

Lemma readsOnly_getGoalByIdWithSteps (E : Env) (i : Id) :
  readsOnly (getGoalByIdWithSteps E i).
Proof.
  unfold getGoalByIdWithSteps. apply readsOnly_catch.
  - apply readsOnly_bind; [apply readsOnly_getGoalById|].
    intros [g|]; [|apply readsOnly_ret].
    apply readsOnly_bind; [apply readsOnly_getStepsByGoalId|].
    intros steps. apply readsOnly_ret.
  - intros e. apply readsOnly_handler.
Qed.

Lemma readsOnly_getGoalsByChatId (E : Env) (sort : list Goal -> list Goal)
  (c : Id) : readsOnly (getGoalsByChatId E sort c).
Proof.
  unfold getGoalsByChatId, q_goalsWhere. apply readsOnly_catch.
  - apply readsOnly_read.
  - intros e. apply readsOnly_throw.
Qed.

Lemma readsOnly_toResponse (A : Type) (msg : string) (e : Exn) :
  readsOnly (@toResponse A msg e).
Proof. destruct e; apply readsOnly_ret. Qed.

Lemma toResponse_returns (A : Type) (msg : string) (e : Exn) (w w' : World)
  (x : Exn) : @toResponse A msg e w = (inl x, w') -> False.
Proof. destruct e; discriminate. Qed.

Lemma toResponse_refuses (A : Type) (msg : string) (e : Exn) (w w' : World)
  (body : A) : @toResponse A msg e w = (inr (Json body), w') -> False.
Proof. destruct e; discriminate. Qed.

(** A handler that answers with [toResponse] whatever is thrown never
    throws, and its body is what answered when the answer is a body. *)
Lemma answered (A : Type) (m : M (Response A)) (msg : string) (w w' : World) :
  (forall e, catch m (toResponse msg) w = (inl e, w') -> False) /\
  (forall body, catch m (toResponse msg) w = (inr (Json body), w') ->
                m w = (inr (Json body), w')).
Proof.
  unfold catch. destruct (m w) as [[e1|a] w1]; split.
  - intros e. apply toResponse_returns.
  - intros body H. now apply toResponse_refuses in H.
  - discriminate.
  - tauto.
Qed.

Lemma readsOnly_GET (E : Env) (sortGoals : list Goal -> list Goal)
  (session : option Id) (id chatId : option Id) (withSteps : bool) :
  readsOnly (GET E sortGoals session id chatId withSteps).
Proof.
  unfold GET. destruct session as [user|]; [|apply readsOnly_ret].
  apply readsOnly_catch; [|intros e; apply readsOnly_toResponse].
  destruct id as [i|].
  - apply readsOnly_bind.
    + destruct withSteps.
      * apply readsOnly_bind; [apply readsOnly_getGoalByIdWithSteps|].
        intros f. apply readsOnly_ret.
      * apply readsOnly_bind; [apply readsOnly_getGoalById|].
        intros f. apply readsOnly_ret.
    + intros [b|]; [|apply readsOnly_ret].
      destruct (negb _); apply readsOnly_ret.
  - destruct chatId as [c|]; [|apply readsOnly_ret].
    apply readsOnly_bind; [apply readsOnly_getGoalsByChatId|].
    intros gs. apply readsOnly_ret.
Qed.

Lemma find_goal_In (i : Id) (l : list Goal) (g : Goal) :
  find (goalHasId i) l = Some g -> In g l /\ g_id g = i.
Proof.
  intros H. apply find_some in H. destruct H as [A B].
  split; [exact A|]. now apply N.eqb_eq.
Qed.

End RouteFacts.

Import Store Queries System Shape Listing Surface Routes.

(** X19.  The GET handler of the goal route never throws and never
    writes.  It answers with a body only to a signed-in user: with a goal
    (with its steps in ascending order when [withSteps] is set) only when
    the id names a goal of the store whose user is the one signed in; with
    the goals of a chat, newest first as the store sorts them, when no id
    is given, whoever the chat and its goals belong to.  Without a session
    it refuses as unauthorized. *)
Theorem GET_goal_answers (E : Env) (sortGoals : list Goal -> list Goal)
  (session : option Id) (id chatId : option Id) (withSteps : bool) (d : DB) :
  match call (GET E sortGoals session id chatId withSteps) d with
  | (inr (Json body), d') =>
      d' = d /\
      exists user, session = Some user /\
      match body with
      | OneGoal g =>
          id = Some (g_id g) /\ withSteps = false /\
          In g (goalTable d) /\ g_userId g = user
      | OneGoalWithSteps g steps =>
          id = Some (g_id g) /\ withSteps = true /\
          In g (goalTable d) /\ g_userId g = user /\
          steps = orderBy E (rowsOfGoal (g_id g) d)
      | Goals goals =>
          id = None /\
          exists c, chatId = Some c /\
                    goals = sortGoals (filter (goalOfChat c) (goalTable d))
      end
  | (inr (Refused code _), d') =>
      d' = d /\ (session = None -> code = Of unauthorized_chat)
  | (inl _, _) => False
  end.
Proof.
  unfold call.
  destruct (GET E sortGoals session id chatId withSteps (mkWorld d 0 0))
    as [[e|resp] w'] eqn:R.
  - unfold GET in R. destruct session as [user|]; [|discriminate R].
    now apply RouteFacts.answered in R.
  - pose proof (@RouteFacts.readsOnly_GET E sortGoals session id chatId
                  withSteps _ _ _ R) as Hd.
    simpl in Hd. destruct resp as [body|code cause].
    2:{ split; [exact Hd|]. intros ->. now injection R as <- _. }
    split; [exact Hd|]. unfold GET in R.
    destruct session as [user|]; [|discriminate R].
    exists user. split; [reflexivity|].
    apply RouteFacts.answered in R.
    destruct id as [i|].
    + apply StoreFacts.bind_inr in R. destruct R as (goal & w1 & G & R).
      assert (Hg : exists w0, db w0 = d /\
                match goal with
                | Some (inl g) =>
                    withSteps = false /\
                    find (goalHasId i) (goalTable d) = Some g
                | Some (inr (g, steps)) =>
                    withSteps = true /\
                    find (goalHasId i) (goalTable d) = Some g /\
                    steps = orderBy E (rowsOfGoal (g_id g) d)
                | None => True
                end).
      { exists (mkWorld d 0 0). split; [reflexivity|].
        destruct withSteps.
        - apply StoreFacts.bind_inr in G. destruct G as (f & w2 & G & G').
          apply RouteFacts.getGoalByIdWithSteps_inr in G. simpl in G.
          destruct G as (-> & _). unfold ret in G'. injection G' as <- _.
          destruct (find (goalHasId i) (goalTable d)) as [g|]; simpl;
            [now repeat split|exact I].
        - apply StoreFacts.bind_inr in G. destruct G as (f & w2 & G & G').
          apply RouteFacts.getGoalById_inr in G. simpl in G.
          destruct G as (-> & _). unfold ret in G'. injection G' as <- _.
          destruct (find (goalHasId i) (goalTable d)) as [g|]; simpl;
            [now split|exact I]. }
      destruct Hg as (_ & _ & Hg).
      destruct goal as [b|]; [|discriminate R].
      destruct (N.eqb (ownerOf b) user) eqn:O; simpl in R; [|discriminate R].
      apply N.eqb_eq in O. unfold ret in R. injection R as <- _.
      destruct b as [g|[g steps]]; simpl in *.
      * destruct Hg as (-> & F). apply RouteFacts.find_goal_In in F.
        destruct F as [F1 F2]. now subst i.
      * destruct Hg as (-> & F & ->). apply RouteFacts.find_goal_In in F.
        destruct F as [F1 F2]. now subst i.
    + destruct chatId as [c|]; [|discriminate R].
      apply StoreFacts.bind_inr in R. destruct R as (goals & w1 & G & R).
      unfold getGoalsByChatId in G.
      apply RouteFacts.getGoalsWhere_inr in G; [|discriminate].
      destruct G as (-> & _). unfold ret in R. injection R as <- _.
      split; [reflexivity|]. exists c. now split.
Qed.

(** [GET] at work: the owner reads a goal with its steps; another user
    is refused; anyone signed in reads the list of the chat. *)
Lemma GET_goal_example :
  (exists steps,
     call (GET Cases.env1 newestFirst (Some 7%N) (Some 100%N) None true)
          Cases.planned
     = (inr (Json (OneGoalWithSteps
                     (mkGoal 100%N 1%N 7%N (Some 50%N) "Learn guitar" None
                        "not_started" "medium" None 1000%Z) steps)),
        Cases.planned) /\
     map s_title steps =
       ["Buy a guitar"; "Practice daily"; "Play a song"]%string) /\
  call (GET Cases.env1 newestFirst (Some 8%N) (Some 100%N) None true)
       Cases.planned
  = (inr (Refused (Only forbidden_goal) None), Cases.planned) /\
  call (GET Cases.env1 newestFirst (Some 8%N) None (Some 1%N) false)
       Cases.planned
  = (inr (Json (Goals [mkGoal 100%N 1%N 7%N (Some 50%N) "Learn guitar" None
                         "not_started" "medium" None 1000%Z])),
     Cases.planned).
Proof.
  split; [|split; vm_compute; reflexivity].
  eexists. split; [vm_compute; reflexivity|reflexivity].
Qed.

(** X20.  The DELETE handler of the step route never throws.  Without an
    id it refuses with "Parameter id is required", signed in or not;
    with an id and no session it refuses as unauthorized; both leave the
    store as it is.  It answers success only with an id and a session and
    when [deleteStep] has returned, the store being the one [deleteStep]
    leaves; with an id and a session it otherwise refuses with the
    database error "Failed to delete step", store unchanged.  Whose step
    it is plays no part. *)
Theorem DELETE_step_answers (E : Env) (session : option Id) (id : option Id)
  (d : DB) :
  match call (DELETE E session id) d with
  | (inr (Json ack), d') =>
      Actions.success ack = true /\
      exists user i r,
        session = Some user /\ id = Some i /\
        call (deleteStep E i) d = (inr r, d')
  | (inr (Refused code cause), d') =>
      d' = d /\
      match id, session with
      | None, _ =>
          code = Only bad_request_api /\
          cause = Some "Parameter id is required"%string
      | Some _, None => code = Of unauthorized_chat /\ cause = None
      | Some _, Some _ =>
          code = Of bad_request_database /\
          cause = Some "Failed to delete step"%string
      end
  | (inl _, _) => False
  end.
Proof.
  unfold call, DELETE. destruct id as [i|]; [|simpl; now repeat split].
  destruct session as [user|]; [|simpl; now repeat split].
  unfold catch, bind.
  destruct (deleteStep E i (mkWorld d 0 0)) as [[e|r] w'] eqn:R.
  - apply DeleteFacts.deleteStep_inl in R. destruct R as (Hd & ->).
    simpl. now repeat split.
  - simpl. split; [reflexivity|]. exists user, i, r. now rewrite R.
Qed.

Module ListingFacts.
Import Store Queries System StoreFacts Shape Listing.




End ListingFacts.



(* ================================================================== *)
(** * Part XXXI.  Creating and updating one row                        *)
(* ================================================================== *)

Module WriteFacts.
Import Store Queries System StoreFacts Shape KeyFacts.

Lemma q_insertGoal_run (row : Goal) (d : DB) :
  goalTextOk row = true ->
  ~ In (g_id row) (map g_id (goalTable d)) ->
  In (g_chatId row) (map c_id (chatTable d)) ->
  In (g_userId row) (userTable d) ->
  (forall m, g_createdFromMessageId row = Some m -> In m (messageTable d)) ->
  q_insertGoal row d = (inr row, withGoals d (goalTable d ++ [row])).
Proof.
  intros Ht Hi Hc Hu Hm. unfold q_insertGoal.
  apply hasKey_notIn in Hi. apply hasKey_In in Hc. apply hasKey_In in Hu.
  rewrite Ht, Hi, Hc, Hu. simpl.
  destruct (g_createdFromMessageId row) as [m|]; [|reflexivity].
  specialize (Hm m eq_refl). apply hasKey_In in Hm. now rewrite Hm.
Qed.

Lemma q_insertGoal_foreign (row : Goal) (d : DB) :
  ~ In (g_chatId row) (map c_id (chatTable d)) \/
  ~ In (g_userId row) (userTable d) \/
  (exists m, g_createdFromMessageId row = Some m /\
             ~ In m (messageTable d)) ->
  exists msg, q_insertGoal row d = (inl msg, d).
Proof.
  intros H. unfold q_insertGoal.
  destruct (negb (goalTextOk row)); [eauto|].
  destruct (hasKey (g_id row) (map g_id (goalTable d))); [eauto|].
  destruct (hasKey (g_chatId row) (map c_id (chatTable d))) eqn:Hc; simpl;
    [|eauto].
  destruct (hasKey (g_userId row) (userTable d)) eqn:Hu; simpl; [|eauto].
  destruct H as [H|[H|(m & Hm & H)]].
  - apply hasKey_notIn in H. congruence.
  - apply hasKey_notIn in H. congruence.
  - rewrite Hm. apply hasKey_notIn in H. rewrite H. simpl. eauto.
Qed.

(** The allowed values of the status and of the priority hold no code
    unit 0. *)
Lemma allowed_status (status : option string) :
  invalidChoice statuses status = false ->
  someHasNul status = false /\
  hasNul (orElse status "not_started"%string) = false.
Proof.
  destruct status as [v|]; simpl; [|now split].
  rewrite negb_false_iff, !orb_true_iff. rewrite !String.eqb_eq.
  intros [->|[->|[->|H]]]; try discriminate H; now split.
Qed.

Lemma allowed_priority (priority : option string) :
  invalidChoice priorities priority = false ->
  someHasNul priority = false /\
  hasNul (orElse priority "medium"%string) = false.
Proof.
  destruct priority as [v|]; simpl; [|now split].
  rewrite negb_false_iff, !orb_true_iff. rewrite !String.eqb_eq.
  intros [->|[->|[->|H]]]; try discriminate H; now split.
Qed.

Lemma patched_goal (i : Id) (f : Goal -> Goal) (l : list Goal) (x : Goal) :
  NoDup (map g_id l) -> find (goalHasId i) l = Some x ->
  map (fun g => if goalHasId i g then f g else g) l =
  map (fun g => if goalHasId i g then f x else g) l.
Proof.
  intros ND F. apply find_some in F. destruct F as [Hx Hi].
  apply N.eqb_eq in Hi. apply map_ext_in. intros g Hg.
  destruct (goalHasId i g) eqn:G; [|reflexivity]. apply N.eqb_eq in G.
  f_equal. clear f. revert ND Hx Hg.
  induction l as [|h l IH]; simpl; [intros _ []|].
  intros ND. inversion ND as [|? ? Hn Hd]; subst.
  intros [->|Hx] [->|Hg]; trivial.
  - exfalso. apply Hn. apply in_map_iff. exists g. split; [congruence|exact Hg].
  - exfalso. apply Hn. apply in_map_iff. exists x. split; [congruence|exact Hx].
  - now apply IH.
Qed.

End WriteFacts.

Import Store Queries System Shape.

(** X22.  [createGoal] on a store that does not fail, for a title that is
    not blank and a status and a priority that are absent or allowed.
    When the chat id or the user id is no uuid, the call throws the
    database error "Failed to create goal" and the store is unchanged.
    When both are uuids: if the chat, the user and the message (if one is
    given) are in the store, the id drawn is new, and neither the title
    nor the description holds the code unit 0, the call returns the
    created goal and the store gains exactly that goal, after the former
    ones: it has the title as given (not trimmed), the given description
    and deadline or null, the status "not_started" and the priority
    "medium" unless supplied; whoever the chat belongs to.  If the title
    or the description holds the code unit 0, or the chat, the user or
    the message is not in the store, the call throws the database error
    "Failed to create goal" and the store is unchanged: [createGoal]
    looks none of them up itself. *)
Theorem createGoal_outcomes (E : Env) (d : DB) (chatId userId : Key)
  (title : string) (description : option string)
  (status priority : option string) (deadline : option Time)
  (createdFromMessageId : option Id) :
  fault E = None ->
  blank title = false ->
  invalidChoice statuses status = false ->
  invalidChoice priorities priority = false ->
  let result :=
    call (createGoal E chatId userId title description status priority
            deadline createdFromMessageId) d in
  let refused :=
    (inl (ChatSDKError bad_request_database "Failed to create goal"), d) in
  match chatId, userId with
  | Uuid chat, Uuid user =>
      let createdGoal :=
        mkGoal (uuid E 0) chat user createdFromMessageId title description
          (orElse status "not_started"%string)
          (orElse priority "medium"%string) deadline (now E) in
      (hasNul title = false -> someHasNul description = false ->
       ~ In (uuid E 0) (map g_id (goalTable d)) ->
       In chat (map c_id (chatTable d)) ->
       In user (userTable d) ->
       (forall m, createdFromMessageId = Some m -> In m (messageTable d)) ->
       result
       = (inr createdGoal, withGoals d (goalTable d ++ [createdGoal]))) /\
      (hasNul title = true \/ someHasNul description = true ->
       result = refused) /\
      (~ In chat (map c_id (chatTable d)) \/
       ~ In user (userTable d) \/
       (exists m, createdFromMessageId = Some m /\ ~ In m (messageTable d)) ->
       result = refused)
  | _, _ => result = refused
  end.
Proof.
  intros F B S P result refused. subst result refused.
  unfold call, createGoal, catch. rewrite B, S, P.
  unfold bind, freshId. simpl.
  rewrite (StoreFacts.statement_ok _ _ _ F). simpl db.
  destruct chatId as [chat|ct], userId as [user|ut]; try reflexivity.
  unfold byKey.
  set (createdGoal :=
         mkGoal (uuid E 0) chat user createdFromMessageId title description
           (orElse status "not_started"%string)
           (orElse priority "medium"%string) deadline (now E)).
  destruct (WriteFacts.allowed_status status S) as [_ Hs].
  destruct (WriteFacts.allowed_priority priority P) as [_ Hp].
  split; [|split].
  - intros Ht Hd Hi Hc Hu Hm.
    assert (Ok : goalTextOk createdGoal = true).
    { unfold goalTextOk, createdGoal. simpl. now rewrite Ht, Hd, Hs, Hp. }
    now rewrite (@WriteFacts.q_insertGoal_run createdGoal d Ok Hi Hc Hu Hm).
  - intros H.
    assert (Bad : goalTextOk createdGoal = false).
    { unfold goalTextOk, createdGoal. simpl.
      destruct H as [H|H]; rewrite H; [reflexivity|].
      now rewrite orb_true_r. }
    unfold q_insertGoal. now rewrite Bad.
  - intros H.
    destruct (@WriteFacts.q_insertGoal_foreign createdGoal d H) as (msg & Q).
    now rewrite Q.
Qed.

Lemma createGoal_outcomes_witness :
  call (createGoal Cases.env1 1%N 7%N "  Run a marathon " None None
          (Some "high"%string) None None) Cases.planned
  = (inr (mkGoal 200%N 1%N 7%N None "  Run a marathon " None "not_started"
            "high" None 2000%Z),
     withGoals Cases.planned
       (goalTable Cases.planned ++
        [mkGoal 200%N 1%N 7%N None "  Run a marathon " None "not_started"
           "high" None 2000%Z])) /\
  call (createGoal Cases.env1 2%N 7%N "Run a marathon" None None None None
          None) Cases.planned
  = (inl (ChatSDKError bad_request_database "Failed to create goal"),
     Cases.planned) /\
  call (createGoal Cases.env1 Cases.notAUuid 7%N "Run a marathon" None None
          None None None) Cases.planned
  = (inl (ChatSDKError bad_request_database "Failed to create goal"),
     Cases.planned).
Proof.
  split; [|split].
  - refine (proj1 (@createGoal_outcomes Cases.env1 Cases.planned (Uuid 1%N)
                     (Uuid 7%N) "  Run a marathon " None None
                     (Some "high"%string) None None
                     eq_refl eq_refl eq_refl eq_refl) eq_refl eq_refl _ _ _ _).
    + vm_compute. intuition discriminate.
    + vm_compute. tauto.
    + vm_compute. tauto.
    + discriminate.
  - refine (proj2 (proj2 (@createGoal_outcomes Cases.env1 Cases.planned
                     (Uuid 2%N) (Uuid 7%N)
                     "Run a marathon" None None None None
                     None eq_refl eq_refl eq_refl eq_refl)) _).
    left. vm_compute. intuition discriminate.
  - exact (@createGoal_outcomes Cases.env1 Cases.planned Cases.notAUuid
             (Uuid 7%N) "Run a marathon" None None None None None
             eq_refl eq_refl eq_refl eq_refl).
Defined.

(** X23.  [updateGoal] on a store that does not fail and whose goal ids
    are distinct.  For an id that is no uuid it throws the database error
    "Failed to get goal by id", the store refusing the select.  For a uuid
    that names no goal it throws the not-found error, whatever the other
    arguments.  For a goal that exists and arguments that pass the checks:
    when no field is supplied at all it throws the database error "Failed
    to update goal", the store refusing an update that assigns nothing,
    and so it does when the title or the description supplied holds the
    code unit 0; otherwise it returns and the store differs in that goal
    alone, which has each supplied field as given (the title not trimmed,
    a description or deadline of null clearing the column) and every other
    column, id, chat, user, message and creation time included, as before.
    The store is unchanged whenever it throws. *)
Theorem updateGoal_outcomes (E : Env) (d : DB) (id : Key)
  (title : option string) (description : option (option string))
  (status priority : option string) (deadline : option (option Time)) :
  fault E = None ->
  NoDup (map g_id (goalTable d)) ->
  let result :=
    call (updateGoal E id title description status priority deadline) d in
  match id with
  | Other _ =>
      result =
      (inl (ChatSDKError bad_request_database "Failed to get goal by id"), d)
  | Uuid i =>
      (find (goalHasId i) (goalTable d) = None ->
       result = (inl (ChatSDKError not_found_goal "Goal not found"), d)) /\
      (forall x, find (goalHasId i) (goalTable d) = Some x ->
       blankIfSupplied title = false ->
       invalidChoice statuses status = false ->
       invalidChoice priorities priority = false ->
       (title = None /\ description = None /\ status = None /\
        priority = None /\ deadline = None ->
        result =
        (inl (ChatSDKError bad_request_database "Failed to update goal"),
         d)) /\
       (~ (title = None /\ description = None /\ status = None /\
           priority = None /\ deadline = None) ->
        result =
        if someHasNul title || assignsNul description
        then (inl (ChatSDKError bad_request_database
                     "Failed to update goal"), d)
        else
          (inr tt,
           withGoals d
             (map (fun g =>
                     if goalHasId i g
                     then mkGoal (g_id x) (g_chatId x) (g_userId x)
                            (g_createdFromMessageId x)
                            (orElse title (g_title x))
                            (orElse description (g_description x))
                            (orElse status (g_status x))
                            (orElse priority (g_priority x))
                            (orElse deadline (g_deadline x))
                            (g_createdAt x)
                     else g)
                  (goalTable d)))))
  end.
Proof.
  intros F ND result. subst result.
  unfold call, updateGoal, catch, bind, getGoalById, catch.
  rewrite (StoreFacts.statement_ok _ _ _ F).
  destruct id as [i|text]; [|reflexivity].
  unfold byKey. simpl. split.
  - intros ->. reflexivity.
  - intros x Fx B S P. rewrite Fx, B, S, P.
    rewrite (StoreFacts.statement_ok _ _ _ F). simpl db. split.
    + intros (-> & -> & -> & -> & ->). reflexivity.
    + intros H. unfold q_updateGoal.
      destruct (goalPatchEmpty _) eqn:PE.
      { exfalso. apply H. unfold goalPatchEmpty in PE. simpl in PE.
        destruct title, description, status, priority, deadline;
          try discriminate PE. now repeat split. }
      destruct (WriteFacts.allowed_status status S) as [Hs _].
      destruct (WriteFacts.allowed_priority priority P) as [Hp _].
      unfold goalPatchTextOk. simpl gp_title. simpl gp_description.
      simpl gp_status. simpl gp_priority. rewrite Hs, Hp, !orb_false_r.
      assert (A : assignsNul description =
                  match description with
                  | Some o => someHasNul o
                  | None => false
                  end) by (now destruct description as [[?|]|]).
      rewrite <- A.
      destruct (someHasNul title || assignsNul description);
        [reflexivity|].
      simpl. do 2 f_equal.
      exact (@WriteFacts.patched_goal i
               (patchGoal (mkGoalPatch title description status priority
                             deadline))
               (goalTable d) x ND Fx).
Qed.

Lemma updateGoal_outcomes_witness :
  call (updateGoal Cases.env1 100%N None None None None None) Cases.planned
  = (inl (ChatSDKError bad_request_database "Failed to update goal"),
     Cases.planned) /\
  map (fun g => (g_title g, g_description g, g_status g))
    (goalTable
       (snd (call (updateGoal Cases.env1 100%N (Some " Learn bass "%string)
                     (Some None) (Some "completed"%string) None None)
               Cases.planned)))
  = [(" Learn bass "%string, None, "completed"%string)] /\
  call (updateGoal Cases.env1 Cases.notAUuid (Some "Learn bass"%string) None
          None None None) Cases.planned
  = (inl (ChatSDKError bad_request_database "Failed to get goal by id"),
     Cases.planned).
Proof.
  assert (ND : NoDup (map g_id (goalTable Cases.planned))).
  { vm_compute. repeat constructor. simpl. tauto. }
  split; [|split].
  - refine (proj1 (proj2 (@updateGoal_outcomes Cases.env1 Cases.planned
                            (Uuid 100%N) None None None None None eq_refl ND)
                     (mkGoal 100%N 1%N 7%N (Some 50%N) "Learn guitar" None
                        "not_started" "medium" None 1000%Z)
                     eq_refl eq_refl eq_refl eq_refl) _).
    now repeat split.
  - assert (S : ~ (Some " Learn bass "%string = None /\
                   Some (@None string) = None /\
                   Some "completed"%string = None /\
                   @None string = None /\ @None (option Time) = None))
      by (intros [H _]; discriminate H).
    pose proof (proj2 (proj2 (@updateGoal_outcomes Cases.env1 Cases.planned
                            (Uuid 100%N) (Some " Learn bass "%string)
                            (Some None)
                            (Some "completed"%string) None None eq_refl ND)
                     (mkGoal 100%N 1%N 7%N (Some 50%N) "Learn guitar" None
                        "not_started" "medium" None 1000%Z)
                     eq_refl eq_refl eq_refl eq_refl) S) as H.
    exact (f_equal
             (fun r => map (fun g => (g_title g, g_description g, g_status g))
                         (goalTable (snd r))) H).
  - exact (@updateGoal_outcomes Cases.env1 Cases.planned Cases.notAUuid
             (Some "Learn bass"%string) None None None None eq_refl ND).
Defined.

(** X24.  [updateStep] on a store that does not fail and whose step ids
    are distinct.  For an id that is no uuid it throws the database error
    "Failed to update step", the store refusing the select.  For a uuid
    that names no step it throws the not-found error.  For a step that
    exists and a title that is absent or not blank: when neither a title
    nor a completion is supplied it throws the database error "Failed to
    update step", and so it does when the title holds the code unit 0;
    otherwise it returns and the store differs in that step alone.  The
    step has the title as given when one is supplied (not trimmed); when a
    completion is supplied it has that completion and, as completion
    time, the time of the call for true (also when the step was completed
    already) and null for false; its id, goal, order and creation time are
    as before.  The store is unchanged whenever it throws. *)
Theorem updateStep_outcomes (E : Env) (d : DB) (id : Key)
  (title : option string) (isCompleted : option bool) :
  fault E = None ->
  NoDup (map s_id (stepTable d)) ->
  let result := call (updateStep E id title isCompleted) d in
  match id with
  | Other _ =>
      result =
      (inl (ChatSDKError bad_request_database "Failed to update step"), d)
  | Uuid i =>
      (find (stepHasId i) (stepTable d) = None ->
       result = (inl (ChatSDKError not_found_goal "Step not found"), d)) /\
      (forall x, find (stepHasId i) (stepTable d) = Some x ->
       blankIfSupplied title = false ->
       (title = None /\ isCompleted = None ->
        result =
        (inl (ChatSDKError bad_request_database "Failed to update step"),
         d)) /\
       (~ (title = None /\ isCompleted = None) ->
        result =
        if someHasNul title
        then (inl (ChatSDKError bad_request_database
                     "Failed to update step"), d)
        else
          (inr tt,
           withSteps d
             (replaced i
                (fun _ =>
                   mkStep (s_id x) (s_goalId x)
                     (orElse title (s_title x))
                     (orElse isCompleted (s_isCompleted x))
                     (s_order x)
                     (match isCompleted with
                      | Some true => Some (now E)
                      | Some false => None
                      | None => s_completedAt x
                      end)
                     (s_createdAt x))
                (stepTable d)))))
  end.
Proof.
  intros F ND result. subst result.
  destruct id as [i|text].
  2:{ unfold call, updateStep, catch, bind.
      rewrite (StoreFacts.statement_ok _ _ _ F). reflexivity. }
  rewrite (UpdateFacts.updateStep_run E i title isCompleted d F). split.
  - intros ->. reflexivity.
  - intros x Fx B. rewrite Fx, B. split.
    + intros (-> & ->). reflexivity.
    + intros H.
      assert (R : forall p,
        replaced i (patchStep p) (stepTable d) =
        replaced i (fun _ => patchStep p x) (stepTable d))
        by (intros p; apply (@UpdateFacts.replaced_row i _ _ x ND Fx)).
      destruct title as [t|], isCompleted as [[|]|];
        try (exfalso; apply H; now split);
        rewrite R; reflexivity.
Qed.

Lemma updateStep_outcomes_witness :
  call (updateStep Cases.env1 102%N None None) Cases.toggled
  = (inl (ChatSDKError bad_request_database "Failed to update step"),
     Cases.toggled) /\
  map (fun s => (s_isCompleted s, s_completedAt s))
    (stepTable
       (snd (call (updateStep Cases.env0 102%N None (Some true))
               Cases.toggled)))
  = [(false, None); (true, Some 1000%Z); (false, None)] /\
  call (updateStep Cases.env1 Cases.notAUuid (Some "Practice"%string) None)
       Cases.toggled
  = (inl (ChatSDKError bad_request_database "Failed to update step"),
     Cases.toggled).
Proof.
  assert (ND : NoDup (map s_id (stepTable Cases.toggled))).
  { vm_compute. repeat constructor; simpl; intuition discriminate. }
  split; [|split].
  - refine (proj1 (proj2 (@updateStep_outcomes Cases.env1 Cases.toggled
                            (Uuid 102%N) None None eq_refl ND)
                     (mkStep 102%N 100%N "Practice daily" true 1%Z
                        (Some 2000%Z) 1000%Z)
                     eq_refl eq_refl) _).
    now split.
  - assert (S : ~ (@None string = None /\ Some true = None))
      by (intros [_ H]; discriminate H).
    pose proof (proj2 (proj2 (@updateStep_outcomes Cases.env0 Cases.toggled
                            (Uuid 102%N) None (Some true) eq_refl ND)
                     (mkStep 102%N 100%N "Practice daily" true 1%Z
                        (Some 2000%Z) 1000%Z)
                     eq_refl eq_refl) S) as H.
    exact (f_equal
             (fun r => map (fun s => (s_isCompleted s, s_completedAt s))
                         (stepTable (snd r))) H).
  - exact (@updateStep_outcomes Cases.env1 Cases.toggled Cases.notAUuid
             (Some "Practice"%string) None eq_refl ND).
Defined.

(** Texts that hold the code unit 0 at work: the calls throw their
    database errors and write nothing. *)
Lemma refused_texts :
  call (createGoal Cases.env1 1%N 7%N (String (ascii_of_nat 0) "Run") None
          None None None None) Cases.planned
  = (inl (ChatSDKError bad_request_database "Failed to create goal"),
     Cases.planned) /\
  call (updateGoal Cases.env1 100%N (Some (String (ascii_of_nat 0) "Run"))
          None None None None) Cases.planned
  = (inl (ChatSDKError bad_request_database "Failed to update goal"),
     Cases.planned) /\
  call (updateStep Cases.env1 102%N (Some (String (ascii_of_nat 0) "Run"))
          None) Cases.planned
  = (inl (ChatSDKError bad_request_database "Failed to update step"),
     Cases.planned).
Proof.
  repeat split; vm_compute; reflexivity.
Qed.

(* ================================================================== *)
(** * Part XXXII.  When the plan button is shown                       *)
(* ================================================================== *)

Module ButtonFacts.
Import JsString JsRegExp RegExpFacts PlanText Shape CaptureFacts Components.

(** ** Where a search finds its match *)

Lemma execFrom_found (f : Flags) (r : Node) (s : list ascii) :
  forall i y, execFrom f r i s = Some y ->
  exists pre suf, s = pre ++ suf /\
                  In y (run f r (mkState (i + length pre) suf None)).
Proof.
  induction s as [|c s IH]; intros i y; simpl.
  - destruct (run f r _) as [|z l] eqn:R; [discriminate|].
    intros [= <-]. exists [], []. simpl. rewrite Nat.add_0_r, R.
    split; [reflexivity|now left].
  - destruct (run f r _) as [|z l] eqn:R.
    + intros H. apply IH in H. destruct H as (pre & suf & -> & H).
      exists (c :: pre), suf. simpl. rewrite Nat.add_succ_r.
      split; [reflexivity|exact H].
    + intros [= <-]. exists [], (c :: s). simpl. rewrite Nat.add_0_r, R.
      split; [reflexivity|now left].
Qed.

Lemma execFrom_finds (f : Flags) (r : Node) (pre suf : list ascii) :
  forall i, run f r (mkState (i + length pre) suf None) <> [] ->
  execFrom f r i (pre ++ suf) <> None.
Proof.
  induction pre as [|c pre IH]; intros i; simpl.
  - rewrite Nat.add_0_r. intros H.
    destruct suf as [|c s]; simpl;
      destruct (run f r _); congruence.
  - rewrite Nat.add_succ_r. intros H.
    destruct (run f r (mkState i (c :: pre ++ suf) None)); [|discriminate].
    now apply IH.
Qed.

Lemma exec_at (f : Flags) (r : Node) (t : list ascii) (y : State) :
  execFrom f r 0 t = Some y ->
  exists x, position t x /\ In y (run f r x).
Proof.
  intros H. apply execFrom_found in H. destruct H as (pre & suf & -> & H).
  eexists. split; [|exact H]. split; [reflexivity|].
  exists pre. now split.
Qed.

Lemma test_at (f : Flags) (r : Node) (t : list ascii) (x y : State) :
  position t x -> In y (run f r x) -> test f r t = true.
Proof.
  intros [C (pre & -> & I)] H. unfold test.
  destruct (execFrom f r 0 (pre ++ rest x)) eqn:Ex; [reflexivity|].
  exfalso. revert Ex. apply execFrom_finds. simpl.
  destruct x as [i s c]. simpl in *. subst. intros R. now rewrite R in H.
Qed.

(** ** What a matcher leaves behind *)

Lemma spans_any (ok : ascii -> bool) (x y : State) :
  spans ok x y -> spans (fun _ => true) x y.
Proof.
  intros (m & A & B & _). exists m. repeat split; [exact A|exact B|].
  apply Forall_forall. reflexivity.
Qed.

Lemma spans_clear (r : Node) (x y : State) :
  spans (fun _ => true) (clearCaps r x) y -> spans (fun _ => true) x y.
Proof.
  unfold clearCaps. now destruct (hasGroup r).
Qed.

Lemma run_spans (f : Flags) (r : Node) :
  forall x y, In y (run f r x) -> spans (fun _ => true) x y.
Proof.
  induction r as [|c|p| |a IHa b IHb|a IHa b IHb|a IHa|g a IHa|g a IHa|a IHa| |];
    simpl; intros x y.
  - intros [<-|[]]. apply spans_refl.
  - intros H. apply step1_spans in H. exact (spans_any (proj1 H)).
  - intros H. apply step1_spans in H. exact (spans_any (proj1 H)).
  - intros H. apply step1_spans in H. exact (spans_any (proj1 H)).
  - rewrite in_flat_map. intros (z & Hz & Hy).
    exact (spans_trans (IHa _ _ Hz) (IHb _ _ Hy)).
  - rewrite in_app_iff. intros [H|H]; [now apply IHa|now apply IHb].
  - rewrite in_app_iff, filter_In. intros [[H _]|[<-|[]]].
    + apply (spans_clear a). now apply IHa.
    + apply spans_refl.
  - apply repeat_spans. intros x' y' H. apply (spans_clear a). now apply IHa.
  - rewrite in_flat_map. intros (z & Hz & Hy).
    apply (spans_trans (y := z)).
    + apply (spans_clear a). now apply IHa.
    + revert Hy. apply repeat_spans. intros x' y' H.
      apply (spans_clear a). now apply IHa.
  - rewrite in_map_iff. intros (z & <- & Hz). apply IHa in Hz.
    destruct Hz as (m & A & B & C). exists m. now repeat split.
  - destruct (endIndex x =? 0); [|intros []]. intros [<-|[]].
    apply spans_refl.
  - destruct (rest x); [|intros []]. intros [<-|[]]. apply spans_refl.
Qed.

(** A piece without a group leads from a place of the text to a place of
    the text. *)
Lemma position_run (f : Flags) (r : Node) (t : list ascii) (x y : State) :
  hasGroup r = false -> position t x -> In y (run f r x) -> position t y.
Proof.
  intros G [C (pre & -> & I)] H. split.
  - rewrite (run_nogroup_cap f r G _ _ H). exact C.
  - apply run_spans in H. destruct H as (m & A & B & _).
    exists (pre ++ m). rewrite A, B, I, length_app, app_assoc. now split.
Qed.

Lemma run_seq_cons (f : Flags) (a : Node) (rs : list Node) (x y : State) :
  In y (run f (seqs (a :: rs)) x) <->
  exists z, In z (run f a x) /\ In y (run f (seqs rs) z).
Proof.
  simpl. apply in_flat_map.
Qed.

Lemma run_alt (f : Flags) (a b : Node) (x y : State) :
  In y (run f (Alt a b) x) <-> In y (run f a x) \/ In y (run f b x).
Proof.
  simpl. apply in_app_iff.
Qed.

Lemma run_opt (f : Flags) (a : Node) (x y : State) :
  In y (run f (Opt a) x) -> y = x \/ In y (run f a (clearCaps a x)).
Proof.
  simpl. rewrite in_app_iff, filter_In.
  intros [[H _]|[<-|[]]]; [now right|now left].
Qed.

Lemma repeat_self (m : State -> list State) (clear : State -> State)
  (g : bool) (n : nat) (x : State) : In x (repeat m clear g n x).
Proof.
  destruct n as [|n]; simpl; [now left|].
  destruct g; [|now left]. apply in_or_app. right. now left.
Qed.

(** Where "(.+?)" matches, ".+" matches. *)
Lemma run_plus_dot_any (f : Flags) (g g' : bool) (x y : State) :
  In y (run f (Plus g Dot) x) -> exists y', In y' (run f (Plus g' Dot) x).
Proof.
  simpl. rewrite in_flat_map. intros (z & Hz & _).
  exists z. apply in_flat_map. exists z. split; [exact Hz|].
  apply repeat_self.
Qed.

(** ** List marks *)

Lemma bullet_char (c : ascii) :
  (Ascii.eqb c "-" || Ascii.eqb c "*")%char = true ->
  c = "-"%char \/ c = "*"%char.
Proof.
  rewrite orb_true_iff, !Ascii.eqb_eq. tauto.
Qed.

(** Under the [i] flag too, the pattern character "*" matches only an
    asterisk. *)
Lemma star_char (c : ascii) :
  Ascii.eqb (canonicalize flags_i c) (canonicalize flags_i "*") = true ->
  c = "*"%char.
Proof.
  destruct c as [[] [] [] [] [] [] [] []]; vm_compute;
    intros H; try discriminate H; reflexivity.
Qed.

Lemma bullet_mark (f : Flags) (s : list ascii) (x y : State) :
  position s x -> In y (run f bullet x) -> hasListMark s.
Proof.
  intros [_ (pre & -> & _)]. unfold bullet. simpl. unfold step1.
  destruct (rest x) as [|c r]; [intros []|].
  destruct (Ascii.eqb c "-" || Ascii.eqb c "*")%char eqn:B; [|intros []].
  intros _. left. exists pre, c, r. split; [reflexivity|].
  now apply bullet_char.
Qed.

Lemma stars_mark (s : list ascii) (x y : State) :
  position s x -> In y (run flags_i (lit "**") x) -> hasListMark s.
Proof.
  intros [_ (pre & -> & _)]. unfold lit. simpl. rewrite in_flat_map.
  intros (z & Hz & _). unfold step1 in Hz.
  destruct (rest x) as [|c r]; [destruct Hz|].
  destruct (Ascii.eqb (canonicalize flags_i c) (canonicalize flags_i "*"))
    eqn:B; [|destruct Hz].
  apply star_char in B. subst c.
  left. exists pre, "*"%char, r. split; [reflexivity|now right].
Qed.

Lemma run_plus_class (f : Flags) (g : bool) (p : ascii -> bool)
  (x y : State) :
  In y (run f (Plus g (Class p)) x) ->
  exists c m, rest x = c :: m ++ rest y /\
              Forall (fun ch => p ch = true) (c :: m).
Proof.
  simpl. rewrite in_flat_map. intros (z & Hz & Hy).
  change (clearCaps (Class p) x) with x in Hz.
  assert (S1 : exists c, rest x = c :: rest z /\ p c = true).
  { unfold step1 in Hz. destruct (rest x) as [|c r]; [destruct Hz|].
    destruct (p c) eqn:P; [|destruct Hz]. destruct Hz as [<-|[]].
    simpl. eauto. }
  destruct S1 as (c & Rx & Pc).
  assert (S2 : spans p z y).
  { revert Hy. apply repeat_spans. intros x' y' H.
    change (clearCaps (Class p) x') with x' in H.
    now apply step1_spans in H. }
  destruct S2 as (m & A & _ & C).
  exists c, m. rewrite Rx, A. split; [reflexivity|]. now constructor.
Qed.

Lemma digits_dot_mark (f : Flags) (s : list ascii) (x z y : State) :
  position s x ->
  In z (run f (Plus true digit) x) ->
  In y (run flags_none (Char ".") z) ->
  hasListMark s.
Proof.
  intros [_ (pre & -> & _)] Hz Hy.
  apply run_plus_class in Hz. destruct Hz as (c & m & Rx & Fd).
  simpl in Hy. unfold step1 in Hy.
  destruct (rest z) as [|c' r]; [destruct Hy|].
  destruct (Ascii.eqb (canonicalize flags_none c')
              (canonicalize flags_none ".")) eqn:D; [|destruct Hy].
  change (Ascii.eqb c' "."%char = true) in D.
  apply Ascii.eqb_eq in D. subst c'.
  destruct (@exists_last _ (c :: m)) as (m' & d & Hl); [discriminate|].
  rewrite Hl in Fd. apply Forall_app in Fd. destruct Fd as [_ Fd].
  inversion Fd as [|? ? Hd _]; subst.
  right. exists (pre ++ m'), d, r. split; [|exact Hd].
  rewrite Rx. change (c :: m ++ "."%char :: r) with ((c :: m) ++ "."%char :: r).
  rewrite Hl, <- !app_assoc. reflexivity.
Qed.

Lemma mark_test (t : list ascii) :
  hasListMark t -> test flags_none listMarkAnywhereRe t = true.
Proof.
  intros [(u & c & v & -> & Hc)|(u & c & v & -> & Hc)].
  - apply (@test_at flags_none listMarkAnywhereRe _
             (mkState (length u) (c :: v) None)
             (mkState (S (length u)) v None)).
    + split; [reflexivity|]. exists u. now split.
    + unfold listMarkAnywhereRe. apply run_alt. right.
      unfold bullet. simpl. unfold step1. simpl.
      destruct Hc as [-> | ->]; simpl; now left.
  - apply (@test_at flags_none listMarkAnywhereRe _
             (mkState (length u) (c :: "."%char :: v) None)
             (mkState (S (S (length u))) v None)).
    + split; [reflexivity|]. exists u. now split.
    + unfold listMarkAnywhereRe. apply run_alt. left.
      simpl. apply in_flat_map.
      exists (mkState (S (length u)) ("."%char :: v) None). split.
      * apply in_flat_map.
        exists (mkState (S (length u)) ("."%char :: v) None). split.
        -- unfold step1. simpl. rewrite Hc. now left.
        -- apply repeat_self.
      * unfold step1. simpl. now left.
Qed.

(** ** Parts of a text *)

Lemma infix_refl (a : list ascii) : infix a a.
Proof. exists [], []. simpl. now rewrite app_nil_r. Qed.

Lemma infix_trans (a b c : list ascii) : infix a b -> infix b c -> infix a c.
Proof.
  intros (u & v & ->) (u' & v' & ->). exists (u' ++ u), (v ++ v').
  now rewrite <- !app_assoc.
Qed.

Lemma infix_mark (a b : list ascii) :
  infix a b -> hasListMark a -> hasListMark b.
Proof.
  intros (u & v & ->) [(u' & c & v' & -> & Hc)|(u' & c & v' & -> & Hc)].
  - left. exists (u ++ u'), c, (v' ++ v). split; [|exact Hc].
    now rewrite <- !app_assoc.
  - right. exists (u ++ u'), c, (v' ++ v). split; [|exact Hc].
    now rewrite <- !app_assoc.
Qed.

Lemma trimStart_suffix (s : list ascii) : exists u, s = u ++ trimStart s.
Proof.
  induction s as [|c s (u & IH)]; simpl; [now exists []|].
  destruct (isWhiteSpace c).
  - exists (c :: u). simpl. now rewrite <- IH.
  - now exists [].
Qed.

Lemma infix_trim (s : list ascii) : infix (trim s) s.
Proof.
  unfold trim, trimEnd.
  destruct (trimStart_suffix s) as (u & Hu).
  destruct (trimStart_suffix (rev (trimStart s))) as (w & Hw).
  exists u, (rev w).
  rewrite <- rev_app_distr, <- Hw, rev_involutive. exact Hu.
Qed.

Lemma split_head (s : list ascii) :
  exists l ls v, split s = l :: ls /\ s = l ++ v.
Proof.
  induction s as [|c s (l & ls & v & IH & Hs)]; simpl.
  - now exists [], [], [].
  - destruct (Ascii.eqb c newline).
    + exists [], (split s), (c :: s). now split.
    + rewrite IH. exists (c :: l), ls, v. simpl. now rewrite <- Hs.
Qed.

Lemma infix_split (s p : list ascii) : In p (split s) -> infix p s.
Proof.
  revert p. induction s as [|c s IH]; intros p; simpl.
  - intros [<-|[]]. apply infix_refl.
  - assert (Tail : In p (split s) -> infix p (c :: s)).
    { intros H. apply IH in H. destruct H as (u & v & Hs).
      exists (c :: u), v. simpl. now rewrite <- Hs. }
    destruct (Ascii.eqb c newline).
    + intros [<-|H]; [|now apply Tail]. exists [], (c :: s). reflexivity.
    + destruct (split_head s) as (l & ls & v & Hl & Hs). rewrite Hl.
      intros [<-|H].
      * exists [], v. simpl. now rewrite <- Hs.
      * apply Tail. rewrite Hl. now right.
Qed.

(** What a pattern that ends in a group captures is a part of the
    text. *)
Lemma infix_capture (f : Flags) (pre : list Node) (a : Node)
  (t c : list ascii) :
  hasGroup (seqs pre) = false ->
  exec f (seqs (pre ++ [Group a])) t = Some (Some c) ->
  infix c t.
Proof.
  intros G. unfold exec.
  destruct (execFrom f _ 0 t) as [y|] eqn:Ex; [|discriminate].
  intros [= Hc]. apply exec_at in Ex. destruct Ex as (x & Px & Hy).
  rewrite run_seqs_app, in_flat_map in Hy. destruct Hy as (z & Hz & Hy).
  rewrite run_seqs_one in Hy.
  apply (@position_run f (seqs pre) _ _ _ G Px) in Hz.
  destruct Hz as [_ (u & -> & _)].
  simpl in Hy. rewrite in_map_iff in Hy. destruct Hy as (y0 & <- & _).
  simpl in Hc. injection Hc as <-.
  exists u, (skipn (endIndex y0 - endIndex z) (rest z)).
  now rewrite firstn_skipn.
Qed.

(** ** The steps and the goal title the extractor reads *)

Lemma listLine_mark (line : list ascii) :
  isListLine line = true -> hasListMark line.
Proof.
  unfold isListLine, test. rewrite orb_true_iff. intros [H|H].
  - destruct (execFrom flags_none numberedRe 0 line) as [y|] eqn:Ex;
      [|discriminate].
    apply exec_at in Ex. destruct Ex as (x & Px & Hy).
    unfold numberedRe, numberedMark in Hy. simpl app in Hy.
    apply run_seq_cons in Hy. destruct Hy as (x0 & H0 & Hy).
    assert (x0 = x) as ->.
    { simpl in H0. destruct (endIndex x =? 0); [|destruct H0].
      now destruct H0 as [<-|[]]. }
    apply run_seq_cons in Hy. destruct Hy as (x1 & H1 & Hy).
    apply run_seq_cons in Hy. destruct Hy as (x2 & H2 & _).
    exact (@digits_dot_mark flags_none line x x1 x2 Px H1 H2).
  - destruct (execFrom flags_none bulletedRe 0 line) as [y|] eqn:Ex;
      [|discriminate].
    apply exec_at in Ex. destruct Ex as (x & Px & Hy).
    unfold bulletedRe, bulletedMark in Hy. simpl app in Hy.
    apply run_seq_cons in Hy. destruct Hy as (x0 & H0 & Hy).
    assert (x0 = x) as ->.
    { simpl in H0. destruct (endIndex x =? 0); [|destruct H0].
      now destruct H0 as [<-|[]]. }
    apply run_seq_cons in Hy. destruct Hy as (x1 & H1 & _).
    exact (@bullet_mark flags_none line x x1 Px H1).
Qed.

Lemma stepLines_mark (goal : list ascii) (desc : option (list ascii))
  (stepsText : list ascii) :
  Filtered.stepLines goal desc stepsText <> [] -> hasListMark stepsText.
Proof.
  unfold Filtered.stepLines. intros H.
  destruct (filter _ _) as [|t l] eqn:Fl in H; [congruence|].
  assert (Ht : In t (t :: l)) by now left.
  rewrite <- Fl in Ht. apply filter_In in Ht. destruct Ht as [Ht _].
  apply filter_In in Ht. destruct Ht as [Ht _].
  apply in_map_iff in Ht. destruct Ht as (line & _ & Hl).
  apply filter_In in Hl. destruct Hl as [Hl Hm].
  apply in_map_iff in Hl. destruct Hl as (p & <- & Hp).
  apply listLine_mark in Hm.
  apply (infix_mark (infix_trans (infix_trim p) (infix_split _ _ Hp)) Hm).
Qed.

(** Where the steps pattern of the filtering component matches, the text
    holds the word the button looks for. *)
Lemma stepsSection_word (t : list ascii) :
  exec flags_is Filtered.stepsSectionRe t <> None ->
  test flags_i planWordRe t = true.
Proof.
  unfold exec.
  destruct (execFrom flags_is _ 0 t) as [y|] eqn:Ex; [|congruence].
  intros _. apply exec_at in Ex. destruct Ex as (x & Px & Hy).
  unfold Filtered.stepsSectionRe, stepsLabel in Hy. simpl app in Hy.
  apply run_seq_cons in Hy. destruct Hy as (x1 & H1 & Hy).
  apply run_seq_cons in Hy. destruct Hy as (x2 & H2 & Hy).
  apply run_seq_cons in Hy. destruct Hy as (x3 & H3 & _).
  apply (@position_run flags_is stars _ _ _ eq_refl Px) in H1.
  apply (@position_run flags_is daily _ _ _ eq_refl H1) in H2.
  apply (@test_at flags_i planWordRe t x2 x3 H2).
  unfold planWordRe. apply run_alt. right. apply run_alt. right.
  apply run_alt. now left.
Qed.

(** Where the goal pattern matches, the button's patterns match. *)
Lemma goalRe_shown (t : list ascii) :
  exec flags_i goalRe t <> None ->
  test flags_i planWordRe t = true /\
  (hasListMark t \/ test flags_i goalLineRe t = true).
Proof.
  unfold exec.
  destruct (execFrom flags_i goalRe 0 t) as [y|] eqn:Ex; [|congruence].
  intros _. apply exec_at in Ex. destruct Ex as (x & Px & Hy).
  unfold goalRe in Hy.
  apply run_seq_cons in Hy. destruct Hy as (x1 & H1 & Hy).
  apply run_seq_cons in Hy. destruct Hy as (x2 & H2 & Hy).
  apply run_seq_cons in Hy. destruct Hy as (x3 & H3 & Hy).
  apply run_seq_cons in Hy. destruct Hy as (x4 & H4 & Hy).
  apply run_seq_cons in Hy. destruct Hy as (x5 & H5 & Hy).
  apply run_seq_cons in Hy. destruct Hy as (x6 & H6 & _).
  pose proof (@position_run flags_i stars _ _ _ eq_refl Px H1) as P1.
  pose proof (@position_run flags_i (lit "Goal") _ _ _ eq_refl P1 H2) as P2.
  split.
  - apply (@test_at flags_i planWordRe t x1 x2 P1).
    unfold planWordRe. apply run_alt. now left.
  - apply run_opt in H1. destruct H1 as [->|H1];
      [|left; exact (@stars_mark t x x1 Px H1)].
    apply run_opt in H3. destruct H3 as [->|H3];
      [|left; exact (@stars_mark t x2 x3 P2 H3)].
    right.
    simpl in H6. rewrite in_map_iff in H6. destruct H6 as (z & _ & H6).
    destruct (@run_plus_dot_any flags_i false true x5 z H6) as (y' & Hy').
    apply (@test_at flags_i goalLineRe t x y' Px).
    unfold goalLineRe.
    apply run_seq_cons. exists x4. split.
    + change (lit "Goal:") with (seqs (map Char (chars "Goal") ++ [Char ":"])).
      rewrite run_seqs_app. apply in_flat_map. exists x2.
      split; [exact H2|]. rewrite run_seqs_one. exact H4.
    + apply run_seq_cons. exists x5. split; [exact H5|].
      rewrite run_seqs_one. exact Hy'.
Qed.

Lemma surviving_shown (t : list ascii) :
  Filtered.surviving t <> [] ->
  test flags_i planWordRe t = true /\ hasListMark t.
Proof.
  unfold Filtered.surviving.
  destruct (exec flags_is Filtered.stepsSectionRe t) as [[c|]|] eqn:Ex;
    try congruence.
  intros H. split.
  - apply stepsSection_word. congruence.
  - apply stepLines_mark in H. revert H. apply infix_mark.
    apply (@infix_capture flags_is stepsLabel (Plus true Dot) t c eq_refl Ex).
Qed.

End ButtonFacts.

Import JsString JsRegExp PlanText Shape Components.

(** X25.  For a message of the assistant, [MessagePlanAction] shows the
    button whenever the plan the filtering [PlanActionButton] extracts
    from the text has a goal title other than the default "New Goal" or
    steps other than the default step: no goal title and no step this
    component can read is left without its button. *)
Theorem button_shown_for_every_plan (messageText : string) (p : Plan) :
  extractorOf true messageText = Some p ->
  goalTitle p <> "New Goal"%string \/ steps p <> defaultSteps ->
  MessagePlanAction "assistant" messageText = true.
Proof.
  simpl. rewrite ExtractFacts.filtered_result. intros [= <-].
  unfold MessagePlanAction, hasPlanContent. simpl negb. cbv iota.
  intros [H|H].
  - assert (G : exec flags_i goalRe (chars messageText) <> None).
    { intros N. apply H. simpl. unfold goalTitleOf. now rewrite N. }
    apply ButtonFacts.goalRe_shown in G. destruct G as [W [M|L]].
    + now rewrite W, (ButtonFacts.mark_test M).
    + rewrite W, L. now rewrite orb_true_r.
  - assert (S : Filtered.surviving (chars messageText) <> []).
    { intros N. apply H. simpl. now rewrite N. }
    apply ButtonFacts.surviving_shown in S. destruct S as [W M].
    now rewrite W, (ButtonFacts.mark_test M).
Qed.

Lemma button_shown_for_every_plan_witness :
  MessagePlanAction "assistant" Cases.guitarText = true.
Proof.
  assert (X : extractorOf true Cases.guitarText =
              Some (mkPlan "Learn guitar" None
                      [mkPlanStep "Buy a guitar"; mkPlanStep "Practice daily"]))
    by (vm_compute; reflexivity).
  apply (button_shown_for_every_plan Cases.guitarText X).
  left. discriminate.
Defined.

(** The component that falls back to every list line of the text reads
    steps from messages that get no button: the text below has a list
    line and none of the words the button looks for. *)
Lemma button_hidden_from_fallback :
  extractorOf false "1. Run" =
    Some (mkPlan "New Goal" None [mkPlanStep "Run"]) /\
  MessagePlanAction "assistant" "1. Run" = false.
Proof.
  split; vm_compute; reflexivity.
Qed.

(** Nor does the button tell that there is a plan: the text below gets
    the button, and the plan extracted from it is the default one. *)
Lemma button_shown_without_plan :
  MessagePlanAction "assistant" "I plan to rest - for now" = true /\
  extractorOf true "I plan to rest - for now" =
    Some (mkPlan "New Goal" None defaultSteps).
Proof.
  split; vm_compute; reflexivity.
Qed.
